(** * MSV filter: a shallow embedding of the scoring stub and its data structures

    The development follows the C++ sources:
    - [include/hmmer_types.hpp]  constants and the [DigitalResidue] type,
    - [src/aa_alphabet.cpp], [include/aa_alphabet.hpp]  the amino-acid alphabet,
    - [include/profile.hpp]  the profile and its match-score accessor,
    - [include/dp_matrix.hpp]  the dynamic-programming matrix,
    - [include/mock_data.hpp]  the builders of the mock data and [print_sequence],
    - [tests/test_vectors.hpp]  the builders of the test vectors,
    - [tests/stub_msv.cpp]  [compute_msv].

    Conventions.
    - A C++ [int] is a [Z].  The sizes that the constructors and the builders
      compute, and the index [(row * K) + col] of the degeneracy matrix, are
      [int] expressions whose value is checked to be an [int] ([c_int]): a
      signed overflow is undefined behaviour.  On a matrix that the
      constructor built, every index a call computes is at most a size that
      the constructor computed as an [int], so no [int] operation overflows
      on a call that stays within its buffers.
    - A [float] is an IEEE-754 binary32 value: a [spec_float] with precision 24
      and maximal exponent 128.  Sums are rounded to binary32 at each
      operation (as with [FLT_EVAL_METHOD] 0), comparisons are those of
      IEEE-754: every comparison with a NaN is false.
    - A [std::vector] is a [list], read and written through [vget] and [vset],
      which return [None] where the C++ access is out of range and the
      behaviour undefined.
    - [DigitalResidue] ([uint8_t]) is a [byte].
    - A constructor or a builder has an [outcome]: it returns a value, it
      throws (a vector asked for a negative size throws [std::length_error]),
      or its behaviour is undefined.  Memory is not bounded: an allocation
      fails only when it is asked for a negative size.  [DPMatrix.new] and
      [HMMProfile.new] are the values the constructors return, when they
      return.
    - [compute_msv] runs in a state-and-error monad over the two buffers the
      call can reach: [Some (r, w)] is a call that returns [r] and leaves the
      buffers as [w], [None] a call with no defined behaviour. *)

From Stdlib Require Import ZArith Bool Lia String Ascii Strings.Byte SpecFloat DecimalString.
From stdpp Require Import base list option.

Local Open Scope Z_scope.

(** ** Vectors *)

Definition vget {A : Type} (v : list A) (i : Z) : option A :=
  if i <? 0 then None else v !! Z.to_nat i.

Definition vset {A : Type} (v : list A) (i : Z) (x : A) : option (list A) :=
  if (0 <=? i) && (i <? Z.of_nat (length v)) then Some (<[Z.to_nat i := x]> v)
  else None.

(** [v.resize(n, x)]: a negative [int] converted to [size_t] is beyond
    [max_size()], and the call throws. *)
Definition vresize {A : Type} (n : Z) (x : A) (v : list A) : option (list A) :=
  if n <? 0 then None else Some (resize (Z.to_nat n) x v).

(** [for (j = lo; j < hi; j++) s = body(j, s)] over fallible bodies. *)
Fixpoint opt_for_aux {S : Type} (n : nat) (j : Z) (body : Z -> S -> option S) (s : S)
  : option S :=
  match n with
  | O => Some s
  | Datatypes.S n' => s' ← body j s; opt_for_aux n' (j + 1) body s'
  end.

Definition opt_for {S : Type} (lo hi : Z) (body : Z -> S -> option S) (s : S) : option S :=
  opt_for_aux (Z.to_nat (hi - lo)) lo body s.

(** [a % b] on [int]: the remainder of the division that truncates towards
    zero; the behaviour is undefined for a zero divisor. *)
Definition c_rem (a b : Z) : option Z :=
  if b =? 0 then None else Some (Z.rem a b).

(** ** [int] *)

Definition INT_MAX : Z := 2147483647.
Definition INT_MIN : Z := -2147483648.

(** The value of an [int] expression: it has one when the result is
    representable, and the behaviour is undefined otherwise. *)
Definition c_int (z : Z) : option Z :=
  if (INT_MIN <=? z) && (z <=? INT_MAX) then Some z else None.

(** ** What a constructor or a builder does

    It returns a value, it throws ([std::length_error], from a vector asked
    for a negative size), or its behaviour is undefined (an access out of
    range, an [int] operation that overflows, a division by zero). *)

Inductive outcome (A : Type) : Type :=
| Returns (a : A)
| Throws
| Undefined.
Arguments Returns {A} a.
Arguments Throws {A}.
Arguments Undefined {A}.

Definition outcome_bind {A B : Type} (f : A -> outcome B) (o : outcome A) : outcome B :=
  match o with
  | Returns a => f a
  | Throws => Throws
  | Undefined => Undefined
  end.

#[global] Instance outcome_mbind : MBind outcome := @outcome_bind.

(** The value of a call that returns. *)
Definition returned {A : Type} (o : outcome A) : option A :=
  match o with
  | Returns a => Some a
  | _ => None
  end.

(** An access or an operation with undefined behaviour where it has no
    value: [vget], [vset], [c_int], [c_rem] and the accessors. *)
Definition defined {A : Type} (o : option A) : outcome A :=
  match o with
  | Some a => Returns a
  | None => Undefined
  end.

(** An allocation, which throws where it has no value: [vresize]. *)
Definition allocated {A : Type} (o : option A) : outcome A :=
  match o with
  | Some a => Returns a
  | None => Throws
  end.

(** [for (j = lo; j < hi; j++) s = body(j, s)] over bodies that can throw. *)
Fixpoint out_for_aux {S : Type} (n : nat) (j : Z) (body : Z -> S -> outcome S) (s : S)
  : outcome S :=
  match n with
  | O => Returns s
  | Datatypes.S n' => s' ← body j s; out_for_aux n' (j + 1) body s'
  end.

Definition out_for {S : Type} (lo hi : Z) (body : Z -> S -> outcome S) (s : S) : outcome S :=
  out_for_aux (Z.to_nat (hi - lo)) lo body s.

(** ** binary32 *)

Module F32.
Definition float := spec_float.
Definition prec : Z := 24.
Definition emax : Z := 128.

Definition add : float -> float -> float := SFadd prec emax.
Definition mul : float -> float -> float := SFmul prec emax.
Definition div : float -> float -> float := SFdiv prec emax.
Definition opp : float -> float := SFopp.
Definition ltb : float -> float -> bool := SFltb.
Definition leb : float -> float -> bool := SFleb.
Definition valid : float -> bool := valid_binary prec emax.

Definition zero : float := S754_zero false.
Definition infinity : float := S754_infinity false.
Definition nan : float := S754_nan.

(** Conversion of an [int] constant, rounded to nearest. *)
Definition of_Z (z : Z) : float := binary_normalize prec emax z 0 false.

(** [std::max(a, b)] is [(a < b) ? b : a]. *)
Definition max (a b : float) : float := if ltb a b then b else a.
End F32.

Abbreviation float := F32.float.

(** ** hmmer_types.hpp *)

Definition DigitalResidue := byte.

Definition residue_code (r : DigitalResidue) : Z := Z.of_N (Byte.to_N r).

(** The conversion of an [int] to [DigitalResidue]: the value modulo 256. *)
Definition residue_of_int (z : Z) : DigitalResidue :=
  default Byte.x00 (Byte.of_N (Z.to_N (z mod 256))).

Definition digitalResidueSentinel : DigitalResidue := Byte.xff.
Definition digitalResidueIllegal : DigitalResidue := Byte.xfe.
Definition eslINFINITY : float := F32.infinity.

Definition p7P_NTRANS : Z := 7.
Definition p7P_NR : Z := 2.
Definition p7P_NXSTATES : Z := 5.
Definition p7P_NXTRANS : Z := 2.
Definition p7_NEVPARAM : Z := 6.
Definition p7_NCUTOFFS : Z := 6.
Definition p7_MAXABET : Z := 20.
Definition p7P_MSC : Z := 0.
Definition p7P_ISC : Z := 1.
Definition p7G_NXCELLS : Z := 5.
Definition p7G_M : Z := 0.
Definition p7G_I : Z := 1.
Definition p7G_D : Z := 2.
Definition p7G_NSCELLS : Z := 3.

(** ** aa_alphabet.hpp, aa_alphabet.cpp *)

Definition eslNONSTANDARD : Z := 0.

(** [(int)c] for a [char] (signed on the targets the repository builds for). *)
Definition int_of_char (c : ascii) : Z :=
  let n := Z.of_N (N_of_ascii c) in if n <? 128 then n else n - 256.

Module AminoAcidAlphabet.
Record t := mk {
  K : Z;
  Kp : Z;
  type : Z;
  sym : string;
  inmap : list Z;
  ndegen : list Z;
  degen : list Z
}.

Definition with_inmap (a : t) (v : list Z) : t :=
  mk (K a) (Kp a) (type a) (sym a) v (ndegen a) (degen a).
Definition with_ndegen (a : t) (v : list Z) : t :=
  mk (K a) (Kp a) (type a) (sym a) (inmap a) v (degen a).
Definition with_degen (a : t) (v : list Z) : t :=
  mk (K a) (Kp a) (type a) (sym a) (inmap a) (ndegen a) v.

(** The index [(row * K) + col], an [int] expression. *)
Definition degen_index (a : t) (row col : Z) : option Z :=
  rk ← c_int (row * K a); c_int (rk + col).

(** [set_degen(row, col, val)]: the parameter [val] is a [uint8_t], so that
    an [int] argument is reduced modulo 256 when the call is made. *)
Definition set_degen (a : t) (row col val : Z) : option t :=
  idx ← degen_index a row col;
  d ← vset (degen a) idx (val mod 256); Some (with_degen a d).

Definition get_degen (a : t) (row col : Z) : option Z :=
  idx ← degen_index a row col; vget (degen a) idx.

(** [sym[x]] *)
Definition sym_at (a : t) (x : Z) : option ascii :=
  if x <? 0 then None else String.get (Z.to_nat x) (sym a).

Definition alphabet_str : string := "ACDEFGHIKLMNPQRSTVWY-BJZOUX*~".

(** The constructor [AminoAcidAlphabet::AminoAcidAlphabet()]. *)
Definition new : option t :=
  let K := 20 in
  let Kp := 29 in
  inmap0 ← vresize 128 (residue_code digitalResidueIllegal) [];
  ndegen0 ← vresize Kp 0 [];
  degen0 ← vresize (Kp * K) 0 [];
  let a := mk K Kp eslNONSTANDARD alphabet_str inmap0 ndegen0 degen0 in
  a ← opt_for 0 Kp (fun x a =>
         c ← sym_at a x;
         v ← vset (inmap a) (int_of_char c) x;
         Some (with_inmap a v)) a;
  a ← opt_for 0 K (fun x a =>
         v ← vset (ndegen a) x 1;
         set_degen (with_ndegen a v) x x 1) a;
  let any_idx := Kp - 3 in
  v ← vset (ndegen a) any_idx K;
  let a := with_ndegen a v in
  opt_for 0 K (fun y a => set_degen a any_idx y 1) a.
End AminoAcidAlphabet.

(** ** profile.hpp *)

Module HMMProfile.
Record t := mk {
  tsc : list float;
  rsc : list (list float);
  xsc : list (list float);
  mode : Z;
  sequence_length : Z;
  allocM : Z;
  model_length : Z;
  max_length : Z;
  nj : float;
  evparam : list float;
  cutoff : list float;
  compo : list float;
  abc : AminoAcidAlphabet.t;
  name : string
}.

Definition with_rsc (p : t) (v : list (list float)) : t :=
  mk (tsc p) v (xsc p) (mode p) (sequence_length p) (allocM p) (model_length p)
     (max_length p) (nj p) (evparam p) (cutoff p) (compo p) (abc p) (name p).
Definition with_model_length (p : t) (m : Z) : t :=
  mk (tsc p) (rsc p) (xsc p) (mode p) (sequence_length p) (allocM p) m
     (max_length p) (nj p) (evparam p) (cutoff p) (compo p) (abc p) (name p).
Definition with_max_length (p : t) (m : Z) : t :=
  mk (tsc p) (rsc p) (xsc p) (mode p) (sequence_length p) (allocM p) (model_length p)
     m (nj p) (evparam p) (cutoff p) (compo p) (abc p) (name p).
Definition with_name (p : t) (s : string) : t :=
  mk (tsc p) (rsc p) (xsc p) (mode p) (sequence_length p) (allocM p) (model_length p)
     (max_length p) (nj p) (evparam p) (cutoff p) (compo p) (abc p) s.

(** The constructor [HMMProfile(model_length, alphabet)].  The sizes
    [allocM * p7P_NTRANS] and [(allocM + 1) * p7P_NR] are [int] expressions. *)
Definition construct (model_length : Z) (alphabet : AminoAcidAlphabet.t) : outcome t :=
  let allocM := model_length in
  let Kp := AminoAcidAlphabet.Kp alphabet in
  ntsc ← defined (c_int (allocM * p7P_NTRANS));
  tsc0 ← allocated (vresize ntsc (F32.opp eslINFINITY) []);
  width ← defined (a1 ← c_int (allocM + 1); c_int (a1 * p7P_NR));
  rsc0 ← allocated (vresize Kp [] []);
  rsc1 ← out_for 0 Kp (fun x rsc =>
            row ← defined (vget rsc x);
            row' ← allocated (vresize width (F32.opp eslINFINITY) row);
            defined (vset rsc x row')) rsc0;
  gap_idx ← defined (vget (AminoAcidAlphabet.inmap alphabet) (int_of_char "-"%char));
  rsc2 ← (if gap_idx <? Kp then
            row ← defined (vget rsc1 gap_idx);
            defined (vset rsc1 gap_idx (replicate (length row) (F32.opp eslINFINITY)))
          else Returns rsc1);
  Returns (mk tsc0 rsc2
             (replicate (Z.to_nat p7P_NXSTATES) (replicate (Z.to_nat p7P_NXTRANS) F32.zero))
             0 0 allocM 0 (-1) F32.zero
             (replicate (Z.to_nat p7_NEVPARAM) F32.zero)
             (replicate (Z.to_nat p7_NCUTOFFS) F32.zero)
             (replicate (Z.to_nat p7_MAXABET) F32.zero)
             alphabet EmptyString).

(** The profile the constructor returns, when it returns. *)
Definition new (model_length : Z) (alphabet : AminoAcidAlphabet.t) : option t :=
  returned (construct model_length alphabet).

(** [p7P_MSC(gm, k, x)]: the read accessor [match_score(k, residue_idx) const]. *)
Definition match_score (p : t) (k residue_idx : Z) : option float :=
  row ← vget (rsc p) residue_idx; vget row (k * p7P_NR + p7P_MSC).

(** The write through the reference accessor: [match_score(k, x) = v]. *)
Definition set_match_score (p : t) (k residue_idx : Z) (v : float) : option t :=
  row ← vget (rsc p) residue_idx;
  row' ← vset row (k * p7P_NR + p7P_MSC) v;
  rsc' ← vset (rsc p) residue_idx row';
  Some (with_rsc p rsc').

(** [p7P_ISC(gm, k, x)] *)
Definition insert_score (p : t) (k residue_idx : Z) : option float :=
  row ← vget (rsc p) residue_idx; vget row (k * p7P_NR + p7P_ISC).

Definition trans (p : t) (k state_idx : Z) : option float :=
  vget (tsc p) (k * p7P_NTRANS + state_idx).

(** The writes through the reference accessors [insert_score(k, x) = v] and
    [trans(k, s) = v]. *)
Definition set_insert_score (p : t) (k residue_idx : Z) (v : float) : option t :=
  row ← vget (rsc p) residue_idx;
  row' ← vset row (k * p7P_NR + p7P_ISC) v;
  rsc' ← vset (rsc p) residue_idx row';
  Some (with_rsc p rsc').

Definition with_tsc (p : t) (v : list float) : t :=
  mk v (rsc p) (xsc p) (mode p) (sequence_length p) (allocM p) (model_length p)
     (max_length p) (nj p) (evparam p) (cutoff p) (compo p) (abc p) (name p).

Definition set_trans (p : t) (k state_idx : Z) (v : float) : option t :=
  tsc' ← vset (tsc p) (k * p7P_NTRANS + state_idx) v;
  Some (with_tsc p tsc').
End HMMProfile.

(** ** dp_matrix.hpp *)

Module DPMatrix.
Record t := mk {
  model_length : Z;
  sequence_length : Z;
  allocR : Z;
  validR : Z;
  allocW : Z;
  dp : list (list float);
  xmx : list float
}.

Definition with_dp (m : t) (v : list (list float)) : t :=
  mk (model_length m) (sequence_length m) (allocR m) (validR m) (allocW m) v (xmx m).

(** The constructor [DPMatrix(max_model_length, max_sequence_length)].  The
    member initializers and the sizes [sequence_length + 1],
    [(model_length + 1) * p7G_NSCELLS] and
    [(sequence_length + 1) * p7G_NXCELLS] are [int] expressions. *)
Definition construct (max_model_length max_sequence_length : Z) : outcome t :=
  let model_length := max_model_length in
  let sequence_length := max_sequence_length in
  allocR ← defined (c_int (max_sequence_length + 1));
  validR ← defined (c_int (max_sequence_length + 1));
  allocW ← defined (c_int (max_model_length + 1));
  rows ← defined (c_int (sequence_length + 1));
  dp0 ← allocated (vresize rows [] []);
  dp1 ← out_for 0 (sequence_length + 1) (fun i dp =>
           row ← defined (vget dp i);
           width ← defined (m1 ← c_int (model_length + 1); c_int (m1 * p7G_NSCELLS));
           row' ← allocated (vresize width (F32.opp eslINFINITY) row);
           defined (vset dp i row')) dp0;
  cells ← defined (r1 ← c_int (sequence_length + 1); c_int (r1 * p7G_NXCELLS));
  xmx1 ← allocated (vresize cells (F32.opp eslINFINITY) []);
  Returns (mk model_length sequence_length allocR validR allocW dp1 xmx1).

(** The matrix the constructor returns, when it returns. *)
Definition new (max_model_length max_sequence_length : Z) : option t :=
  returned (construct max_model_length max_sequence_length).

(** [dp[i][k * p7G_NSCELLS + s]] *)
Definition cell (m : t) (i j : Z) : option float :=
  row ← vget (dp m) i; vget row j.

Definition set_cell (m : t) (i j : Z) (v : float) : option t :=
  row ← vget (dp m) i;
  row' ← vset row j v;
  dp' ← vset (dp m) i row';
  Some (with_dp m dp').

(** [MMX(i,k)], read and written. *)
Definition match_ (m : t) (i k : Z) : option float :=
  cell m i (k * p7G_NSCELLS + p7G_M).
Definition set_match (m : t) (i k : Z) (v : float) : option t :=
  set_cell m i (k * p7G_NSCELLS + p7G_M) v.

(** [IMX(i,k)], [DMX(i,k)], [XMX(i,s)]. *)
Definition insert (m : t) (i k : Z) : option float :=
  cell m i (k * p7G_NSCELLS + p7G_I).
Definition delete_state (m : t) (i k : Z) : option float :=
  cell m i (k * p7G_NSCELLS + p7G_D).
Definition special (m : t) (i s : Z) : option float :=
  vget (xmx m) (i * p7G_NXCELLS + s).

(** The writes through the reference accessors [insert(i, k) = v],
    [delete_state(i, k) = v] and [special(i, s) = v]. *)
Definition set_insert (m : t) (i k : Z) (v : float) : option t :=
  set_cell m i (k * p7G_NSCELLS + p7G_I) v.
Definition set_delete_state (m : t) (i k : Z) (v : float) : option t :=
  set_cell m i (k * p7G_NSCELLS + p7G_D) v.

Definition with_xmx (m : t) (v : list float) : t :=
  mk (model_length m) (sequence_length m) (allocR m) (validR m) (allocW m) (dp m) v.

Definition set_special (m : t) (i s : Z) (v : float) : option t :=
  xmx' ← vset (xmx m) (i * p7G_NXCELLS + s) v;
  Some (with_xmx m xmx').
End DPMatrix.

(** ** mock_data.hpp *)

Module MockDataGenerator.
(** [create_constant_profile(model_length, abc, score)] *)
Definition create_constant_profile (model_length : Z) (abc : AminoAcidAlphabet.t)
    (score : float) : outcome HMMProfile.t :=
  profile ← HMMProfile.construct model_length abc;
  let profile := HMMProfile.with_model_length profile model_length in
  let profile := HMMProfile.with_name profile "constant_model" in
  let profile := HMMProfile.with_max_length profile 100 in
  out_for 1 (model_length + 1) (fun k profile =>
    out_for 0 (AminoAcidAlphabet.K abc) (fun x profile =>
      defined (HMMProfile.set_match_score profile k x score)) profile) profile.

(** [create_dp_matrix(model_length, sequence_length)] *)
Definition create_dp_matrix (model_length sequence_length : Z) : outcome DPMatrix.t :=
  DPMatrix.construct model_length sequence_length.

(** [create_simple_sequence(sequence_length, abc)]: the vector is constructed
    with [sequence_length + 2] zero bytes, an [int] expression; the
    constructor throws for a negative size. *)
Definition create_simple_sequence (sequence_length : Z) (abc : AminoAcidAlphabet.t)
    : outcome (list DigitalResidue) :=
  size ← defined (c_int (sequence_length + 2));
  digital_sequence ← allocated (vresize size Byte.x00 []);
  digital_sequence ← defined (vset digital_sequence 0 digitalResidueSentinel);
  last ← defined (c_int (sequence_length + 1));
  digital_sequence ← defined (vset digital_sequence last digitalResidueSentinel);
  out_for 1 (sequence_length + 1) (fun i digital_sequence =>
    r ← defined (c_rem (i - 1) (AminoAcidAlphabet.K abc));
    defined (vset digital_sequence i (residue_of_int r))) digital_sequence.

(** [create_pattern_profile(model_length, abc)] *)
Definition create_pattern_profile (model_length : Z) (abc : AminoAcidAlphabet.t)
    : outcome HMMProfile.t :=
  profile ← HMMProfile.construct model_length abc;
  let profile := HMMProfile.with_model_length profile model_length in
  let profile := HMMProfile.with_name profile "pattern_model" in
  let profile := HMMProfile.with_max_length profile 100 in
  out_for 1 (model_length + 1) (fun k profile =>
    preferred ← defined (c_rem (k - 1) (AminoAcidAlphabet.K abc));
    out_for 0 (AminoAcidAlphabet.K abc) (fun x profile =>
      if x =? preferred then
        defined (HMMProfile.set_match_score profile k x (F32.of_Z 2))
      else
        defined (HMMProfile.set_match_score profile k x (F32.opp (F32.of_Z 1))))
      profile) profile.

(** [create_constant_test] and [create_pattern_test]: what the calls leave
    in their four reference parameters. *)
Definition create_constant_test (abc : AminoAcidAlphabet.t)
    : outcome (list DigitalResidue * Z * HMMProfile.t * DPMatrix.t) :=
  let sequence_length := 20 in
  let model_length := 10 in
  digital_sequence ← create_simple_sequence sequence_length abc;
  profile ← create_constant_profile model_length abc (F32.of_Z 1);
  dp_matrix ← create_dp_matrix model_length sequence_length;
  Returns (digital_sequence, sequence_length, profile, dp_matrix).

Definition create_pattern_test (abc : AminoAcidAlphabet.t)
    : outcome (list DigitalResidue * Z * HMMProfile.t * DPMatrix.t) :=
  let sequence_length := 15 in
  let model_length := 10 in
  digital_sequence ← create_simple_sequence sequence_length abc;
  profile ← create_pattern_profile model_length abc;
  dp_matrix ← create_dp_matrix model_length sequence_length;
  Returns (digital_sequence, sequence_length, profile, dp_matrix).

(** [std::cout << n] for an [int]: its decimal digits, with a minus sign
    when it is negative. *)
Definition cout_int (n : Z) : string := NilZero.string_of_int (Z.to_int n).

(** [print_sequence(digital_sequence, sequence_length, abc)]: the characters
    the call writes to [std::cout], the last one being the line feed of
    [std::endl].  [sym[n]] at the length of the string is the null
    character. *)
Definition print_sequence (digital_sequence : list DigitalResidue) (sequence_length : Z)
    (abc : AminoAcidAlphabet.t) : option string :=
  let out := ("Digital Sequence (length " ++ cout_int sequence_length ++ "): ")%string in
  out ← opt_for 1 (sequence_length + 1) (fun i out =>
    r ← vget digital_sequence i;
    let residue := residue_code r in
    if residue <? AminoAcidAlphabet.K abc then
      c ← (if residue =? Z.of_nat (String.length (AminoAcidAlphabet.sym abc))
           then Some Ascii.zero
           else AminoAcidAlphabet.sym_at abc residue);
      Some (out ++ String c EmptyString)%string
    else
      Some (out ++ "?")%string) out;
  Some (out ++ String "010"%char EmptyString)%string.
End MockDataGenerator.

(** ** stub_msv.cpp *)

(** The memory a call to [compute_msv] can reach through its pointer and
    reference arguments: the sequence buffer and the matrix.  The profile is
    passed by [const] reference and is a plain argument. *)
Record world := mkWorld {
  digital_sequence : list DigitalResidue;
  dp_matrix : DPMatrix.t
}.

(** State and undefined behaviour: a computation either yields a value and the
    next world, or has no defined result. *)
Definition Comp (A : Type) : Type := world -> option (A * world).

Definition ret {A : Type} (a : A) : Comp A := fun w => Some (a, w).

Definition bind {A B : Type} (c : Comp A) (k : A -> Comp B) : Comp B :=
  fun w => match c w with
           | Some (a, w') => k a w'
           | None => None
           end.

Notation "'do' x <- c ; k" := (bind c (fun x => k))
  (at level 10, x name, c at level 100, k at level 200).
Notation "'do' '_' <- c ; k" := (bind c (fun _ => k))
  (at level 10, c at level 100, k at level 200).

(** A read that involves no shared state, such as a lookup in the profile. *)
Definition lift {A : Type} (o : option A) : Comp A :=
  fun w => match o with Some a => Some (a, w) | None => None end.

(** [digital_sequence[i]] *)
Definition read_sequence (i : Z) : Comp DigitalResidue :=
  fun w => match vget (digital_sequence w) i with
           | Some r => Some (r, w)
           | None => None
           end.

(** [dp_matrix.match(i, k)] as an rvalue. *)
Definition read_match (i k : Z) : Comp float :=
  fun w => match DPMatrix.match_ (dp_matrix w) i k with
           | Some v => Some (v, w)
           | None => None
           end.

(** [dp_matrix.match(i, k) = v] *)
Definition write_match (i k : Z) (v : float) : Comp unit :=
  fun w => match DPMatrix.set_match (dp_matrix w) i k v with
           | Some m => Some (tt, mkWorld (digital_sequence w) m)
           | None => None
           end.

(** [for (j = lo; j <= hi; j++) s = body(j, s)], [s] standing for the local
    variables the body updates. *)
Fixpoint for_loop_aux {S : Type} (n : nat) (j : Z) (body : Z -> S -> Comp S) (s : S) : Comp S :=
  match n with
  | O => ret s
  | Datatypes.S n' => do s' <- body j s; for_loop_aux n' (j + 1) body s'
  end.

Definition for_loop {S : Type} (lo hi : Z) (body : Z -> S -> Comp S) (s : S) : Comp S :=
  for_loop_aux (Z.to_nat (hi + 1 - lo)) lo body s.

(** The body of the inner loop for a canonical residue: one cell of the
    recurrence, and the running maximum. *)
Definition msv_cell (profile : HMMProfile.t) (i : Z) (residue : DigitalResidue)
    (k : Z) (max_score : float) : Comp float :=
  do match_score <- lift (HMMProfile.match_score profile k (residue_code residue));
  let start_new := match_score in
  do prev <- read_match (i - 1) (k - 1);
  let extend_prev := F32.add prev match_score in
  let dp_value := F32.max start_new extend_prev in
  let dp_value := F32.max F32.zero dp_value in
  do _ <- write_match i k dp_value;
  ret (if F32.ltb max_score dp_value then dp_value else max_score).

(** The body of the outer loop: one row. *)
Definition msv_row (profile : HMMProfile.t) (i : Z) (max_score : float) : Comp float :=
  let M := HMMProfile.model_length profile in
  do residue <- read_sequence i;
  if 20 <=? residue_code residue then
    do _ <- for_loop 1 M (fun k _ => write_match i k F32.zero) tt;
    ret max_score
  else
    for_loop 1 M (msv_cell profile i residue) max_score.

(** [compute_msv(digital_sequence, sequence_length, profile, dp_matrix,
    expected_hit_count)]: the sequence buffer and the matrix are in the
    world. *)
Definition compute_msv (sequence_length : Z) (profile : HMMProfile.t)
    (expected_hit_count : float) : Comp float :=
  if (sequence_length <=? 0) || (HMMProfile.model_length profile <=? 0) then
    ret F32.zero
  else
    let M := HMMProfile.model_length profile in
    let L := sequence_length in
    do _ <- for_loop 0 M (fun k _ => write_match 0 k F32.zero) tt;
    let max_score := F32.zero in
    do max_score <- for_loop 1 L (msv_row profile) max_score;
    ret max_score.

(** *** Test fixtures, as the test suite builds them *)

(** [create_digital_sequence(residues)] of tests/test_vectors.hpp. *)
Definition create_digital_sequence (residues : list DigitalResidue) : list DigitalResidue :=
  digitalResidueSentinel :: residues ++ [digitalResidueSentinel].

(** The profile builders of tests/test_vectors.hpp. *)
Module msv_test.
(** [create_constant_score_profile(model_length, match_score, abc)] *)
Definition create_constant_score_profile (model_length : Z) (match_score : float)
    (abc : AminoAcidAlphabet.t) : outcome HMMProfile.t :=
  profile ← HMMProfile.construct model_length abc;
  let profile := HMMProfile.with_model_length profile model_length in
  let profile := HMMProfile.with_name profile "constant_score_model" in
  let profile := HMMProfile.with_max_length profile 100 in
  out_for 1 (model_length + 1) (fun k profile =>
    out_for 0 (AminoAcidAlphabet.K abc) (fun x profile =>
      defined (HMMProfile.set_match_score profile k x match_score)) profile) profile.

(** [create_alternating_pattern_profile(model_length, match_score,
    mismatch_score, abc)] *)
Definition create_alternating_pattern_profile (model_length : Z)
    (match_score mismatch_score : float) (abc : AminoAcidAlphabet.t)
    : outcome HMMProfile.t :=
  profile ← HMMProfile.construct model_length abc;
  let profile := HMMProfile.with_model_length profile model_length in
  let profile := HMMProfile.with_name profile "alternating_pattern_model" in
  let profile := HMMProfile.with_max_length profile 100 in
  out_for 1 (model_length + 1) (fun k profile =>
    preferred_residue ← defined (c_rem (k - 1) (AminoAcidAlphabet.K abc));
    out_for 0 (AminoAcidAlphabet.K abc) (fun x profile =>
      if x =? preferred_residue then
        defined (HMMProfile.set_match_score profile k x match_score)
      else
        defined (HMMProfile.set_match_score profile k x mismatch_score)) profile) profile.

End msv_test.

(** ** The recurrence as a function of the call's inputs

    [DP i k] is the value that row [i] of the match plane holds at model
    position [k] once the call has processed that row, written from the
    profile, the sequence buffer and the matrix the call starts from. *)

(** One cell: [max(0, max(match_score, prev + match_score))]. *)
Definition cell_value (match_score prev : float) : float :=
  F32.max F32.zero (F32.max match_score (F32.add prev match_score)).

(** The update of the running maximum. *)
Definition upd_max (max_score dp_value : float) : float :=
  if F32.ltb max_score dp_value then dp_value else max_score.

Section Recurrence.
Variable profile : HMMProfile.t.
Variable w0 : world.

(** The inputs as total functions: the match score, the residue code at a
    position, and column 0 of the matrix the call starts from.  Where a lookup
    has no value a default stands for it; a call that returns has made no
    such lookup. *)
Definition mu (k r : Z) : float :=
  default F32.nan (HMMProfile.match_score profile k r).

Definition res (i : Z) : Z :=
  residue_code (default digitalResidueSentinel (vget (digital_sequence w0) i)).

Definition col0 (i : Z) : float :=
  default F32.nan (DPMatrix.match_ (dp_matrix w0) i 0).

(** Row 0 is zero; column 0 of the other rows is what the matrix held; a row
    for a residue from 20 on is zero; any other cell follows the
    recurrence. *)
Fixpoint DP (i : nat) (k : Z) : float :=
  match i with
  | O => F32.zero
  | S i' =>
      if k <=? 0 then col0 (Z.of_nat i)
      else if 20 <=? res (Z.of_nat i) then F32.zero
      else cell_value (mu k (res (Z.of_nat i))) (DP i' (k - 1))
  end.

(** The running maximum after the first [n] cells of row [i]. *)
Fixpoint row_max (i : nat) (n : nat) (max_score : float) : float :=
  match n with
  | O => max_score
  | S n' => upd_max (row_max i n' max_score) (DP i (Z.of_nat n))
  end.

(** The running maximum after the first [n] rows. *)
Fixpoint score_upto (n : nat) : float :=
  match n with
  | O => F32.zero
  | S n' =>
      if 20 <=? res (Z.of_nat n) then score_upto n'
      else row_max n (Z.to_nat (HMMProfile.model_length profile)) (score_upto n')
  end.

(** The cells the call writes: row 0 at [k] in [0, M], rows [1..L] at [k] in
    [1, M]. *)
Definition written (L : Z) (i k : Z) : Prop :=
  (i = 0 /\ 0 <= k <= HMMProfile.model_length profile) \/
  (1 <= i <= L /\ 1 <= k <= HMMProfile.model_length profile).
End Recurrence.

(** What a call needs to stay within its buffers: the sequence has positions
    [1..L], the profile a match score for every canonical residue at every
    model position, the matrix a match cell at every [(i, k)] of the grid. *)
Record call_ok (L : Z) (profile : HMMProfile.t) (w : world) : Prop := {
  ok_sequence : forall i, 1 <= i <= L -> is_Some (vget (digital_sequence w) i);
  ok_profile : forall k r, 1 <= k <= HMMProfile.model_length profile -> 0 <= r < 20 ->
      is_Some (HMMProfile.match_score profile k r);
  ok_matrix : forall i k, 0 <= i <= L -> 0 <= k <= HMMProfile.model_length profile ->
      is_Some (DPMatrix.match_ (dp_matrix w) i k)
}.

(** The world once the match cells in [W] hold the values [val] and nothing
    else has changed since [w0]. *)
Definition mat_is (w0 : world) (W : Z -> Z -> Prop) (val : Z -> Z -> float)
    (w : world) : Prop :=
  digital_sequence w = digital_sequence w0 /\
  DPMatrix.xmx (dp_matrix w) = DPMatrix.xmx (dp_matrix w0) /\
  (forall i k, W i k -> DPMatrix.match_ (dp_matrix w) i k = Some (val i k)) /\
  (forall i j, (forall k, W i k -> j <> k * p7G_NSCELLS + p7G_M) ->
     DPMatrix.cell (dp_matrix w) i j = DPMatrix.cell (dp_matrix w0) i j).

(** Rows [0 .. i-1] are complete. *)
Definition rows_done (profile : HMMProfile.t) (i : Z) (i' k' : Z) : Prop :=
  (i' = 0 /\ 0 <= k' <= HMMProfile.model_length profile) \/
  (1 <= i' < i /\ 1 <= k' <= HMMProfile.model_length profile).

(** Rows [0 .. i-1] are complete and row [i] is written up to [k-1]. *)
Definition row_part (profile : HMMProfile.t) (i k : Z) (i' k' : Z) : Prop :=
  rows_done profile i i' k' \/ (i' = i /\ 1 <= k' < k).

(** A score that is not below zero; in particular not a NaN. *)
Definition nonneg (x : float) : Prop := F32.leb F32.zero x = true.



(** ** Concrete inputs *)

#[global] Instance spec_float_eq_dec : EqDecision spec_float.
Proof. solve_decision. Defined.

#[global] Instance ascii_eq_dec : EqDecision ascii := ascii_dec.

Definition empty_alphabet : AminoAcidAlphabet.t :=
  AminoAcidAlphabet.mk 0 0 0 EmptyString [] [] [].

Definition empty_profile : HMMProfile.t :=
  HMMProfile.mk [] [] [] 0 0 0 0 0 F32.zero [] [] [] empty_alphabet EmptyString.

Definition empty_matrix : DPMatrix.t := DPMatrix.mk 0 0 0 0 0 [] [].

(** The alphabet, a constant profile and a fresh matrix, as the constructors
    return them. *)
Definition test_alphabet : AminoAcidAlphabet.t :=
  default empty_alphabet AminoAcidAlphabet.new.

Definition constant_profile (model_length : Z) (score : float) : HMMProfile.t :=
  default empty_profile
    (returned (MockDataGenerator.create_constant_profile model_length test_alphabet score)).

Definition fresh_matrix (model_length sequence_length : Z) : DPMatrix.t :=
  default empty_matrix (DPMatrix.new model_length sequence_length).

Definition fresh_world (model_length : Z) (residues : list DigitalResidue) : world :=
  mkWorld (create_digital_sequence residues)
          (fresh_matrix model_length (Z.of_nat (length residues))).

(** Residue codes used by the tests. *)
Definition RES_A : DigitalResidue := Byte.x00.
Definition RES_C : DigitalResidue := Byte.x01.
Definition RES_D : DigitalResidue := Byte.x02.
Definition RES_E : DigitalResidue := Byte.x03.
Definition RES_F : DigitalResidue := Byte.x04.
Definition RES_G : DigitalResidue := Byte.x05.
Definition RES_H : DigitalResidue := Byte.x06.
(** The wildcard [X], index [Kp - 3]. *)
Definition RES_X : DigitalResidue := Byte.x1a.

(** [0.1f], the binary32 value nearest to one tenth. *)
Definition tenth : float := F32.div (F32.of_Z 1) (F32.of_Z 10).

(** Bounded quantification, decided by evaluation. *)
Definition all_in (lo hi : Z) (P : Z -> bool) : bool :=
  forallb P (seqZ lo (hi - lo)).

Definition any_in (lo hi : Z) (P : Z -> bool) : bool :=
  existsb P (seqZ lo (hi - lo)).

(** The tables of an alphabet, read as checks over the index ranges. *)
Definition canonical_rows_ok (a : AminoAcidAlphabet.t) : bool :=
  all_in 0 20 (fun x =>
    bool_decide (vget (AminoAcidAlphabet.ndegen a) x = Some 1) &&
    bool_decide (AminoAcidAlphabet.get_degen a x x = Some 1) &&
    all_in 0 20 (fun y =>
      (y =? x) || bool_decide (AminoAcidAlphabet.get_degen a x y = Some 0)) &&
    match AminoAcidAlphabet.sym_at a x with
    | Some c => bool_decide (vget (AminoAcidAlphabet.inmap a) (int_of_char c) = Some x)
    | None => false
    end).

Definition wildcard_row_ok (a : AminoAcidAlphabet.t) : bool :=
  bool_decide (AminoAcidAlphabet.sym_at a 26 = Some "X"%char) &&
  bool_decide (vget (AminoAcidAlphabet.ndegen a) 26 = Some 20) &&
  all_in 0 20 (fun y => bool_decide (AminoAcidAlphabet.get_degen a 26 y = Some 1)).

Definition other_rows_ok (a : AminoAcidAlphabet.t) : bool :=
  all_in 20 29 (fun x =>
    (x =? 26) ||
    (bool_decide (vget (AminoAcidAlphabet.ndegen a) x = Some 0) &&
     all_in 0 20 (fun y => bool_decide (AminoAcidAlphabet.get_degen a x y = Some 0)))).

(** Whether the character code [c] is one of the symbols. *)
Definition is_symbol (a : AminoAcidAlphabet.t) (c : Z) : bool :=
  any_in 0 29 (fun x =>
    match AminoAcidAlphabet.sym_at a x with
    | Some ch => int_of_char ch =? c
    | None => false
    end).

Definition unmapped_ok (a : AminoAcidAlphabet.t) : bool :=
  all_in 0 128 (fun c =>
    is_symbol a c ||
    bool_decide (vget (AminoAcidAlphabet.inmap a) c =
                 Some (residue_code digitalResidueIllegal))).

(** Whether every match score of the canonical residues at positions
    [1..M] is [c]. *)
Definition constant_scoresb (profile : HMMProfile.t) (M : Z) (c : float) : bool :=
  all_in 1 (M + 1) (fun k =>
    all_in 0 20 (fun x => bool_decide (HMMProfile.match_score profile k x = Some c))).



(** Whether the residues at [1..L] are canonical. *)
Definition canonicalb (seq : list DigitalResidue) (L : Z) : bool :=
  all_in 1 (L + 1) (fun i =>
    match vget seq i with
    | Some r => residue_code r <? 20
    | None => false
    end).

(** Whether every match score of the canonical residues at positions [1..M]
    is there and is a valid binary32 value. *)
Definition valid_scoresb (profile : HMMProfile.t) (M : Z) : bool :=
  all_in 1 (M + 1) (fun k =>
    all_in 0 20 (fun x =>
      match HMMProfile.match_score profile k x with
      | Some u => F32.valid u
      | None => false
      end)).

(** The constant profile of ones with the score of [C] at position 2 raised
    to two. *)
Definition raised_profile : HMMProfile.t :=
  default empty_profile
    (HMMProfile.set_match_score (constant_profile 3 (F32.of_Z 1)) 2 1 (F32.of_Z 2)).


(** ** binary32 arithmetic, read on the integers

    Every finite binary32 value is an integer multiple of [2^-149].  [sval]
    gives a value in that unit, with [2^277] (that is [2^128]) standing for
    infinity; [round32] is rounding to nearest, ties to even, of a positive
    integer in that unit. *)

Definition sval (x : float) : Z :=
  match x with
  | S754_zero _ => 0
  | S754_finite s m e => cond_Zopp s (Z.pos m * 2 ^ (e + 149))
  | S754_infinity s => cond_Zopp s (2 ^ 277)
  | S754_nan => 0
  end.

Definition is_nan (x : float) : bool :=
  match x with S754_nan => true | _ => false end.

Definition is_finite (x : float) : bool :=
  match x with S754_zero _ | S754_finite _ _ _ => true | _ => false end.

(** What a cell holds after [max(0, .)]: [+0], a positive finite value, or
    [+inf]. *)
Definition good (x : float) : bool :=
  match x with
  | S754_zero false => true
  | S754_finite false m e => bounded F32.prec F32.emax m e
  | S754_infinity false => true
  | _ => false
  end.

(** [q + r / 2^n] rounded to an integer, to nearest, ties to even. *)
Definition rne (q r n : Z) : Z :=
  let h := 2 ^ (n - 1) in
  if r <? h then q
  else if h <? r then q + 1
  else if Z.even q then q else q + 1.

(** The integer that [N > 0] rounds to, before overflow is looked at. *)
Definition rint (N : Z) : Z :=
  let d := Z.log2 N + 1 in
  if d <=? 24 then N
  else let n := d - 24 in rne (N / 2 ^ n) (N mod 2 ^ n) n * 2 ^ n.

Definition round32 (s : bool) (N : Z) : float :=
  let d := Z.log2 N + 1 in
  if d <=? 24 then S754_finite s (Z.to_pos N) (-149)
  else
    let n := d - 24 in
    let q := rne (N / 2 ^ n) (N mod 2 ^ n) n in
    if q =? 2 ^ 24 then
      if n + 1 <=? 253 then S754_finite s (Z.to_pos (2 ^ 23)) (n + 1 - 149)
      else S754_infinity s
    else
      if n <=? 253 then S754_finite s (Z.to_pos q) (n - 149)
      else S754_infinity s.

(** The running sum [c + c + ... + c] of [n] terms, left to right, each
    addition rounded. *)
Fixpoint iter_sum (c : float) (n : nat) : float :=
  match n with
  | O => F32.zero
  | S n' => F32.add (iter_sum c n') c
  end.

(** The binary32 value [z * 2^j], rounded if need be. *)
Definition dyadic (z j : Z) : float := binary_normalize F32.prec F32.emax z j false.

(** The order in which one match score is another, or an increase of it. *)
Definition score_le (m m' : float) : Prop := m = m' \/ F32.ltb m m' = true.

(** The order on what two runs hold in the same cell: both negative infinity
    (column 0 of a fresh matrix), or two values of cells with the first no
    greater than the second. *)
Definition cell_le (a a' : float) : Prop :=
  (a = F32.opp eslINFINITY /\ a' = F32.opp eslINFINITY) \/
  (good a = true /\ good a' = true /\ sval a <= sval a').

(** A comparison of two integers, reduced to the order it states. *)
Ltac solve_cmp :=
  match goal with
  | |- (_ ?= _) = Lt => apply Z.compare_lt_iff
  | |- (_ ?= _) = Gt => apply Z.compare_gt_iff
  | |- (_ ?= _) = Eq => apply Z.compare_eq_iff
  end.

(** ** What the builders leave in a profile *)

(** [rsc[x][j]] *)
Definition score_cell (p : HMMProfile.t) (x j : Z) : option float :=
  row ← vget (HMMProfile.rsc p) x; vget row j.

(** The profile once the match scores in [W] hold the values [val] and
    nothing else has changed since [p0]. *)
Definition scores_are (p0 : HMMProfile.t) (W : Z -> Z -> Prop) (val : Z -> Z -> float)
    (p : HMMProfile.t) : Prop :=
  HMMProfile.with_rsc p (HMMProfile.rsc p0) = p0 /\
  (forall k x, W k x -> HMMProfile.match_score p k x = Some (val k x)) /\
  (forall x j, (forall k, W k x -> j <> k * p7P_NR + p7P_MSC) ->
     score_cell p x j = score_cell p0 x j).

(** The score [create_pattern_profile] and
    [create_alternating_pattern_profile] give position [k] for residue [x]. *)
Definition pattern_score (match_score mismatch_score : float) (k x : Z) : float :=
  if x =? (k - 1) mod 20 then match_score else mismatch_score.


(** What a builder leaves in a profile of [M] positions when it gives position
    [k] and canonical residue [x] the match score [score k x]: the model
    length is set, the match scores of the positions [1..M] and the residues
    below 20 are filled in, every other allocated score (position 0, the
    residues from 20 on, the insert scores, the transitions) is still negative
    infinity, and nothing is allocated beyond. *)
Definition profile_table (M : Z) (score : Z -> Z -> float) (p : HMMProfile.t) : Prop :=
  HMMProfile.model_length p = M /\
  (forall k x, HMMProfile.match_score p k x =
     if decide (0 <= k <= M /\ 0 <= x < 29) then
       Some (if decide (1 <= k /\ x < 20) then score k x else F32.opp eslINFINITY)
     else None) /\
  (forall k x, HMMProfile.insert_score p k x =
     if decide (0 <= k <= M /\ 0 <= x < 29) then Some (F32.opp eslINFINITY) else None) /\
  (forall k s, 0 <= s < p7P_NTRANS ->
     HMMProfile.trans p k s =
       if decide (0 <= k < M) then Some (F32.opp eslINFINITY) else None).

(** ** What a call needs and what it reads *)

(** Two worlds with the same sequence buffer and matrices with cells at the
    same places. *)
Definition same_shape (w1 w2 : world) : Prop :=
  digital_sequence w2 = digital_sequence w1 /\
  forall i j, is_Some (DPMatrix.cell (dp_matrix w2) i j) <->
              is_Some (DPMatrix.cell (dp_matrix w1) i j).

(** What a call with positive lengths reads and writes: the sequence at
    [1..L], the match scores of the canonical residues that occur there, and
    the match cells of the grid [0..L] x [0..M]. *)
Record call_needs (L : Z) (profile : HMMProfile.t) (w : world) : Prop := {
  needs_sequence : forall i, 1 <= i <= L -> is_Some (vget (digital_sequence w) i);
  needs_profile : forall i k r, 1 <= i <= L -> 1 <= k <= HMMProfile.model_length profile ->
      vget (digital_sequence w) i = Some r -> residue_code r < 20 ->
      is_Some (HMMProfile.match_score profile k (residue_code r));
  needs_matrix : forall i k, 0 <= i <= L -> 0 <= k <= HMMProfile.model_length profile ->
      is_Some (DPMatrix.match_ (dp_matrix w) i k)
}.

(** The values a call reads are binary32 values: the match scores of the
    canonical residues at the positions [1..M], and column 0 of the matrix at
    the rows [1..L]. *)
Definition binary32_inputs (L : Z) (profile : HMMProfile.t) (w : world) : Prop :=
  (forall k r u, 1 <= k <= HMMProfile.model_length profile -> 0 <= r < 20 ->
     HMMProfile.match_score profile k r = Some u -> F32.valid u = true) /\
  (forall i v, 1 <= i <= L ->
     DPMatrix.match_ (dp_matrix w) i 0 = Some v -> F32.valid v = true).

(** ** The tables of the alphabet *)

(** The number of canonical residues that row [x] of the degeneracy matrix
    marks. *)
Definition degen_count (a : AminoAcidAlphabet.t) (x : Z) : Z :=
  foldr Z.add 0 ((fun y => default 0 (AminoAcidAlphabet.get_degen a x y)) <$> seqZ 0 20).

(** The tables of an alphabet agree with one another: [inmap] sends the
    symbol of every index back to the index, every character code that is
    mapped is the symbol of its index, and [ndegen] counts the marks of each
    row of [degen]. *)
Definition symbols_mapped (a : AminoAcidAlphabet.t) : bool :=
  all_in 0 29 (fun x =>
    match AminoAcidAlphabet.sym_at a x with
    | Some c => bool_decide (vget (AminoAcidAlphabet.inmap a) (int_of_char c) = Some x)
    | None => false
    end).

Definition codes_mapped (a : AminoAcidAlphabet.t) : bool :=
  all_in 0 128 (fun c =>
    match vget (AminoAcidAlphabet.inmap a) c with
    | Some x =>
        (x =? residue_code digitalResidueIllegal) ||
        ((0 <=? x) && (x <? 29) &&
         match AminoAcidAlphabet.sym_at a x with
         | Some ch => int_of_char ch =? c
         | None => false
         end)
    | None => false
    end).

Definition degen_counted (a : AminoAcidAlphabet.t) : bool :=
  all_in 0 29 (fun x =>
    bool_decide (vget (AminoAcidAlphabet.ndegen a) x = Some (degen_count a x))).

(** The character [print_sequence] shows for a residue: its symbol when it
    is canonical, a question mark otherwise. *)
Definition shown_symbol (abc : AminoAcidAlphabet.t) (r : DigitalResidue) : option ascii :=
  if residue_code r <? AminoAcidAlphabet.K abc then
    if residue_code r =? Z.of_nat (String.length (AminoAcidAlphabet.sym abc))
    then Some Ascii.zero
    else AminoAcidAlphabet.sym_at abc (residue_code r)
  else Some "?"%char.

(** Whether [inmap] sends what is shown for a residue code back to the code
    when it is canonical, and to the illegal marker otherwise. *)
Definition shown_decodes (a : AminoAcidAlphabet.t) : bool :=
  all_in 0 256 (fun x =>
    match shown_symbol a (residue_of_int x) with
    | Some c =>
        bool_decide (vget (AminoAcidAlphabet.inmap a) (int_of_char c) =
                     Some (if x <? 20 then x else residue_code digitalResidueIllegal))
    | None => false
    end).

(** ** More concrete inputs *)

(** A constant profile of ones with three positions, and a fresh world for
    the residues [A], [C], [D]. *)
Definition profile_of_ones : HMMProfile.t := constant_profile 3 (F32.of_Z 1).

Definition world_ACD : world := fresh_world 3 [RES_A; RES_C; RES_D].

(** A profile of two positions with no score table at all. *)
Definition bare_profile : HMMProfile.t := HMMProfile.with_model_length empty_profile 2.


(** * Vectors and the matrix accessors *)

Lemma vget_Some {A : Type} (v : list A) (i : Z) (x : A) :
  vget v i = Some x <-> 0 <= i /\ v !! Z.to_nat i = Some x.
Proof.
  unfold vget. destruct (Z.ltb_spec i 0); split.
  - discriminate.
  - intros [? _]. lia.
  - auto.
  - intros [_ ?]. assumption.
Qed.

Lemma vget_is_Some {A : Type} (v : list A) (i : Z) :
  is_Some (vget v i) <-> 0 <= i < Z.of_nat (length v).
Proof.
  unfold vget. destruct (Z.ltb_spec i 0).
  - split; [intros [x ?]; discriminate | lia].
  - rewrite lookup_lt_is_Some. lia.
Qed.

Lemma vset_Some {A : Type} (v v' : list A) (i : Z) (x : A) :
  vset v i x = Some v' ->
  0 <= i < Z.of_nat (length v) /\ v' = <[Z.to_nat i := x]> v.
Proof.
  unfold vset. destruct (Z.leb_spec 0 i), (Z.ltb_spec i (Z.of_nat (length v)));
    simpl; intros Heq; inversion Heq; auto.
Qed.

Lemma vset_is_Some {A : Type} (v : list A) (i : Z) (x : A) :
  is_Some (vget v i) -> is_Some (vset v i x).
Proof.
  rewrite vget_is_Some. intros Hi. unfold vset.
  destruct (Z.leb_spec 0 i), (Z.ltb_spec i (Z.of_nat (length v))); simpl; eauto; lia.
Qed.

Lemma vget_vset {A : Type} (v v' : list A) (i j : Z) (x : A) :
  vset v i x = Some v' ->
  vget v' j = if decide (j = i) then Some x else vget v j.
Proof.
  intros H. apply vset_Some in H as [Hi ->]. unfold vget.
  destruct (Z.ltb_spec j 0).
  - destruct (decide (j = i)); [lia | reflexivity].
  - destruct (decide (j = i)) as [-> | Hne].
    + apply list_lookup_insert_eq. lia.
    + apply list_lookup_insert_ne. lia.
Qed.


Lemma set_cell_cell (m m' : DPMatrix.t) (i j : Z) (v : float) :
  DPMatrix.set_cell m i j v = Some m' ->
  forall i' j', DPMatrix.cell m' i' j' =
    if decide (i' = i /\ j' = j) then Some v else DPMatrix.cell m i' j'.
Proof.
  unfold DPMatrix.set_cell, DPMatrix.cell. intros H i' j'.
  destruct (vget (DPMatrix.dp m) i) as [row |] eqn:Hrow; simpl in H; [| discriminate].
  destruct (vset row j v) as [row' |] eqn:Hrow'; simpl in H; [| discriminate].
  destruct (vset (DPMatrix.dp m) i row') as [dp' |] eqn:Hdp; simpl in H; [| discriminate].
  inversion H; subst m'; clear H. simpl.
  rewrite (vget_vset _ _ _ i' _ Hdp).
  destruct (decide (i' = i)) as [-> | Hi]; simpl.
  - rewrite Hrow; simpl. rewrite (vget_vset _ _ _ j' _ Hrow').
    destruct (decide (j' = j)) as [-> | Hj].
    + rewrite decide_True by auto. reflexivity.
    + rewrite decide_False by tauto. reflexivity.
  - rewrite decide_False by tauto. reflexivity.
Qed.

Lemma set_cell_frame (m m' : DPMatrix.t) (i j : Z) (v : float) :
  DPMatrix.set_cell m i j v = Some m' ->
  DPMatrix.xmx m' = DPMatrix.xmx m /\
  DPMatrix.model_length m' = DPMatrix.model_length m /\
  DPMatrix.sequence_length m' = DPMatrix.sequence_length m /\
  DPMatrix.allocR m' = DPMatrix.allocR m /\
  DPMatrix.validR m' = DPMatrix.validR m /\
  DPMatrix.allocW m' = DPMatrix.allocW m.
Proof.
  unfold DPMatrix.set_cell. intros H.
  destruct (vget (DPMatrix.dp m) i) as [row |]; simpl in H; [| discriminate].
  destruct (vset row j v) as [row' |]; simpl in H; [| discriminate].
  destruct (vset (DPMatrix.dp m) i row') as [dp' |]; simpl in H; [| discriminate].
  inversion H; subst m'. simpl. tauto.
Qed.

Lemma set_cell_is_Some (m : DPMatrix.t) (i j : Z) (v : float) :
  is_Some (DPMatrix.cell m i j) -> is_Some (DPMatrix.set_cell m i j v).
Proof.
  unfold DPMatrix.set_cell, DPMatrix.cell. intros [x Hx].
  destruct (vget (DPMatrix.dp m) i) as [row |] eqn:Hrow; simpl in *; [| discriminate].
  destruct (vset_is_Some row j v) as [row' Hrow']; [eauto |].
  rewrite Hrow'. simpl.
  destruct (vset_is_Some (DPMatrix.dp m) i row') as [dp' Hdp']; [eauto |].
  rewrite Hdp'. simpl. eauto.
Qed.

Lemma set_cell_Some_cell (m m' : DPMatrix.t) (i j : Z) (v : float) :
  DPMatrix.set_cell m i j v = Some m' -> is_Some (DPMatrix.cell m i j).
Proof.
  unfold DPMatrix.set_cell, DPMatrix.cell. intros H.
  destruct (vget (DPMatrix.dp m) i) as [row |]; simpl in *; [| discriminate].
  destruct (vset row j v) as [row' |] eqn:Hrow'; simpl in H; [| discriminate].
  apply vset_Some in Hrow' as [Hj _]. apply vget_is_Some. exact Hj.
Qed.

(** * The monad and its loops *)

Lemma bind_Some {A B : Type} (c : Comp A) (k : A -> Comp B) (w : world) (r : B * world) :
  bind c k w = Some r <-> exists a w1, c w = Some (a, w1) /\ k a w1 = Some r.
Proof.
  unfold bind. destruct (c w) as [[a w1] |]; split.
  - intros H. exists a, w1. auto.
  - intros (a' & w1' & Heq & H). inversion Heq; subst. assumption.
  - discriminate.
  - intros (a' & w1' & Heq & _). discriminate.
Qed.

Lemma ret_Some {A : Type} (a : A) (w : world) (r : A * world) :
  ret a w = Some r <-> r = (a, w).
Proof. unfold ret. split; intros H; [inversion H | subst]; reflexivity. Qed.

Lemma lift_Some {A : Type} (o : option A) (w : world) (a : A) (w' : world) :
  lift o w = Some (a, w') <-> o = Some a /\ w' = w.
Proof.
  unfold lift. destruct o; split; intros H.
  - inversion H; auto.
  - destruct H as [H ->]. inversion H. reflexivity.
  - discriminate.
  - destruct H; discriminate.
Qed.

Lemma read_sequence_Some (i : Z) (w : world) (r : DigitalResidue) (w' : world) :
  read_sequence i w = Some (r, w') <-> vget (digital_sequence w) i = Some r /\ w' = w.
Proof.
  unfold read_sequence. destruct (vget (digital_sequence w) i); split; intros H.
  - inversion H; auto.
  - destruct H as [H ->]. inversion H. reflexivity.
  - discriminate.
  - destruct H; discriminate.
Qed.

Lemma read_match_Some (i k : Z) (w : world) (v : float) (w' : world) :
  read_match i k w = Some (v, w') <->
  DPMatrix.match_ (dp_matrix w) i k = Some v /\ w' = w.
Proof.
  unfold read_match. destruct (DPMatrix.match_ (dp_matrix w) i k); split; intros H.
  - inversion H; auto.
  - destruct H as [H ->]. inversion H. reflexivity.
  - discriminate.
  - destruct H; discriminate.
Qed.

Lemma write_match_Some (i k : Z) (v : float) (w : world) (u : unit) (w' : world) :
  write_match i k v w = Some (u, w') <->
  exists m', DPMatrix.set_match (dp_matrix w) i k v = Some m' /\
             w' = mkWorld (digital_sequence w) m'.
Proof.
  unfold write_match. destruct (DPMatrix.set_match (dp_matrix w) i k v) as [m |]; split.
  - intros H. inversion H. eauto.
  - intros (m' & Heq & ->). inversion Heq. destruct u. reflexivity.
  - discriminate.
  - intros (m' & Heq & _). discriminate.
Qed.

Lemma write_match_is_Some (i k : Z) (v : float) (w : world) :
  is_Some (DPMatrix.match_ (dp_matrix w) i k) ->
  exists w', write_match i k v w = Some (tt, w').
Proof.
  intros H. apply (set_cell_is_Some _ _ _ v) in H as [m' Hm'].
  unfold write_match, DPMatrix.set_match. rewrite Hm'. eauto.
Qed.

(** Loop rules.  [I j s w] is the invariant before the iteration at index [j]. *)
Section LoopRules.
Context {S : Type}.
Variable I : Z -> S -> world -> Prop.
Variable body : Z -> S -> Comp S.

Lemma for_loop_aux_inv (n : nat) (lo : Z) (s : S) (w : world) (s' : S) (w' : world) :
  (forall j t u t' u', lo <= j < lo + Z.of_nat n -> I j t u ->
     body j t u = Some (t', u') -> I (j + 1) t' u') ->
  I lo s w ->
  for_loop_aux n lo body s w = Some (s', w') ->
  I (lo + Z.of_nat n) s' w'.
Proof.
  revert lo s w. induction n as [| n IH]; intros lo s w Hstep Hinit Hrun.
  - simpl in Hrun. apply ret_Some in Hrun. inversion Hrun; subst.
    replace (lo + Z.of_nat 0) with lo by lia. assumption.
  - simpl in Hrun. apply bind_Some in Hrun as (t & u & Hb & Hrest).
    replace (lo + Z.of_nat (Datatypes.S n)) with ((lo + 1) + Z.of_nat n) by lia.
    apply (IH (lo + 1) t u).
    + intros j t0 u0 t' u' Hj. apply Hstep. lia.
    + apply (Hstep lo s w); [lia | assumption | assumption].
    + assumption.
Qed.

Lemma for_loop_aux_total (n : nat) (lo : Z) (s : S) (w : world) :
  (forall j t u, lo <= j < lo + Z.of_nat n -> I j t u ->
     exists t' u', body j t u = Some (t', u') /\ I (j + 1) t' u') ->
  I lo s w ->
  exists s' w', for_loop_aux n lo body s w = Some (s', w') /\ I (lo + Z.of_nat n) s' w'.
Proof.
  revert lo s w. induction n as [| n IH]; intros lo s w Hstep Hinit.
  - exists s, w. split; [reflexivity |].
    replace (lo + Z.of_nat 0) with lo by lia. assumption.
  - destruct (Hstep lo s w) as (t & u & Hb & Hinv); [lia | assumption |].
    destruct (IH (lo + 1) t u) as (s' & w' & Hrun & Hfin).
    + intros j t0 u0 Hj. apply Hstep. lia.
    + assumption.
    + exists s', w'. split.
      * simpl. unfold bind. rewrite Hb. assumption.
      * replace (lo + Z.of_nat (Datatypes.S n)) with ((lo + 1) + Z.of_nat n) by lia.
        assumption.
Qed.

Lemma for_loop_inv (lo hi : Z) (s : S) (w : world) (s' : S) (w' : world) :
  lo <= hi + 1 ->
  (forall j t u t' u', lo <= j <= hi -> I j t u ->
     body j t u = Some (t', u') -> I (j + 1) t' u') ->
  I lo s w ->
  for_loop lo hi body s w = Some (s', w') ->
  I (hi + 1) s' w'.
Proof.
  intros Hle Hstep Hinit Hrun. unfold for_loop in Hrun.
  replace (hi + 1) with (lo + Z.of_nat (Z.to_nat (hi + 1 - lo))) by lia.
  eapply for_loop_aux_inv; [| exact Hinit | exact Hrun].
  intros j t u t' u' Hj. apply Hstep. lia.
Qed.

Lemma for_loop_total (lo hi : Z) (s : S) (w : world) :
  lo <= hi + 1 ->
  (forall j t u, lo <= j <= hi -> I j t u ->
     exists t' u', body j t u = Some (t', u') /\ I (j + 1) t' u') ->
  I lo s w ->
  exists s' w', for_loop lo hi body s w = Some (s', w') /\ I (hi + 1) s' w'.
Proof.
  intros Hle Hstep Hinit. unfold for_loop.
  destruct (for_loop_aux_total (Z.to_nat (hi + 1 - lo)) lo s w) as (s' & w' & Hrun & Hfin);
    [| exact Hinit |].
  - intros j t u Hj. apply Hstep. lia.
  - exists s', w'. split; [exact Hrun |].
    replace (hi + 1) with (lo + Z.of_nat (Z.to_nat (hi + 1 - lo))) by lia. exact Hfin.
Qed.
End LoopRules.

(** * [compute_msv] computes the recurrence *)

Lemma mat_is_init (w0 : world) (val : Z -> Z -> float) :
  mat_is w0 (fun _ _ => False) val w0.
Proof. unfold mat_is. repeat split; auto. intros i k []. Qed.

Lemma mat_is_ext (w0 : world) (W W' : Z -> Z -> Prop) (val : Z -> Z -> float) (w : world) :
  (forall i k, W' i k <-> W i k) -> mat_is w0 W val w -> mat_is w0 W' val w.
Proof.
  intros Hext (Hs & Hx & Hw & Hu). unfold mat_is. repeat split; auto.
  - intros i k HW. apply Hw, Hext, HW.
  - intros i j Hj. apply Hu. intros k HW. apply Hj, Hext, HW.
Qed.

Lemma mat_is_write (w0 : world) (W : Z -> Z -> Prop) (val : Z -> Z -> float)
    (w w' : world) (i k : Z) (v : float) (u : unit) :
  mat_is w0 W val w ->
  write_match i k v w = Some (u, w') ->
  v = val i k ->
  mat_is w0 (fun i' k' => W i' k' \/ (i' = i /\ k' = k)) val w'.
Proof.
  intros (Hs & Hx & Hw & Hu) Hwr Hv.
  apply write_match_Some in Hwr as (m' & Hset & ->).
  unfold DPMatrix.set_match in Hset.
  pose proof (set_cell_cell _ _ _ _ _ Hset) as Hcell.
  pose proof (set_cell_frame _ _ _ _ _ Hset) as (Hxmx & _).
  unfold mat_is. simpl. repeat split.
  - assumption.
  - congruence.
  - intros i' k' HW. unfold DPMatrix.match_. rewrite Hcell.
    destruct (decide (i' = i /\ k' * p7G_NSCELLS + p7G_M = k * p7G_NSCELLS + p7G_M))
      as [[-> Hk] | Hne].
    + unfold p7G_NSCELLS, p7G_M in Hk. assert (k' = k) by lia. subst. reflexivity.
    + destruct HW as [HW | [-> ->]]; [apply Hw, HW | tauto].
  - intros i' j' Hj. rewrite Hcell.
    destruct (decide (i' = i /\ j' = k * p7G_NSCELLS + p7G_M)) as [[-> ->] | Hne].
    + exfalso. apply (Hj k); auto.
    + apply Hu. intros k' HW. apply Hj. auto.
Qed.

Section Refinement.
Variable profile : HMMProfile.t.
Variable w0 : world.
Variable L : Z.

Let Mlen := HMMProfile.model_length profile.
Let val (i k : Z) : float := DP profile w0 (Z.to_nat i) k.

Lemma DP_step (i k : Z) :
  1 <= i ->
  DP profile w0 (Z.to_nat i) k =
    if k <=? 0 then col0 w0 i
    else if 20 <=? res w0 i then F32.zero
    else cell_value (mu profile k (res w0 i)) (DP profile w0 (Z.to_nat (i - 1)) (k - 1)).
Proof.
  intros Hi. replace (Z.to_nat i) with (Datatypes.S (Z.to_nat (i - 1))) by lia.
  cbn [DP]. replace (Z.of_nat (Datatypes.S (Z.to_nat (i - 1)))) with i by lia.
  reflexivity.
Qed.

Lemma row_max_step (i : nat) (k : Z) (m : float) :
  1 <= k ->
  row_max profile w0 i (Z.to_nat k) m =
    upd_max (row_max profile w0 i (Z.to_nat (k - 1)) m) (DP profile w0 i k).
Proof.
  intros Hk. replace (Z.to_nat k) with (Datatypes.S (Z.to_nat (k - 1))) by lia.
  cbn [row_max]. replace (Z.of_nat (Datatypes.S (Z.to_nat (k - 1)))) with k by lia.
  reflexivity.
Qed.

Lemma score_upto_step (i : Z) :
  1 <= i ->
  score_upto profile w0 (Z.to_nat i) =
    if 20 <=? res w0 i then score_upto profile w0 (Z.to_nat (i - 1))
    else row_max profile w0 (Z.to_nat i) (Z.to_nat Mlen)
           (score_upto profile w0 (Z.to_nat (i - 1))).
Proof.
  intros Hi. replace (Z.to_nat i) with (Datatypes.S (Z.to_nat (i - 1))) at 1 by lia.
  cbn [score_upto]. replace (Z.of_nat (Datatypes.S (Z.to_nat (i - 1)))) with i by lia.
  replace (Datatypes.S (Z.to_nat (i - 1))) with (Z.to_nat i) by lia.
  reflexivity.
Qed.

(** The first loop: row 0. *)
Lemma init_row_spec (w w' : world) (u : unit) :
  0 <= Mlen ->
  mat_is w0 (fun _ _ => False) val w ->
  for_loop 0 Mlen (fun k _ => write_match 0 k F32.zero) tt w = Some (u, w') ->
  mat_is w0 (rows_done profile 1) val w'.
Proof.
  intros HM Hinit Hrun.
  apply (mat_is_ext w0 (fun i' k' => i' = 0 /\ 0 <= k' < Mlen + 1)).
  { intros i k. unfold rows_done. fold Mlen. lia. }
  refine (for_loop_inv
           (fun k (_ : unit) w => mat_is w0 (fun i' k' => i' = 0 /\ 0 <= k' < k) val w)
           _ 0 Mlen tt w u w' _ _ _ Hrun); [lia | |].
  - intros j t x t' x' Hj Hinv Hb.
    eapply mat_is_ext; [| eapply mat_is_write; [exact Hinv | exact Hb | reflexivity]].
    intros i k. simpl. lia.
  - eapply mat_is_ext; [| exact Hinit]. intros i k. simpl. lia.
Qed.

(** The read of the diagonal predecessor while row [i] is being filled. *)
Lemma read_prev (i k : Z) (w : world) (prev : float) :
  1 <= i -> 1 <= k <= Mlen ->
  mat_is w0 (row_part profile i k) val w ->
  DPMatrix.match_ (dp_matrix w) (i - 1) (k - 1) = Some prev ->
  prev = DP profile w0 (Z.to_nat (i - 1)) (k - 1).
Proof.
  intros Hi Hk (_ & _ & Hw & Hu) Hrd.
  destruct (decide (i = 1 \/ 2 <= k)) as [Hin | Hout].
  - rewrite Hw in Hrd; [inversion Hrd; reflexivity |].
    left. unfold rows_done. fold Mlen. lia.
  - assert (i >= 2 /\ k = 1) as [Hi2 ->] by lia.
    replace (1 - 1) with 0 in * by lia.
    unfold DPMatrix.match_ in Hrd. rewrite Hu in Hrd.
    + rewrite DP_step by lia. simpl. unfold col0, DPMatrix.match_. rewrite Hrd. reflexivity.
    + intros k' HW. unfold row_part, rows_done in HW. unfold p7G_NSCELLS, p7G_M. lia.
Qed.

(** One row of the second loop. *)
Lemma msv_row_spec (i : Z) (ms ms' : float) (w w' : world) :
  1 <= i -> 0 <= Mlen ->
  mat_is w0 (rows_done profile i) val w ->
  msv_row profile i ms w = Some (ms', w') ->
  mat_is w0 (rows_done profile (i + 1)) val w' /\
  ms' = (if 20 <=? res w0 i then ms
         else row_max profile w0 (Z.to_nat i) (Z.to_nat Mlen) ms).
Proof.
  intros Hi HM Hinv Hrun. unfold msv_row in Hrun. fold Mlen in Hrun.
  apply bind_Some in Hrun as (r & w1 & Hrd & Hrun).
  apply read_sequence_Some in Hrd as [Hrd ->].
  assert (Hres : res w0 i = residue_code r).
  { unfold res. destruct Hinv as (Hs & _). rewrite <- Hs, Hrd. reflexivity. }
  rewrite Hres.
  assert (Hstart : mat_is w0 (row_part profile i 1) val w).
  { eapply mat_is_ext; [| exact Hinv]. intros i' k'. unfold row_part, rows_done. lia. }
  assert (Hend : forall x, mat_is w0 (row_part profile i (Mlen + 1)) val x ->
                           mat_is w0 (rows_done profile (i + 1)) val x).
  { intros x. apply mat_is_ext. intros i' k'. unfold row_part, rows_done. fold Mlen. lia. }
  destruct (20 <=? residue_code r) eqn:Hcanon.
  - apply bind_Some in Hrun as (u & w2 & Hloop & Hret).
    apply ret_Some in Hret. inversion Hret; subst ms' w'. split; [| reflexivity].
    apply Hend.
    refine (for_loop_inv
             (fun k (_ : unit) x => mat_is w0 (row_part profile i k) val x)
             _ 1 Mlen tt w u w2 _ _ Hstart Hloop); [lia |].
    intros j t x t' x' Hj Hx Hb.
    eapply mat_is_ext; [| eapply mat_is_write; [exact Hx | exact Hb |]].
    + intros i' k'. unfold row_part, rows_done. lia.
    + unfold val. rewrite DP_step by lia. rewrite Hres, Hcanon.
      destruct (Z.leb_spec j 0); [lia | reflexivity].
  - pose proof (for_loop_inv
             (fun k m x => mat_is w0 (row_part profile i k) val x /\
                           m = row_max profile w0 (Z.to_nat i) (Z.to_nat (k - 1)) ms)
             (msv_cell profile i r) 1 Mlen ms w ms' w') as Hloop.
    destruct Hloop as [Hfin Hms]; [lia | | | exact Hrun |].
    + intros j t x t' x' Hj [Hx Ht] Hb. unfold msv_cell in Hb.
      apply bind_Some in Hb as (sc & x1 & Hsc & Hb).
      apply lift_Some in Hsc as [Hsc ->].
      apply bind_Some in Hb as (prev & x2 & Hprev & Hb).
      apply read_match_Some in Hprev as [Hprev ->].
      apply bind_Some in Hb as (u & x3 & Hwr & Hb).
      apply ret_Some in Hb. inversion Hb; subst t' x'. clear Hb.
      assert (Hval : F32.max F32.zero (F32.max sc (F32.add prev sc)) =
                     DP profile w0 (Z.to_nat i) j).
      { rewrite DP_step by lia. rewrite Hres, Hcanon.
        destruct (Z.leb_spec j 0); [lia |].
        unfold cell_value, mu. rewrite Hsc. simpl.
        rewrite <- (read_prev i j x prev) by (assumption || lia). reflexivity. }
      split.
      * eapply mat_is_ext; [| eapply mat_is_write; [exact Hx | exact Hwr | exact Hval]].
        intros i' k'. unfold row_part, rows_done. lia.
      * replace (j + 1 - 1) with j by lia. rewrite row_max_step by lia.
        rewrite <- Ht, <- Hval. reflexivity.
    + split; [exact Hstart | reflexivity].
    + split; [apply Hend, Hfin |].
      replace (Mlen + 1 - 1) with Mlen in Hms by lia. exact Hms.
Qed.

(** The whole call, when it runs its loops. *)
Lemma compute_msv_spec (e : float) (r : float) (w' : world) :
  0 < L -> 0 < Mlen ->
  compute_msv L profile e w0 = Some (r, w') ->
  mat_is w0 (written profile L) val w' /\ r = score_upto profile w0 (Z.to_nat L).
Proof.
  intros HL HM Hrun. unfold compute_msv in Hrun. fold Mlen in Hrun.
  destruct (Z.leb_spec L 0); [lia |]. destruct (Z.leb_spec Mlen 0); [lia |].
  simpl in Hrun.
  apply bind_Some in Hrun as (u & w1 & Hinit & Hrun).
  apply bind_Some in Hrun as (ms & w2 & Hrows & Hret).
  apply ret_Some in Hret. inversion Hret; subst r w'. clear Hret.
  apply init_row_spec in Hinit; [| lia | apply mat_is_init].
  pose proof (for_loop_inv
                (fun i m x => mat_is w0 (rows_done profile i) val x /\
                              m = score_upto profile w0 (Z.to_nat (i - 1)))
                (msv_row profile) 1 L F32.zero w1 ms w2) as Hloop.
  destruct Hloop as [Hfin Hms]; [lia | | | exact Hrows |].
  - intros j t x t' x' Hj [Hx Ht] Hb.
    apply msv_row_spec in Hb as [Hx' Ht']; [| lia | lia | exact Hx].
    split; [exact Hx' |].
    replace (j + 1 - 1) with j by lia. rewrite score_upto_step by lia.
    fold Mlen. rewrite Ht', Ht. reflexivity.
  - split; [exact Hinit | reflexivity].
  - split.
    + eapply mat_is_ext; [| exact Hfin]. intros i k. unfold written, rows_done. lia.
    + replace (L + 1 - 1) with L in Hms by lia. exact Hms.
Qed.
End Refinement.

(** * The call stays within its buffers *)

Lemma residue_code_range (r : DigitalResidue) : 0 <= residue_code r <= 255.
Proof.
  unfold residue_code. pose proof (Byte.to_N_bounded r). lia.
Qed.

Lemma write_match_ok (L : Z) (profile : HMMProfile.t) (i k : Z) (v : float)
    (w w' : world) (u : unit) :
  call_ok L profile w ->
  write_match i k v w = Some (u, w') ->
  call_ok L profile w'.
Proof.
  intros [Hs Hp Hm] Hwr. apply write_match_Some in Hwr as (m' & Hset & ->).
  unfold DPMatrix.set_match in Hset.
  pose proof (set_cell_cell _ _ _ _ _ Hset) as Hcell.
  constructor; simpl; auto.
  intros i' k' Hi' Hk'. unfold DPMatrix.match_. rewrite Hcell.
  destruct (decide _); [eauto | apply Hm; assumption].
Qed.

Lemma write_match_total (L : Z) (profile : HMMProfile.t) (i k : Z) (v : float) (w : world) :
  call_ok L profile w ->
  0 <= i <= L -> 0 <= k <= HMMProfile.model_length profile ->
  exists w', write_match i k v w = Some (tt, w') /\ call_ok L profile w'.
Proof.
  intros Hok Hi Hk.
  destruct (write_match_is_Some i k v w) as [w' Hw'].
  - apply (ok_matrix _ _ _ Hok); assumption.
  - exists w'. split; [assumption |]. eapply write_match_ok; eassumption.
Qed.

Lemma msv_cell_total (L : Z) (profile : HMMProfile.t) (i : Z) (r : DigitalResidue)
    (k : Z) (ms : float) (w : world) :
  call_ok L profile w ->
  1 <= i <= L -> 1 <= k <= HMMProfile.model_length profile ->
  residue_code r < 20 ->
  exists ms' w', msv_cell profile i r k ms w = Some (ms', w') /\ call_ok L profile w'.
Proof.
  intros Hok Hi Hk Hr. unfold msv_cell.
  pose proof (residue_code_range r) as Hrange.
  destruct (ok_profile _ _ _ Hok k (residue_code r)) as [sc Hsc]; [lia | lia |].
  destruct (ok_matrix _ _ _ Hok (i - 1) (k - 1)) as [prev Hprev]; [lia | lia |].
  destruct (write_match_total L profile i k
              (F32.max F32.zero (F32.max sc (F32.add prev sc))) w Hok)
    as (w' & Hwr & Hok'); [lia | lia |].
  eexists _, w'. split; [| exact Hok'].
  unfold bind, lift, read_match, ret. rewrite Hsc, Hprev, Hwr. reflexivity.
Qed.

Lemma msv_row_total (L : Z) (profile : HMMProfile.t) (i : Z) (ms : float) (w : world) :
  call_ok L profile w ->
  1 <= i <= L -> 0 <= HMMProfile.model_length profile ->
  exists ms' w', msv_row profile i ms w = Some (ms', w') /\ call_ok L profile w'.
Proof.
  intros Hok Hi HM. unfold msv_row.
  destruct (ok_sequence _ _ _ Hok i Hi) as [r Hr].
  unfold bind at 1. unfold read_sequence. rewrite Hr.
  destruct (Z.leb_spec 20 (residue_code r)) as [Hbig | Hsmall].
  - destruct (for_loop_total (fun _ (_ : unit) x => call_ok L profile x)
                (fun k _ => write_match i k F32.zero) 1 (HMMProfile.model_length profile) tt w)
      as (u & w' & Hrun & Hok'); [lia | | exact Hok |].
    + intros j [] x Hj Hx.
      destruct (write_match_total L profile i j F32.zero x Hx) as (x' & Hwr & Hx');
        [lia | lia |].
      exists tt, x'. auto.
    + exists ms, w'. split; [| exact Hok'].
      unfold bind. rewrite Hrun. reflexivity.
  - apply (for_loop_total (fun _ (_ : float) x => call_ok L profile x)
             (msv_cell profile i r) 1 (HMMProfile.model_length profile) ms w);
      [lia | | exact Hok].
    intros j t x Hj Hx. apply (msv_cell_total L); auto; lia.
Qed.

Lemma compute_msv_total (L : Z) (profile : HMMProfile.t) (e : float) (w : world) :
  call_ok L profile w ->
  exists r w', compute_msv L profile e w = Some (r, w').
Proof.
  intros Hok. unfold compute_msv.
  destruct (Z.leb_spec L 0) as [HL | HL]; simpl; [eexists _, _; reflexivity |].
  destruct (Z.leb_spec (HMMProfile.model_length profile) 0) as [HM | HM]; simpl;
    [eexists _, _; reflexivity |].
  destruct (for_loop_total (fun _ (_ : unit) x => call_ok L profile x)
              (fun k _ => write_match 0 k F32.zero) 0 (HMMProfile.model_length profile) tt w)
    as (u & w1 & Hrun1 & Hok1); [lia | | exact Hok |].
  { intros j [] x Hj Hx.
    destruct (write_match_total L profile 0 j F32.zero x Hx) as (x' & Hwr & Hx');
      [lia | lia |].
    exists tt, x'. auto. }
  destruct (for_loop_total (fun _ (_ : float) x => call_ok L profile x)
              (msv_row profile) 1 L F32.zero w1)
    as (ms & w2 & Hrun2 & Hok2); [lia | | exact Hok1 |].
  { intros j t x Hj Hx. apply (msv_row_total L); auto; lia. }
  exists ms, w2. unfold bind. rewrite Hrun1, Hrun2. reflexivity.
Qed.

(** * Constructors and builders *)

(** ** [int] expressions and the outcome of a call *)

Lemma c_int_Some (z : Z) : INT_MIN <= z <= INT_MAX -> c_int z = Some z.
Proof.
  intros Hz. unfold c_int.
  destruct (Z.leb_spec INT_MIN z); [| lia].
  destruct (Z.leb_spec z INT_MAX); [reflexivity | lia].
Qed.

Lemma c_int_None (z : Z) : z < INT_MIN \/ INT_MAX < z -> c_int z = None.
Proof.
  intros Hz. unfold c_int.
  destruct (Z.leb_spec INT_MIN z); [| reflexivity].
  destruct (Z.leb_spec z INT_MAX); [lia | reflexivity].
Qed.

Lemma c_int_inv (z z' : Z) : c_int z = Some z' -> z' = z /\ INT_MIN <= z <= INT_MAX.
Proof.
  unfold c_int. destruct (Z.leb_spec INT_MIN z); [| discriminate].
  destruct (Z.leb_spec z INT_MAX); [| discriminate].
  intros Heq. apply (inj Some) in Heq. auto.
Qed.

Lemma returned_Returns {A : Type} (o : outcome A) (a : A) :
  returned o = Some a <-> o = Returns a.
Proof.
  destruct o; simpl; split; intros H; try discriminate; congruence.
Qed.

Lemma returned_defined {A : Type} (o : option A) : returned (defined o) = o.
Proof. destruct o; reflexivity. Qed.

Lemma bind_Returns_inv {A B : Type} (m : outcome A) (k : A -> outcome B) (b : B) :
  (m ≫= k) = Returns b -> exists a, m = Returns a /\ k a = Returns b.
Proof. destruct m; simpl; intros H; try discriminate. eauto. Qed.

Lemma defined_Returns {A : Type} (o : option A) (a : A) :
  defined o = Returns a <-> o = Some a.
Proof. destruct o; simpl; split; intros H; try discriminate; congruence. Qed.

Lemma allocated_Returns {A : Type} (o : option A) (a : A) :
  allocated o = Returns a <-> o = Some a.
Proof. destruct o; simpl; split; intros H; try discriminate; congruence. Qed.

(** ** The loops of the constructors and the builders *)

Lemma out_for_aux_ext {S : Type} (body1 body2 : Z -> S -> outcome S) (n : nat) (j : Z) (s : S) :
  (forall i t, j <= i < j + Z.of_nat n -> body1 i t = body2 i t) ->
  out_for_aux n j body1 s = out_for_aux n j body2 s.
Proof.
  revert j s. induction n as [| n IH]; intros j s Hb; [reflexivity |].
  cbn [out_for_aux]. rewrite Hb by lia.
  destruct (body2 j s) as [s' | |]; [| reflexivity | reflexivity].
  apply IH. intros i t Hi. apply Hb. lia.
Qed.

Lemma out_for_ext {S : Type} (body1 body2 : Z -> S -> outcome S) (lo hi : Z) (s : S) :
  (forall i t, lo <= i < hi -> body1 i t = body2 i t) ->
  out_for lo hi body1 s = out_for lo hi body2 s.
Proof.
  intros Hb. unfold out_for. apply out_for_aux_ext. intros i t Hi. apply Hb. lia.
Qed.

(** A loop whose body can only be undefined is the loop over [option]. *)
Lemma out_for_aux_defined {S : Type} (body : Z -> S -> option S) (n : nat) (j : Z) (s : S) :
  out_for_aux n j (fun i t => defined (body i t)) s = defined (opt_for_aux n j body s).
Proof.
  revert j s. induction n as [| n IH]; intros j s; [reflexivity |].
  cbn [out_for_aux opt_for_aux]. destruct (body j s) as [s' |]; [| reflexivity].
  apply IH.
Qed.

Lemma out_for_defined {S : Type} (body : Z -> S -> option S) (lo hi : Z) (s : S) :
  out_for lo hi (fun i t => defined (body i t)) s = defined (opt_for lo hi body s).
Proof. apply out_for_aux_defined. Qed.

Lemma out_for_step {S : Type} (body : Z -> S -> outcome S) (lo hi : Z) (s : S) :
  lo < hi ->
  out_for lo hi body s = (s' ← body lo s; out_for (lo + 1) hi body s').
Proof.
  intros H. unfold out_for.
  replace (Z.to_nat (hi - lo)) with (Datatypes.S (Z.to_nat (hi - (lo + 1)))) by lia.
  reflexivity.
Qed.

Lemma out_for_empty {S : Type} (body : Z -> S -> outcome S) (lo hi : Z) (s : S) :
  hi <= lo -> out_for lo hi body s = Returns s.
Proof.
  intros H. unfold out_for. replace (Z.to_nat (hi - lo)) with 0%nat by lia. reflexivity.
Qed.

(** * The constructor of the matrix *)

Lemma alloc_rows {A : Type} (width : Z) (x : A) (n : nat) (pre : list (list A)) :
  0 <= width ->
  opt_for_aux n (Z.of_nat (length pre))
    (fun i dp => row ← vget dp i; row' ← vresize width x row; vset dp i row')
    (pre ++ replicate n []) =
  Some (pre ++ replicate n (replicate (Z.to_nat width) x)).
Proof.
  intros Hw. set (body := fun i dp => _). revert pre.
  induction n as [| n IH]; intros pre.
  - reflexivity.
  - cbn [opt_for_aux replicate].
    assert (Hb : body (Z.of_nat (length pre)) (pre ++ [] :: replicate n []) =
                 Some (pre ++ replicate (Z.to_nat width) x :: replicate n [])).
    { unfold body.
      assert (Hget : vget (pre ++ [] :: replicate n []) (Z.of_nat (length pre)) = Some []).
      { apply vget_Some. split; [lia |]. rewrite Nat2Z.id.
        rewrite lookup_app_r by lia. rewrite Nat.sub_diag. reflexivity. }
      rewrite Hget. simpl.
      unfold vresize. destruct (Z.ltb_spec width 0); [lia |]. simpl.
      unfold vset. rewrite length_app. simpl.
      destruct (Z.leb_spec 0 (Z.of_nat (length pre))); [| lia].
      destruct (Z.ltb_spec (Z.of_nat (length pre))
                  (Z.of_nat (length pre + Datatypes.S (length (replicate n (@nil A))))));
        [| lia].
      simpl. rewrite Nat2Z.id.
      rewrite insert_app_r_alt by lia. rewrite Nat.sub_diag. simpl.
      rewrite resize_nil. reflexivity. }
    rewrite Hb. simpl.
    specialize (IH (pre ++ [replicate (Z.to_nat width) x])).
    rewrite length_app in IH. simpl in IH.
    replace (Z.of_nat (length pre) + 1) with (Z.of_nat (length pre + 1)) by lia.
    rewrite <- !app_assoc in IH. simpl in IH.
    exact IH.
Qed.

Lemma vresize_Some {A : Type} (n : Z) (x : A) (v : list A) :
  0 <= n -> vresize n x v = Some (resize (Z.to_nat n) x v).
Proof. intros Hn. unfold vresize. destruct (Z.ltb_spec n 0); [lia | reflexivity]. Qed.

Lemma alloc_body {A : Type} (width : Z) (x : A) (i : Z) (dp : list (list A)) :
  0 <= width ->
  (row ← defined (vget dp i);
   row' ← allocated (vresize width x row);
   defined (vset dp i row')) =
  defined (row ← vget dp i; row' ← vresize width x row; vset dp i row').
Proof.
  intros Hw. destruct (vget dp i) as [row |]; [| reflexivity].
  cbn [mbind option_bind outcome_mbind outcome_bind defined].
  rewrite vresize_Some by assumption. reflexivity.
Qed.

(** The matrix of a call [DPMatrix(Mx, Lx)] whose sizes are [int] values. *)
Lemma DPMatrix_construct_Returns (Mx Lx : Z) :
  0 <= Mx -> 0 <= Lx ->
  (Mx + 1) * p7G_NSCELLS <= INT_MAX -> (Lx + 1) * p7G_NXCELLS <= INT_MAX ->
  DPMatrix.construct Mx Lx =
    Returns (DPMatrix.mk Mx Lx (Lx + 1) (Lx + 1) (Mx + 1)
               (replicate (Z.to_nat (Lx + 1))
                  (replicate (Z.to_nat ((Mx + 1) * p7G_NSCELLS)) (F32.opp eslINFINITY)))
               (replicate (Z.to_nat ((Lx + 1) * p7G_NXCELLS)) (F32.opp eslINFINITY))).
Proof.
  intros HM HL HMmax HLmax. unfold DPMatrix.construct. cbv zeta.
  assert (HL1 : c_int (Lx + 1) = Some (Lx + 1))
    by (apply c_int_Some; unfold INT_MIN, INT_MAX, p7G_NXCELLS in *; lia).
  assert (HM1 : c_int (Mx + 1) = Some (Mx + 1))
    by (apply c_int_Some; unfold INT_MIN, INT_MAX, p7G_NSCELLS in *; lia).
  assert (HM3 : c_int ((Mx + 1) * p7G_NSCELLS) = Some ((Mx + 1) * p7G_NSCELLS))
    by (apply c_int_Some; unfold INT_MIN, INT_MAX, p7G_NSCELLS in *; lia).
  assert (HL5 : c_int ((Lx + 1) * p7G_NXCELLS) = Some ((Lx + 1) * p7G_NXCELLS))
    by (apply c_int_Some; unfold INT_MIN, INT_MAX, p7G_NXCELLS in *; lia).
  rewrite HL1, HM1. cbn [mbind option_bind outcome_mbind outcome_bind defined].
  rewrite HM3, HL5. cbn [mbind option_bind outcome_mbind outcome_bind defined].
  rewrite (vresize_Some (Lx + 1)) by lia.
  cbn [mbind outcome_mbind outcome_bind allocated]. rewrite resize_nil.
  rewrite (out_for_ext _
             (fun i dp => defined (row ← vget dp i;
                                   row' ← vresize ((Mx + 1) * p7G_NSCELLS)
                                            (F32.opp eslINFINITY) row;
                                   vset dp i row')))
    by (intros i dp _; apply alloc_body; unfold p7G_NSCELLS; lia).
  rewrite out_for_defined. unfold opt_for. replace (Lx + 1 - 0) with (Lx + 1) by lia.
  pose proof (alloc_rows ((Mx + 1) * p7G_NSCELLS) (F32.opp eslINFINITY)
                (Z.to_nat (Lx + 1)) []) as Hrows.
  cbn [length app] in Hrows. change (Z.of_nat 0) with 0 in Hrows.
  rewrite Hrows by (unfold p7G_NSCELLS; lia).
  cbn [mbind outcome_mbind outcome_bind defined].
  rewrite vresize_Some by (unfold p7G_NXCELLS; lia).
  cbn [mbind outcome_mbind outcome_bind allocated].
  rewrite resize_nil. reflexivity.
Qed.

(** Sizes that are not [int] values. *)
Lemma DPMatrix_construct_overflow (Mx Lx : Z) :
  0 <= Mx -> 0 <= Lx ->
  INT_MAX < (Mx + 1) * p7G_NSCELLS \/ INT_MAX < (Lx + 1) * p7G_NXCELLS ->
  DPMatrix.construct Mx Lx = Undefined.
Proof.
  intros HM HL Hover. unfold DPMatrix.construct. cbv zeta.
  destruct (decide (Lx + 1 <= INT_MAX)) as [HL1 | HL1];
    [| rewrite (c_int_None (Lx + 1)) by lia; reflexivity].
  rewrite (c_int_Some (Lx + 1)) by (unfold INT_MIN, INT_MAX in *; lia).
  cbn [mbind option_bind outcome_mbind outcome_bind defined].
  destruct (decide (Mx + 1 <= INT_MAX)) as [HM1 | HM1];
    [| rewrite (c_int_None (Mx + 1)) by lia; reflexivity].
  rewrite (c_int_Some (Mx + 1)) by (unfold INT_MIN, INT_MAX in *; lia).
  cbn [mbind option_bind outcome_mbind outcome_bind defined].
  rewrite (vresize_Some (Lx + 1)) by lia.
  cbn [mbind outcome_mbind outcome_bind allocated]. rewrite resize_nil.
  destruct (decide ((Mx + 1) * p7G_NSCELLS <= INT_MAX)) as [HM3 | HM3].
  - rewrite (c_int_Some ((Mx + 1) * p7G_NSCELLS))
      by (unfold INT_MIN, INT_MAX, p7G_NSCELLS in *; lia).
    cbn [mbind option_bind outcome_mbind outcome_bind defined].
    rewrite (out_for_ext _
               (fun i dp => defined (row ← vget dp i;
                                     row' ← vresize ((Mx + 1) * p7G_NSCELLS)
                                              (F32.opp eslINFINITY) row;
                                     vset dp i row')))
      by (intros i dp _; apply alloc_body; unfold p7G_NSCELLS; lia).
    rewrite out_for_defined. unfold opt_for. replace (Lx + 1 - 0) with (Lx + 1) by lia.
    pose proof (alloc_rows ((Mx + 1) * p7G_NSCELLS) (F32.opp eslINFINITY)
                  (Z.to_nat (Lx + 1)) []) as Hrows.
    cbn [length app] in Hrows. change (Z.of_nat 0) with 0 in Hrows.
    rewrite Hrows by (unfold p7G_NSCELLS; lia).
    cbn [mbind outcome_mbind outcome_bind defined].
    rewrite (c_int_None ((Lx + 1) * p7G_NXCELLS)) by lia. reflexivity.
  - rewrite (c_int_None ((Mx + 1) * p7G_NSCELLS)) by lia.
    cbn [mbind option_bind outcome_mbind outcome_bind defined].
    rewrite out_for_step by lia.
    assert (Hget : vget (replicate (Z.to_nat (Lx + 1)) (@nil float)) 0 = Some []).
    { apply vget_Some. split; [lia |]. apply lookup_replicate_2. lia. }
    rewrite Hget. reflexivity.
Qed.

Lemma DPMatrix_new_Some (Mx Lx : Z) :
  0 <= Mx -> 0 <= Lx ->
  (Mx + 1) * p7G_NSCELLS <= INT_MAX -> (Lx + 1) * p7G_NXCELLS <= INT_MAX ->
  DPMatrix.new Mx Lx =
    Some (DPMatrix.mk Mx Lx (Lx + 1) (Lx + 1) (Mx + 1)
            (replicate (Z.to_nat (Lx + 1))
               (replicate (Z.to_nat ((Mx + 1) * p7G_NSCELLS)) (F32.opp eslINFINITY)))
            (replicate (Z.to_nat ((Lx + 1) * p7G_NXCELLS)) (F32.opp eslINFINITY))).
Proof.
  intros HM HL HMmax HLmax. unfold DPMatrix.new.
  rewrite DPMatrix_construct_Returns by assumption. reflexivity.
Qed.

(** A matrix that the constructor returned: its sizes are [int] values. *)
Lemma DPMatrix_new_inv (Mx Lx : Z) (m : DPMatrix.t) :
  0 <= Mx -> 0 <= Lx ->
  DPMatrix.new Mx Lx = Some m ->
  (Mx + 1) * p7G_NSCELLS <= INT_MAX /\ (Lx + 1) * p7G_NXCELLS <= INT_MAX /\
  m = DPMatrix.mk Mx Lx (Lx + 1) (Lx + 1) (Mx + 1)
        (replicate (Z.to_nat (Lx + 1))
           (replicate (Z.to_nat ((Mx + 1) * p7G_NSCELLS)) (F32.opp eslINFINITY)))
        (replicate (Z.to_nat ((Lx + 1) * p7G_NXCELLS)) (F32.opp eslINFINITY)).
Proof.
  intros HM HL Hnew.
  destruct (decide ((Mx + 1) * p7G_NSCELLS <= INT_MAX)) as [HM3 | HM3];
    [destruct (decide ((Lx + 1) * p7G_NXCELLS <= INT_MAX)) as [HL5 | HL5] |].
  - rewrite DPMatrix_new_Some in Hnew by assumption.
    apply (inj Some) in Hnew. auto.
  - unfold DPMatrix.new in Hnew.
    rewrite DPMatrix_construct_overflow in Hnew by (try assumption; lia). discriminate.
  - unfold DPMatrix.new in Hnew.
    rewrite DPMatrix_construct_overflow in Hnew by (try assumption; lia). discriminate.
Qed.

Lemma DPMatrix_new_cell (Mx Lx : Z) (m : DPMatrix.t) (i j : Z) :
  0 <= Mx -> 0 <= Lx ->
  DPMatrix.new Mx Lx = Some m ->
  DPMatrix.cell m i j =
    if decide (0 <= i <= Lx /\ 0 <= j < (Mx + 1) * p7G_NSCELLS)
    then Some (F32.opp eslINFINITY) else None.
Proof.
  intros HM HL Hnew. destruct (DPMatrix_new_inv Mx Lx m HM HL Hnew) as (_ & _ & ->).
  unfold DPMatrix.cell, vget. cbn [DPMatrix.dp].
  set (row := replicate (Z.to_nat ((Mx + 1) * p7G_NSCELLS)) (F32.opp eslINFINITY)).
  destruct (Z.ltb_spec i 0).
  { rewrite decide_False by lia. reflexivity. }
  destruct (decide (i <= Lx)) as [Hi | Hi].
  - assert (Hrow : replicate (Z.to_nat (Lx + 1)) row !! Z.to_nat i = Some row)
      by (apply lookup_replicate_2; lia).
    rewrite Hrow. cbn [mbind option_bind].
    destruct (Z.ltb_spec j 0).
    { rewrite decide_False by lia. reflexivity. }
    destruct (decide (j < (Mx + 1) * p7G_NSCELLS)) as [Hj | Hj].
    + rewrite decide_True by lia. apply lookup_replicate_2. lia.
    + rewrite decide_False by lia. apply lookup_replicate_None. lia.
  - assert (Hrow : replicate (Z.to_nat (Lx + 1)) row !! Z.to_nat i = None)
      by (apply lookup_replicate_None; lia).
    rewrite Hrow. rewrite decide_False by lia. reflexivity.
Qed.

Lemma DPMatrix_new_xmx (Mx Lx : Z) (m : DPMatrix.t) (j : Z) :
  0 <= Mx -> 0 <= Lx ->
  DPMatrix.new Mx Lx = Some m ->
  0 <= j < (Lx + 1) * p7G_NXCELLS ->
  vget (DPMatrix.xmx m) j = Some (F32.opp eslINFINITY).
Proof.
  intros HM HL Hnew Hj. destruct (DPMatrix_new_inv Mx Lx m HM HL Hnew) as (_ & _ & ->).
  cbn [DPMatrix.xmx]. apply vget_Some.
  split; [lia |]. apply lookup_replicate_2. unfold p7G_NXCELLS in *. lia.
Qed.

(** * Bounded checks *)

Lemma all_in_spec (lo hi : Z) (P : Z -> bool) :
  all_in lo hi P = true -> forall x, lo <= x < hi -> P x = true.
Proof.
  unfold all_in. intros H x Hx. rewrite forallb_forall in H.
  apply H. apply list_elem_of_In. apply elem_of_seqZ. lia.
Qed.



Lemma constant_scoresb_spec (profile : HMMProfile.t) (M : Z) (c : float) :
  constant_scoresb profile M c = true ->
  forall k x, 1 <= k <= M -> 0 <= x < 20 ->
    HMMProfile.match_score profile k x = Some c.
Proof.
  intros H k x Hk Hx.
  pose proof (all_in_spec _ _ _ (all_in_spec _ _ _ H k ltac:(lia)) x Hx) as Hc.
  simpl in Hc. apply bool_decide_eq_true_1 in Hc. exact Hc.
Qed.


Lemma canonicalb_spec (seq : list DigitalResidue) (L : Z) :
  canonicalb seq L = true ->
  forall i, 1 <= i <= L -> exists r, vget seq i = Some r /\ residue_code r < 20.
Proof.
  intros H i Hi. pose proof (all_in_spec _ _ _ H i ltac:(lia)) as Hc.
  cbv beta in Hc. destruct (vget seq i) as [r |]; [| discriminate].
  exists r. split; [reflexivity |]. apply Z.ltb_lt. exact Hc.
Qed.

Lemma valid_scoresb_spec (profile : HMMProfile.t) (M : Z) :
  valid_scoresb profile M = true ->
  forall k x, 1 <= k <= M -> 0 <= x < 20 ->
    exists u, HMMProfile.match_score profile k x = Some u /\ F32.valid u = true.
Proof.
  intros H k x Hk Hx.
  pose proof (all_in_spec _ _ _ (all_in_spec _ _ _ H k ltac:(lia)) x Hx) as Hc.
  cbv beta in Hc. destruct (HMMProfile.match_score profile k x) as [u |]; [| discriminate].
  exists u. auto.
Qed.


(** * binary32: the rounding of [SpecFloat], read on the integers *)

(** ** Digits and powers of two *)

Lemma digits2_pos_log2 (m : positive) :
  Z.pos (digits2_pos m) = Z.log2 (Z.pos m) + 1.
Proof.
  induction m as [m IH | m IH |]; cbn [digits2_pos].
  - rewrite Pos2Z.inj_succ, IH. change (Z.pos m~1) with (2 * Z.pos m + 1).
    rewrite Z.log2_succ_double by lia. lia.
  - rewrite Pos2Z.inj_succ, IH. change (Z.pos m~0) with (2 * Z.pos m).
    rewrite Z.log2_double by lia. lia.
  - reflexivity.
Qed.

Lemma log2_bounds (N : Z) :
  0 < N -> 2 ^ Z.log2 N <= N < 2 ^ (Z.log2 N + 1).
Proof. intros HN. pose proof (Z.log2_spec N HN). unfold Z.succ in *. lia. Qed.

Lemma log2_lt_pow2 (N d : Z) : 0 < N -> 0 <= d -> N < 2 ^ d -> Z.log2 N < d.
Proof. intros HN Hd H. apply Z.log2_lt_pow2; assumption. Qed.


Lemma pow2_pos (k : Z) : 0 <= k -> 0 < 2 ^ k.
Proof. intros. apply Z.pow_pos_nonneg; lia. Qed.

Lemma pow2_split (a b : Z) : 0 <= a -> 0 <= b -> 2 ^ (a + b) = 2 ^ a * 2 ^ b.
Proof. intros. apply Z.pow_add_r; assumption. Qed.

Lemma pow2_le (a b : Z) : 0 <= a <= b -> 2 ^ a <= 2 ^ b.
Proof. intros. apply Z.pow_le_mono_r; lia. Qed.

Lemma pow2_lt (a b : Z) : 0 <= a < b -> 2 ^ a < 2 ^ b.
Proof. intros. apply Z.pow_lt_mono_r; lia. Qed.

Lemma log2_mul_pow2 (m k : Z) : 0 < m -> 0 <= k -> Z.log2 (m * 2 ^ k) = Z.log2 m + k.
Proof. intros Hm Hk. rewrite Z.log2_mul_pow2 by assumption. lia. Qed.

Lemma log2_div_pow2 (m k : Z) :
  0 < m -> 0 <= k <= Z.log2 m -> Z.log2 (m / 2 ^ k) = Z.log2 m - k.
Proof.
  intros Hm Hk. rewrite <- Z.shiftr_div_pow2 by lia.
  rewrite Z.log2_shiftr by lia. lia.
Qed.

(** ** The right shift with its round and sticky bits *)

Lemma iter_pos_nat {A : Type} (f : A -> A) (p : positive) (x : A) :
  SpecFloat.iter_pos f p x = Nat.iter (Pos.to_nat p) f x.
Proof.
  revert x. induction p as [p IH | p IH |]; intros x; cbn [SpecFloat.iter_pos].
  - rewrite !IH. rewrite Pos2Nat.inj_xI.
    replace (Datatypes.S (2 * Pos.to_nat p)) with (Datatypes.S (Pos.to_nat p + Pos.to_nat p))
      by lia.
    rewrite Nat.iter_succ_r, Nat.iter_add. reflexivity.
  - rewrite !IH. rewrite Pos2Nat.inj_xO.
    replace (2 * Pos.to_nat p)%nat with (Pos.to_nat p + Pos.to_nat p)%nat by lia.
    rewrite Nat.iter_add. reflexivity.
  - reflexivity.
Qed.

Lemma shr_1_spec (m : Z) (r s : bool) :
  0 <= m ->
  shr_1 (Build_shr_record m r s) = Build_shr_record (m / 2) (Z.odd m) (r || s).
Proof.
  intros Hm. rewrite <- Z.div2_div.
  destruct m as [| [p | p |] | p]; try reflexivity. lia.
Qed.

Lemma iter_shr_1 (k : nat) (m : Z) :
  0 <= m ->
  Nat.iter (Datatypes.S k) shr_1 (Build_shr_record m false false) =
    Build_shr_record (m / 2 ^ (Z.of_nat k + 1))
                     (Z.odd (m / 2 ^ Z.of_nat k))
                     (negb (m mod 2 ^ Z.of_nat k =? 0)).
Proof.
  intros Hm. induction k as [| k IH].
  - cbn [Nat.iter]. rewrite shr_1_spec by assumption.
    change (Z.of_nat 0) with 0. rewrite Z.pow_0_r, Z.div_1_r, Z.mod_1_r.
    reflexivity.
  - rewrite Nat.iter_succ, IH.
    assert (Hk : 0 < 2 ^ Z.of_nat k) by (apply pow2_pos; lia).
    assert (Hk1 : 0 < 2 ^ (Z.of_nat k + 1)) by (apply pow2_pos; lia).
    rewrite shr_1_spec by (apply Z.div_pos; lia).
    replace (Z.of_nat (Datatypes.S k)) with (Z.of_nat k + 1) by lia.
    f_equal.
    + rewrite Z.div_div by lia.
      rewrite (pow2_split (Z.of_nat k + 1) 1) by lia. reflexivity.
    + rewrite (pow2_split (Z.of_nat k) 1) by lia. change (2 ^ 1) with 2.
      rewrite Z.rem_mul_r by lia.
      rewrite (Zmod_odd (m / 2 ^ Z.of_nat k)).
      pose proof (Z.mod_pos_bound m (2 ^ Z.of_nat k) Hk) as Hlo.
      destruct (Z.odd (m / 2 ^ Z.of_nat k)); simpl.
      * symmetry. apply negb_true_iff. apply Z.eqb_neq. lia.
      * rewrite Z.mul_0_r, Z.add_0_r. reflexivity.
Qed.

Lemma shr_spec (m e : Z) (t : Z) :
  0 <= m -> 0 < t ->
  shr (Build_shr_record m false false) e t =
    (Build_shr_record (m / 2 ^ t) (Z.odd (m / 2 ^ (t - 1)))
                      (negb (m mod 2 ^ (t - 1) =? 0)),
     e + t).
Proof.
  intros Hm Ht. destruct t as [| p | p]; try lia.
  cbn [shr]. rewrite iter_pos_nat.
  destruct (Pos.to_nat p) as [| k] eqn:Hp; [lia |].
  rewrite iter_shr_1 by assumption.
  replace (Z.of_nat k + 1) with (Z.pos p) by lia.
  replace (Z.of_nat k) with (Z.pos p - 1) by lia. reflexivity.
Qed.

(** The location bits, read as the comparison of the remainder with one
    half. *)
Lemma rne_loc (m t : Z) :
  0 <= m -> 0 < t ->
  round_nearest_even (m / 2 ^ t)
    (loc_of_shr_record
       (Build_shr_record (m / 2 ^ t) (Z.odd (m / 2 ^ (t - 1)))
                         (negb (m mod 2 ^ (t - 1) =? 0)))) =
  rne (m / 2 ^ t) (m mod 2 ^ t) t.
Proof.
  intros Hm Ht. unfold rne.
  assert (Hh : 0 < 2 ^ (t - 1)) by (apply pow2_pos; lia).
  assert (Hrem : m mod 2 ^ t =
                 m mod 2 ^ (t - 1) + 2 ^ (t - 1) * ((m / 2 ^ (t - 1)) mod 2)).
  { replace t with ((t - 1) + 1) at 1 by lia.
    rewrite (pow2_split (t - 1) 1) by lia. change (2 ^ 1) with 2.
    apply Z.rem_mul_r; lia. }
  rewrite (Zmod_odd (m / 2 ^ (t - 1))) in Hrem.
  pose proof (Z.mod_pos_bound m (2 ^ (t - 1)) Hh) as Hlo.
  destruct (Z.odd (m / 2 ^ (t - 1))); cbn [loc_of_shr_record].
  - destruct (Z.eqb_spec (m mod 2 ^ (t - 1)) 0) as [Hz | Hnz]; cbn [negb round_nearest_even].
    + destruct (Z.ltb_spec (m mod 2 ^ t) (2 ^ (t - 1))); [lia |].
      destruct (Z.ltb_spec (2 ^ (t - 1)) (m mod 2 ^ t)); [lia |]. reflexivity.
    + destruct (Z.ltb_spec (m mod 2 ^ t) (2 ^ (t - 1))); [lia |].
      destruct (Z.ltb_spec (2 ^ (t - 1)) (m mod 2 ^ t)); [reflexivity | lia].
  - destruct (Z.eqb_spec (m mod 2 ^ (t - 1)) 0) as [Hz | Hnz]; cbn [negb round_nearest_even].
    + destruct (Z.ltb_spec (m mod 2 ^ t) (2 ^ (t - 1))); [reflexivity | lia].
    + destruct (Z.ltb_spec (m mod 2 ^ t) (2 ^ (t - 1))); [reflexivity | lia].
Qed.

(** ** [binary_round] is [round32] *)

Lemma fexp32 (e : Z) : fexp F32.prec F32.emax e = Z.max (e - 24) (-149).
Proof. reflexivity. Qed.

Lemma Zdigits2_pos (m : positive) : Zdigits2 (Z.pos m) = Z.log2 (Z.pos m) + 1.
Proof. cbn [Zdigits2]. apply digits2_pos_log2. Qed.

(** No shift: the mantissa is already in its place. *)
Lemma binary_round_aux_fit (s : bool) (m : positive) (e : Z) :
  Z.max (Z.log2 (Z.pos m) + 1 + e - 24) (-149) = e ->
  binary_round_aux F32.prec F32.emax s (Z.pos m) e loc_Exact =
    if e <=? 104 then S754_finite s m e else S754_infinity s.
Proof.
  intros Hfit. unfold binary_round_aux, shr_fexp.
  rewrite Zdigits2_pos, fexp32, Hfit, Z.sub_diag.
  cbn [shr shr_record_of_loc shr_m loc_of_shr_record round_nearest_even].
  rewrite Zdigits2_pos, fexp32, Hfit, Z.sub_diag.
  cbn [shr shr_record_of_loc shr_m]. reflexivity.
Qed.

Lemma rne_range (q r n : Z) : q <= rne q r n <= q + 1.
Proof.
  unfold rne. destruct (r <? 2 ^ (n - 1)); [lia |].
  destruct (2 ^ (n - 1) <? r); [lia |]. destruct (Z.even q); lia.
Qed.

(** A shift by [t > 0] bits, then the rounding, then the carry. *)
Lemma binary_round_aux_shift (s : bool) (m : positive) (e t : Z) :
  t = Z.log2 (Z.pos m) + 1 - 24 -> 0 < t -> -149 <= e + t ->
  binary_round_aux F32.prec F32.emax s (Z.pos m) e loc_Exact =
    let q := rne (Z.pos m / 2 ^ t) (Z.pos m mod 2 ^ t) t in
    if q =? 2 ^ 24 then
      if e + t + 1 <=? 104 then S754_finite s (Z.to_pos (2 ^ 23)) (e + t + 1)
      else S754_infinity s
    else
      if e + t <=? 104 then S754_finite s (Z.to_pos q) (e + t)
      else S754_infinity s.
Proof.
  intros Ht Hpos He.
  assert (Hlog : Z.log2 (Z.pos m / 2 ^ t) = 23).
  { rewrite log2_div_pow2 by lia. lia. }
  assert (Hq0 : 0 < Z.pos m / 2 ^ t).
  { destruct (Z.le_gt_cases (Z.pos m / 2 ^ t) 0) as [Hle | Hgt]; [| lia].
    rewrite (Z.log2_nonpos _ Hle) in Hlog. lia. }
  pose proof (log2_bounds _ Hq0) as Hqb. rewrite Hlog in Hqb.
  change (2 ^ 23) with 8388608 in Hqb. change (2 ^ (23 + 1)) with 16777216 in Hqb.
  unfold binary_round_aux, shr_fexp.
  rewrite Zdigits2_pos, fexp32.
  replace (Z.max (Z.log2 (Z.pos m) + 1 + e - 24) (-149) - e) with t by lia.
  cbn [shr_record_of_loc]. rewrite shr_spec by lia.
  cbn [shr_m]. rewrite rne_loc by lia.
  cbv zeta.
  pose proof (rne_range (Z.pos m / 2 ^ t) (Z.pos m mod 2 ^ t) t) as Hr.
  set (q := rne (Z.pos m / 2 ^ t) (Z.pos m mod 2 ^ t) t) in *.
  change (2 ^ 24) with 16777216. change (2 ^ 23) with 8388608.
  destruct (Z.eqb_spec q 16777216) as [Hcarry | Hnocarry].
  - rewrite Hcarry. unfold shr_fexp.
    change (Zdigits2 16777216) with 25. rewrite fexp32.
    replace (Z.max (25 + (e + t) - 24) (-149) - (e + t)) with 1 by lia.
    cbn [shr_record_of_loc shr SpecFloat.iter_pos shr_1 shr_m].
    change (F32.emax - F32.prec) with 104. reflexivity.
  - destruct q as [| qp | qp] eqn:Hq; try lia.
    assert (Hlq : Z.log2 (Z.pos qp) = 23).
    { apply Z.log2_unique; [lia |]. change (2 ^ 23) with 8388608.
      change (2 ^ (23 + 1)) with 16777216. lia. }
    unfold shr_fexp. rewrite Zdigits2_pos, fexp32, Hlq.
    replace (Z.max (23 + 1 + (e + t) - 24) (-149) - (e + t)) with 0 by lia.
    cbn [shr_record_of_loc shr shr_m].
    change (F32.emax - F32.prec) with 104. reflexivity.
Qed.

Lemma pos_iter_xO (m d : positive) : Z.pos (Pos.iter xO m d) = Z.pos m * 2 ^ Z.pos d.
Proof.
  rewrite <- Z.shiftl_mul_pow2 by lia. cbn [Z.shiftl].
  apply (Pos.iter_swap_gen _ _ Z.pos xO (Z.mul 2)). reflexivity.
Qed.

Lemma shl_align_spec (m : positive) (e e' : Z) :
  let '(mz, ez) := shl_align m e e' in
  ez = Z.min e e' /\ Z.pos mz = Z.pos m * 2 ^ (e - Z.min e e').
Proof.
  unfold shl_align. destruct (e' - e) as [| d | d] eqn:Hd.
  - split; [lia |]. replace (e - Z.min e e') with 0 by lia. lia.
  - split; [lia |]. replace (e - Z.min e e') with 0 by lia. lia.
  - split; [lia |]. rewrite pos_iter_xO. f_equal. f_equal. lia.
Qed.

Lemma rne_exact (q n : Z) : 0 < n -> rne q 0 n = q.
Proof.
  intros Hn. unfold rne.
  pose proof (pow2_pos (n - 1) ltac:(lia)).
  destruct (Z.ltb_spec 0 (2 ^ (n - 1))); [reflexivity | lia].
Qed.

Lemma rne_scale (q r t E : Z) :
  0 < t -> 0 <= E -> rne q (r * 2 ^ E) (t + E) = rne q r t.
Proof.
  intros Ht HE. unfold rne.
  replace (t + E - 1) with (t - 1 + E) by lia.
  rewrite (pow2_split (t - 1) E) by lia.
  pose proof (pow2_pos E HE) as HpE.
  destruct (Z.ltb_spec r (2 ^ (t - 1))), (Z.ltb_spec (r * 2 ^ E) (2 ^ (t - 1) * 2 ^ E));
    try nia; try reflexivity.
  destruct (Z.ltb_spec (2 ^ (t - 1)) r), (Z.ltb_spec (2 ^ (t - 1) * 2 ^ E) (r * 2 ^ E));
    try nia; reflexivity.
Qed.

Theorem binary_round_round32 (s : bool) (m : positive) (e : Z) :
  -149 <= e ->
  binary_round F32.prec F32.emax s m e = round32 s (Z.pos m * 2 ^ (e + 149)).
Proof.
  intros He. unfold binary_round, round32.
  pose proof (pow2_pos (e + 149) ltac:(lia)) as HpE.
  assert (HN : 0 < Z.pos m * 2 ^ (e + 149)) by lia.
  rewrite (log2_mul_pow2 (Z.pos m) (e + 149)) by lia.
  rewrite digits2_pos_log2, fexp32.
  set (D := Z.log2 (Z.pos m) + (e + 149) + 1).
  replace (Z.log2 (Z.pos m) + 1 + e - 24) with (D - 24 - 149) by (unfold D; lia).
  pose proof (shl_align_spec m e (Z.max (D - 24 - 149) (-149))) as Hal.
  destruct (shl_align m e (Z.max (D - 24 - 149) (-149))) as [mz ez].
  destruct Hal as [Hez Hmz].
  assert (Hlz : Z.log2 (Z.pos mz) = Z.log2 (Z.pos m) + (e - ez)).
  { rewrite Hmz. rewrite log2_mul_pow2 by lia. lia. }
  destruct (Z.leb_spec D 24) as [Hsmall | Hbig].
  - (* the subnormal range: exact *)
    assert (Hz : ez = -149) by lia. clear Hez. subst ez.
    replace (e - Z.min e (Z.max (D - 24 - 149) (-149))) with (e + 149) in Hmz by lia.
    rewrite binary_round_aux_fit by (unfold D in *; lia).
    rewrite <- Hmz. reflexivity.
  - set (n := D - 24) in *.
    assert (Hn : 0 < n) by (unfold n; lia).
    pose proof (pow2_pos n ltac:(lia)) as Hpn.
    destruct (Z.le_gt_cases (n - 149) e) as [Hleft | Hright].
    + (* the sum is a multiple of [2^n]: exact *)
      assert (Hz : ez = n - 149) by lia. clear Hez. subst ez.
      assert (HNz : Z.pos m * 2 ^ (e + 149) = Z.pos mz * 2 ^ n).
      { rewrite Hmz. rewrite <- Z.mul_assoc. rewrite <- pow2_split by lia.
        f_equal. f_equal. lia. }
      rewrite binary_round_aux_fit by (unfold n, D in *; lia).
      rewrite HNz. rewrite Z.div_mul by lia. rewrite Z.mod_mul by lia.
      rewrite rne_exact by lia.
      assert (Hmzb : Z.pos mz < 2 ^ 24).
      { pose proof (log2_bounds (Z.pos mz) ltac:(lia)) as Hb.
        replace (Z.log2 (Z.pos mz) + 1) with 24 in Hb by (unfold n, D in *; lia).
        lia. }
      destruct (Z.eqb_spec (Z.pos mz) (2 ^ 24)); [lia |].
      replace (n - 149 <=? 104) with (n <=? 253) by
        (destruct (Z.leb_spec (n - 149) 104), (Z.leb_spec n 253); lia || reflexivity).
      reflexivity.
    + (* bits are shifted out *)
      assert (Hz : ez = e) by lia. clear Hez. subst ez.
      assert (Hmz' : mz = m).
      { replace (e - Z.min e (Z.max (n - 149) (-149))) with 0 in Hmz by lia.
        rewrite Z.pow_0_r in Hmz. lia. }
      subst mz.
      set (t := n - (e + 149)).
      assert (Ht : 0 < t) by (unfold t; lia).
      rewrite (binary_round_aux_shift s m e t) by (unfold t, n, D in *; lia).
      cbv zeta.
      replace n with (t + (e + 149)) by (unfold t; lia).
      rewrite (pow2_split t (e + 149)) by lia.
      pose proof (pow2_pos t ltac:(lia)) as Hpt.
      rewrite Z.div_mul_cancel_r by lia.
      rewrite Z.mul_mod_distr_r by lia.
      rewrite rne_scale by lia.
      replace (e + t + 1) with (t + (e + 149) + 1 - 149) by lia.
      replace (e + t) with (t + (e + 149) - 149) by lia.
      set (n' := t + (e + 149)).
      replace (n' + 1 - 149 <=? 104) with (n' + 1 <=? 253) by
        (destruct (Z.leb_spec (n' + 1 - 149) 104), (Z.leb_spec (n' + 1) 253);
         lia || reflexivity).
      replace (n' - 149 <=? 104) with (n' <=? 253) by
        (destruct (Z.leb_spec (n' - 149) 104), (Z.leb_spec n' 253); lia || reflexivity).
      reflexivity.
Qed.

(** ** Valid values *)

Lemma bounded_iff (m : positive) (e : Z) :
  bounded F32.prec F32.emax m e = true <->
  -149 <= e <= 104 /\ Z.log2 (Z.pos m) <= 23 /\ (Z.log2 (Z.pos m) = 23 \/ e = -149).
Proof.
  unfold bounded, canonical_mantissa. rewrite digits2_pos_log2, fexp32.
  change (F32.emax - F32.prec) with 104.
  rewrite andb_true_iff, Z.eqb_eq, Z.leb_le. lia.
Qed.

Lemma finite_val_bounds (m : positive) (e : Z) :
  bounded F32.prec F32.emax m e = true ->
  2 ^ (Z.log2 (Z.pos m) + e + 149) <= Z.pos m * 2 ^ (e + 149) < 2 ^ (Z.log2 (Z.pos m) + e + 150) /\
  0 < Z.pos m * 2 ^ (e + 149) < 2 ^ 277.
Proof.
  intros Hb. apply bounded_iff in Hb as (He & Hl & Hc).
  pose proof (log2_bounds (Z.pos m) ltac:(lia)) as Hm.
  pose proof (Z.log2_nonneg (Z.pos m)) as Hl0.
  pose proof (pow2_pos (e + 149) ltac:(lia)) as HpE.
  assert (H1 : 2 ^ (Z.log2 (Z.pos m) + e + 149) = 2 ^ Z.log2 (Z.pos m) * 2 ^ (e + 149)).
  { rewrite <- pow2_split by lia. f_equal. lia. }
  assert (H2 : 2 ^ (Z.log2 (Z.pos m) + e + 150) = 2 ^ (Z.log2 (Z.pos m) + 1) * 2 ^ (e + 149)).
  { rewrite <- pow2_split by lia. f_equal. lia. }
  assert (H3 : 2 ^ (Z.log2 (Z.pos m) + e + 150) <= 2 ^ 277) by (apply pow2_le; lia).
  rewrite H1, H2 in *. nia.
Qed.

Lemma round32_valid (s : bool) (N : Z) :
  0 < N -> F32.valid (round32 s N) = true.
Proof.
  intros HN. unfold round32, F32.valid.
  destruct (Z.leb_spec (Z.log2 N + 1) 24) as [Hsmall | Hbig].
  - cbn [valid_binary]. apply bounded_iff. rewrite Z2Pos.id by lia. lia.
  - set (n := Z.log2 N + 1 - 24).
    assert (Hlog : Z.log2 (N / 2 ^ n) = 23).
    { rewrite log2_div_pow2 by (unfold n; lia). unfold n. lia. }
    assert (Hq0 : 0 < N / 2 ^ n).
    { destruct (Z.le_gt_cases (N / 2 ^ n) 0) as [Hle | Hgt]; [| lia].
      rewrite (Z.log2_nonpos _ Hle) in Hlog. lia. }
    pose proof (log2_bounds _ Hq0) as Hqb. rewrite Hlog in Hqb.
    pose proof (rne_range (N / 2 ^ n) (N mod 2 ^ n) n) as Hr.
    set (q := rne (N / 2 ^ n) (N mod 2 ^ n) n) in *.
    change (2 ^ 23) with 8388608 in *. change (2 ^ (23 + 1)) with 16777216 in *.
    change (2 ^ 24) with 16777216.
    destruct (Z.eqb_spec q 16777216) as [Hcarry | Hnocarry].
    + destruct (Z.leb_spec (n + 1) 253); [| reflexivity].
      cbn [valid_binary]. apply bounded_iff.
      change (Z.log2 (Z.pos (Z.to_pos 8388608))) with 23. unfold n in *. lia.
    + destruct (Z.leb_spec n 253); [| reflexivity].
      cbn [valid_binary]. apply bounded_iff. rewrite Z2Pos.id by lia.
      assert (Hlq : Z.log2 q = 23).
      { apply Z.log2_unique; [lia |]. change (2 ^ 23) with 8388608.
        change (2 ^ (23 + 1)) with 16777216. lia. }
      unfold n in *. lia.
Qed.

(** A valid finite value is the rounding of its own value. *)
Lemma round32_exact (s : bool) (m : positive) (e : Z) :
  bounded F32.prec F32.emax m e = true ->
  round32 s (Z.pos m * 2 ^ (e + 149)) = S754_finite s m e.
Proof.
  intros Hb. pose proof Hb as Hb'. apply bounded_iff in Hb' as (He & Hl & Hc).
  rewrite <- binary_round_round32 by lia.
  unfold binary_round. rewrite digits2_pos_log2, fexp32.
  replace (Z.max (Z.log2 (Z.pos m) + 1 + e - 24) (-149)) with e by lia.
  unfold shl_align. rewrite Z.sub_diag.
  rewrite binary_round_aux_fit by lia.
  destruct (Z.leb_spec e 104); [reflexivity | lia].
Qed.

(** ** The value of a rounding *)

Lemma rint_big (N : Z) :
  0 < N -> 24 < Z.log2 N + 1 ->
  let n := Z.log2 N + 1 - 24 in
  2 ^ 23 <= N / 2 ^ n < 2 ^ 24 /\ 0 < 2 ^ n /\
  N = N / 2 ^ n * 2 ^ n + N mod 2 ^ n /\ 0 <= N mod 2 ^ n < 2 ^ n.
Proof.
  intros HN Hbig n.
  assert (Hn : 0 < n) by (unfold n; lia).
  pose proof (pow2_pos n ltac:(lia)) as Hpn.
  assert (Hlog : Z.log2 (N / 2 ^ n) = 23).
  { rewrite log2_div_pow2 by (unfold n; lia). unfold n. lia. }
  assert (Hq0 : 0 < N / 2 ^ n).
  { destruct (Z.le_gt_cases (N / 2 ^ n) 0) as [Hle | Hgt]; [| lia].
    rewrite (Z.log2_nonpos _ Hle) in Hlog. lia. }
  pose proof (log2_bounds _ Hq0) as Hqb. rewrite Hlog in Hqb.
  change (23 + 1) with 24 in Hqb.
  split; [exact Hqb |]. split; [exact Hpn |]. split.
  - rewrite Z.mul_comm. apply Z.div_mod. lia.
  - apply Z.mod_pos_bound. lia.
Qed.

Lemma rint_bounds (N : Z) :
  0 < N -> 2 ^ Z.log2 N <= rint N <= 2 ^ (Z.log2 N + 1).
Proof.
  intros HN. unfold rint.
  destruct (Z.leb_spec (Z.log2 N + 1) 24) as [Hsmall | Hbig].
  - pose proof (log2_bounds N HN). lia.
  - destruct (rint_big N HN Hbig) as (Hq & Hpn & _ & _).
    set (n := Z.log2 N + 1 - 24) in *.
    pose proof (rne_range (N / 2 ^ n) (N mod 2 ^ n) n) as Hr.
    replace (Z.log2 N) with (23 + n) at 1 by (unfold n; lia).
    replace (Z.log2 N + 1) with (24 + n) by (unfold n; lia).
    rewrite !pow2_split by (unfold n; lia). nia.
Qed.

Lemma rne_mono_r (q r r' n : Z) : r <= r' -> rne q r n <= rne q r' n.
Proof.
  intros Hr. unfold rne.
  destruct (Z.ltb_spec r (2 ^ (n - 1))), (Z.ltb_spec r' (2 ^ (n - 1)));
    destruct (Z.ltb_spec (2 ^ (n - 1)) r), (Z.ltb_spec (2 ^ (n - 1)) r');
    destruct (Z.even q); lia.
Qed.

Lemma rint_mono (N N' : Z) : 0 < N -> N <= N' -> rint N <= rint N'.
Proof.
  intros HN Hle. assert (HN' : 0 < N') by lia.
  pose proof (Z.log2_le_mono N N' Hle) as Hlog.
  destruct (Z.eq_dec (Z.log2 N) (Z.log2 N')) as [Heq | Hne].
  - unfold rint. rewrite <- Heq.
    destruct (Z.leb_spec (Z.log2 N + 1) 24) as [Hsmall | Hbig]; [assumption |].
    assert (Hbig' : 24 < Z.log2 N' + 1) by lia.
    pose proof (rint_big N HN Hbig) as H. pose proof (rint_big N' HN' Hbig') as H'.
    rewrite <- Heq in H'. cbv zeta in H, H'.
    set (n := Z.log2 N + 1 - 24) in *.
    destruct H as (Hq & Hpn & Hdiv & Hmod). destruct H' as (Hq' & _ & Hdiv' & Hmod').
    apply Z.mul_le_mono_nonneg_r; [lia |].
    assert (Hqq : N / 2 ^ n <= N' / 2 ^ n) by (apply Z.div_le_mono; lia).
    destruct (Z.eq_dec (N / 2 ^ n) (N' / 2 ^ n)) as [Hqeq | Hqne].
    + rewrite <- Hqeq. apply rne_mono_r. rewrite <- Hqeq in Hdiv'. lia.
    + pose proof (rne_range (N / 2 ^ n) (N mod 2 ^ n) n).
      pose proof (rne_range (N' / 2 ^ n) (N' mod 2 ^ n) n). lia.
  - pose proof (rint_bounds N HN) as Hb. pose proof (rint_bounds N' HN') as Hb'.
    assert (Hp : 2 ^ (Z.log2 N + 1) <= 2 ^ Z.log2 N').
    { apply pow2_le. pose proof (Z.log2_nonneg N). lia. }
    lia.
Qed.


Lemma sval_round32 (s : bool) (N : Z) :
  0 < N -> sval (round32 s N) = cond_Zopp s (Z.min (rint N) (2 ^ 277)).
Proof.
  intros HN. unfold round32, rint.
  destruct (Z.leb_spec (Z.log2 N + 1) 24) as [Hsmall | Hbig].
  - cbn [sval]. rewrite Z2Pos.id by lia. change (-149 + 149) with 0.
    rewrite Z.pow_0_r, Z.mul_1_r.
    pose proof (log2_bounds N HN) as Hb.
    assert (2 ^ (Z.log2 N + 1) <= 2 ^ 277)
      by (apply pow2_le; pose proof (Z.log2_nonneg N); lia).
    f_equal. lia.
  - destruct (rint_big N HN Hbig) as (Hq & Hpn & _ & _).
    set (n := Z.log2 N + 1 - 24) in *.
    assert (Hn : 0 < n) by (unfold n; lia).
    pose proof (rne_range (N / 2 ^ n) (N mod 2 ^ n) n) as Hr.
    set (q := rne (N / 2 ^ n) (N mod 2 ^ n) n) in *.
    destruct (Z.eqb_spec q (2 ^ 24)) as [Hcarry | Hnocarry].
    + rewrite Hcarry. destruct (Z.leb_spec (n + 1) 253) as [Hfin | Hovf].
      * cbn [sval]. change (Z.pos (Z.to_pos (2 ^ 23))) with (2 ^ 23).
        replace (n + 1 - 149 + 149) with (1 + n) by lia.
        rewrite (pow2_split 1 n) by lia.
        assert (2 ^ (24 + n) <= 2 ^ 276) by (apply pow2_le; lia).
        rewrite (pow2_split 24 n) in * by lia.
        assert (2 ^ 276 < 2 ^ 277) by (apply pow2_lt; lia).
        change (2 ^ 23 * (2 ^ 1 * 2 ^ n)) with (2 ^ 23 * (2 * 2 ^ n)).
        change (2 ^ 23) with 8388608. change (2 ^ 24) with 16777216 in *.
        f_equal. lia.
      * cbn [sval].
        assert (2 ^ 277 <= 2 ^ (24 + n)) by (apply pow2_le; lia).
        rewrite (pow2_split 24 n) in * by lia. f_equal. lia.
    + destruct (Z.leb_spec n 253) as [Hfin | Hovf].
      * cbn [sval]. rewrite Z2Pos.id by lia.
        replace (n - 149 + 149) with n by lia.
        assert (2 ^ (24 + n) <= 2 ^ 277) by (apply pow2_le; lia).
        rewrite (pow2_split 24 n) in * by lia. f_equal. nia.
      * cbn [sval].
        assert (2 ^ 277 <= 2 ^ (23 + n)) by (apply pow2_le; lia).
        rewrite (pow2_split 23 n) in * by lia. f_equal. nia.
Qed.

(** ** Comparison *)

Lemma exp_lt_val (m1 : positive) (e1 : Z) (m2 : positive) (e2 : Z) :
  bounded F32.prec F32.emax m1 e1 = true ->
  bounded F32.prec F32.emax m2 e2 = true ->
  e1 < e2 ->
  Z.pos m1 * 2 ^ (e1 + 149) < Z.pos m2 * 2 ^ (e2 + 149).
Proof.
  intros Hb1 Hb2 Hlt.
  pose proof (finite_val_bounds _ _ Hb1) as [[_ Hu] _].
  pose proof (finite_val_bounds _ _ Hb2) as [[Hl _] _].
  apply bounded_iff in Hb1 as (He1 & Hl1 & _).
  apply bounded_iff in Hb2 as (He2 & Hl2 & Hc2).
  assert (Z.log2 (Z.pos m2) = 23) by lia.
  assert (2 ^ (Z.log2 (Z.pos m1) + e1 + 150) <= 2 ^ (Z.log2 (Z.pos m2) + e2 + 149)).
  { apply pow2_le. pose proof (Z.log2_nonneg (Z.pos m1)). lia. }
  lia.
Qed.

Lemma pos_compare (m1 : positive) (e1 : Z) (m2 : positive) (e2 : Z) :
  bounded F32.prec F32.emax m1 e1 = true ->
  bounded F32.prec F32.emax m2 e2 = true ->
  match e1 ?= e2 with
  | Lt => Lt
  | Gt => Gt
  | Eq => Pos.compare_cont Eq m1 m2
  end = (Z.pos m1 * 2 ^ (e1 + 149) ?= Z.pos m2 * 2 ^ (e2 + 149)).
Proof.
  intros Hb1 Hb2. destruct (Z.compare_spec e1 e2) as [Heq | Hlt | Hgt].
  - subst e2. pose proof Hb1 as Hb. apply bounded_iff in Hb as (He & _).
    rewrite <- Zmult_compare_compat_r by (apply Z.lt_gt, pow2_pos; lia). reflexivity.
  - symmetry. apply Z.compare_lt_iff. apply exp_lt_val; assumption.
  - symmetry. apply Z.compare_gt_iff. apply exp_lt_val; assumption.
Qed.

Lemma compare_sval (x y : float) :
  F32.valid x = true -> F32.valid y = true ->
  is_nan x = false -> is_nan y = false ->
  SFcompare x y = Some (sval x ?= sval y).
Proof.
  intros Hx Hy Hnx Hny.
  destruct x as [sx | sx | | sx mx ex]; try discriminate;
    destruct y as [sy | sy | | sy my ey]; try discriminate;
    unfold F32.valid in *; cbn [valid_binary] in *; cbn [SFcompare sval].
  - reflexivity.
  - destruct sy; reflexivity.
  - pose proof (finite_val_bounds _ _ Hy) as [_ Hb]. f_equal. symmetry.
    destruct sy; cbn [cond_Zopp];
      solve_cmp; lia.
  - destruct sx; reflexivity.
  - destruct sx, sy; reflexivity.
  - pose proof (finite_val_bounds _ _ Hy) as [_ Hb]. f_equal. symmetry.
    destruct sx, sy; cbn [cond_Zopp];
      solve_cmp; lia.
  - pose proof (finite_val_bounds _ _ Hx) as [_ Hb]. f_equal. symmetry.
    destruct sx; cbn [cond_Zopp];
      solve_cmp; lia.
  - pose proof (finite_val_bounds _ _ Hx) as [_ Hb]. f_equal. symmetry.
    destruct sx, sy; cbn [cond_Zopp];
      solve_cmp; lia.
  - pose proof (finite_val_bounds _ _ Hx) as [_ Hbx].
    pose proof (finite_val_bounds _ _ Hy) as [_ Hby].
    f_equal. destruct sx, sy; cbn [cond_Zopp].
    + rewrite Z.compare_opp. rewrite <- (pos_compare my ey mx ex) by assumption.
      rewrite (Z.compare_antisym ex ey). rewrite (ZC4 my mx).
      destruct (ex ?= ey); reflexivity.
    + symmetry. solve_cmp; lia.
    + symmetry. solve_cmp; lia.
    + apply pos_compare; assumption.
Qed.

Lemma ltb_sval (x y : float) :
  F32.valid x = true -> F32.valid y = true ->
  is_nan x = false -> is_nan y = false ->
  F32.ltb x y = (sval x <? sval y).
Proof.
  intros Hx Hy Hnx Hny. unfold F32.ltb, SFltb. rewrite compare_sval by assumption.
  unfold Z.ltb. destruct (sval x ?= sval y); reflexivity.
Qed.

Lemma leb_sval (x y : float) :
  F32.valid x = true -> F32.valid y = true ->
  is_nan x = false -> is_nan y = false ->
  F32.leb x y = (sval x <=? sval y).
Proof.
  intros Hx Hy Hnx Hny. unfold F32.leb, SFleb. rewrite compare_sval by assumption.
  unfold Z.leb. destruct (sval x ?= sval y); reflexivity.
Qed.



(** ** Values that a cell can hold *)

Lemma good_props (x : float) :
  good x = true ->
  F32.valid x = true /\ is_nan x = false /\ 0 <= sval x <= 2 ^ 277.
Proof.
  destruct x as [[|] | [|] | | [|] m e]; try discriminate; cbn [good]; intros H.
  - repeat split; try reflexivity; cbn [sval]; lia.
  - repeat split; try reflexivity; cbn [sval cond_Zopp]; lia.
  - pose proof (finite_val_bounds _ _ H) as [_ Hb].
    repeat split; try assumption; cbn [sval cond_Zopp]; lia.
Qed.

Lemma good_zero (x : float) : good x = true -> sval x = 0 -> x = F32.zero.
Proof.
  destruct x as [[|] | [|] | | [|] m e]; try discriminate; cbn [good sval cond_Zopp];
    intros H Hz.
  - reflexivity.
  - pose proof (finite_val_bounds _ _ H) as [_ Hb]. lia.
Qed.

Lemma good_inj (x y : float) :
  good x = true -> good y = true -> sval x = sval y -> x = y.
Proof.
  intros Hx Hy Heq.
  destruct (good_props x Hx) as (Hvx & Hnx & _).
  destruct (good_props y Hy) as (Hvy & Hny & _).
  pose proof (compare_sval x y Hvx Hvy Hnx Hny) as Hc.
  rewrite Heq, Z.compare_refl in Hc.
  destruct x as [[|] | [|] | | [|] mx ex]; try discriminate;
    destruct y as [[|] | [|] | | [|] my ey]; try discriminate;
    try reflexivity.
  cbn [SFcompare] in Hc.
  destruct (Z.compare_spec ex ey) as [He | He | He]; try discriminate.
  subst ey. f_equal. apply Pos.compare_eq. inversion Hc. reflexivity.
Qed.

Lemma max_zero_good (x : float) :
  F32.valid x = true -> good (F32.max F32.zero x) = true.
Proof.
  intros Hx. unfold F32.max, F32.ltb, SFltb.
  destruct x as [sx | [|] | | [|] m e]; try reflexivity; cbn [SFcompare good].
  exact Hx.
Qed.

Lemma max_zero_of_good (x : float) : good x = true -> F32.max F32.zero x = x.
Proof.
  destruct x as [[|] | [|] | | [|] m e]; try discriminate; reflexivity.
Qed.

Lemma round32_good (N : Z) : 0 < N -> good (round32 false N) = true.
Proof.
  intros HN. pose proof (round32_valid false N HN) as Hv.
  unfold round32 in *.
  repeat match goal with
         | |- context [if ?b then _ else _] => destruct b
         end; try reflexivity; exact Hv.
Qed.

Lemma round32_neg_not_pos (N : Z) : F32.ltb F32.zero (round32 true N) = false.
Proof.
  unfold round32.
  repeat match goal with
         | |- context [if ?b then _ else _] => destruct b
         end; reflexivity.
Qed.

(** ** Addition *)

Lemma cond_Zopp_mul (s : bool) (a b : Z) : cond_Zopp s (a * b) = cond_Zopp s a * b.
Proof. destruct s; cbn [cond_Zopp]; lia. Qed.

Lemma add_finite_finite (sx : bool) (mx : positive) (ex : Z)
    (sy : bool) (my : positive) (ey : Z) :
  bounded F32.prec F32.emax mx ex = true ->
  bounded F32.prec F32.emax my ey = true ->
  let x := S754_finite sx mx ex in
  let y := S754_finite sy my ey in
  let N := sval x + sval y in
  (0 < N -> F32.add x y = round32 false N) /\
  (N < 0 -> F32.add x y = round32 true (- N)) /\
  (N = 0 -> F32.add x y = S754_zero false).
Proof.
  intros Hbx Hby x y N.
  pose proof Hbx as Hx. apply bounded_iff in Hx as (Hex & _).
  pose proof Hby as Hy. apply bounded_iff in Hy as (Hey & _).
  unfold F32.add, x, y. cbn [SFadd].
  set (ez := Z.min ex ey).
  pose proof (shl_align_spec mx ex ez) as Hax.
  pose proof (shl_align_spec my ey ez) as Hay.
  destruct (shl_align mx ex ez) as [mx' ex'].
  destruct (shl_align my ey ez) as [my' ey'].
  destruct Hax as [_ Hmx]. destruct Hay as [_ Hmy]. cbn [fst].
  replace (ex - Z.min ex ez) with (ex - ez) in Hmx by (unfold ez; lia).
  replace (ey - Z.min ey ez) with (ey - ez) in Hmy by (unfold ez; lia).
  assert (Hez : -149 <= ez) by (unfold ez; lia).
  pose proof (pow2_pos (ez + 149) ltac:(lia)) as Hpz.
  assert (HN : N = (cond_Zopp sx (Z.pos mx') + cond_Zopp sy (Z.pos my')) * 2 ^ (ez + 149)).
  { unfold N, x, y. cbn [sval].
    rewrite Z.mul_add_distr_r, <- !cond_Zopp_mul, Hmx, Hmy.
    rewrite <- !Z.mul_assoc, <- !pow2_split by (unfold ez; lia).
    replace (ex - ez + (ez + 149)) with (ex + 149) by lia.
    replace (ey - ez + (ez + 149)) with (ey + 149) by lia. reflexivity. }
  clearbody N. clear x y.
  destruct (cond_Zopp sx (Z.pos mx') + cond_Zopp sy (Z.pos my')) as [| p | p] eqn:Hsum;
    cbn [binary_normalize].
  - repeat split; intros; lia.
  - repeat split; intros; try lia.
    rewrite binary_round_round32 by lia. rewrite HN. reflexivity.
  - repeat split; intros; try lia.
    rewrite binary_round_round32 by lia. rewrite HN. f_equal. lia.
Qed.

(** Zeros and finite values. *)
Lemma add_finite (x y : float) :
  F32.valid x = true -> F32.valid y = true ->
  is_finite x = true -> is_finite y = true ->
  let N := sval x + sval y in
  (0 < N -> F32.add x y = round32 false N) /\
  (N < 0 -> F32.add x y = round32 true (- N)) /\
  (N = 0 -> exists s, F32.add x y = S754_zero s).
Proof.
  intros Hvx Hvy Hfx Hfy.
  destruct x as [sx | sx | | sx mx ex]; try discriminate;
    destruct y as [sy | sy | | sy my ey]; try discriminate;
    unfold F32.valid in *; cbn [valid_binary] in *.
  - cbn [sval]. repeat split; intros; try lia.
    destruct sx, sy; eexists; reflexivity.
  - pose proof (finite_val_bounds _ _ Hvy) as [_ Hb].
    cbn [sval]. cbv zeta. rewrite Z.add_0_l.
    change (F32.add (S754_zero sx) (S754_finite sy my ey)) with (S754_finite sy my ey).
    destruct sy; cbn [cond_Zopp]; repeat split; intros; try lia.
    + rewrite Z.opp_involutive. rewrite round32_exact by assumption. reflexivity.
    + rewrite round32_exact by assumption. reflexivity.
  - pose proof (finite_val_bounds _ _ Hvx) as [_ Hb].
    cbn [sval]. cbv zeta. rewrite Z.add_0_r.
    change (F32.add (S754_finite sx mx ex) (S754_zero sy)) with (S754_finite sx mx ex).
    destruct sx; cbn [cond_Zopp]; repeat split; intros; try lia.
    + rewrite Z.opp_involutive. rewrite round32_exact by assumption. reflexivity.
    + rewrite round32_exact by assumption. reflexivity.
  - destruct (add_finite_finite sx mx ex sy my ey Hvx Hvy) as (Hp & Hn & Hz).
    repeat split; intros; auto. eexists. apply Hz. assumption.
Qed.

Lemma add_valid (x y : float) :
  F32.valid x = true -> F32.valid y = true -> F32.valid (F32.add x y) = true.
Proof.
  intros Hvx Hvy.
  destruct (is_finite x) eqn:Hfx; [destruct (is_finite y) eqn:Hfy |].
  - destruct (add_finite x y Hvx Hvy Hfx Hfy) as (Hp & Hn & Hz).
    destruct (Z.lt_trichotomy 0 (sval x + sval y)) as [Hpos | [Hzero | Hneg]].
    + rewrite Hp by assumption. apply round32_valid. assumption.
    + destruct Hz as [s Hs]; [lia |]. rewrite Hs. reflexivity.
    + rewrite Hn by assumption. apply round32_valid. lia.
  - destruct x as [sx | sx | | sx mx ex]; try discriminate;
      destruct y as [sy | sy | | sy my ey]; try discriminate; reflexivity.
  - destruct x as [sx | sx | | sx mx ex]; try discriminate;
      destruct y as [sy | sy | | sy my ey]; try reflexivity.
    destruct sx, sy; reflexivity.
Qed.

(** The shapes of a valid value that is not a NaN. *)
Lemma shape (x : float) :
  F32.valid x = true -> is_nan x = false ->
  (x = S754_infinity true /\ sval x = - 2 ^ 277) \/
  (x = S754_infinity false /\ sval x = 2 ^ 277) \/
  (is_finite x = true /\ - 2 ^ 277 < sval x < 2 ^ 277).
Proof.
  intros Hv Hn. destruct x as [s | [|] | | s m e]; try discriminate.
  - right. right. split; [reflexivity |]. cbn [sval].
    pose proof (pow2_pos 277 ltac:(lia)). lia.
  - left. split; reflexivity.
  - right. left. split; reflexivity.
  - right. right. split; [reflexivity |].
    pose proof (finite_val_bounds _ _ Hv) as [_ Hb].
    cbn [sval]. destruct s; cbn [cond_Zopp]; lia.
Qed.

Lemma add_inf_l (y : float) :
  is_nan y = false -> y <> S754_infinity true ->
  F32.add (S754_infinity false) y = S754_infinity false.
Proof.
  intros Hn Hy. destruct y as [s | [|] | | s m e]; try discriminate; try reflexivity.
  contradiction.
Qed.

Lemma add_inf_r (x : float) :
  is_nan x = false -> x <> S754_infinity true ->
  F32.add x (S754_infinity false) = S754_infinity false.
Proof.
  intros Hn Hx. destruct x as [s | [|] | | s m e]; try discriminate; try reflexivity.
  contradiction.
Qed.

Lemma add_neg_inf_l (y : float) : F32.ltb F32.zero (F32.add (S754_infinity true) y) = false.
Proof. destruct y as [s | [|] | | s m e]; reflexivity. Qed.

Lemma add_neg_inf_r (x : float) : F32.ltb F32.zero (F32.add x (S754_infinity true)) = false.
Proof. destruct x as [s | [|] | | s m e]; reflexivity. Qed.

(** A positive sum can only grow when its terms grow. *)
Theorem add_mono (x y x' y' : float) :
  F32.valid x = true -> F32.valid y = true ->
  F32.valid x' = true -> F32.valid y' = true ->
  is_nan x = false -> is_nan y = false ->
  is_nan x' = false -> is_nan y' = false ->
  sval x <= sval x' -> sval y <= sval y' ->
  F32.ltb F32.zero (F32.add x y) = true ->
  good (F32.add x y) = true /\ good (F32.add x' y') = true /\
  sval (F32.add x y) <= sval (F32.add x' y').
Proof.
  intros Hvx Hvy Hvx' Hvy' Hnx Hny Hnx' Hny' Hxx Hyy Hpos.
  pose proof (pow2_pos 277 ltac:(lia)) as Hp277.
  destruct (shape x Hvx Hnx) as [[-> _] | [[-> Hsx] | [Hfx Hsx]]].
  { rewrite add_neg_inf_l in Hpos. discriminate. }
  { (* x is +inf *)
    destruct (shape y Hvy Hny) as [[-> _] | [Hy | Hy]]; [discriminate | |].
    all: assert (Hy1 : y <> S754_infinity true) by (intros ->; destruct Hy; discriminate || lia).
    all: assert (Hy2 : y' <> S754_infinity true)
      by (intros ->; cbn [sval cond_Zopp] in Hyy; destruct Hy as [_ Hy];
          cbn [sval cond_Zopp] in Hy; lia).
    all: assert (Hx' : x' = S754_infinity false)
      by (destruct (shape x' Hvx' Hnx') as [[-> Hs] | [[-> _] | [_ Hs]]];
          [cbn [sval cond_Zopp] in *; lia | reflexivity | lia]).
    all: subst x'; rewrite !add_inf_l by assumption;
      repeat split; try reflexivity; lia. }
  destruct (shape y Hvy Hny) as [[-> _] | [[-> Hsy] | [Hfy Hsy]]].
  { rewrite add_neg_inf_r in Hpos. discriminate. }
  { (* y is +inf *)
    assert (Hx1 : x <> S754_infinity true) by (intros ->; discriminate).
    assert (Hx2 : x' <> S754_infinity true)
      by (intros ->; cbn [sval cond_Zopp] in Hxx; lia).
    assert (Hy' : y' = S754_infinity false)
      by (destruct (shape y' Hvy' Hny') as [[-> Hs] | [[-> _] | [_ Hs]]];
          [cbn [sval cond_Zopp] in *; lia | reflexivity | lia]).
    subst y'. rewrite !add_inf_r by assumption.
    repeat split; try reflexivity; lia. }
  (* both finite *)
  destruct (add_finite x y Hvx Hvy Hfx Hfy) as (Hp & Hn & Hz).
  assert (HN : 0 < sval x + sval y).
  { destruct (Z.lt_trichotomy 0 (sval x + sval y)) as [H | [H | H]]; [assumption | |].
    - destruct Hz as [s Hs]; [lia |]. rewrite Hs in Hpos. destruct s; discriminate.
    - rewrite Hn in Hpos by assumption. rewrite round32_neg_not_pos in Hpos. discriminate. }
  rewrite Hp by assumption.
  split; [apply round32_good; assumption |].
  assert (Hle : sval (round32 false (sval x + sval y)) <= 2 ^ 277).
  { rewrite sval_round32 by assumption. cbn [cond_Zopp]. lia. }
  destruct (shape x' Hvx' Hnx') as [[-> Hsx'] | [[-> Hsx'] | [Hfx' Hsx']]]; [lia | |].
  { assert (Hy2 : y' <> S754_infinity true)
      by (intros ->; cbn [sval cond_Zopp] in Hyy; lia).
    rewrite add_inf_l by assumption. split; [reflexivity | exact Hle]. }
  destruct (shape y' Hvy' Hny') as [[-> Hsy'] | [[-> Hsy'] | [Hfy' Hsy']]]; [lia | |].
  { assert (Hx2 : x' <> S754_infinity true) by (intros ->; discriminate).
    rewrite add_inf_r by assumption. split; [reflexivity | exact Hle]. }
  destruct (add_finite x' y' Hvx' Hvy' Hfx' Hfy') as (Hp' & _ & _).
  rewrite Hp' by lia.
  split; [apply round32_good; lia |].
  rewrite !sval_round32 by lia. cbn [cond_Zopp].
  pose proof (rint_mono (sval x + sval y) (sval x' + sval y') HN ltac:(lia)). lia.
Qed.

(** * The recurrence on binary32 values *)

Lemma nonneg_props (c : float) :
  F32.valid c = true -> nonneg c -> is_nan c = false /\ 0 <= sval c.
Proof.
  intros Hv Hc. unfold nonneg in Hc.
  assert (Hn : is_nan c = false) by (destruct c; try reflexivity; discriminate).
  split; [exact Hn |].
  rewrite (leb_sval F32.zero c) in Hc by (reflexivity || assumption).
  apply Z.leb_le in Hc. exact Hc.
Qed.

Lemma pos_good (x : float) :
  F32.valid x = true -> is_nan x = false -> 0 < sval x -> good x = true.
Proof.
  intros Hv Hn Hp.
  pose proof (pow2_pos 277 ltac:(lia)) as Hp277.
  destruct x as [s | [|] | | [|] m e]; try discriminate; cbn [sval cond_Zopp] in Hp;
    try reflexivity; try exact Hv; lia.
Qed.

Lemma ltb_true_not_nan (x y : float) :
  F32.ltb x y = true -> is_nan x = false /\ is_nan y = false.
Proof.
  destruct x; try discriminate; destruct y; try discriminate; auto.
Qed.

Lemma good_ltb_zero (x : float) :
  good x = true -> F32.ltb F32.zero x = (0 <? sval x).
Proof.
  intros Hg. destruct (good_props x Hg) as (Hv & Hn & _).
  apply (ltb_sval F32.zero x); (reflexivity || assumption).
Qed.

Lemma add_zero_l_pos (c : float) :
  F32.valid c = true -> is_nan c = false -> 0 < sval c -> F32.add F32.zero c = c.
Proof.
  intros Hv Hn Hp. pose proof (pos_good c Hv Hn Hp) as Hg.
  destruct c as [[|] | [|] | | [|] m e]; try discriminate; try reflexivity;
    cbn [sval] in Hp; lia.
Qed.

Lemma add_zero_r_pos (a : float) :
  good a = true -> 0 < sval a -> F32.add a F32.zero = a.
Proof.
  intros Hg Hp.
  destruct a as [[|] | [|] | | [|] m e]; try discriminate; try reflexivity;
    cbn [sval] in Hp; lia.
Qed.

Section ConstantScore.
Variable c : float.
Hypothesis c_valid : F32.valid c = true.
Hypothesis c_nonneg : nonneg c.

Lemma add_good (a : float) : good a = true -> good (F32.add a c) = true.
Proof.
  intros Hg. destruct (good_props a Hg) as (Hva & Hna & Hsa).
  destruct (nonneg_props c c_valid c_nonneg) as (Hnc & Hsc).
  pose proof (pow2_pos 277 ltac:(lia)) as Hp277.
  destruct (shape c c_valid Hnc) as [[_ Hs] | [[Hc _] | [Hfc Hs]]]; [lia | |].
  { rewrite Hc. rewrite add_inf_r; [reflexivity | assumption |].
    intros ->. discriminate. }
  destruct (shape a Hva Hna) as [[_ Hs'] | [[Ha _] | [Hfa Hs']]]; [lia | |].
  { rewrite Ha. rewrite add_inf_l; [reflexivity | assumption |].
    intros Hc. rewrite Hc in Hfc. discriminate. }
  destruct (add_finite a c Hva c_valid Hfa Hfc) as (Hp & _ & _).
  destruct (Z.eq_dec (sval a + sval c) 0) as [Hz | Hnz].
  - assert (Ha : a = F32.zero) by (apply good_zero; [assumption | lia]).
    subst a. destruct c as [[|] | | | s m e]; try discriminate; try reflexivity.
    pose proof (finite_val_bounds _ _ c_valid) as [_ Hb].
    cbn [sval] in Hz, Hsc. destruct s; cbn [cond_Zopp] in *; lia.
  - rewrite Hp by lia. apply round32_good. lia.
Qed.

Lemma iter_sum_good (n : nat) : good (iter_sum c n) = true.
Proof. induction n as [| n IH]; [reflexivity | apply add_good, IH]. Qed.

Lemma add_ge_r (a : float) : good a = true -> sval c <= sval (F32.add a c).
Proof.
  intros Hg. destruct (good_props a Hg) as (Hva & Hna & Hsa).
  destruct (nonneg_props c c_valid c_nonneg) as (Hnc & Hsc).
  destruct (Z.eq_dec (sval c) 0) as [Hz | Hnz].
  - rewrite Hz. apply (good_props _ (add_good a Hg)).
  - assert (Hpos : 0 < sval c) by lia.
    pose proof (add_zero_l_pos c c_valid Hnc Hpos) as Hzc.
    assert (H1 : sval F32.zero <= sval a) by (cbn [sval F32.zero]; lia).
    assert (H2 : sval c <= sval c) by lia.
    assert (H3 : F32.ltb F32.zero (F32.add F32.zero c) = true).
    { rewrite Hzc. rewrite (ltb_sval F32.zero c) by (reflexivity || assumption).
      apply Z.ltb_lt. exact Hpos. }
    destruct (add_mono F32.zero c a c eq_refl c_valid Hva c_valid eq_refl Hnc Hna Hnc
                H1 H2 H3) as (_ & _ & Hle).
    rewrite Hzc in Hle. exact Hle.
Qed.

Lemma add_ge_l (a : float) : good a = true -> sval a <= sval (F32.add a c).
Proof.
  intros Hg. destruct (good_props a Hg) as (Hva & Hna & Hsa).
  destruct (nonneg_props c c_valid c_nonneg) as (Hnc & Hsc).
  destruct (Z.eq_dec (sval a) 0) as [Hz | Hnz].
  - rewrite Hz. apply (good_props _ (add_good a Hg)).
  - assert (Hpos : 0 < sval a) by lia.
    pose proof (add_zero_r_pos a Hg Hpos) as Haz.
    assert (H1 : sval a <= sval a) by lia.
    assert (H2 : sval F32.zero <= sval c) by (cbn [sval F32.zero]; lia).
    assert (H3 : F32.ltb F32.zero (F32.add a F32.zero) = true).
    { rewrite Haz. rewrite good_ltb_zero by assumption. apply Z.ltb_lt. exact Hpos. }
    destruct (add_mono a F32.zero a c Hva eq_refl Hva c_valid Hna eq_refl Hna Hnc
                H1 H2 H3) as (_ & _ & Hle).
    rewrite Haz in Hle. exact Hle.
Qed.

(** With a constant score that is not negative, a cell is the rounded sum of
    its diagonal predecessor and the score. *)
Lemma cell_value_sum (a : float) : good a = true -> cell_value c a = F32.add a c.
Proof.
  intros Hg. destruct (nonneg_props c c_valid c_nonneg) as (Hnc & Hsc).
  pose proof (add_good a Hg) as Hge. pose proof (add_ge_r a Hg) as Hle.
  destruct (good_props _ Hge) as (Hve & Hne & Hse).
  unfold cell_value, F32.max at 2.
  rewrite (ltb_sval c (F32.add a c)) by assumption.
  destruct (Z.ltb_spec (sval c) (sval (F32.add a c))) as [Hlt | Hge'].
  - apply max_zero_of_good. exact Hge.
  - assert (Heq : sval c = sval (F32.add a c)) by lia.
    destruct (Z.eq_dec (sval c) 0) as [Hz | Hnz].
    + rewrite (good_zero (F32.add a c)) by (assumption || lia).
      unfold F32.max. rewrite (ltb_sval F32.zero c) by (reflexivity || assumption).
      cbn [sval]. rewrite Hz. reflexivity.
    + assert (Hgc : good c = true) by (apply pos_good; (assumption || lia)).
      rewrite <- (good_inj c (F32.add a c)) by assumption.
      apply max_zero_of_good. exact Hgc.
Qed.

(** From column 0 of a fresh matrix a cell starts anew. *)
Lemma cell_value_neg_inf : cell_value c (F32.opp eslINFINITY) = F32.add F32.zero c.
Proof.
  destruct (nonneg_props c c_valid c_nonneg) as (Hnc & Hsc).
  pose proof (pow2_pos 277 ltac:(lia)) as Hp277.
  destruct c as [[|] | [|] | | [|] m e]; try discriminate; try reflexivity;
    cbn [sval cond_Zopp] in Hsc; lia.
Qed.

Lemma iter_sum_mono (a b : nat) :
  (a <= b)%nat -> sval (iter_sum c a) <= sval (iter_sum c b).
Proof.
  intros Hab. induction Hab as [| b Hab IH]; [lia |].
  cbn [iter_sum]. pose proof (add_ge_l (iter_sum c b) (iter_sum_good b)). lia.
Qed.

Lemma upd_max_iter_sum (a b : nat) :
  upd_max (iter_sum c a) (iter_sum c b) = iter_sum c (Nat.max a b).
Proof.
  unfold upd_max.
  destruct (good_props _ (iter_sum_good a)) as (Hva & Hna & _).
  destruct (good_props _ (iter_sum_good b)) as (Hvb & Hnb & _).
  rewrite ltb_sval by assumption.
  destruct (Z.ltb_spec (sval (iter_sum c a)) (sval (iter_sum c b))) as [Hlt | Hge].
  - destruct (Nat.le_gt_cases a b) as [Hab | Hba].
    + rewrite Nat.max_r by assumption. reflexivity.
    + pose proof (iter_sum_mono b a ltac:(lia)). lia.
  - destruct (Nat.le_gt_cases a b) as [Hab | Hba].
    + rewrite Nat.max_r by assumption.
      apply good_inj; try apply iter_sum_good.
      pose proof (iter_sum_mono a b Hab). lia.
    + rewrite Nat.max_l by lia. reflexivity.
Qed.
End ConstantScore.

(** * Properties of the specification *)

(** ** Non-positive lengths *)

Lemma compute_msv_degenerate (L : Z) (profile : HMMProfile.t) (e : float) (w : world) :
  L <= 0 \/ HMMProfile.model_length profile <= 0 ->
  compute_msv L profile e w = Some (F32.zero, w).
Proof.
  intros H. unfold compute_msv.
  destruct (Z.leb_spec L 0); simpl; [reflexivity |].
  destruct (Z.leb_spec (HMMProfile.model_length profile) 0); [reflexivity | lia].
Qed.

(** C6.  When the sequence length or the model length is not positive,
    [compute_msv] returns [0.0]: the result is a defined value, no access is
    attempted, and the buffers are left as they were. *)
Theorem C6_nonpositive_lengths (L : Z) (profile : HMMProfile.t) (e : float) (w : world) :
  L <= 0 \/ HMMProfile.model_length profile <= 0 ->
  compute_msv L profile e w = Some (F32.zero, w).
Proof.
  intros [HL | HM]; unfold compute_msv.
  - destruct (Z.leb_spec L 0) as [_ | Hpos]; [reflexivity | lia].
  - destruct (Z.leb_spec (HMMProfile.model_length profile) 0) as [_ | Hpos]; [| lia].
    rewrite orb_true_r. reflexivity.
Qed.

(** An empty sequence against a model of three positions. *)
Lemma C6_witness :
  (0 <= 0 \/ HMMProfile.model_length (constant_profile 3 (F32.of_Z 1)) <= 0) /\
  compute_msv 0 (constant_profile 3 (F32.of_Z 1)) F32.zero (fresh_world 3 []) =
    Some (F32.zero, fresh_world 3 []).
Proof.
  split; [left; lia |]. apply C6_nonpositive_lengths. left. lia.
Defined.

(** ** The sequence buffer *)

Lemma compute_msv_sequence (L : Z) (profile : HMMProfile.t) (e : float)
    (w : world) (r : float) (w' : world) :
  compute_msv L profile e w = Some (r, w') ->
  digital_sequence w' = digital_sequence w.
Proof.
  intros Hrun.
  destruct (decide (0 < L /\ 0 < HMMProfile.model_length profile)) as [[HL HM] | Hn].
  - apply compute_msv_spec in Hrun as [(Hs & _) _]; assumption.
  - rewrite compute_msv_degenerate in Hrun by lia. inversion Hrun. reflexivity.
Qed.

(** C7.  When a call returns, the sequence buffer is what it was before the
    call; in particular positions [0] and [L + 1], the sentinels, hold the
    values they held. *)
Theorem C7_sentinels_unchanged (L : Z) (profile : HMMProfile.t) (e : float)
    (w : world) (r : float) (w' : world) :
  compute_msv L profile e w = Some (r, w') ->
  digital_sequence w' = digital_sequence w /\
  vget (digital_sequence w') 0 = vget (digital_sequence w) 0 /\
  vget (digital_sequence w') (L + 1) = vget (digital_sequence w) (L + 1).
Proof.
  intros Hrun. apply compute_msv_sequence in Hrun. rewrite Hrun. auto.
Qed.

(** A call with [M = L = 3]: the sentinels are still there. *)
Lemma C7_witness :
  exists r w',
    compute_msv 3 (constant_profile 3 (F32.of_Z 1)) F32.zero
      (fresh_world 3 [RES_A; RES_C; RES_D]) = Some (r, w') /\
    vget (digital_sequence w') 0 = Some digitalResidueSentinel /\
    vget (digital_sequence w') (3 + 1) = Some digitalResidueSentinel.
Proof.
  destruct (compute_msv 3 (constant_profile 3 (F32.of_Z 1)) F32.zero
              (fresh_world 3 [RES_A; RES_C; RES_D])) as [[r w'] |] eqn:Hrun;
    [| vm_compute in Hrun; discriminate].
  exists r, w'. split; [reflexivity |].
  destruct (C7_sentinels_unchanged _ _ _ _ _ _ Hrun) as (_ & H0 & H4).
  rewrite H0, H4. split; reflexivity.
Defined.

(** ** The constructor of the matrix *)

(** C4, as stated, fails: the constructor fills every cell with negative
    infinity, row 0 and column 0 included. *)
Lemma C4_counterexample :
  exists m, DPMatrix.new 1 1 = Some m /\
            DPMatrix.match_ m 0 0 = Some (F32.opp eslINFINITY) /\
            DPMatrix.match_ m 0 1 = Some (F32.opp eslINFINITY) /\
            DPMatrix.match_ m 1 0 = Some (F32.opp eslINFINITY) /\
            DPMatrix.match_ m 0 0 <> Some F32.zero.
Proof.
  eexists. split; [vm_compute; reflexivity |].
  repeat split; try reflexivity. vm_compute. discriminate.
Qed.

(** C4, amended.  For [M >= 0] and [L >= 0] whose sizes [3 (M + 1)] and
    [5 (L + 1)] are [int] values, the constructor returns a matrix whose
    match-plane cells are all negative infinity, for every [i] in [0, L] and
    [k] in [0, M], row 0 and column 0 included, as are the insert and delete
    cells and the special-state array.  Row 0 is set to 0 by [compute_msv]
    itself, and column 0 stays at negative infinity: after any call with
    positive lengths on this matrix that returns, the match cells of row 0 are
    0.0 in the columns [0 .. model_length] and the match cells of column 0
    are still negative infinity in the rows [1 .. L]. *)
Theorem C4_constructor_fills_neg_infinity (M L : Z) :
  0 <= M -> 0 <= L ->
  (M + 1) * p7G_NSCELLS <= INT_MAX -> (L + 1) * p7G_NXCELLS <= INT_MAX ->
  exists m, DPMatrix.new M L = Some m /\
    (forall i k, 0 <= i <= L -> 0 <= k <= M ->
       DPMatrix.match_ m i k = Some (F32.opp eslINFINITY) /\
       DPMatrix.insert m i k = Some (F32.opp eslINFINITY) /\
       DPMatrix.delete_state m i k = Some (F32.opp eslINFINITY)) /\
    (forall i s, 0 <= i <= L -> 0 <= s < p7G_NXCELLS ->
       DPMatrix.special m i s = Some (F32.opp eslINFINITY)) /\
    (forall (sequence_length : Z) (profile : HMMProfile.t) (e : float)
            (seq : list DigitalResidue) (r : float) (w' : world),
       0 < sequence_length -> 0 < HMMProfile.model_length profile ->
       compute_msv sequence_length profile e (mkWorld seq m) = Some (r, w') ->
       (forall k, 0 <= k <= HMMProfile.model_length profile ->
          DPMatrix.match_ (dp_matrix w') 0 k = Some F32.zero) /\
       (forall i, 1 <= i <= L ->
          DPMatrix.match_ (dp_matrix w') i 0 = Some (F32.opp eslINFINITY))).
Proof.
  intros HM HL HMmax HLmax. eexists. split; [apply DPMatrix_new_Some; assumption |].
  pose proof (DPMatrix_new_Some M L HM HL HMmax HLmax) as Hnew.
  split; [| split].
  - intros i k Hi Hk.
    unfold DPMatrix.match_, DPMatrix.insert, DPMatrix.delete_state.
    rewrite !(DPMatrix_new_cell M L _ _ _ HM HL Hnew).
    unfold p7G_NSCELLS, p7G_M, p7G_I, p7G_D.
    rewrite !decide_True by lia. auto.
  - intros i s Hi Hs. unfold DPMatrix.special.
    apply (DPMatrix_new_xmx M L _ _ HM HL Hnew). unfold p7G_NXCELLS in *. nia.
  - intros sequence_length profile e seq r w' Hlen HMlen Hrun.
    apply compute_msv_spec in Hrun as [(_ & _ & Hw & Hu) _]; [| lia | lia].
    split.
    + intros k Hk. rewrite Hw by (unfold written; lia). reflexivity.
    + intros i Hi. unfold DPMatrix.match_. rewrite Hu.
      * cbn [dp_matrix]. rewrite (DPMatrix_new_cell M L _ _ _ HM HL Hnew).
        rewrite decide_True by (unfold p7G_NSCELLS, p7G_M; lia). reflexivity.
      * intros k' HW. unfold written in HW. unfold p7G_NSCELLS, p7G_M. lia.
Qed.

(** The constructor at [M = L = 5]. *)
Lemma C4_witness :
  exists m, DPMatrix.new 5 5 = Some m /\
    DPMatrix.match_ m 0 0 = Some (F32.opp eslINFINITY) /\
    DPMatrix.match_ m 3 0 = Some (F32.opp eslINFINITY) /\
    DPMatrix.match_ m 0 4 = Some (F32.opp eslINFINITY) /\
    DPMatrix.match_ m 2 2 = Some (F32.opp eslINFINITY).
Proof.
  destruct (C4_constructor_fills_neg_infinity 5 5) as (m & Hnew & Hcells & _);
    [lia | lia | unfold p7G_NSCELLS, INT_MAX; lia | unfold p7G_NXCELLS, INT_MAX; lia |].
  exists m. split; [exact Hnew |].
  repeat split; apply Hcells; lia.
Defined.

(** ** The alphabet *)

Lemma alphabet_new_Some : AminoAcidAlphabet.new = Some test_alphabet.
Proof. vm_compute. reflexivity. Qed.

Lemma alphabet_checks :
  canonical_rows_ok test_alphabet = true /\
  wildcard_row_ok test_alphabet = true /\
  other_rows_ok test_alphabet = true /\
  unmapped_ok test_alphabet = true.
Proof. vm_compute. auto. Qed.

(** C8.  The constructor of the alphabet succeeds and establishes: every
    canonical index [x] in [0, 20) has [ndegen[x] = 1], [degen(x, x) = 1],
    [degen(x, y) = 0] for the other canonical [y], and [inmap] sends the
    symbol of [x] back to [x]; index [Kp - 3 = 26] is ['X'], with
    [ndegen = 20] and [degen = 1] for the 20 canonical residues; every other
    index in [20, 29) has [ndegen = 0] and an all-zero row; every character
    code in [0, 128) that is not one of the 29 symbols maps to the illegal
    index 254. *)
Theorem C8_alphabet_constructor :
  exists a, AminoAcidAlphabet.new = Some a /\
    AminoAcidAlphabet.K a = 20 /\ AminoAcidAlphabet.Kp a = 29 /\
    AminoAcidAlphabet.Kp a - 3 = 26 /\
    (forall x, 0 <= x < 20 ->
       vget (AminoAcidAlphabet.ndegen a) x = Some 1 /\
       AminoAcidAlphabet.get_degen a x x = Some 1 /\
       (forall y, 0 <= y < 20 -> y <> x -> AminoAcidAlphabet.get_degen a x y = Some 0) /\
       (exists c, AminoAcidAlphabet.sym_at a x = Some c /\
                  vget (AminoAcidAlphabet.inmap a) (int_of_char c) = Some x)) /\
    (AminoAcidAlphabet.sym_at a 26 = Some "X"%char /\
     vget (AminoAcidAlphabet.ndegen a) 26 = Some 20 /\
     (forall y, 0 <= y < 20 -> AminoAcidAlphabet.get_degen a 26 y = Some 1)) /\
    (forall x, 20 <= x < 29 -> x <> 26 ->
       vget (AminoAcidAlphabet.ndegen a) x = Some 0 /\
       (forall y, 0 <= y < 20 -> AminoAcidAlphabet.get_degen a x y = Some 0)) /\
    (forall c, 0 <= c < 128 ->
       (forall x ch, 0 <= x < 29 -> AminoAcidAlphabet.sym_at a x = Some ch ->
                     int_of_char ch <> c) ->
       vget (AminoAcidAlphabet.inmap a) c = Some 254).
Proof.
  exists test_alphabet. split; [exact alphabet_new_Some |].
  destruct alphabet_checks as (Hcanon & Hwild & Hother & Hunmapped).
  split; [reflexivity |]. split; [reflexivity |]. split; [reflexivity |].
  split; [| split; [| split]].
  - intros x Hx. pose proof (all_in_spec _ _ _ Hcanon x Hx) as Hc. cbv beta in Hc.
    apply andb_prop in Hc as [Hc Hsym]. apply andb_prop in Hc as [Hc Hoff].
    apply andb_prop in Hc as [Hn Hd].
    apply bool_decide_eq_true_1 in Hn. apply bool_decide_eq_true_1 in Hd.
    split; [exact Hn |]. split; [exact Hd |]. split.
    + intros y Hy Hne. pose proof (all_in_spec _ _ _ Hoff y Hy) as Hy'. cbv beta in Hy'.
      apply orb_prop in Hy' as [Heq | Hz]; [lia |].
      apply bool_decide_eq_true_1 in Hz. exact Hz.
    + destruct (AminoAcidAlphabet.sym_at test_alphabet x) as [c |]; [| discriminate].
      exists c. split; [reflexivity |]. apply bool_decide_eq_true_1 in Hsym. exact Hsym.
  - unfold wildcard_row_ok in Hwild.
    apply andb_prop in Hwild as [Hw Hrow]. apply andb_prop in Hw as [Hs Hn].
    apply bool_decide_eq_true_1 in Hs. apply bool_decide_eq_true_1 in Hn.
    split; [exact Hs |]. split; [exact Hn |].
    intros y Hy. pose proof (all_in_spec _ _ _ Hrow y Hy) as Hy'. cbv beta in Hy'.
    apply bool_decide_eq_true_1 in Hy'. exact Hy'.
  - intros x Hx Hne. pose proof (all_in_spec _ _ _ Hother x Hx) as Hc. cbv beta in Hc.
    apply orb_prop in Hc as [Heq | Hc]; [lia |].
    apply andb_prop in Hc as [Hn Hrow]. apply bool_decide_eq_true_1 in Hn.
    split; [exact Hn |].
    intros y Hy. pose proof (all_in_spec _ _ _ Hrow y Hy) as Hy'. cbv beta in Hy'.
    apply bool_decide_eq_true_1 in Hy'. exact Hy'.
  - intros c Hc Hnot. pose proof (all_in_spec _ _ _ Hunmapped c Hc) as Hu. cbv beta in Hu.
    apply orb_prop in Hu as [Hsym | Hill].
    + exfalso. unfold is_symbol, any_in in Hsym. apply existsb_exists in Hsym.
      destruct Hsym as (x & Hin & Hx).
      apply list_elem_of_In in Hin. apply elem_of_seqZ in Hin.
      destruct (AminoAcidAlphabet.sym_at test_alphabet x) as [ch |] eqn:Hch;
        [| discriminate].
      apply (Hnot x ch); [lia | exact Hch | lia].
    + apply bool_decide_eq_true_1 in Hill. exact Hill.
Qed.

(** The rows of [I] (index 7) and [B] (index 21), and the lower-case [a]. *)
Lemma C8_witness :
  exists a, AminoAcidAlphabet.new = Some a /\
    vget (AminoAcidAlphabet.ndegen a) 7 = Some 1 /\
    AminoAcidAlphabet.get_degen a 7 7 = Some 1 /\
    AminoAcidAlphabet.get_degen a 7 8 = Some 0 /\
    vget (AminoAcidAlphabet.ndegen a) 21 = Some 0 /\
    AminoAcidAlphabet.get_degen a 21 3 = Some 0 /\
    vget (AminoAcidAlphabet.inmap a) 97 = Some 254.
Proof.
  destruct C8_alphabet_constructor
    as (a & Hnew & HK & HKp & Hany & Hcanon & Hwild & Hother & Hunmapped).
  exists a. split; [exact Hnew |].
  destruct (Hcanon 7 ltac:(lia)) as (Hn & Hd & Hoff & _).
  destruct (Hother 21 ltac:(lia) ltac:(lia)) as (Hn' & Hrow).
  split; [exact Hn |]. split; [exact Hd |].
  split; [apply Hoff; lia |]. split; [exact Hn' |].
  split; [apply Hrow; lia |].
  apply (Hunmapped 97); [lia |].
  intros x ch Hx Hsym Hcode.
  assert (Hcases : x = 0 \/ x = 1 \/ x = 2 \/ x = 3 \/ x = 4 \/ x = 5 \/ x = 6 \/ x = 7 \/
                   x = 8 \/ x = 9 \/ x = 10 \/ x = 11 \/ x = 12 \/ x = 13 \/ x = 14 \/
                   x = 15 \/ x = 16 \/ x = 17 \/ x = 18 \/ x = 19 \/ x = 20 \/ x = 21 \/
                   x = 22 \/ x = 23 \/ x = 24 \/ x = 25 \/ x = 26 \/ x = 27 \/ x = 28)
    by lia.
  rewrite alphabet_new_Some in Hnew. apply (inj Some) in Hnew. subst a.
  repeat (destruct Hcases as [-> | Hcases];
          [vm_compute in Hsym; apply (inj Some) in Hsym; subst ch;
           vm_compute in Hcode; discriminate |]).
  subst x. vm_compute in Hsym. apply (inj Some) in Hsym. subst ch.
  vm_compute in Hcode. discriminate.
Defined.

(** ** The score is never negative *)

Lemma nonneg_zero : nonneg F32.zero.
Proof. reflexivity. Qed.

Lemma max_zero_nonneg (x : float) : nonneg (F32.max F32.zero x).
Proof.
  unfold nonneg, F32.max, F32.ltb, SFltb.
  destruct (SFcompare F32.zero x) as [[| |] |] eqn:Hcmp; try reflexivity.
  unfold F32.leb, SFleb. rewrite Hcmp. reflexivity.
Qed.

Lemma upd_max_nonneg (m v : float) : nonneg m -> nonneg v -> nonneg (upd_max m v).
Proof. intros Hm Hv. unfold upd_max. destruct (F32.ltb m v); assumption. Qed.

Lemma DP_nonneg (profile : HMMProfile.t) (w0 : world) (i : nat) (k : Z) :
  1 <= k -> nonneg (DP profile w0 i k).
Proof.
  intros Hk. destruct i as [| i]; cbn [DP]; [apply nonneg_zero |].
  destruct (Z.leb_spec k 0); [lia |].
  destruct (20 <=? _); [apply nonneg_zero | apply max_zero_nonneg].
Qed.

Lemma row_max_nonneg (profile : HMMProfile.t) (w0 : world) (i n : nat) (m : float) :
  nonneg m -> nonneg (row_max profile w0 i n m).
Proof.
  intros Hm. induction n as [| n IH]; cbn [row_max]; [assumption |].
  apply upd_max_nonneg; [assumption | apply DP_nonneg; lia].
Qed.

Lemma score_upto_nonneg (profile : HMMProfile.t) (w0 : world) (n : nat) :
  nonneg (score_upto profile w0 n).
Proof.
  induction n as [| n IH]; cbn [score_upto]; [apply nonneg_zero |].
  destruct (20 <=? _); [assumption | apply row_max_nonneg; assumption].
Qed.

Lemma compute_msv_nonneg (L : Z) (profile : HMMProfile.t) (e : float)
    (w : world) (r : float) (w' : world) :
  compute_msv L profile e w = Some (r, w') -> nonneg r.
Proof.
  intros Hrun.
  destruct (decide (0 < L /\ 0 < HMMProfile.model_length profile)) as [[HL HM] | Hn].
  - apply compute_msv_spec in Hrun as [_ ->]; [| assumption | assumption].
    apply score_upto_nonneg.
  - rewrite compute_msv_degenerate in Hrun by lia. inversion Hrun. apply nonneg_zero.
Qed.

(** ** Calls on a fresh matrix *)

Lemma fresh_col0 (Mx Lx : Z) (mx : DPMatrix.t) (seq : list DigitalResidue) (i : Z) :
  0 <= Mx -> 0 <= Lx -> DPMatrix.new Mx Lx = Some mx ->
  0 <= i <= Lx ->
  col0 (mkWorld seq mx) i = F32.opp eslINFINITY.
Proof.
  intros HM HL Hnew Hi. unfold col0, DPMatrix.match_. cbn [dp_matrix].
  rewrite (DPMatrix_new_cell Mx Lx _ _ _ HM HL Hnew).
  rewrite decide_True by (unfold p7G_NSCELLS, p7G_M; lia). reflexivity.
Qed.

Lemma call_ok_fresh (L : Z) (profile : HMMProfile.t) (Mx Lx : Z) (mx : DPMatrix.t)
    (seq : list DigitalResidue) :
  HMMProfile.model_length profile <= Mx -> L <= Lx -> 0 <= Mx -> 0 <= Lx ->
  DPMatrix.new Mx Lx = Some mx ->
  L + 1 <= Z.of_nat (length seq) ->
  (forall k r, 1 <= k <= HMMProfile.model_length profile -> 0 <= r < 20 ->
     is_Some (HMMProfile.match_score profile k r)) ->
  call_ok L profile (mkWorld seq mx).
Proof.
  intros HMx HLx HM0 HL0 Hnew Hseq Hprof. constructor; cbn [digital_sequence dp_matrix].
  - intros i Hi. apply vget_is_Some. lia.
  - exact Hprof.
  - intros i k Hi Hk. unfold DPMatrix.match_.
    rewrite (DPMatrix_new_cell Mx Lx _ _ _ HM0 HL0 Hnew).
    rewrite decide_True by (unfold p7G_NSCELLS, p7G_M; lia). eauto.
Qed.

(** When every score floors both a fresh start and a start from column 0 to
    zero, every cell is zero. *)
Lemma DP_floor (profile : HMMProfile.t) (Mx Lx : Z) (mx : DPMatrix.t)
    (seq : list DigitalResidue) (c : float) (i : nat) (k : Z) :
  0 <= Mx -> 0 <= Lx -> DPMatrix.new Mx Lx = Some mx ->
  (forall k r, 1 <= k <= HMMProfile.model_length profile -> 0 <= r < 20 ->
     HMMProfile.match_score profile k r = Some c) ->
  cell_value c F32.zero = F32.zero ->
  cell_value c (F32.opp eslINFINITY) = F32.zero ->
  Z.of_nat i <= Lx -> 0 <= k <= HMMProfile.model_length profile ->
  DP profile (mkWorld seq mx) i k =
    if (Z.of_nat i =? 0) || (1 <=? k) then F32.zero else F32.opp eslINFINITY.
Proof.
  intros HM HL Hnew Hprof Hz Hn. revert k.
  induction i as [| i IH]; intros k Hi Hk; [reflexivity |].
  cbn [DP]. destruct (Z.eqb_spec (Z.of_nat (Datatypes.S i)) 0) as [Hi0 | _]; [lia |].
  destruct (Z.leb_spec k 0) as [Hk0 | Hk1].
  - destruct (Z.leb_spec 1 k); [lia |]. simpl.
    apply (fresh_col0 Mx Lx); auto. lia.
  - destruct (Z.leb_spec 1 k); [| lia]. simpl.
    destruct (Z.leb_spec 20 (res (mkWorld seq mx) (Z.of_nat (Datatypes.S i))));
      [reflexivity |].
    unfold mu. rewrite Hprof; [| lia |].
    + rewrite IH by lia. change (default F32.nan (Some c)) with c.
      destruct ((Z.of_nat i =? 0) || (1 <=? k - 1)); assumption.
    + unfold res. pose proof (residue_code_range
        (default digitalResidueSentinel
           (vget (digital_sequence (mkWorld seq mx)) (Z.of_nat (Datatypes.S i))))).
      unfold res in *. lia.
Qed.

Lemma row_max_floor (profile : HMMProfile.t) (w0 : world) (i n : nat) :
  (forall k, 1 <= k <= Z.of_nat n -> DP profile w0 i k = F32.zero) ->
  row_max profile w0 i n F32.zero = F32.zero.
Proof.
  induction n as [| n IH]; intros Hz; [reflexivity |].
  cbn [row_max]. rewrite IH by (intros; apply Hz; lia).
  rewrite Hz by lia. reflexivity.
Qed.

Lemma score_floor (profile : HMMProfile.t) (w0 : world) (n : nat) :
  (forall i k, (i <= n)%nat -> 1 <= k <= HMMProfile.model_length profile ->
     DP profile w0 i k = F32.zero) ->
  score_upto profile w0 n = F32.zero.
Proof.
  induction n as [| n IH]; intros Hz; [reflexivity |].
  cbn [score_upto]. rewrite IH by (intros; apply Hz; lia).
  destruct (20 <=? _); [reflexivity |].
  apply row_max_floor. intros k Hk. apply Hz; lia.
Qed.

(** C2.  The score a call returns is never below zero (and never a NaN); and
    on the all-negative constant profile with [M = 5], [L = 5] and every match
    score [-2.0], on a fresh matrix and whatever the residues are, every cell
    of the rows [1..5] floors to [0.0] and the call returns [0.0], not
    [-2.0]. *)
Theorem C2_score_nonnegative :
  (forall L profile e w r w',
     compute_msv L profile e w = Some (r, w') -> F32.leb F32.zero r = true) /\
  (forall profile seq mx e,
     HMMProfile.model_length profile = 5 ->
     Z.of_nat (length seq) = 5 + 2 ->
     DPMatrix.new 5 5 = Some mx ->
     (forall k x, 1 <= k <= 5 -> 0 <= x < 20 ->
        HMMProfile.match_score profile k x = Some (F32.of_Z (-2))) ->
     exists w',
       compute_msv 5 profile e (mkWorld seq mx) = Some (F32.zero, w') /\
       F32.zero <> F32.of_Z (-2) /\
       forall i k, 1 <= i <= 5 -> 1 <= k <= 5 ->
         DPMatrix.match_ (dp_matrix w') i k = Some F32.zero).
Proof.
  split.
  - intros L profile e w r w'. apply compute_msv_nonneg.
  - intros profile seq mx e HM Hseq Hnew Hprof.
    assert (Hok : call_ok 5 profile (mkWorld seq mx)).
    { apply (call_ok_fresh 5 profile 5 5); try lia; try assumption.
      intros k r Hk Hr. rewrite Hprof by lia. eauto. }
    assert (Hcell : forall (i : nat) k, (i <= 5)%nat ->
              1 <= k <= HMMProfile.model_length profile ->
              DP profile (mkWorld seq mx) i k = F32.zero).
    { intros i k Hi Hk.
      rewrite (DP_floor profile 5 5 mx seq (F32.of_Z (-2))); try lia; try assumption.
      - destruct (Z.leb_spec 1 k); [| lia]. rewrite orb_true_r. reflexivity.
      - intros k' r' Hk' Hr'. apply Hprof; lia.
      - reflexivity.
      - reflexivity. }
    destruct (compute_msv_total 5 profile e _ Hok) as (r & w' & Hrun).
    exists w'. rewrite Hrun.
    apply compute_msv_spec in Hrun as [(_ & _ & Hw & _) ->]; [| lia | lia].
    split; [| split].
    + rewrite score_floor; [reflexivity |].
      intros i k Hi Hk. apply Hcell; [lia | assumption].
    + vm_compute. discriminate.
    + intros i k Hi Hk. rewrite Hw by (right; lia).
      f_equal. apply Hcell; lia.
Qed.

(** A call on a constant profile of ones, and the all-negative profile of the
    test suite. *)
Lemma C2_witness :
  (exists r w',
     compute_msv 3 (constant_profile 3 (F32.of_Z 1)) F32.zero
       (fresh_world 3 [RES_A; RES_C; RES_D]) = Some (r, w') /\
     F32.leb F32.zero r = true) /\
  (exists w',
     compute_msv 5 (constant_profile 5 (F32.of_Z (-2))) F32.zero
       (mkWorld (create_digital_sequence [RES_A; RES_C; RES_D; RES_E; RES_F])
                (fresh_matrix 5 5)) = Some (F32.zero, w') /\
     DPMatrix.match_ (dp_matrix w') 5 5 = Some F32.zero).
Proof.
  destruct C2_score_nonnegative as [Hnonneg Hfloor]. split.
  - destruct (compute_msv 3 (constant_profile 3 (F32.of_Z 1)) F32.zero
                (fresh_world 3 [RES_A; RES_C; RES_D])) as [[r w'] |] eqn:Hrun;
      [| vm_compute in Hrun; discriminate].
    exists r, w'. split; [reflexivity |]. apply (Hnonneg _ _ _ _ _ _ Hrun).
  - destruct (Hfloor (constant_profile 5 (F32.of_Z (-2)))
                (create_digital_sequence [RES_A; RES_C; RES_D; RES_E; RES_F])
                (fresh_matrix 5 5) F32.zero) as (w' & Hrun & _ & Hcells).
    + vm_compute. reflexivity.
    + vm_compute. reflexivity.
    + vm_compute. reflexivity.
    + apply constant_scoresb_spec. vm_compute. reflexivity.
    + exists w'. split; [exact Hrun |]. apply Hcells; lia.
Defined.

(** ** Non-canonical residues *)

(** C3, as stated, fails: with [M = 2], [L = 2], every score [1.0] and the
    residues [A], [X], the call leaves [DP(1,1) = 1.0] and [DP(2,2) = 0.0],
    which is not [max(0, DP(1,1))]: the run carried along the diagonal is
    dropped, not kept. *)
Lemma C3_counterexample :
  exists r w',
    compute_msv 2 (constant_profile 2 (F32.of_Z 1)) F32.zero
      (fresh_world 2 [RES_A; RES_X]) = Some (r, w') /\
    vget (digital_sequence w') 2 = Some RES_X /\
    20 <= residue_code RES_X /\
    DPMatrix.match_ (dp_matrix w') 1 1 = Some (F32.of_Z 1) /\
    DPMatrix.match_ (dp_matrix w') 2 2 = Some F32.zero /\
    DPMatrix.match_ (dp_matrix w') 2 2 <> Some (F32.max F32.zero (F32.of_Z 1)).
Proof.
  eexists _, _. split; [vm_compute; reflexivity |].
  split; [reflexivity |]. split; [vm_compute; discriminate |].
  split; [reflexivity |]. split; [reflexivity |]. vm_compute. discriminate.
Qed.

(** C3, amended.  For every position [i] in [1, L] whose residue is not
    canonical ([S[i] >= 20], the illegal marker included), the call leaves
    [DP(i, k) = 0] for every [k] in [1, M], whatever [DP(i-1, k-1)] is: the
    position scores nothing and a running segment score is reset to zero. *)
Theorem C3_noncanonical_row_is_zero (L : Z) (profile : HMMProfile.t) (e : float)
    (w : world) (r : float) (w' : world) (i k : Z) (residue : DigitalResidue) :
  compute_msv L profile e w = Some (r, w') ->
  1 <= i <= L -> 1 <= k <= HMMProfile.model_length profile ->
  vget (digital_sequence w) i = Some residue ->
  20 <= residue_code residue ->
  DPMatrix.match_ (dp_matrix w') i k = Some F32.zero.
Proof.
  intros Hrun Hi Hk Hres Hbig.
  apply compute_msv_spec in Hrun as [(_ & _ & Hw & _) _]; [| lia | lia].
  rewrite Hw by (right; lia).
  rewrite DP_step by lia.
  destruct (Z.leb_spec k 0); [lia |].
  assert (Hr : res w i = residue_code residue)
    by (unfold res; rewrite Hres; reflexivity).
  rewrite Hr. destruct (Z.leb_spec 20 (residue_code residue)); [reflexivity | lia].
Qed.

(** The residues [A], [X] against a constant profile of ones. *)
Lemma C3_witness :
  exists r w',
    compute_msv 2 (constant_profile 2 (F32.of_Z 1)) F32.zero
      (fresh_world 2 [RES_A; RES_X]) = Some (r, w') /\
    DPMatrix.match_ (dp_matrix w') 2 2 = Some F32.zero.
Proof.
  destruct (compute_msv 2 (constant_profile 2 (F32.of_Z 1)) F32.zero
              (fresh_world 2 [RES_A; RES_X])) as [[r w'] |] eqn:Hrun;
    [| vm_compute in Hrun; discriminate].
  exists r, w'. split; [reflexivity |].
  apply (C3_noncanonical_row_is_zero 2 _ _ _ _ _ 2 2 RES_X Hrun).
  - lia.
  - vm_compute. split; discriminate.
  - reflexivity.
  - vm_compute. discriminate.
Defined.

(** ** What the call writes *)

(** C9.  On a matrix fresh from the constructor, a call writes match-plane
    cells only, at row 0 for [k] in [0, M] and at rows [1..L] for [k] in
    [1, M]: every other cell is what it was, the special-state array is what it
    was, and so column 0 of the rows from 1 on, the insert cells, the delete
    cells and the special cells all still hold negative infinity. *)
Theorem C9_writes_match_cells_only (L : Z) (profile : HMMProfile.t) (e : float)
    (Mx Lx : Z) (mx : DPMatrix.t) (seq : list DigitalResidue) (r : float) (w' : world) :
  0 <= Mx -> 0 <= Lx ->
  DPMatrix.new Mx Lx = Some mx ->
  compute_msv L profile e (mkWorld seq mx) = Some (r, w') ->
  (forall i j, (forall k, written profile L i k -> j <> k * p7G_NSCELLS + p7G_M) ->
     DPMatrix.cell (dp_matrix w') i j = DPMatrix.cell mx i j) /\
  DPMatrix.xmx (dp_matrix w') = DPMatrix.xmx mx /\
  (forall i, 1 <= i <= Lx ->
     DPMatrix.match_ (dp_matrix w') i 0 = Some (F32.opp eslINFINITY)) /\
  (forall i k, 0 <= i <= Lx -> 0 <= k <= Mx ->
     DPMatrix.insert (dp_matrix w') i k = Some (F32.opp eslINFINITY) /\
     DPMatrix.delete_state (dp_matrix w') i k = Some (F32.opp eslINFINITY)) /\
  (forall i s, 0 <= i <= Lx -> 0 <= s < p7G_NXCELLS ->
     DPMatrix.special (dp_matrix w') i s = Some (F32.opp eslINFINITY)).
Proof.
  intros HM HL Hnew Hrun.
  assert (Hframe :
    (forall i j, (forall k, written profile L i k -> j <> k * p7G_NSCELLS + p7G_M) ->
       DPMatrix.cell (dp_matrix w') i j = DPMatrix.cell mx i j) /\
    DPMatrix.xmx (dp_matrix w') = DPMatrix.xmx mx).
  { destruct (decide (0 < L /\ 0 < HMMProfile.model_length profile)) as [[HL0 HM0] | Hn].
    - apply compute_msv_spec in Hrun as [(_ & Hx & _ & Hu) _]; [| lia | lia].
      split; [exact Hu | exact Hx].
    - rewrite compute_msv_degenerate in Hrun by lia. inversion Hrun. auto. }
  destruct Hframe as [Hcells Hxmx].
  split; [exact Hcells |]. split; [exact Hxmx |].
  split; [| split].
  - intros i Hi. unfold DPMatrix.match_. rewrite Hcells.
    + rewrite (DPMatrix_new_cell Mx Lx _ _ _ HM HL Hnew).
      rewrite decide_True by (unfold p7G_NSCELLS, p7G_M; lia). reflexivity.
    + intros k [[Hi0 _] | [_ Hk]]; unfold p7G_NSCELLS, p7G_M; lia.
  - intros i k Hi Hk. unfold DPMatrix.insert, DPMatrix.delete_state.
    rewrite !Hcells by (intros k' _; unfold p7G_NSCELLS, p7G_M, p7G_I, p7G_D; lia).
    rewrite !(DPMatrix_new_cell Mx Lx _ _ _ HM HL Hnew).
    rewrite !decide_True by (unfold p7G_NSCELLS, p7G_I, p7G_D; lia). auto.
  - intros i s Hi Hs. unfold DPMatrix.special. rewrite Hxmx.
    apply (DPMatrix_new_xmx Mx Lx _ _ HM HL Hnew). unfold p7G_NXCELLS in *. nia.
Qed.

(** A call with [M = L = 3]. *)
Lemma C9_witness :
  exists r w',
    compute_msv 3 (constant_profile 3 (F32.of_Z 1)) F32.zero
      (mkWorld (create_digital_sequence [RES_A; RES_C; RES_D]) (fresh_matrix 3 3))
      = Some (r, w') /\
    DPMatrix.match_ (dp_matrix w') 2 0 = Some (F32.opp eslINFINITY) /\
    DPMatrix.insert (dp_matrix w') 2 2 = Some (F32.opp eslINFINITY) /\
    DPMatrix.delete_state (dp_matrix w') 0 1 = Some (F32.opp eslINFINITY) /\
    DPMatrix.special (dp_matrix w') 1 4 = Some (F32.opp eslINFINITY).
Proof.
  destruct (compute_msv 3 (constant_profile 3 (F32.of_Z 1)) F32.zero
              (mkWorld (create_digital_sequence [RES_A; RES_C; RES_D]) (fresh_matrix 3 3)))
    as [[r w'] |] eqn:Hrun; [| vm_compute in Hrun; discriminate].
  exists r, w'. split; [reflexivity |].
  destruct (C9_writes_match_cells_only 3 _ _ 3 3 _ _ _ _
              ltac:(lia) ltac:(lia) ltac:(vm_compute; reflexivity) Hrun)
    as (_ & _ & Hcol0 & Hid & Hsp).
  split; [apply Hcol0; lia |].
  split; [apply (Hid 2 2); lia |].
  split; [apply (Hid 0 1); lia |].
  apply Hsp; unfold p7G_NXCELLS; lia.
Defined.

(** ** What the score depends on *)










Section Dependence.
Variables profile1 profile2 : HMMProfile.t.
Variable L : Z.

Let Mlen : Z := HMMProfile.model_length profile1.

Hypothesis same_length : HMMProfile.model_length profile2 = Mlen.
Hypothesis same_scores :
  forall k r, 1 <= k <= Mlen -> 0 <= r < 20 ->
    HMMProfile.match_score profile1 k r = HMMProfile.match_score profile2 k r.



End Dependence.




(** ** A constant profile *)

Section ConstantProfile.
Variable profile : HMMProfile.t.
Variables Mx Lx : Z.
Variable mx : DPMatrix.t.
Variable seq : list DigitalResidue.
Variable c : float.
Variable L : Z.

Let w : world := mkWorld seq mx.
Let Mlen : Z := HMMProfile.model_length profile.

Hypothesis Mx_nonneg : 0 <= Mx.
Hypothesis Lx_nonneg : 0 <= Lx.
Hypothesis L_fits : L <= Lx.
Hypothesis fresh : DPMatrix.new Mx Lx = Some mx.
Hypothesis constant :
  forall k r, 1 <= k <= Mlen -> 0 <= r < 20 ->
    HMMProfile.match_score profile k r = Some c.
Hypothesis canonical : forall i, 1 <= i <= L -> res w i < 20.
Hypothesis c_valid : F32.valid c = true.
Hypothesis c_nonneg : nonneg c.

Lemma res_nonneg (i : Z) : 0 <= res w i.
Proof. unfold res. apply residue_code_range. Qed.

Lemma DP_constant (i : nat) (k : Z) :
  Z.of_nat i <= L -> 1 <= k <= Mlen ->
  DP profile w i k = iter_sum c (Nat.min i (Z.to_nat k)).
Proof.
  revert k. induction i as [| i IH]; intros k Hi Hk; [reflexivity |].
  cbn [DP]. destruct (Z.leb_spec k 0); [lia |].
  pose proof (canonical (Z.of_nat (Datatypes.S i)) ltac:(lia)) as Hc.
  pose proof (res_nonneg (Z.of_nat (Datatypes.S i))) as Hr.
  destruct (Z.leb_spec 20 (res w (Z.of_nat (Datatypes.S i)))); [lia |].
  unfold mu. rewrite constant by (fold Mlen; lia).
  change (default F32.nan (Some c)) with c.
  destruct (Z.eq_dec k 1) as [-> | Hk1].
  - replace (Nat.min (Datatypes.S i) (Z.to_nat 1)) with 1%nat by lia.
    change (1 - 1) with 0. destruct i as [| j].
    + cbn [DP]. rewrite cell_value_sum by (assumption || reflexivity). reflexivity.
    + cbn [DP]. change (0 <=? 0) with true. cbv iota.
      unfold w. rewrite (fresh_col0 Mx Lx) by (assumption || lia).
      apply cell_value_neg_inf; assumption.
  - rewrite IH by lia.
    rewrite cell_value_sum by (try assumption; apply iter_sum_good; assumption).
    replace (Nat.min (Datatypes.S i) (Z.to_nat k))
      with (Datatypes.S (Nat.min i (Z.to_nat (k - 1)))) by lia.
    reflexivity.
Qed.

Lemma row_max_constant (i n a : nat) :
  Z.of_nat i <= L -> Z.of_nat n <= Mlen ->
  row_max profile w i n (iter_sum c a) = iter_sum c (Nat.max a (Nat.min i n)).
Proof.
  intros Hi. induction n as [| n IH]; intros Hn.
  - cbn [row_max]. f_equal. lia.
  - cbn [row_max]. rewrite IH by lia. rewrite DP_constant by lia.
    rewrite Nat2Z.id. rewrite upd_max_iter_sum by assumption. f_equal. lia.
Qed.

Lemma score_constant (n : nat) :
  Z.of_nat n <= L -> 0 <= Mlen ->
  score_upto profile w n = iter_sum c (Nat.min n (Z.to_nat Mlen)).
Proof.
  intros Hn HM. induction n as [| n IH]; [reflexivity |].
  cbn [score_upto].
  pose proof (canonical (Z.of_nat (Datatypes.S n)) ltac:(lia)) as Hc.
  destruct (Z.leb_spec 20 (res w (Z.of_nat (Datatypes.S n)))); [lia |].
  rewrite IH by lia. fold Mlen. rewrite row_max_constant by lia. f_equal. lia.
Qed.
End ConstantProfile.

(** Sums of multiples of one power of two are exact while they fit in 24
    bits. *)
Lemma rint_repr (z E : Z) : 0 < z < 2 ^ 24 -> 0 <= E -> rint (z * 2 ^ E) = z * 2 ^ E.
Proof.
  intros Hz HE. unfold rint. rewrite log2_mul_pow2 by lia.
  destruct (Z.leb_spec (Z.log2 z + E + 1) 24) as [Hs | Hbig]; [reflexivity |].
  assert (Hl : Z.log2 z < 24) by (apply log2_lt_pow2; lia).
  set (n := Z.log2 z + E + 1 - 24).
  assert (Hn : 0 < n <= E) by (unfold n; lia).
  pose proof (pow2_pos n ltac:(lia)) as Hpn.
  replace (z * 2 ^ E) with (z * 2 ^ (E - n) * 2 ^ n).
  - rewrite Z.div_mul by lia. rewrite Z.mod_mul by lia. rewrite rne_exact by lia.
    reflexivity.
  - rewrite <- Z.mul_assoc, <- pow2_split by lia. f_equal. f_equal. lia.
Qed.

Lemma dyadic_round32 (z j : Z) : 0 < z -> -149 <= j ->
  dyadic z j = round32 false (z * 2 ^ (j + 149)).
Proof.
  intros Hz Hj. unfold dyadic. destruct z as [| p | p]; try lia.
  cbn [binary_normalize]. apply binary_round_round32. assumption.
Qed.

Lemma dyadic_props (z j : Z) :
  0 <= z < 2 ^ 24 -> -149 <= j <= 104 ->
  F32.valid (dyadic z j) = true /\ is_finite (dyadic z j) = true /\
  sval (dyadic z j) = z * 2 ^ (j + 149).
Proof.
  intros Hz Hj. destruct (Z.eq_dec z 0) as [-> | Hnz].
  - repeat split.
  - pose proof (pow2_pos (j + 149) ltac:(lia)) as HpE.
    assert (HN : 0 < z * 2 ^ (j + 149)) by nia.
    rewrite dyadic_round32 by lia.
    assert (Hs : sval (round32 false (z * 2 ^ (j + 149))) = z * 2 ^ (j + 149)).
    { rewrite sval_round32 by assumption. rewrite rint_repr by lia. cbn [cond_Zopp].
      assert (2 ^ (24 + (j + 149)) <= 2 ^ 277) by (apply pow2_le; lia).
      rewrite (pow2_split 24 (j + 149)) in * by lia. nia. }
    pose proof (round32_valid false _ HN) as Hv.
    split; [exact Hv |]. split; [| exact Hs].
    destruct (round32 false (z * 2 ^ (j + 149))) as [s | s | | s m e] eqn:Hr;
      try reflexivity.
    + exfalso. cbn [sval] in Hs.
      assert (2 ^ (24 + (j + 149)) <= 2 ^ 277) by (apply pow2_le; lia).
      rewrite (pow2_split 24 (j + 149)) in * by lia.
      destruct s; cbn [cond_Zopp] in Hs; nia.
    + cbn [sval] in Hs. lia.
Qed.

Lemma add_dyadic (a b j : Z) :
  0 <= a -> 0 <= b -> a + b < 2 ^ 24 -> -149 <= j <= 104 ->
  F32.add (dyadic a j) (dyadic b j) = dyadic (a + b) j.
Proof.
  intros Ha Hb Hab Hj.
  destruct (dyadic_props a j ltac:(lia) Hj) as (Hva & Hfa & Hsa).
  destruct (dyadic_props b j ltac:(lia) Hj) as (Hvb & Hfb & Hsb).
  destruct (Z.eq_dec (a + b) 0) as [Hz | Hnz].
  - assert (a = 0) by lia. assert (b = 0) by lia. subst a b. reflexivity.
  - destruct (add_finite _ _ Hva Hvb Hfa Hfb) as (Hp & _ & _).
    pose proof (pow2_pos (j + 149) ltac:(lia)) as HpE.
    rewrite Hsa, Hsb in Hp. rewrite Hp by nia.
    rewrite dyadic_round32 by lia. f_equal. lia.
Qed.

Lemma iter_sum_dyadic (z j : Z) (n : nat) :
  0 <= z -> -149 <= j <= 104 -> Z.of_nat n * z < 2 ^ 24 ->
  iter_sum (dyadic z j) n = dyadic (Z.of_nat n * z) j.
Proof.
  intros Hz Hj. induction n as [| n IH]; intros Hn; [reflexivity |].
  cbn [iter_sum]. rewrite IH by nia. rewrite add_dyadic by nia.
  f_equal. lia.
Qed.

(** C1, as stated, fails: with [M = L = 7] and every match score [0.1f], the
    call returns the running sum [11744052 * 2^-24], one unit in the last place
    above the rounded product [7 * 0.1f = 11744051 * 2^-24], and not the exact
    product either. *)
Lemma C1_counterexample :
  let residues := [RES_A; RES_C; RES_D; RES_E; RES_F; RES_G; RES_H] in
  let profile := constant_profile 7 tenth in
  F32.leb F32.zero tenth = true /\
  HMMProfile.model_length profile = 7 /\
  constant_scoresb profile 7 tenth = true /\
  forallb (fun r => residue_code r <? 20) residues = true /\
  exists r w',
    compute_msv 7 profile F32.zero (fresh_world 7 residues) = Some (r, w') /\
    r = S754_finite false 11744052 (-24) /\
    F32.mul (F32.of_Z (Z.min 7 7)) tenth = S754_finite false 11744051 (-24) /\
    r <> F32.mul (F32.of_Z (Z.min 7 7)) tenth /\
    sval r <> Z.min 7 7 * sval tenth.
Proof.
  cbv zeta. split; [reflexivity |]. split; [reflexivity |].
  split; [vm_compute; reflexivity |]. split; [reflexivity |].
  eexists _, _. split; [vm_compute; reflexivity |].
  split; [reflexivity |]. split; [vm_compute; reflexivity |].
  split; vm_compute; discriminate.
Qed.

(** C1, amended.  For [M, L >= 0], a fresh matrix, canonical residues at
    [1..L] and every match score equal to a constant [c >= 0] (a binary32
    value, not a NaN), the call returns the binary32 running sum
    [c + c + ... + c] of [min(M, L)] terms, each addition rounded to nearest.
    That sum is [min(M, L) * c] whenever [c = z * 2^j] for an integer [z] with
    [min(M, L) * z < 2^24], so that no addition rounds. *)
Theorem C1_constant_profile_running_sum (profile : HMMProfile.t)
    (seq : list DigitalResidue) (mx : DPMatrix.t) (L : Z) (c e : float) :
  0 <= HMMProfile.model_length profile -> 0 <= L ->
  DPMatrix.new (HMMProfile.model_length profile) L = Some mx ->
  Z.of_nat (length seq) = L + 2 ->
  (forall i, 1 <= i <= L -> exists r, vget seq i = Some r /\ residue_code r < 20) ->
  (forall k x, 1 <= k <= HMMProfile.model_length profile -> 0 <= x < 20 ->
     HMMProfile.match_score profile k x = Some c) ->
  F32.valid c = true -> F32.leb F32.zero c = true ->
  let n := Z.min (HMMProfile.model_length profile) L in
  (exists w', compute_msv L profile e (mkWorld seq mx) =
                Some (iter_sum c (Z.to_nat n), w')) /\
  (forall z j, 0 <= z -> -149 <= j <= 104 -> n * z < 2 ^ 24 -> c = dyadic z j ->
     iter_sum c (Z.to_nat n) = dyadic (n * z) j).
Proof.
  intros HM HL Hnew Hlen Hcanon Hconst Hvalid Hnonneg n. split.
  - destruct (decide (0 < L /\ 0 < HMMProfile.model_length profile)) as [[HL0 HM0] | Hdeg].
    + assert (Hok : call_ok L profile (mkWorld seq mx)).
      { apply (call_ok_fresh L profile (HMMProfile.model_length profile) L);
          try lia; try assumption.
        intros k r Hk Hr. rewrite Hconst by lia. eauto. }
      destruct (compute_msv_total L profile e _ Hok) as (r & w' & Hrun).
      exists w'. rewrite Hrun.
      apply compute_msv_spec in Hrun as [_ ->]; [| lia | lia].
      rewrite (score_constant profile (HMMProfile.model_length profile) L mx seq c L);
        try lia; try assumption.
      * replace (Z.to_nat n)
          with (Nat.min (Z.to_nat L) (Z.to_nat (HMMProfile.model_length profile)))
          by (unfold n; lia).
        reflexivity.
      * intros i Hi. destruct (Hcanon i Hi) as (r & Hr & Hlt).
        unfold res. cbn [digital_sequence]. rewrite Hr. exact Hlt.
    + exists (mkWorld seq mx). rewrite compute_msv_degenerate by lia.
      replace (Z.to_nat n) with 0%nat by (unfold n; lia). reflexivity.
  - intros z j Hz Hj Hfit ->. rewrite iter_sum_dyadic; try assumption.
    + f_equal. unfold n in *. lia.
    + unfold n in *. lia.
Qed.

(** The test of the suite with [M = 5], [L = 20] and [c = 1.5]: the score is
    [7.5]. *)
Lemma C1_witness :
  (exists w',
     compute_msv 20 (constant_profile 5 (dyadic 3 (-1))) F32.zero
       (mkWorld (create_digital_sequence (replicate 20 RES_A)) (fresh_matrix 5 20))
     = Some (iter_sum (dyadic 3 (-1)) 5, w')) /\
  iter_sum (dyadic 3 (-1)) 5 = dyadic 15 (-1).
Proof.
  destruct (C1_constant_profile_running_sum (constant_profile 5 (dyadic 3 (-1)))
              (create_digital_sequence (replicate 20 RES_A)) (fresh_matrix 5 20)
              20 (dyadic 3 (-1)) F32.zero) as [Hrun Hexact].
  - vm_compute. discriminate.
  - lia.
  - vm_compute. reflexivity.
  - vm_compute. reflexivity.
  - apply canonicalb_spec. vm_compute. reflexivity.
  - apply constant_scoresb_spec. vm_compute. reflexivity.
  - vm_compute. reflexivity.
  - vm_compute. reflexivity.
  - split; [exact Hrun |]. apply (Hexact 3 (-1)); try lia; reflexivity.
Defined.

(** ** Monotonicity *)

Lemma set_match_score_spec (p p' : HMMProfile.t) (k0 x0 : Z) (v : float) :
  HMMProfile.set_match_score p k0 x0 v = Some p' ->
  HMMProfile.model_length p' = HMMProfile.model_length p /\
  forall k r, HMMProfile.match_score p' k r =
    if decide (r = x0 /\ k = k0) then Some v else HMMProfile.match_score p k r.
Proof.
  unfold HMMProfile.set_match_score, HMMProfile.match_score. intros H.
  destruct (vget (HMMProfile.rsc p) x0) as [row |] eqn:Hrow; simpl in H; [| discriminate].
  destruct (vset row (k0 * p7P_NR + p7P_MSC) v) as [row' |] eqn:Hrow'; simpl in H;
    [| discriminate].
  destruct (vset (HMMProfile.rsc p) x0 row') as [rsc' |] eqn:Hrsc; simpl in H;
    [| discriminate].
  apply (inj Some) in H. subst p'. split; [reflexivity |].
  intros k r. cbn [HMMProfile.rsc HMMProfile.with_rsc].
  rewrite (vget_vset _ _ _ r _ Hrsc).
  destruct (decide (r = x0)) as [-> | Hr]; simpl.
  - rewrite Hrow; simpl. rewrite (vget_vset _ _ _ _ _ Hrow').
    destruct (decide (k * p7P_NR + p7P_MSC = k0 * p7P_NR + p7P_MSC)) as [Hk | Hk].
    + rewrite decide_True by (unfold p7P_NR, p7P_MSC in Hk; lia). reflexivity.
    + rewrite decide_False by (intros [_ ->]; apply Hk; reflexivity). reflexivity.
  - rewrite decide_False by tauto. reflexivity.
Qed.

Lemma cell_value_nan (a : float) : cell_value S754_nan a = F32.zero.
Proof. destruct a; reflexivity. Qed.

Lemma cell_value_good (m a : float) :
  F32.valid m = true -> F32.valid a = true -> good (cell_value m a) = true.
Proof.
  intros Hm Ha. unfold cell_value. apply max_zero_good. unfold F32.max.
  destruct (F32.ltb m (F32.add a m)); [apply add_valid |]; assumption.
Qed.

Lemma cell_value_ge_score (m a : float) :
  F32.valid m = true -> is_nan m = false -> 0 < sval m -> F32.valid a = true ->
  sval m <= sval (cell_value m a).
Proof.
  intros Hvm Hnm Hpos Hva. pose proof (add_valid a m Hva Hvm) as Hve.
  unfold cell_value, F32.max at 2.
  destruct (F32.ltb m (F32.add a m)) eqn:Hme.
  - destruct (ltb_true_not_nan _ _ Hme) as [_ Hne].
    rewrite ltb_sval in Hme by assumption. apply Z.ltb_lt in Hme.
    rewrite max_zero_of_good by (apply pos_good; (assumption || lia)). lia.
  - rewrite max_zero_of_good by (apply pos_good; assumption). lia.
Qed.

Lemma cell_value_ge_sum (m a : float) :
  F32.valid m = true -> is_nan m = false ->
  good (F32.add a m) = true -> 0 < sval (F32.add a m) ->
  sval (F32.add a m) <= sval (cell_value m a).
Proof.
  intros Hvm Hnm Hge Hpos. destruct (good_props _ Hge) as (Hve & Hne & _).
  unfold cell_value, F32.max at 2.
  destruct (F32.ltb m (F32.add a m)) eqn:Hme.
  - rewrite max_zero_of_good by assumption. lia.
  - rewrite ltb_sval in Hme by assumption. apply Z.ltb_ge in Hme.
    rewrite max_zero_of_good by (apply pos_good; (assumption || lia)). lia.
Qed.

Lemma cell_le_props (a a' : float) :
  cell_le a a' ->
  F32.valid a = true /\ F32.valid a' = true /\
  is_nan a = false /\ is_nan a' = false /\ sval a <= sval a'.
Proof.
  intros [[-> ->] | (Hg & Hg' & Hle)].
  - repeat split; lia.
  - destruct (good_props a Hg) as (? & ? & _), (good_props a' Hg') as (? & ? & _).
    repeat split; assumption.
Qed.

(** A cell can only grow when its score and its predecessor grow. *)
Lemma cell_value_mono (m m' a a' : float) :
  F32.valid m = true -> F32.valid m' = true ->
  score_le m m' -> cell_le a a' ->
  good (cell_value m a) = true /\ good (cell_value m' a') = true /\
  sval (cell_value m a) <= sval (cell_value m' a').
Proof.
  intros Hvm Hvm' Hmm Haa.
  destruct (cell_le_props a a' Haa) as (Hva & Hva' & Hna & Hna' & Hle).
  pose proof (cell_value_good m a Hvm Hva) as Hgd.
  pose proof (cell_value_good m' a' Hvm' Hva') as Hgd'.
  split; [exact Hgd |]. split; [exact Hgd' |].
  destruct (good_props _ Hgd') as (_ & _ & Hd' & _).
  destruct (is_nan m) eqn:Hnm.
  - destruct m; try discriminate. rewrite cell_value_nan. cbn [sval F32.zero]. lia.
  - assert (Hnm' : is_nan m' = false).
    { destruct Hmm as [<- | Hlt]; [assumption |].
      apply ltb_true_not_nan in Hlt. tauto. }
    assert (Hsm : sval m <= sval m').
    { destruct Hmm as [<- | Hlt]; [lia |].
      rewrite ltb_sval in Hlt by assumption. apply Z.ltb_lt in Hlt. lia. }
    unfold cell_value at 1. unfold F32.max at 1.
    destruct (F32.ltb F32.zero (F32.max m (F32.add a m))) eqn:Hpos;
      [| cbn [sval F32.zero]; lia].
    unfold F32.max in Hpos |- *.
    destruct (F32.ltb m (F32.add a m)) eqn:Hme.
    + destruct (add_mono a m a' m' Hva Hvm Hva' Hvm' Hna Hnm Hna' Hnm' Hle Hsm Hpos)
        as (Hge & Hge' & Hsum).
      rewrite good_ltb_zero in Hpos by assumption. apply Z.ltb_lt in Hpos.
      pose proof (cell_value_ge_sum m' a' Hvm' Hnm' Hge' ltac:(lia)). lia.
    + rewrite (ltb_sval F32.zero m) in Hpos by (reflexivity || assumption).
      apply Z.ltb_lt in Hpos. cbn [sval F32.zero] in Hpos.
      pose proof (cell_value_ge_score m' a' Hvm' Hnm' ltac:(lia) Hva'). lia.
Qed.

Lemma upd_max_mono (m m' v v' : float) :
  good m = true -> good m' = true -> sval m <= sval m' ->
  good v = true -> good v' = true -> sval v <= sval v' ->
  good (upd_max m v) = true /\ good (upd_max m' v') = true /\
  sval (upd_max m v) <= sval (upd_max m' v').
Proof.
  intros Hm Hm' Hle Hv Hv' Hlev.
  destruct (good_props m Hm) as (? & ? & _), (good_props m' Hm') as (? & ? & _).
  destruct (good_props v Hv) as (? & ? & _), (good_props v' Hv') as (? & ? & _).
  unfold upd_max. rewrite !ltb_sval by assumption.
  destruct (Z.ltb_spec (sval m) (sval v)), (Z.ltb_spec (sval m') (sval v'));
    repeat split; (assumption || lia).
Qed.

Section TwoProfiles.
Variables profile profile' : HMMProfile.t.
Variables Mx Lx : Z.
Variable mx : DPMatrix.t.
Variable seq : list DigitalResidue.

Let w : world := mkWorld seq mx.
Let Mlen : Z := HMMProfile.model_length profile.

Hypothesis Mx_nonneg : 0 <= Mx.
Hypothesis Lx_nonneg : 0 <= Lx.
Hypothesis fresh : DPMatrix.new Mx Lx = Some mx.
Hypothesis same_length : HMMProfile.model_length profile' = Mlen.
Hypothesis scores :
  forall k r, 1 <= k <= Mlen -> 0 <= r < 20 ->
    exists u u', HMMProfile.match_score profile k r = Some u /\
                 HMMProfile.match_score profile' k r = Some u' /\
                 F32.valid u = true /\ F32.valid u' = true /\ score_le u u'.

Lemma DP_mono (i : nat) (k : Z) :
  Z.of_nat i <= Lx -> 0 <= k <= Mlen ->
  cell_le (DP profile w i k) (DP profile' w i k) /\
  (1 <= k ->
   good (DP profile w i k) = true /\ good (DP profile' w i k) = true /\
   sval (DP profile w i k) <= sval (DP profile' w i k)).
Proof.
  revert k. induction i as [| i IH]; intros k Hi Hk.
  - cbn [DP]. split; [right |]; repeat split; lia.
  - cbn [DP]. destruct (Z.leb_spec k 0) as [Hk0 | Hk1].
    + split; [| lia]. left. unfold w.
      rewrite (fresh_col0 Mx Lx) by (assumption || lia). auto.
    + destruct (Z.leb_spec 20 (res w (Z.of_nat (Datatypes.S i)))) as [Hbig | Hsmall].
      * split; [right |]; repeat split; lia.
      * pose proof (residue_code_range
          (default digitalResidueSentinel
             (vget (digital_sequence w) (Z.of_nat (Datatypes.S i))))) as Hr.
        fold (res w (Z.of_nat (Datatypes.S i))) in Hr.
        destruct (scores k (res w (Z.of_nat (Datatypes.S i))))
          as (u & u' & Hu & Hu' & Hvu & Hvu' & Hle); [lia | lia |].
        unfold mu. rewrite Hu, Hu'.
        change (default F32.nan (Some u)) with u.
        change (default F32.nan (Some u')) with u'.
        destruct (IH (k - 1)) as [Hprev _]; [lia | lia |].
        pose proof (cell_value_mono u u' _ _ Hvu Hvu' Hle Hprev) as Hcv.
        split; [right; exact Hcv | intros _; exact Hcv].
Qed.

Lemma row_max_mono (i n : nat) (m m' : float) :
  Z.of_nat i <= Lx -> Z.of_nat n <= Mlen ->
  good m = true -> good m' = true -> sval m <= sval m' ->
  good (row_max profile w i n m) = true /\ good (row_max profile' w i n m') = true /\
  sval (row_max profile w i n m) <= sval (row_max profile' w i n m').
Proof.
  intros Hi Hn Hm Hm' Hle. induction n as [| n IH]; [cbn [row_max]; auto |].
  cbn [row_max]. destruct IH as (Hg & Hg' & Hs); [lia |].
  destruct (DP_mono i (Z.of_nat (Datatypes.S n))) as [_ (Hd & Hd' & Hds)];
    [lia | lia | lia |].
  apply upd_max_mono; assumption.
Qed.

Lemma score_mono (n : nat) :
  Z.of_nat n <= Lx -> 0 <= Mlen ->
  good (score_upto profile w n) = true /\ good (score_upto profile' w n) = true /\
  sval (score_upto profile w n) <= sval (score_upto profile' w n).
Proof.
  intros Hn HM. induction n as [| n IH]; [cbn [score_upto]; repeat split; lia |].
  cbn [score_upto]. destruct IH as (Hg & Hg' & Hs); [lia |].
  destruct (20 <=? res w (Z.of_nat (Datatypes.S n))); [auto |].
  rewrite same_length. fold Mlen. apply row_max_mono; (assumption || lia).
Qed.
End TwoProfiles.

(** C5.  Take a profile whose match scores are binary32 values, a fresh
    matrix, any sequence, and one cell [(k0, x0)] of the match-score table;
    put there a value [v'] greater than the value [v] it holds, everything
    else as it is.  Both calls return, and the score of the second is not
    below the score of the first. *)
Theorem C5_monotone_in_each_score (L : Z) (profile profile' : HMMProfile.t)
    (e : float) (Mx Lx : Z) (mx : DPMatrix.t) (seq : list DigitalResidue)
    (k0 x0 : Z) (v v' : float) :
  HMMProfile.model_length profile <= Mx -> L <= Lx -> 0 <= Mx -> 0 <= Lx ->
  DPMatrix.new Mx Lx = Some mx ->
  L + 1 <= Z.of_nat (length seq) ->
  (forall k x, 1 <= k <= HMMProfile.model_length profile -> 0 <= x < 20 ->
     exists u, HMMProfile.match_score profile k x = Some u /\ F32.valid u = true) ->
  HMMProfile.match_score profile k0 x0 = Some v ->
  HMMProfile.set_match_score profile k0 x0 v' = Some profile' ->
  F32.valid v' = true ->
  F32.ltb v v' = true ->
  exists r w1 r' w1',
    compute_msv L profile e (mkWorld seq mx) = Some (r, w1) /\
    compute_msv L profile' e (mkWorld seq mx) = Some (r', w1') /\
    F32.leb r r' = true.
Proof.
  intros HMx HLx HM0 HL0 Hnew Hseq Hscores Hold Hset Hv' Hlt.
  destruct (set_match_score_spec _ _ _ _ _ Hset) as [Hlen Hnewsc].
  assert (Hboth : forall k r, 1 <= k <= HMMProfile.model_length profile -> 0 <= r < 20 ->
            exists u u', HMMProfile.match_score profile k r = Some u /\
                         HMMProfile.match_score profile' k r = Some u' /\
                         F32.valid u = true /\ F32.valid u' = true /\ score_le u u').
  { intros k r Hk Hr. destruct (Hscores k r Hk Hr) as (u & Hu & Hvu).
    rewrite Hnewsc. destruct (decide (r = x0 /\ k = k0)) as [[-> ->] | Hne].
    - exists u, v'. rewrite Hold in Hu. apply (inj Some) in Hu. subst u.
      repeat split; try assumption. right. exact Hlt.
    - exists u, u. repeat split; try assumption. left. reflexivity. }
  assert (Hok : call_ok L profile (mkWorld seq mx)).
  { apply (call_ok_fresh L profile Mx Lx); try assumption.
    intros k r Hk Hr. destruct (Hscores k r Hk Hr) as (u & Hu & _). rewrite Hu. eauto. }
  assert (Hok' : call_ok L profile' (mkWorld seq mx)).
  { apply (call_ok_fresh L profile' Mx Lx); try assumption; [rewrite Hlen; assumption |].
    intros k r Hk Hr. rewrite Hlen in Hk.
    destruct (Hboth k r Hk Hr) as (u & u' & _ & Hu' & _). rewrite Hu'. eauto. }
  destruct (compute_msv_total L profile e _ Hok) as (r & w1 & Hrun).
  destruct (compute_msv_total L profile' e _ Hok') as (r' & w1' & Hrun').
  exists r, w1, r', w1'. split; [exact Hrun |]. split; [exact Hrun' |].
  destruct (decide (0 < L /\ 0 < HMMProfile.model_length profile)) as [[HLp HMp] | Hdeg].
  - apply compute_msv_spec in Hrun as [_ ->]; [| lia | lia].
    apply compute_msv_spec in Hrun' as [_ ->]; [| lia | lia].
    destruct (score_mono profile profile' Mx Lx mx seq HM0 HL0 Hnew Hlen Hboth
                (Z.to_nat L)) as (Hg & Hg' & Hs); [lia | lia |].
    destruct (good_props _ Hg) as (? & ? & _), (good_props _ Hg') as (? & ? & _).
    rewrite leb_sval by assumption. apply Z.leb_le. exact Hs.
  - rewrite compute_msv_degenerate in Hrun by lia.
    rewrite compute_msv_degenerate in Hrun' by lia.
    inversion Hrun; inversion Hrun'; subst. reflexivity.
Qed.

(** The score of [C] at position 2 raised from one to two. *)
Lemma C5_witness :
  exists r w1 r' w1',
    compute_msv 3 (constant_profile 3 (F32.of_Z 1)) F32.zero
      (mkWorld (create_digital_sequence [RES_A; RES_C; RES_D]) (fresh_matrix 3 3))
      = Some (r, w1) /\
    compute_msv 3 raised_profile F32.zero
      (mkWorld (create_digital_sequence [RES_A; RES_C; RES_D]) (fresh_matrix 3 3))
      = Some (r', w1') /\
    F32.leb r r' = true.
Proof.
  apply (C5_monotone_in_each_score 3 (constant_profile 3 (F32.of_Z 1)) raised_profile
           F32.zero 3 3 (fresh_matrix 3 3) (create_digital_sequence [RES_A; RES_C; RES_D])
           2 1 (F32.of_Z 1) (F32.of_Z 2)).
  - vm_compute. discriminate.
  - lia.
  - lia.
  - lia.
  - vm_compute. reflexivity.
  - vm_compute. discriminate.
  - apply valid_scoresb_spec. vm_compute. reflexivity.
  - vm_compute. reflexivity.
  - vm_compute. reflexivity.
  - vm_compute. reflexivity.
  - vm_compute. reflexivity.
Defined.

(** * The data structures and the builders *)

(** ** The loops of the builders *)

Section OptLoopRules.
Context {S : Type}.
Variable I : Z -> S -> Prop.
Variable body : Z -> S -> option S.

Lemma opt_for_aux_total (n : nat) (lo : Z) (s : S) :
  (forall j t, lo <= j < lo + Z.of_nat n -> I j t ->
     exists t', body j t = Some t' /\ I (j + 1) t') ->
  I lo s ->
  exists s', opt_for_aux n lo body s = Some s' /\ I (lo + Z.of_nat n) s'.
Proof.
  revert lo s. induction n as [| n IH]; intros lo s Hstep Hinit.
  - exists s. split; [reflexivity |]. replace (lo + Z.of_nat 0) with lo by lia. exact Hinit.
  - destruct (Hstep lo s) as (t & Hb & Ht); [lia | exact Hinit |].
    destruct (IH (lo + 1) t) as (s' & Hrun & Hfin).
    + intros j t0 Hj. apply Hstep. lia.
    + exact Ht.
    + exists s'. split.
      * cbn [opt_for_aux]. rewrite Hb. exact Hrun.
      * replace (lo + Z.of_nat (Datatypes.S n)) with (lo + 1 + Z.of_nat n) by lia. exact Hfin.
Qed.

Lemma opt_for_total (lo hi : Z) (s : S) :
  lo <= hi ->
  (forall j t, lo <= j < hi -> I j t -> exists t', body j t = Some t' /\ I (j + 1) t') ->
  I lo s ->
  exists s', opt_for lo hi body s = Some s' /\ I hi s'.
Proof.
  intros Hle Hstep Hinit. unfold opt_for.
  destruct (opt_for_aux_total (Z.to_nat (hi - lo)) lo s) as (s' & Hrun & Hfin);
    [| exact Hinit |].
  - intros j t Hj. apply Hstep. lia.
  - exists s'. split; [exact Hrun |].
    replace (lo + Z.of_nat (Z.to_nat (hi - lo))) with hi in Hfin by lia. exact Hfin.
Qed.
End OptLoopRules.

Lemma opt_for_aux_ext {S : Type} (body1 body2 : Z -> S -> option S) (n : nat) (lo : Z) (s : S) :
  (forall j t, lo <= j < lo + Z.of_nat n -> body1 j t = body2 j t) ->
  opt_for_aux n lo body1 s = opt_for_aux n lo body2 s.
Proof.
  revert lo s. induction n as [| n IH]; intros lo s Hb; [reflexivity |].
  cbn [opt_for_aux]. rewrite Hb by lia. destruct (body2 lo s) as [t |]; [| reflexivity].
  cbn [mbind option_bind]. apply IH. intros j t0 Hj. apply Hb. lia.
Qed.

Lemma opt_for_ext {S : Type} (body1 body2 : Z -> S -> option S) (lo hi : Z) (s : S) :
  (forall j t, lo <= j < hi -> body1 j t = body2 j t) ->
  opt_for lo hi body1 s = opt_for lo hi body2 s.
Proof.
  intros Hb. unfold opt_for. apply opt_for_aux_ext. intros j t Hj. apply Hb. lia.
Qed.

Lemma opt_for_empty {S : Type} (body : Z -> S -> option S) (lo hi : Z) (s : S) :
  hi <= lo -> opt_for lo hi body s = Some s.
Proof. intros H. unfold opt_for. replace (Z.to_nat (hi - lo)) with 0%nat by lia. reflexivity. Qed.

(** A loop stops with no result as soon as one iteration has none. *)
Lemma opt_for_aux_None {S : Type} (I : Z -> S -> Prop) (body : Z -> S -> option S)
    (n : nat) (lo : Z) (s : S) (j0 : Z) :
  (forall j t t', lo <= j < j0 -> I j t -> body j t = Some t' -> I (j + 1) t') ->
  lo <= j0 < lo + Z.of_nat n ->
  (forall t, I j0 t -> body j0 t = None) ->
  I lo s ->
  opt_for_aux n lo body s = None.
Proof.
  revert lo s. induction n as [| n IH]; intros lo s Hstep Hj0 Hfail Hinit; [lia |].
  cbn [opt_for_aux]. destruct (decide (lo = j0)) as [-> | Hne].
  - rewrite Hfail by exact Hinit. reflexivity.
  - destruct (body lo s) as [t |] eqn:Hb; [| reflexivity]. cbn [mbind option_bind].
    apply IH.
    + intros j t0 t' Hj. apply Hstep. lia.
    + lia.
    + exact Hfail.
    + apply (Hstep lo s); [lia | exact Hinit | exact Hb].
Qed.

(** ** The profile *)

Lemma match_score_cell (p : HMMProfile.t) (k x : Z) :
  HMMProfile.match_score p k x = score_cell p x (k * p7P_NR + p7P_MSC).
Proof. reflexivity. Qed.

Lemma insert_score_cell (p : HMMProfile.t) (k x : Z) :
  HMMProfile.insert_score p k x = score_cell p x (k * p7P_NR + p7P_ISC).
Proof. reflexivity. Qed.

Lemma set_score_cell (p p' : HMMProfile.t) (x0 j0 : Z) (v : float) :
  (row ← vget (HMMProfile.rsc p) x0;
   row' ← vset row j0 v;
   rsc' ← vset (HMMProfile.rsc p) x0 row';
   Some (HMMProfile.with_rsc p rsc')) = Some p' ->
  HMMProfile.with_rsc p' (HMMProfile.rsc p) = p /\
  forall x j, score_cell p' x j =
    if decide (x = x0 /\ j = j0) then Some v else score_cell p x j.
Proof.
  intros H.
  destruct (vget (HMMProfile.rsc p) x0) as [row |] eqn:Hrow; simpl in H; [| discriminate].
  destruct (vset row j0 v) as [row' |] eqn:Hrow'; simpl in H; [| discriminate].
  destruct (vset (HMMProfile.rsc p) x0 row') as [rsc' |] eqn:Hrsc; simpl in H;
    [| discriminate].
  apply (inj Some) in H. subst p'. split; [destruct p; reflexivity |].
  intros x j. unfold score_cell. cbn [HMMProfile.rsc HMMProfile.with_rsc].
  rewrite (vget_vset _ _ _ x _ Hrsc).
  destruct (decide (x = x0)) as [-> | Hx]; simpl.
  - rewrite Hrow; simpl. rewrite (vget_vset _ _ _ j _ Hrow').
    destruct (decide (j = j0)) as [-> | Hj].
    + rewrite decide_True by auto. reflexivity.
    + rewrite decide_False by tauto. reflexivity.
  - rewrite decide_False by tauto. reflexivity.
Qed.

Lemma set_score_is_Some (p : HMMProfile.t) (x0 j0 : Z) (v : float) :
  is_Some (score_cell p x0 j0) ->
  is_Some (row ← vget (HMMProfile.rsc p) x0;
           row' ← vset row j0 v;
           rsc' ← vset (HMMProfile.rsc p) x0 row';
           Some (HMMProfile.with_rsc p rsc')).
Proof.
  unfold score_cell. intros [u Hu].
  destruct (vget (HMMProfile.rsc p) x0) as [row |] eqn:Hrow; simpl in *; [| discriminate].
  destruct (vset_is_Some row j0 v) as [row' Hrow']; [eauto |].
  rewrite Hrow'. simpl.
  destruct (vset_is_Some (HMMProfile.rsc p) x0 row') as [rsc' Hrsc']; [eauto |].
  rewrite Hrsc'. simpl. eauto.
Qed.

Lemma set_score_Some_cell (p p' : HMMProfile.t) (x0 j0 : Z) (v : float) :
  (row ← vget (HMMProfile.rsc p) x0;
   row' ← vset row j0 v;
   rsc' ← vset (HMMProfile.rsc p) x0 row';
   Some (HMMProfile.with_rsc p rsc')) = Some p' ->
  is_Some (score_cell p x0 j0).
Proof.
  unfold score_cell. intros H.
  destruct (vget (HMMProfile.rsc p) x0) as [row |]; simpl in *; [| discriminate].
  destruct (vset row j0 v) as [row' |] eqn:Hrow'; simpl in H; [| discriminate].
  apply vset_Some in Hrow' as [Hj _]. apply vget_is_Some. exact Hj.
Qed.

Lemma alphabet_dims :
  AminoAcidAlphabet.K test_alphabet = 20 /\
  AminoAcidAlphabet.Kp test_alphabet = 29 /\
  vget (AminoAcidAlphabet.inmap test_alphabet) (int_of_char "-"%char) = Some 20.
Proof. vm_compute. auto. Qed.

Lemma built_alphabet (a : AminoAcidAlphabet.t) :
  AminoAcidAlphabet.new = Some a -> a = test_alphabet.
Proof. rewrite alphabet_new_Some. intros H. apply (inj Some) in H. auto. Qed.

(** The profile of a call [HMMProfile(M, abc)] whose sizes are [int] values. *)
Lemma HMMProfile_construct_Returns (M : Z) :
  0 <= M -> M * p7P_NTRANS <= INT_MAX ->
  HMMProfile.construct M test_alphabet =
    Returns (HMMProfile.mk
               (replicate (Z.to_nat (M * p7P_NTRANS)) (F32.opp eslINFINITY))
               (replicate 29 (replicate (Z.to_nat ((M + 1) * p7P_NR)) (F32.opp eslINFINITY)))
               (replicate (Z.to_nat p7P_NXSTATES) (replicate (Z.to_nat p7P_NXTRANS) F32.zero))
               0 0 M 0 (-1) F32.zero
               (replicate (Z.to_nat p7_NEVPARAM) F32.zero)
               (replicate (Z.to_nat p7_NCUTOFFS) F32.zero)
               (replicate (Z.to_nat p7_MAXABET) F32.zero)
               test_alphabet EmptyString).
Proof.
  intros HM HMmax. destruct alphabet_dims as (_ & HKp & Hgap).
  unfold HMMProfile.construct. cbv zeta. rewrite HKp, Hgap.
  rewrite (c_int_Some (M * p7P_NTRANS)) by (unfold INT_MIN, INT_MAX, p7P_NTRANS in *; lia).
  rewrite (c_int_Some (M + 1)) by (unfold INT_MIN, INT_MAX, p7P_NTRANS in *; lia).
  cbn [mbind option_bind outcome_mbind outcome_bind defined].
  rewrite (c_int_Some ((M + 1) * p7P_NR))
    by (unfold INT_MIN, INT_MAX, p7P_NTRANS, p7P_NR in *; lia).
  cbn [mbind option_bind outcome_mbind outcome_bind defined].
  rewrite (vresize_Some (M * p7P_NTRANS)) by (unfold p7P_NTRANS; lia).
  cbn [mbind outcome_mbind outcome_bind allocated]. rewrite resize_nil.
  rewrite (vresize_Some 29) by lia.
  cbn [mbind outcome_mbind outcome_bind allocated]. rewrite resize_nil.
  rewrite (out_for_ext _
             (fun x rsc => defined (row ← vget rsc x;
                                    row' ← vresize ((M + 1) * p7P_NR)
                                             (F32.opp eslINFINITY) row;
                                    vset rsc x row')))
    by (intros x rsc _; apply alloc_body; unfold p7P_NR; lia).
  rewrite out_for_defined. unfold opt_for. change (Z.to_nat (29 - 0)) with 29%nat.
  pose proof (alloc_rows ((M + 1) * p7P_NR) (F32.opp eslINFINITY) 29 []) as Hrows.
  cbn [length app] in Hrows. change (Z.of_nat 0) with 0 in Hrows.
  change (Z.to_nat 29) with 29%nat.
  rewrite Hrows by (unfold p7P_NR; lia).
  cbn [mbind outcome_mbind outcome_bind defined].
  change (20 <? 29) with true. cbv iota.
  set (row := replicate (Z.to_nat ((M + 1) * p7P_NR)) (F32.opp eslINFINITY)).
  assert (Hrow : vget (replicate 29 row) 20 = Some row) by reflexivity.
  rewrite Hrow. cbn [mbind outcome_mbind outcome_bind defined].
  assert (Hlen : replicate (length row) (F32.opp eslINFINITY) = row).
  { unfold row. rewrite length_replicate. reflexivity. }
  rewrite Hlen.
  assert (Hset : vset (replicate 29 row) 20 row = Some (replicate 29 row)) by reflexivity.
  rewrite Hset. reflexivity.
Qed.

(** A negative length whose size is an [int] value: [tsc.resize] throws. *)
Lemma HMMProfile_construct_Throws (M : Z) (a : AminoAcidAlphabet.t) :
  M < 0 -> INT_MIN <= M * p7P_NTRANS -> HMMProfile.construct M a = Throws.
Proof.
  intros HM Hmin. unfold HMMProfile.construct. cbv zeta.
  rewrite (c_int_Some (M * p7P_NTRANS)) by (unfold INT_MIN, INT_MAX, p7P_NTRANS in *; lia).
  cbn [mbind outcome_mbind outcome_bind defined].
  assert (Hthrow : vresize (M * p7P_NTRANS) (F32.opp eslINFINITY) (@nil float) = None).
  { unfold vresize. destruct (Z.ltb_spec (M * p7P_NTRANS) 0) as [_ | Hge]; [reflexivity |].
    unfold p7P_NTRANS in Hge. lia. }
  rewrite Hthrow. reflexivity.
Qed.

(** A size that is not an [int] value. *)
Lemma HMMProfile_construct_overflow (M : Z) (a : AminoAcidAlphabet.t) :
  M * p7P_NTRANS < INT_MIN \/ INT_MAX < M * p7P_NTRANS ->
  HMMProfile.construct M a = Undefined.
Proof.
  intros Hover. unfold HMMProfile.construct. cbv zeta.
  rewrite (c_int_None (M * p7P_NTRANS)) by assumption. reflexivity.
Qed.

Lemma HMMProfile_new_Some (M : Z) :
  0 <= M -> M * p7P_NTRANS <= INT_MAX ->
  HMMProfile.new M test_alphabet =
    Some (HMMProfile.mk
            (replicate (Z.to_nat (M * p7P_NTRANS)) (F32.opp eslINFINITY))
            (replicate 29 (replicate (Z.to_nat ((M + 1) * p7P_NR)) (F32.opp eslINFINITY)))
            (replicate (Z.to_nat p7P_NXSTATES) (replicate (Z.to_nat p7P_NXTRANS) F32.zero))
            0 0 M 0 (-1) F32.zero
            (replicate (Z.to_nat p7_NEVPARAM) F32.zero)
            (replicate (Z.to_nat p7_NCUTOFFS) F32.zero)
            (replicate (Z.to_nat p7_MAXABET) F32.zero)
            test_alphabet EmptyString).
Proof.
  intros HM HMmax. unfold HMMProfile.new.
  rewrite HMMProfile_construct_Returns by assumption. reflexivity.
Qed.

(** A profile that the constructor returned: its sizes are [int] values. *)
Lemma HMMProfile_new_inv (M : Z) (p : HMMProfile.t) :
  0 <= M -> HMMProfile.new M test_alphabet = Some p ->
  M * p7P_NTRANS <= INT_MAX /\
  p = HMMProfile.mk
        (replicate (Z.to_nat (M * p7P_NTRANS)) (F32.opp eslINFINITY))
        (replicate 29 (replicate (Z.to_nat ((M + 1) * p7P_NR)) (F32.opp eslINFINITY)))
        (replicate (Z.to_nat p7P_NXSTATES) (replicate (Z.to_nat p7P_NXTRANS) F32.zero))
        0 0 M 0 (-1) F32.zero
        (replicate (Z.to_nat p7_NEVPARAM) F32.zero)
        (replicate (Z.to_nat p7_NCUTOFFS) F32.zero)
        (replicate (Z.to_nat p7_MAXABET) F32.zero)
        test_alphabet EmptyString.
Proof.
  intros HM Hnew. destruct (decide (M * p7P_NTRANS <= INT_MAX)) as [Hmax | Hmax].
  - rewrite HMMProfile_new_Some in Hnew by assumption. apply (inj Some) in Hnew. auto.
  - unfold HMMProfile.new in Hnew.
    rewrite HMMProfile_construct_overflow in Hnew by lia. discriminate.
Qed.

Lemma HMMProfile_new_cell (M : Z) (p : HMMProfile.t) (x j : Z) :
  0 <= M -> HMMProfile.new M test_alphabet = Some p ->
  score_cell p x j =
    if decide (0 <= x < 29 /\ 0 <= j < (M + 1) * p7P_NR)
    then Some (F32.opp eslINFINITY) else None.
Proof.
  intros HM Hnew. destruct (HMMProfile_new_inv M p HM Hnew) as [_ ->].
  unfold score_cell, vget. cbn [HMMProfile.rsc].
  set (row := replicate (Z.to_nat ((M + 1) * p7P_NR)) (F32.opp eslINFINITY)).
  destruct (Z.ltb_spec x 0).
  { rewrite decide_False by lia. reflexivity. }
  destruct (decide (x < 29)) as [Hx | Hx].
  - assert (Hrow : replicate 29 row !! Z.to_nat x = Some row)
      by (apply lookup_replicate_2; lia).
    rewrite Hrow. cbn [mbind option_bind].
    destruct (Z.ltb_spec j 0).
    { rewrite decide_False by lia. reflexivity. }
    destruct (decide (j < (M + 1) * p7P_NR)) as [Hj | Hj].
    + rewrite decide_True by lia. apply lookup_replicate_2. lia.
    + rewrite decide_False by lia. apply lookup_replicate_None. lia.
  - assert (Hrow : replicate 29 row !! Z.to_nat x = None)
      by (apply lookup_replicate_None; lia).
    rewrite Hrow. rewrite decide_False by lia. reflexivity.
Qed.

Lemma HMMProfile_new_trans (M : Z) (p : HMMProfile.t) (j : Z) :
  0 <= M -> HMMProfile.new M test_alphabet = Some p ->
  vget (HMMProfile.tsc p) j =
    if decide (0 <= j < M * p7P_NTRANS) then Some (F32.opp eslINFINITY) else None.
Proof.
  intros HM Hnew. destruct (HMMProfile_new_inv M p HM Hnew) as [_ ->].
  cbn [HMMProfile.tsc]. unfold vget.
  destruct (Z.ltb_spec j 0).
  { rewrite decide_False by lia. reflexivity. }
  destruct (decide (j < M * p7P_NTRANS)) as [Hj | Hj].
  - rewrite decide_True by lia. apply lookup_replicate_2. lia.
  - rewrite decide_False by lia. apply lookup_replicate_None. lia.
Qed.

Lemma HMMProfile_new_fields (M : Z) (a : AminoAcidAlphabet.t) (p : HMMProfile.t) :
  HMMProfile.new M a = Some p ->
  HMMProfile.model_length p = 0 /\ HMMProfile.allocM p = M /\
  HMMProfile.max_length p = -1 /\ HMMProfile.abc p = a.
Proof.
  unfold HMMProfile.new. intros H. apply returned_Returns in H.
  unfold HMMProfile.construct in H. cbv zeta in H.
  apply bind_Returns_inv in H as (ntsc & _ & H).
  apply bind_Returns_inv in H as (tsc0 & _ & H).
  apply bind_Returns_inv in H as (width & _ & H).
  apply bind_Returns_inv in H as (rsc0 & _ & H).
  apply bind_Returns_inv in H as (rsc1 & _ & H).
  apply bind_Returns_inv in H as (gap_idx & _ & H).
  apply bind_Returns_inv in H as (rsc2 & _ & H).
  inversion H. subst p. auto.
Qed.

(** X1.  With the alphabet of the program, the constructor HMMProfile(M, abc)
    has undefined behaviour when the size 7 M of the transition vector is not an
    int (M < -306783378 or M > 306783378), and throws from tsc.resize for a
    negative M within that range. For 0 <= M <= 306783378 it returns a profile
    with allocM = M, model_length = 0 and max_length = -1, in which
    match_score(k, x) and insert_score(k, x) are negative infinity for 0 <= k <=
    M and 0 <= x < 29 and outside their vectors for any other k or x, and
    trans(k, s), for s in 0..6, is negative infinity for 0 <= k < M and outside
    its vector for any other k. As model_length is still 0, compute_msv returns
    0 on this profile for every length, sequence and matrix, and leaves the
    buffers as they were. *)
Theorem X1_profile_constructor (M : Z) (a : AminoAcidAlphabet.t) :
  AminoAcidAlphabet.new = Some a ->
  (M * p7P_NTRANS < INT_MIN \/ INT_MAX < M * p7P_NTRANS ->
   HMMProfile.construct M a = Undefined) /\
  (M < 0 -> INT_MIN <= M * p7P_NTRANS -> HMMProfile.construct M a = Throws) /\
  (0 <= M -> M * p7P_NTRANS <= INT_MAX ->
   exists p, HMMProfile.construct M a = Returns p /\
     HMMProfile.allocM p = M /\ HMMProfile.model_length p = 0 /\
     HMMProfile.max_length p = -1 /\
     (forall k x, HMMProfile.match_score p k x =
        if decide (0 <= k <= M /\ 0 <= x < 29) then Some (F32.opp eslINFINITY) else None) /\
     (forall k x, HMMProfile.insert_score p k x =
        if decide (0 <= k <= M /\ 0 <= x < 29) then Some (F32.opp eslINFINITY) else None) /\
     (forall k s, 0 <= s < p7P_NTRANS ->
        HMMProfile.trans p k s =
          if decide (0 <= k < M) then Some (F32.opp eslINFINITY) else None) /\
     (forall L e w, compute_msv L p e w = Some (F32.zero, w))).
Proof.
  intros Ha. split; [apply HMMProfile_construct_overflow |].
  split; [apply HMMProfile_construct_Throws |].
  intros HM HMmax. apply built_alphabet in Ha. subst a.
  eexists. split; [apply HMMProfile_construct_Returns; assumption |].
  pose proof (HMMProfile_new_Some M HM HMmax) as Hnew.
  destruct (HMMProfile_new_fields M _ _ Hnew) as (Hlen & Halloc & Hmax & _).
  split; [exact Halloc |]. split; [exact Hlen |]. split; [exact Hmax |].
  split; [| split; [| split]].
  - intros k x. rewrite match_score_cell, (HMMProfile_new_cell M _ _ _ HM Hnew).
    unfold p7P_NR, p7P_MSC.
    destruct (decide (0 <= k <= M /\ 0 <= x < 29)).
    + rewrite decide_True by lia. reflexivity.
    + rewrite decide_False by lia. reflexivity.
  - intros k x. rewrite insert_score_cell, (HMMProfile_new_cell M _ _ _ HM Hnew).
    unfold p7P_NR, p7P_ISC.
    destruct (decide (0 <= k <= M /\ 0 <= x < 29)).
    + rewrite decide_True by lia. reflexivity.
    + rewrite decide_False by lia. reflexivity.
  - intros k s Hs. unfold HMMProfile.trans.
    rewrite (HMMProfile_new_trans M _ _ HM Hnew). unfold p7P_NTRANS in *.
    destruct (decide (0 <= k < M)).
    + rewrite decide_True by lia. reflexivity.
    + rewrite decide_False by lia. reflexivity.
  - intros L e w. apply compute_msv_degenerate. right. rewrite Hlen. lia.
Qed.

Lemma X1_witness :
  exists p, HMMProfile.construct 3 test_alphabet = Returns p /\
    HMMProfile.allocM p = 3 /\ HMMProfile.model_length p = 0 /\
    HMMProfile.max_length p = -1 /\
    (forall k x, HMMProfile.match_score p k x =
       if decide (0 <= k <= 3 /\ 0 <= x < 29) then Some (F32.opp eslINFINITY) else None) /\
    (forall k x, HMMProfile.insert_score p k x =
       if decide (0 <= k <= 3 /\ 0 <= x < 29) then Some (F32.opp eslINFINITY) else None) /\
    (forall k s, 0 <= s < p7P_NTRANS ->
       HMMProfile.trans p k s =
         if decide (0 <= k < 3) then Some (F32.opp eslINFINITY) else None) /\
    (forall L e w, compute_msv L p e w = Some (F32.zero, w)).
Proof.
  destruct (X1_profile_constructor 3 test_alphabet) as (_ & _ & Hp);
    [vm_compute; reflexivity |].
  apply Hp; [lia | unfold p7P_NTRANS, INT_MAX; lia].
Defined.

(** X2.  A write through one of the reference accessors match_score(k, x),
    insert_score(k, x) and trans(k, s) of a profile that stays within the
    vectors is at an entry the accessor can read, and changes that entry only:
    afterwards the same accessor reads the written value there and its former
    value at every other pair of indices, and the other two accessors read what
    they read before. For trans this holds for the state indices 0..6. *)
Theorem X2_profile_writes_one_entry (p p' : HMMProfile.t) (k x : Z) (v : float) :
  (HMMProfile.set_match_score p k x v = Some p' ->
     is_Some (HMMProfile.match_score p k x) /\
     (forall k' x', HMMProfile.match_score p' k' x' =
        if decide (k' = k /\ x' = x) then Some v else HMMProfile.match_score p k' x') /\
     (forall k' x', HMMProfile.insert_score p' k' x' = HMMProfile.insert_score p k' x') /\
     (forall k' s, HMMProfile.trans p' k' s = HMMProfile.trans p k' s)) /\
  (HMMProfile.set_insert_score p k x v = Some p' ->
     is_Some (HMMProfile.insert_score p k x) /\
     (forall k' x', HMMProfile.insert_score p' k' x' =
        if decide (k' = k /\ x' = x) then Some v else HMMProfile.insert_score p k' x') /\
     (forall k' x', HMMProfile.match_score p' k' x' = HMMProfile.match_score p k' x') /\
     (forall k' s, HMMProfile.trans p' k' s = HMMProfile.trans p k' s)) /\
  (forall s, 0 <= s < p7P_NTRANS ->
     HMMProfile.set_trans p k s v = Some p' ->
     is_Some (HMMProfile.trans p k s) /\
     (forall k' s', 0 <= s' < p7P_NTRANS ->
        HMMProfile.trans p' k' s' =
          if decide (k' = k /\ s' = s) then Some v else HMMProfile.trans p k' s') /\
     (forall k' x', HMMProfile.match_score p' k' x' = HMMProfile.match_score p k' x' /\
                    HMMProfile.insert_score p' k' x' = HMMProfile.insert_score p k' x')).
Proof.
  split; [| split]; [intros Hset | intros Hset |].
  - unfold HMMProfile.set_match_score in Hset.
    pose proof (set_score_Some_cell _ _ _ _ _ Hset) as Hsome.
    destruct (set_score_cell _ _ _ _ _ Hset) as [Hf Hcell].
    split; [exact Hsome |]. split; [| split].
    + intros k' x'. rewrite !match_score_cell, Hcell. unfold p7P_NR, p7P_MSC.
      destruct (decide (k' = k /\ x' = x)).
      * rewrite decide_True by lia. reflexivity.
      * rewrite decide_False by lia. reflexivity.
    + intros k' x'. rewrite !insert_score_cell, Hcell. unfold p7P_NR, p7P_MSC, p7P_ISC.
      rewrite decide_False by lia. reflexivity.
    + intros k' s. rewrite <- Hf. reflexivity.
  - unfold HMMProfile.set_insert_score in Hset.
    pose proof (set_score_Some_cell _ _ _ _ _ Hset) as Hsome.
    destruct (set_score_cell _ _ _ _ _ Hset) as [Hf Hcell].
    split; [exact Hsome |]. split; [| split].
    + intros k' x'. rewrite !insert_score_cell, Hcell. unfold p7P_NR, p7P_ISC.
      destruct (decide (k' = k /\ x' = x)).
      * rewrite decide_True by lia. reflexivity.
      * rewrite decide_False by lia. reflexivity.
    + intros k' x'. rewrite !match_score_cell, Hcell. unfold p7P_NR, p7P_MSC, p7P_ISC.
      rewrite decide_False by lia. reflexivity.
    + intros k' s. rewrite <- Hf. reflexivity.
  - intros s Hs Hset. unfold HMMProfile.set_trans in Hset.
    destruct (vset (HMMProfile.tsc p) (k * p7P_NTRANS + s) v) as [tsc' |] eqn:Ht;
      cbn [mbind option_bind] in Hset; [| discriminate].
    apply (inj Some) in Hset. subst p'. unfold HMMProfile.trans.
    cbn [HMMProfile.tsc HMMProfile.with_tsc]. unfold p7P_NTRANS in *.
    split; [| split].
    + apply vset_Some in Ht as [Hr _]. apply vget_is_Some. exact Hr.
    + intros k' s' Hs'. rewrite (vget_vset _ _ _ _ _ Ht).
      destruct (decide (k' = k /\ s' = s)).
      * rewrite decide_True by lia. reflexivity.
      * rewrite decide_False by lia. reflexivity.
    + intros k' x'. split; reflexivity.
Qed.

Lemma X2_witness :
  is_Some (HMMProfile.match_score profile_of_ones 2 1) /\
  (forall k' x', HMMProfile.match_score raised_profile k' x' =
     if decide (k' = 2 /\ x' = 1) then Some (F32.of_Z 2)
     else HMMProfile.match_score profile_of_ones k' x') /\
  (forall k' x', HMMProfile.insert_score raised_profile k' x' =
     HMMProfile.insert_score profile_of_ones k' x') /\
  (forall k' s, HMMProfile.trans raised_profile k' s = HMMProfile.trans profile_of_ones k' s).
Proof.
  apply (proj1 (X2_profile_writes_one_entry profile_of_ones raised_profile 2 1 (F32.of_Z 2))).
  vm_compute. reflexivity.
Defined.

(** ** The matrix *)

(** Member initializers that are not [int] values. *)
Lemma DPMatrix_construct_overflow_init (Mx Lx : Z) :
  Mx + 1 < INT_MIN \/ INT_MAX < Mx + 1 \/ Lx + 1 < INT_MIN \/ INT_MAX < Lx + 1 ->
  DPMatrix.construct Mx Lx = Undefined.
Proof.
  intros Hover. unfold DPMatrix.construct. cbv zeta.
  destruct (decide (INT_MIN <= Lx + 1 <= INT_MAX)) as [HL1 | HL1];
    [| rewrite (c_int_None (Lx + 1)) by lia; reflexivity].
  rewrite (c_int_Some (Lx + 1)) by assumption.
  cbn [mbind outcome_mbind outcome_bind defined].
  rewrite (c_int_None (Mx + 1)) by lia. reflexivity.
Qed.

(** [dp.resize] throws for a negative number of rows. *)
Lemma DPMatrix_construct_Throws_rows (Mx Lx : Z) :
  INT_MIN <= Mx + 1 <= INT_MAX -> INT_MIN <= Lx + 1 -> Lx < -1 ->
  DPMatrix.construct Mx Lx = Throws.
Proof.
  intros HM1 HL1 HL. unfold DPMatrix.construct. cbv zeta.
  rewrite (c_int_Some (Lx + 1)) by (unfold INT_MAX in *; lia).
  rewrite (c_int_Some (Mx + 1)) by assumption.
  cbn [mbind outcome_mbind outcome_bind defined].
  assert (Hthrow : vresize (Lx + 1) [] (@nil (list float)) = None).
  { unfold vresize. destruct (Z.ltb_spec (Lx + 1) 0); [reflexivity | lia]. }
  rewrite Hthrow. reflexivity.
Qed.

(** The resize of row 0 throws for a negative width. *)
Lemma DPMatrix_construct_Throws_width (Mx Lx : Z) :
  0 <= Lx -> Lx + 1 <= INT_MAX -> Mx < -1 -> INT_MIN <= (Mx + 1) * p7G_NSCELLS ->
  DPMatrix.construct Mx Lx = Throws.
Proof.
  intros HL HL1 HM HM3. unfold DPMatrix.construct. cbv zeta.
  rewrite (c_int_Some (Lx + 1)) by (unfold INT_MIN in *; lia).
  rewrite (c_int_Some (Mx + 1)) by (unfold INT_MIN, INT_MAX, p7G_NSCELLS in *; lia).
  cbn [mbind option_bind outcome_mbind outcome_bind defined].
  rewrite (c_int_Some ((Mx + 1) * p7G_NSCELLS))
    by (unfold INT_MIN, INT_MAX, p7G_NSCELLS in *; lia).
  rewrite (vresize_Some (Lx + 1)) by lia.
  cbn [mbind outcome_mbind outcome_bind allocated defined]. rewrite resize_nil.
  rewrite out_for_step by lia.
  assert (Hget : vget (replicate (Z.to_nat (Lx + 1)) (@nil float)) 0 = Some []).
  { apply vget_Some. split; [lia |]. apply lookup_replicate_2. lia. }
  rewrite Hget. cbn [mbind outcome_mbind outcome_bind defined].
  assert (Hthrow : vresize ((Mx + 1) * p7G_NSCELLS) (F32.opp eslINFINITY) (@nil float) = None).
  { unfold vresize. destruct (Z.ltb_spec ((Mx + 1) * p7G_NSCELLS) 0) as [_ | Hge];
      [reflexivity |]. unfold p7G_NSCELLS in Hge. lia. }
  rewrite Hthrow. reflexivity.
Qed.

(** No row at all. *)
Lemma DPMatrix_construct_empty (Mx : Z) :
  INT_MIN <= Mx + 1 <= INT_MAX ->
  DPMatrix.construct Mx (-1) = Returns (DPMatrix.mk Mx (-1) 0 0 (Mx + 1) [] []).
Proof.
  intros HM1. unfold DPMatrix.construct. cbv zeta.
  rewrite (c_int_Some (Mx + 1)) by assumption. reflexivity.
Qed.

(** X3.  The constructor DPMatrix(Mx, Lx) has undefined behaviour when Mx + 1 or
    Lx + 1 is not an int and, for Mx >= 0 and Lx >= 0, when 3 (Mx + 1) or 5 (Lx
    + 1) is not an int. With sizes that are int values, it throws when Lx < -1
    (from dp.resize) and when Lx >= 0 and Mx < -1 (from the resize of row 0),
    and with Lx = -1 it returns a matrix with no row and no special cell. For Mx
    >= 0 and Lx >= 0 with 3 (Mx + 1) <= INT_MAX and 5 (Lx + 1) <= INT_MAX it
    returns Lx + 1 rows of 3 (Mx + 1) cells and 5 (Lx + 1) special cells, so
    that match(i, k), insert(i, k) and delete_state(i, k) are within the buffers
    exactly when 0 <= i <= Lx and 0 <= k <= Mx, and special(i, s), for s in
    0..4, exactly when 0 <= i <= Lx. *)
Theorem X3_matrix_constructor_bounds (Mx Lx : Z) :
  (Mx + 1 < INT_MIN \/ INT_MAX < Mx + 1 \/ Lx + 1 < INT_MIN \/ INT_MAX < Lx + 1 ->
   DPMatrix.construct Mx Lx = Undefined) /\
  (0 <= Mx -> 0 <= Lx ->
   INT_MAX < (Mx + 1) * p7G_NSCELLS \/ INT_MAX < (Lx + 1) * p7G_NXCELLS ->
   DPMatrix.construct Mx Lx = Undefined) /\
  (INT_MIN <= Mx + 1 <= INT_MAX -> INT_MIN <= Lx + 1 -> Lx < -1 ->
   DPMatrix.construct Mx Lx = Throws) /\
  (0 <= Lx -> Lx + 1 <= INT_MAX -> Mx < -1 -> INT_MIN <= (Mx + 1) * p7G_NSCELLS ->
   DPMatrix.construct Mx Lx = Throws) /\
  (Lx = -1 -> INT_MIN <= Mx + 1 <= INT_MAX ->
   DPMatrix.construct Mx Lx = Returns (DPMatrix.mk Mx (-1) 0 0 (Mx + 1) [] [])) /\
  (0 <= Mx -> 0 <= Lx ->
   (Mx + 1) * p7G_NSCELLS <= INT_MAX -> (Lx + 1) * p7G_NXCELLS <= INT_MAX ->
   exists m, DPMatrix.construct Mx Lx = Returns m /\
     DPMatrix.model_length m = Mx /\ DPMatrix.sequence_length m = Lx /\
     Z.of_nat (length (DPMatrix.dp m)) = Lx + 1 /\
     (forall row, row ∈ DPMatrix.dp m ->
        Z.of_nat (length row) = (Mx + 1) * p7G_NSCELLS) /\
     Z.of_nat (length (DPMatrix.xmx m)) = (Lx + 1) * p7G_NXCELLS /\
     (forall i k, is_Some (DPMatrix.match_ m i k) <-> 0 <= i <= Lx /\ 0 <= k <= Mx) /\
     (forall i k, is_Some (DPMatrix.insert m i k) <-> 0 <= i <= Lx /\ 0 <= k <= Mx) /\
     (forall i k, is_Some (DPMatrix.delete_state m i k) <-> 0 <= i <= Lx /\ 0 <= k <= Mx) /\
     (forall i s, 0 <= s < p7G_NXCELLS ->
        (is_Some (DPMatrix.special m i s) <-> 0 <= i <= Lx))).
Proof.
  split; [apply DPMatrix_construct_overflow_init |].
  split; [apply DPMatrix_construct_overflow |].
  split; [apply DPMatrix_construct_Throws_rows |].
  split; [apply DPMatrix_construct_Throws_width |].
  split; [intros ->; apply DPMatrix_construct_empty |].
  intros HM HL HMmax HLmax.
  pose proof (DPMatrix_new_Some Mx Lx HM HL HMmax HLmax) as Hnew.
  eexists. split; [apply DPMatrix_construct_Returns; assumption |].
  assert (Hcell : forall i j, is_Some (DPMatrix.cell
            (DPMatrix.mk Mx Lx (Lx + 1) (Lx + 1) (Mx + 1)
               (replicate (Z.to_nat (Lx + 1))
                  (replicate (Z.to_nat ((Mx + 1) * p7G_NSCELLS)) (F32.opp eslINFINITY)))
               (replicate (Z.to_nat ((Lx + 1) * p7G_NXCELLS)) (F32.opp eslINFINITY))) i j) <->
            0 <= i <= Lx /\ 0 <= j < (Mx + 1) * p7G_NSCELLS).
  { intros i j. rewrite (DPMatrix_new_cell Mx Lx _ i j HM HL Hnew).
    destruct (decide _) as [Hin | Hout]; split; intros H; eauto; try tauto.
    destruct H as [v Hv]. discriminate. }
  cbn [DPMatrix.model_length DPMatrix.sequence_length DPMatrix.dp DPMatrix.xmx].
  split; [reflexivity |]. split; [reflexivity |].
  split; [rewrite length_replicate; lia |].
  split.
  { intros row Hrow. apply elem_of_replicate in Hrow as [-> _].
    rewrite length_replicate. unfold p7G_NSCELLS. lia. }
  split; [rewrite length_replicate; unfold p7G_NXCELLS; lia |].
  split; [| split; [| split]].
  - intros i k. unfold DPMatrix.match_. rewrite Hcell. unfold p7G_NSCELLS, p7G_M. lia.
  - intros i k. unfold DPMatrix.insert. rewrite Hcell. unfold p7G_NSCELLS, p7G_I. lia.
  - intros i k. unfold DPMatrix.delete_state. rewrite Hcell. unfold p7G_NSCELLS, p7G_D. lia.
  - intros i s Hs. unfold DPMatrix.special. cbn [DPMatrix.xmx].
    rewrite vget_is_Some, length_replicate. unfold p7G_NXCELLS in *. lia.
Qed.

Lemma X3_witness :
  exists m, DPMatrix.construct 3 2 = Returns m /\
    DPMatrix.model_length m = 3 /\ DPMatrix.sequence_length m = 2 /\
    Z.of_nat (length (DPMatrix.dp m)) = 2 + 1 /\
    (forall row, row ∈ DPMatrix.dp m -> Z.of_nat (length row) = (3 + 1) * p7G_NSCELLS) /\
    Z.of_nat (length (DPMatrix.xmx m)) = (2 + 1) * p7G_NXCELLS /\
    (forall i k, is_Some (DPMatrix.match_ m i k) <-> 0 <= i <= 2 /\ 0 <= k <= 3) /\
    (forall i k, is_Some (DPMatrix.insert m i k) <-> 0 <= i <= 2 /\ 0 <= k <= 3) /\
    (forall i k, is_Some (DPMatrix.delete_state m i k) <-> 0 <= i <= 2 /\ 0 <= k <= 3) /\
    (forall i s, 0 <= s < p7G_NXCELLS ->
       (is_Some (DPMatrix.special m i s) <-> 0 <= i <= 2)).
Proof.
  apply (proj2 (proj2 (proj2 (proj2 (proj2 (X3_matrix_constructor_bounds 3 2))))));
    unfold p7G_NSCELLS, p7G_NXCELLS, INT_MAX; lia.
Defined.

(** X4.  A write through one of the reference accessors match(i, k), insert(i,
    k), delete_state(i, k) and special(i, s) of a matrix that stays within the
    buffers is at a cell the accessor can read, and changes that cell only:
    afterwards the same accessor reads the written value there and its former
    value at every other pair of indices, and the other three accessors read
    what they read before. For special this holds for the state indices 0..4. *)
Theorem X4_matrix_writes_one_cell (m m' : DPMatrix.t) (i k : Z) (v : float) :
  (DPMatrix.set_match m i k v = Some m' ->
     is_Some (DPMatrix.match_ m i k) /\
     (forall i' k', DPMatrix.match_ m' i' k' =
        if decide (i' = i /\ k' = k) then Some v else DPMatrix.match_ m i' k') /\
     (forall i' k', DPMatrix.insert m' i' k' = DPMatrix.insert m i' k') /\
     (forall i' k', DPMatrix.delete_state m' i' k' = DPMatrix.delete_state m i' k') /\
     (forall i' s, DPMatrix.special m' i' s = DPMatrix.special m i' s)) /\
  (DPMatrix.set_insert m i k v = Some m' ->
     is_Some (DPMatrix.insert m i k) /\
     (forall i' k', DPMatrix.insert m' i' k' =
        if decide (i' = i /\ k' = k) then Some v else DPMatrix.insert m i' k') /\
     (forall i' k', DPMatrix.match_ m' i' k' = DPMatrix.match_ m i' k') /\
     (forall i' k', DPMatrix.delete_state m' i' k' = DPMatrix.delete_state m i' k') /\
     (forall i' s, DPMatrix.special m' i' s = DPMatrix.special m i' s)) /\
  (DPMatrix.set_delete_state m i k v = Some m' ->
     is_Some (DPMatrix.delete_state m i k) /\
     (forall i' k', DPMatrix.delete_state m' i' k' =
        if decide (i' = i /\ k' = k) then Some v else DPMatrix.delete_state m i' k') /\
     (forall i' k', DPMatrix.match_ m' i' k' = DPMatrix.match_ m i' k') /\
     (forall i' k', DPMatrix.insert m' i' k' = DPMatrix.insert m i' k') /\
     (forall i' s, DPMatrix.special m' i' s = DPMatrix.special m i' s)) /\
  (forall s, 0 <= s < p7G_NXCELLS ->
     DPMatrix.set_special m i s v = Some m' ->
     is_Some (DPMatrix.special m i s) /\
     (forall i' s', 0 <= s' < p7G_NXCELLS ->
        DPMatrix.special m' i' s' =
          if decide (i' = i /\ s' = s) then Some v else DPMatrix.special m i' s') /\
     (forall i' k', DPMatrix.match_ m' i' k' = DPMatrix.match_ m i' k' /\
                    DPMatrix.insert m' i' k' = DPMatrix.insert m i' k' /\
                    DPMatrix.delete_state m' i' k' = DPMatrix.delete_state m i' k')).
Proof.
  unfold DPMatrix.set_match, DPMatrix.set_insert, DPMatrix.set_delete_state,
    DPMatrix.match_, DPMatrix.insert, DPMatrix.delete_state, DPMatrix.special.
  unfold p7G_NSCELLS, p7G_M, p7G_I, p7G_D, p7G_NXCELLS.
  split; [| split; [| split]].
  - intros Hset. pose proof (set_cell_Some_cell _ _ _ _ _ Hset) as Hsome.
    pose proof (set_cell_cell _ _ _ _ _ Hset) as Hcell.
    destruct (set_cell_frame _ _ _ _ _ Hset) as (Hx & _).
    split; [exact Hsome |]. split; [| split; [| split]].
    + intros i' k'. rewrite Hcell. destruct (decide (i' = i /\ k' = k)).
      * rewrite decide_True by lia. reflexivity.
      * rewrite decide_False by lia. reflexivity.
    + intros i' k'. rewrite Hcell. rewrite decide_False by lia. reflexivity.
    + intros i' k'. rewrite Hcell. rewrite decide_False by lia. reflexivity.
    + intros i' s. rewrite Hx. reflexivity.
  - intros Hset. pose proof (set_cell_Some_cell _ _ _ _ _ Hset) as Hsome.
    pose proof (set_cell_cell _ _ _ _ _ Hset) as Hcell.
    destruct (set_cell_frame _ _ _ _ _ Hset) as (Hx & _).
    split; [exact Hsome |]. split; [| split; [| split]].
    + intros i' k'. rewrite Hcell. destruct (decide (i' = i /\ k' = k)).
      * rewrite decide_True by lia. reflexivity.
      * rewrite decide_False by lia. reflexivity.
    + intros i' k'. rewrite Hcell. rewrite decide_False by lia. reflexivity.
    + intros i' k'. rewrite Hcell. rewrite decide_False by lia. reflexivity.
    + intros i' s. rewrite Hx. reflexivity.
  - intros Hset. pose proof (set_cell_Some_cell _ _ _ _ _ Hset) as Hsome.
    pose proof (set_cell_cell _ _ _ _ _ Hset) as Hcell.
    destruct (set_cell_frame _ _ _ _ _ Hset) as (Hx & _).
    split; [exact Hsome |]. split; [| split; [| split]].
    + intros i' k'. rewrite Hcell. destruct (decide (i' = i /\ k' = k)).
      * rewrite decide_True by lia. reflexivity.
      * rewrite decide_False by lia. reflexivity.
    + intros i' k'. rewrite Hcell. rewrite decide_False by lia. reflexivity.
    + intros i' k'. rewrite Hcell. rewrite decide_False by lia. reflexivity.
    + intros i' s. rewrite Hx. reflexivity.
  - intros s Hs Hset. unfold DPMatrix.set_special in Hset.
    destruct (vset (DPMatrix.xmx m) (i * p7G_NXCELLS + s) v) as [xmx' |] eqn:Hx;
      cbn [mbind option_bind] in Hset; [| discriminate].
    apply (inj Some) in Hset. subst m'. unfold p7G_NXCELLS in Hx.
    split; [| split].
    + apply vset_Some in Hx as [Hr _]. apply vget_is_Some. exact Hr.
    + intros i' s' Hs'. cbn [DPMatrix.xmx DPMatrix.with_xmx].
      rewrite (vget_vset _ _ _ _ _ Hx).
      destruct (decide (i' = i /\ s' = s)).
      * rewrite decide_True by lia. reflexivity.
      * rewrite decide_False by lia. reflexivity.
    + intros i' k'. repeat split.
Qed.

Lemma X4_witness :
  let m := fresh_matrix 2 2 in
  let m' := default empty_matrix (DPMatrix.set_match m 1 1 (F32.of_Z 5)) in
  is_Some (DPMatrix.match_ m 1 1) /\
  (forall i' k', DPMatrix.match_ m' i' k' =
     if decide (i' = 1 /\ k' = 1) then Some (F32.of_Z 5) else DPMatrix.match_ m i' k') /\
  (forall i' k', DPMatrix.insert m' i' k' = DPMatrix.insert m i' k') /\
  (forall i' k', DPMatrix.delete_state m' i' k' = DPMatrix.delete_state m i' k') /\
  (forall i' s, DPMatrix.special m' i' s = DPMatrix.special m i' s).
Proof.
  cbv zeta.
  apply (proj1 (X4_matrix_writes_one_cell (fresh_matrix 2 2)
                  (default empty_matrix (DPMatrix.set_match (fresh_matrix 2 2) 1 1 (F32.of_Z 5)))
                  1 1 (F32.of_Z 5))).
  vm_compute. reflexivity.
Defined.

(** ** The tables of the alphabet *)

Lemma alphabet_consistency_checks :
  symbols_mapped test_alphabet = true /\
  codes_mapped test_alphabet = true /\
  degen_counted test_alphabet = true /\
  length (AminoAcidAlphabet.inmap test_alphabet) = 128%nat /\
  length (AminoAcidAlphabet.ndegen test_alphabet) = 29%nat /\
  length (AminoAcidAlphabet.degen test_alphabet) = 580%nat /\
  String.length (AminoAcidAlphabet.sym test_alphabet) = 29%nat.
Proof. vm_compute. repeat split. Qed.

(** X5.  The tables of the alphabet that the constructor builds agree with one
    another: inmap, ndegen, degen and sym have 128, Kp, Kp * K and Kp entries;
    inmap sends the symbol of every index 0..Kp-1 back to that index; every
    character code below 128 is mapped either to the illegal marker or to an
    index below Kp whose symbol is that character; and ndegen[x] is, for every x
    below Kp, the sum of the 20 entries of row x of the degeneracy matrix. *)
Theorem X5_alphabet_tables_consistent :
  exists a, AminoAcidAlphabet.new = Some a /\
    length (AminoAcidAlphabet.inmap a) = 128%nat /\
    length (AminoAcidAlphabet.ndegen a) = Z.to_nat (AminoAcidAlphabet.Kp a) /\
    length (AminoAcidAlphabet.degen a) =
      Z.to_nat (AminoAcidAlphabet.Kp a * AminoAcidAlphabet.K a) /\
    String.length (AminoAcidAlphabet.sym a) = Z.to_nat (AminoAcidAlphabet.Kp a) /\
    (forall x, 0 <= x < AminoAcidAlphabet.Kp a ->
       exists c, AminoAcidAlphabet.sym_at a x = Some c /\
                 vget (AminoAcidAlphabet.inmap a) (int_of_char c) = Some x) /\
    (forall c, 0 <= c < 128 ->
       exists x, vget (AminoAcidAlphabet.inmap a) c = Some x /\
         (x = residue_code digitalResidueIllegal \/
          (0 <= x < AminoAcidAlphabet.Kp a /\
           exists ch, AminoAcidAlphabet.sym_at a x = Some ch /\ int_of_char ch = c))) /\
    (forall x, 0 <= x < AminoAcidAlphabet.Kp a ->
       vget (AminoAcidAlphabet.ndegen a) x = Some (degen_count a x)).
Proof.
  exists test_alphabet. split; [exact alphabet_new_Some |].
  destruct alphabet_consistency_checks as (Hsym & Hcode & Hdeg & H1 & H2 & H3 & H4).
  destruct alphabet_dims as (HK & HKp & _). rewrite HK, HKp.
  split; [exact H1 |]. split; [exact H2 |]. split; [exact H3 |]. split; [exact H4 |].
  split; [| split].
  - intros x Hx. pose proof (all_in_spec _ _ _ Hsym x Hx) as Hc. cbv beta in Hc.
    destruct (AminoAcidAlphabet.sym_at test_alphabet x) as [c |]; [| discriminate].
    exists c. split; [reflexivity |]. apply bool_decide_eq_true_1 in Hc. exact Hc.
  - intros c Hc. pose proof (all_in_spec _ _ _ Hcode c Hc) as Hx. cbv beta in Hx.
    destruct (vget (AminoAcidAlphabet.inmap test_alphabet) c) as [x |]; [| discriminate].
    exists x. split; [reflexivity |].
    apply orb_prop in Hx as [Hill | Hx]; [left; apply Z.eqb_eq; exact Hill | right].
    apply andb_prop in Hx as [Hr Hs]. apply andb_prop in Hr as [Hlo Hhi].
    apply Z.leb_le in Hlo. apply Z.ltb_lt in Hhi. split; [lia |].
    destruct (AminoAcidAlphabet.sym_at test_alphabet x) as [ch |]; [| discriminate].
    exists ch. split; [reflexivity |]. apply Z.eqb_eq. exact Hs.
  - intros x Hx. pose proof (all_in_spec _ _ _ Hdeg x Hx) as Hc. cbv beta in Hc.
    apply bool_decide_eq_true_1 in Hc. exact Hc.
Qed.

Lemma degen_index_Some (a : AminoAcidAlphabet.t) (row col idx : Z) :
  AminoAcidAlphabet.degen_index a row col = Some idx <->
  idx = row * AminoAcidAlphabet.K a + col /\
  INT_MIN <= row * AminoAcidAlphabet.K a <= INT_MAX /\
  INT_MIN <= row * AminoAcidAlphabet.K a + col <= INT_MAX.
Proof.
  unfold AminoAcidAlphabet.degen_index. split.
  - destruct (c_int (row * AminoAcidAlphabet.K a)) as [rk |] eqn:Hrk;
      cbn [mbind option_bind]; [| discriminate].
    apply c_int_inv in Hrk as [-> Hrk]. intros Hidx.
    apply c_int_inv in Hidx as [-> Hidx]. auto.
  - intros (-> & Hrk & Hidx). rewrite (c_int_Some _ Hrk). cbn [mbind option_bind].
    apply c_int_Some, Hidx.
Qed.

(** X6.  A call set_degen(row, col, val) with an int argument val that stays
    within the degeneracy matrix keeps K, is at an entry get_degen can read, and
    stores val converted to uint8_t, that is val mod 256 (300 is read back as
    44): afterwards get_degen(row', col') is val mod 256 wherever it computes
    the same index row' * K + col' = row * K + col without overflow, and its
    former value at every other index. When col and col' are columns of the
    matrix (0 <= col, col' < K) the changed entry is (row, col) alone. *)
Theorem X6_set_degen_get_degen (a a' : AminoAcidAlphabet.t) (row col val : Z) :
  AminoAcidAlphabet.set_degen a row col val = Some a' ->
  AminoAcidAlphabet.K a' = AminoAcidAlphabet.K a /\
  is_Some (AminoAcidAlphabet.get_degen a row col) /\
  AminoAcidAlphabet.get_degen a' row col = Some (val mod 256) /\
  (forall row' col',
     row' * AminoAcidAlphabet.K a + col' = row * AminoAcidAlphabet.K a + col ->
     INT_MIN <= row' * AminoAcidAlphabet.K a <= INT_MAX ->
     AminoAcidAlphabet.get_degen a' row' col' = Some (val mod 256)) /\
  (forall row' col',
     row' * AminoAcidAlphabet.K a + col' <> row * AminoAcidAlphabet.K a + col ->
     AminoAcidAlphabet.get_degen a' row' col' = AminoAcidAlphabet.get_degen a row' col') /\
  (0 <= col < AminoAcidAlphabet.K a ->
   forall row' col', 0 <= col' < AminoAcidAlphabet.K a ->
     ~ (row' = row /\ col' = col) ->
     AminoAcidAlphabet.get_degen a' row' col' = AminoAcidAlphabet.get_degen a row' col').
Proof.
  unfold AminoAcidAlphabet.set_degen. intros Hset.
  destruct (AminoAcidAlphabet.degen_index a row col) as [idx |] eqn:Hidx;
    cbn [mbind option_bind] in Hset; [| discriminate].
  destruct (vset (AminoAcidAlphabet.degen a) idx (val mod 256))
    as [d |] eqn:Hd; cbn [mbind option_bind] in Hset; [| discriminate].
  apply (inj Some) in Hset. subst a'.
  pose proof (proj1 (degen_index_Some a row col idx) Hidx) as (Heq & Hrk & Hsum).
  assert (Hread : forall row' col',
            row' * AminoAcidAlphabet.K a + col' = row * AminoAcidAlphabet.K a + col ->
            INT_MIN <= row' * AminoAcidAlphabet.K a <= INT_MAX ->
            AminoAcidAlphabet.get_degen (AminoAcidAlphabet.with_degen a d) row' col' =
              Some (val mod 256)).
  { intros row' col' Hsame Hrk'. unfold AminoAcidAlphabet.get_degen.
    assert (Hidx' : AminoAcidAlphabet.degen_index (AminoAcidAlphabet.with_degen a d)
                      row' col' = Some idx).
    { apply degen_index_Some. cbn [AminoAcidAlphabet.K AminoAcidAlphabet.with_degen].
      rewrite Hsame. auto. }
    rewrite Hidx'. cbn [mbind option_bind AminoAcidAlphabet.degen AminoAcidAlphabet.with_degen].
    rewrite (vget_vset _ _ _ _ _ Hd). rewrite decide_True by reflexivity. reflexivity. }
  assert (Hframe : forall row' col',
            row' * AminoAcidAlphabet.K a + col' <> row * AminoAcidAlphabet.K a + col ->
            AminoAcidAlphabet.get_degen (AminoAcidAlphabet.with_degen a d) row' col' =
              AminoAcidAlphabet.get_degen a row' col').
  { intros row' col' Hne. unfold AminoAcidAlphabet.get_degen.
    assert (Hsame_index : AminoAcidAlphabet.degen_index (AminoAcidAlphabet.with_degen a d)
                            row' col' = AminoAcidAlphabet.degen_index a row' col')
      by reflexivity.
    rewrite Hsame_index.
    destruct (AminoAcidAlphabet.degen_index a row' col') as [idx' |] eqn:Hidx';
      cbn [mbind option_bind]; [| reflexivity].
    apply degen_index_Some in Hidx' as (-> & _ & _).
    cbn [AminoAcidAlphabet.degen AminoAcidAlphabet.with_degen].
    rewrite (vget_vset _ _ _ _ _ Hd). rewrite decide_False by lia. reflexivity. }
  cbn [AminoAcidAlphabet.K AminoAcidAlphabet.with_degen].
  split; [reflexivity |]. split; [| split; [| split; [| split]]].
  - unfold AminoAcidAlphabet.get_degen. rewrite Hidx. cbn [mbind option_bind].
    apply vset_Some in Hd as [Hr _]. apply vget_is_Some. exact Hr.
  - apply Hread; [reflexivity | exact Hrk].
  - exact Hread.
  - exact Hframe.
  - intros Hcol row' col' Hcol' Hne. apply Hframe. intros Hsame. apply Hne.
    assert (row' = row) by nia. subst. split; [reflexivity | lia].
Qed.

Lemma X6_witness :
  let a' := default empty_alphabet (AminoAcidAlphabet.set_degen test_alphabet 21 2 300) in
  AminoAcidAlphabet.get_degen test_alphabet 21 2 = Some 0 /\
  AminoAcidAlphabet.get_degen a' 21 2 = Some 44 /\
  AminoAcidAlphabet.get_degen a' 21 3 = AminoAcidAlphabet.get_degen test_alphabet 21 3.
Proof.
  cbv zeta. destruct alphabet_dims as (HK & _ & _).
  assert (Hcol : 0 <= 2 < AminoAcidAlphabet.K test_alphabet) by (rewrite HK; lia).
  assert (Hcol' : 0 <= 3 < AminoAcidAlphabet.K test_alphabet) by (rewrite HK; lia).
  destruct (X6_set_degen_get_degen test_alphabet
              (default empty_alphabet (AminoAcidAlphabet.set_degen test_alphabet 21 2 300))
              21 2 300) as (_ & _ & Hread & _ & _ & Hin); [vm_compute; reflexivity |].
  split; [vm_compute; reflexivity |]. split; [exact Hread |].
  apply (Hin Hcol 21 3 Hcol'). intros [_ Hc]. discriminate Hc.
Defined.

(** ** The builders of the profiles *)

Lemma scores_are_init (p0 : HMMProfile.t) (val : Z -> Z -> float) :
  scores_are p0 (fun _ _ => False) val p0.
Proof.
  unfold scores_are. split; [destruct p0; reflexivity |].
  split; [intros k x [] | reflexivity].
Qed.

Lemma scores_are_ext (p0 : HMMProfile.t) (W W' : Z -> Z -> Prop) (val : Z -> Z -> float)
    (p : HMMProfile.t) :
  (forall k x, W' k x <-> W k x) -> scores_are p0 W val p -> scores_are p0 W' val p.
Proof.
  intros Hext (Hf & Hw & Hu). unfold scores_are. split; [exact Hf |]. split.
  - intros k x HW. apply Hw, Hext, HW.
  - intros x j Hj. apply Hu. intros k HW. apply Hj, Hext, HW.
Qed.

Lemma scores_are_write (p0 : HMMProfile.t) (W : Z -> Z -> Prop) (val : Z -> Z -> float)
    (p p' : HMMProfile.t) (k x : Z) (v : float) :
  scores_are p0 W val p ->
  HMMProfile.set_match_score p k x v = Some p' ->
  v = val k x ->
  scores_are p0 (fun k' x' => W k' x' \/ (k' = k /\ x' = x)) val p'.
Proof.
  intros (Hf & Hw & Hu) Hset Hv. unfold HMMProfile.set_match_score in Hset.
  destruct (set_score_cell _ _ _ _ _ Hset) as [Hf' Hcell].
  unfold scores_are. split; [| split].
  - rewrite <- Hf, <- Hf'. reflexivity.
  - intros k' x' HW. rewrite match_score_cell, Hcell.
    destruct (decide (x' = x /\ k' * p7P_NR + p7P_MSC = k * p7P_NR + p7P_MSC))
      as [[-> Hk] | Hne].
    + unfold p7P_NR, p7P_MSC in Hk. assert (k' = k) by lia. subst. reflexivity.
    + destruct HW as [HW | [-> ->]]; [apply Hw, HW | tauto].
  - intros x' j' Hj. rewrite Hcell.
    destruct (decide (x' = x /\ j' = k * p7P_NR + p7P_MSC)) as [[-> ->] | Hne].
    + exfalso. apply (Hj k); auto.
    + apply Hu. intros k' HW. apply Hj. auto.
Qed.

Lemma scores_are_fresh_cell (p0 : HMMProfile.t) (W : Z -> Z -> Prop) (val : Z -> Z -> float)
    (p : HMMProfile.t) (k x : Z) :
  scores_are p0 W val p ->
  (forall k', W k' x -> k' <> k) ->
  HMMProfile.match_score p k x = HMMProfile.match_score p0 k x.
Proof.
  intros (_ & _ & Hu) Hk. rewrite !match_score_cell. apply Hu.
  intros k' HW. specialize (Hk k' HW). unfold p7P_NR, p7P_MSC. lia.
Qed.

(** The two nested loops of the builders, with the score of each cell given
    by [g] and the inner loop bounded by [X k]. *)
Lemma fill_scores (p0 : HMMProfile.t) (g : Z -> Z -> float) (Mf : Z) (X : Z -> Z) :
  0 <= Mf ->
  (forall k, 1 <= k <= Mf -> 0 <= X k) ->
  (forall k x, 1 <= k <= Mf -> 0 <= x < X k ->
     is_Some (HMMProfile.match_score p0 k x)) ->
  exists p,
    opt_for 1 (Mf + 1) (fun k p =>
      opt_for 0 (X k) (fun x p => HMMProfile.set_match_score p k x (g k x)) p) p0 = Some p /\
    scores_are p0 (fun k x => 1 <= k <= Mf /\ 0 <= x < X k) g p.
Proof.
  intros HMf HX Hcells.
  destruct (opt_for_total
              (fun k p => scores_are p0 (fun k' x' => 1 <= k' < k /\ 0 <= x' < X k') g p)
              (fun k p => opt_for 0 (X k)
                 (fun x p => HMMProfile.set_match_score p k x (g k x)) p)
              1 (Mf + 1) p0) as (p & Hrun & Hfin); [lia | |  |].
  - intros k p Hk Hinv.
    destruct (opt_for_total
                (fun x p => scores_are p0
                   (fun k' x' => (1 <= k' < k /\ 0 <= x' < X k') \/ (k' = k /\ 0 <= x' < x)) g p)
                (fun x p => HMMProfile.set_match_score p k x (g k x))
                0 (X k) p) as (p' & Hrun & Hfin); [apply HX; lia | | |].
    + intros x q Hx Hq.
      assert (Hsome : is_Some (HMMProfile.match_score q k x)).
      { rewrite (scores_are_fresh_cell _ _ _ _ _ _ Hq); [apply Hcells; lia |].
        intros k' [[Hk' _] | [_ Hx']]; lia. }
      rewrite match_score_cell in Hsome.
      destruct (set_score_is_Some q x (k * p7P_NR + p7P_MSC) (g k x) Hsome) as [q' Hq'].
      exists q'. split; [exact Hq' |].
      eapply scores_are_ext; [| eapply scores_are_write; [exact Hq | exact Hq' | reflexivity]].
      intros k' x'. simpl. lia.
    + eapply scores_are_ext; [| exact Hinv]. intros k' x'. simpl. lia.
    + exists p'. split; [exact Hrun |].
      eapply scores_are_ext; [| exact Hfin]. intros k' x'. simpl.
      split.
      * intros [H1 H2]. destruct (decide (k' = k)) as [-> | Hne]; [right | left]; lia.
      * intros [H | [-> H]]; lia.
  - eapply scores_are_ext; [| apply scores_are_init]. intros k' x'. simpl. lia.
  - exists p. split; [exact Hrun |].
    eapply scores_are_ext; [| exact Hfin]. intros k' x'. simpl. lia.
Qed.

(** What a builder returns: a fresh profile with its model length, name and
    maximal length set and the match scores of [W] filled in. *)
Lemma built_profile (M : Z) (nm : string) (g : Z -> Z -> float) (Mf : Z) (X : Z -> Z) :
  M * p7P_NTRANS <= INT_MAX ->
  0 <= Mf <= M ->
  (forall k, 1 <= k <= Mf -> 0 <= X k <= 29) ->
  exists p0 p,
    HMMProfile.new M test_alphabet = Some p0 /\
    opt_for 1 (Mf + 1) (fun k p =>
      opt_for 0 (X k) (fun x p => HMMProfile.set_match_score p k x (g k x)) p)
      (HMMProfile.with_max_length
         (HMMProfile.with_name (HMMProfile.with_model_length p0 M) nm) 100) = Some p /\
    HMMProfile.model_length p = M /\
    HMMProfile.tsc p = HMMProfile.tsc p0 /\
    (forall k x, HMMProfile.match_score p k x =
       if decide (0 <= k <= M /\ 0 <= x < 29) then
         Some (if decide (1 <= k <= Mf /\ x < X k) then g k x else F32.opp eslINFINITY)
       else None) /\
    (forall k x, HMMProfile.insert_score p k x =
       if decide (0 <= k <= M /\ 0 <= x < 29) then Some (F32.opp eslINFINITY) else None).
Proof.
  intros HMmax HMf HX.
  pose proof (HMMProfile_new_Some M ltac:(lia) HMmax) as Hnew.
  eexists. 
  set (p0 := HMMProfile.mk _ _ _ _ _ _ _ _ _ _ _ _ _ _) in Hnew.
  set (p1 := HMMProfile.with_max_length
               (HMMProfile.with_name (HMMProfile.with_model_length p0 M) nm) 100).
  assert (Hcell1 : forall x j, score_cell p1 x j =
            if decide (0 <= x < 29 /\ 0 <= j < (M + 1) * p7P_NR)
            then Some (F32.opp eslINFINITY) else None).
  { intros x j. rewrite <- (HMMProfile_new_cell M p0 x j ltac:(lia) Hnew). reflexivity. }
  destruct (fill_scores p1 g Mf X) as (p & Hrun & (Hf & Hw & Hu)); [lia | | |].
  - intros k Hk. apply HX, Hk.
  - intros k x Hk Hx. rewrite match_score_cell, Hcell1.
    specialize (HX k Hk).
    rewrite decide_True by (unfold p7P_NR, p7P_MSC; lia). eauto.
  - exists p. split; [exact Hnew |]. split; [exact Hrun |].
    assert (Hfields : HMMProfile.model_length p = M /\ HMMProfile.tsc p = HMMProfile.tsc p0).
    { assert (HMMProfile.model_length p =
              HMMProfile.model_length (HMMProfile.with_rsc p (HMMProfile.rsc p1))) as ->
        by reflexivity.
      assert (HMMProfile.tsc p = HMMProfile.tsc (HMMProfile.with_rsc p (HMMProfile.rsc p1))) as ->
        by reflexivity.
      rewrite Hf. split; reflexivity. }
    destruct Hfields as [Hlen Htsc].
    split; [exact Hlen |]. split; [exact Htsc |]. split.
    + intros k x.
      destruct (decide (1 <= k <= Mf /\ 0 <= x < X k)) as [Hin | Hout].
      * rewrite (Hw k x Hin). specialize (HX k ltac:(lia)).
        rewrite decide_True by lia. rewrite decide_True by lia. reflexivity.
      * rewrite match_score_cell, Hu, Hcell1.
        -- destruct (decide (0 <= k <= M /\ 0 <= x < 29)) as [Hr | Hr].
           ++ rewrite decide_True by (unfold p7P_NR, p7P_MSC; lia).
              rewrite decide_False by lia. reflexivity.
           ++ rewrite decide_False by (unfold p7P_NR, p7P_MSC; lia). reflexivity.
        -- intros k' HW. unfold p7P_NR, p7P_MSC. intros Heq.
           assert (k' = k) by lia. subst k'. tauto.
    + intros k x. rewrite insert_score_cell, Hu, Hcell1.
      * destruct (decide (0 <= k <= M /\ 0 <= x < 29)) as [Hr | Hr].
        -- rewrite decide_True by (unfold p7P_NR, p7P_ISC; lia). reflexivity.
        -- rewrite decide_False by (unfold p7P_NR, p7P_ISC; lia). reflexivity.
      * intros k' HW. unfold p7P_NR, p7P_MSC, p7P_ISC. lia.
Qed.

Lemma built_profile_table (M : Z) (nm : string) (g : Z -> Z -> float) (Mf : Z) (X : Z -> Z)
    (score : Z -> Z -> float) :
  M * p7P_NTRANS <= INT_MAX ->
  0 <= Mf <= M ->
  (forall k, 1 <= k <= Mf -> 0 <= X k <= 20) ->
  (forall k x, 1 <= k <= M -> 0 <= x < 20 ->
     score k x = if decide (k <= Mf /\ x < X k) then g k x else F32.opp eslINFINITY) ->
  exists p0 p,
    HMMProfile.new M test_alphabet = Some p0 /\
    opt_for 1 (Mf + 1) (fun k p =>
      opt_for 0 (X k) (fun x p => HMMProfile.set_match_score p k x (g k x)) p)
      (HMMProfile.with_max_length
         (HMMProfile.with_name (HMMProfile.with_model_length p0 M) nm) 100) = Some p /\
    profile_table M score p.
Proof.
  intros HMmax HMf HX Hscore.
  destruct (built_profile M nm g Mf X HMmax HMf)
    as (p0 & p & Hnew & Hrun & Hlen & Htsc & Hms & His).
  { intros k Hk. specialize (HX k Hk). lia. }
  exists p0, p. split; [exact Hnew |]. split; [exact Hrun |].
  split; [exact Hlen |]. split; [| split; [exact His |]].
  - intros k x. rewrite Hms.
    destruct (decide (0 <= k <= M /\ 0 <= x < 29)) as [Hin | Hout]; [| reflexivity].
    f_equal. destruct (decide (1 <= k /\ x < 20)) as [Hc | Hc].
    + rewrite Hscore by lia.
      destruct (decide (k <= Mf /\ x < X k)) as [Hf | Hf].
      * rewrite decide_True by lia. reflexivity.
      * rewrite decide_False by lia. reflexivity.
    + rewrite decide_False; [reflexivity |].
      intros [Hk Hx]. specialize (HX k Hk). lia.
  - intros k s Hs. unfold HMMProfile.trans. rewrite Htsc.
    rewrite (HMMProfile_new_trans M p0 _ ltac:(lia) Hnew).
    unfold p7P_NTRANS in *.
    destruct (decide (0 <= k < M)).
    + rewrite decide_True by lia. reflexivity.
    + rewrite decide_False by lia. reflexivity.
Qed.

Lemma c_rem_20 (k : Z) : 1 <= k -> c_rem (k - 1) 20 = Some ((k - 1) mod 20).
Proof.
  intros Hk. unfold c_rem. change (20 =? 0) with false. cbv iota.
  rewrite Z.rem_mod_nonneg by lia. reflexivity.
Qed.

(** The two loops of a builder, whose body can only be undefined. *)
Lemma fill_loops {S : Type} (lo hi : Z) (X : Z -> Z) (f : Z -> Z -> S -> option S) (s : S) :
  out_for lo hi (fun k p => out_for 0 (X k) (fun x p => defined (f k x p)) p) s =
  defined (opt_for lo hi (fun k p => opt_for 0 (X k) (fun x p => f k x p) p) s).
Proof.
  rewrite (out_for_ext _ (fun k p => defined (opt_for 0 (X k) (fun x p => f k x p) p)))
    by (intros k p _; apply out_for_defined).
  apply out_for_defined.
Qed.

Lemma pattern_body (hi lo : float) (k : Z) (p : HMMProfile.t) :
  1 <= k ->
  (preferred ← defined (c_rem (k - 1) 20);
   out_for 0 20 (fun x p =>
     if x =? preferred then defined (HMMProfile.set_match_score p k x hi)
     else defined (HMMProfile.set_match_score p k x lo)) p) =
  defined (opt_for 0 20
             (fun x p => HMMProfile.set_match_score p k x (pattern_score hi lo k x)) p).
Proof.
  intros Hk. rewrite c_rem_20 by assumption.
  cbn [mbind outcome_mbind outcome_bind defined].
  rewrite <- out_for_defined. apply out_for_ext. intros x q _. unfold pattern_score.
  destruct (x =? (k - 1) mod 20); reflexivity.
Qed.

Lemma pattern_loops (hi lo : float) (M : Z) (p : HMMProfile.t) :
  out_for 1 (M + 1) (fun k p =>
    preferred ← defined (c_rem (k - 1) 20);
    out_for 0 20 (fun x p =>
      if x =? preferred then defined (HMMProfile.set_match_score p k x hi)
      else defined (HMMProfile.set_match_score p k x lo)) p) p =
  defined (opt_for 1 (M + 1) (fun k p =>
             opt_for 0 20
               (fun x p => HMMProfile.set_match_score p k x (pattern_score hi lo k x)) p) p).
Proof.
  rewrite <- out_for_defined. apply out_for_ext. intros k q Hk. apply pattern_body. lia.
Qed.

(** X7.  For the alphabet of the program and 0 <= M with 7 M <= INT_MAX (M <=
    306783378), create_constant_profile(M, abc, c) of the mock data and
    create_constant_score_profile(M, c, abc) of the test vectors both return a
    profile with model_length = M whose match score is c at every position 1..M
    for each of the 20 canonical residues; the match scores at position 0 and
    for the residue codes 20..28, all insert scores and all transitions are
    still negative infinity, and nothing is allocated beyond position M or code
    28. *)
Theorem X7_constant_builders_table (M : Z) (a : AminoAcidAlphabet.t) (c : float) :
  AminoAcidAlphabet.new = Some a ->
  0 <= M -> M * p7P_NTRANS <= INT_MAX ->
  (exists p, MockDataGenerator.create_constant_profile M a c = Returns p /\
             profile_table M (fun _ _ => c) p) /\
  (exists p, msv_test.create_constant_score_profile M c a = Returns p /\
             profile_table M (fun _ _ => c) p).
Proof.
  intros Ha HM HMmax. apply built_alphabet in Ha. subst a.
  destruct alphabet_dims as (HK & _ & _).
  split.
  - destruct (built_profile_table M "constant_model" (fun _ _ => c) M (fun _ => 20)
                (fun _ _ => c)) as (p0 & p & Hnew & Hrun & Htab); [assumption | lia | lia | |].
    { intros k x Hk Hx. rewrite decide_True by lia. reflexivity. }
    exists p. split; [| exact Htab]. apply returned_Returns in Hnew.
    unfold MockDataGenerator.create_constant_profile. rewrite Hnew, HK.
    cbn [mbind outcome_mbind outcome_bind].
    rewrite (fill_loops 1 (M + 1) (fun _ => 20)
               (fun k x p => HMMProfile.set_match_score p k x c)).
    rewrite Hrun. reflexivity.
  - destruct (built_profile_table M "constant_score_model" (fun _ _ => c) M (fun _ => 20)
                (fun _ _ => c)) as (p0 & p & Hnew & Hrun & Htab); [assumption | lia | lia | |].
    { intros k x Hk Hx. rewrite decide_True by lia. reflexivity. }
    exists p. split; [| exact Htab]. apply returned_Returns in Hnew.
    unfold msv_test.create_constant_score_profile. rewrite Hnew, HK.
    cbn [mbind outcome_mbind outcome_bind].
    rewrite (fill_loops 1 (M + 1) (fun _ => 20)
               (fun k x p => HMMProfile.set_match_score p k x c)).
    rewrite Hrun. reflexivity.
Qed.

Lemma X7_witness :
  (exists p, MockDataGenerator.create_constant_profile 3 test_alphabet (F32.of_Z 1) =
               Returns p /\
             profile_table 3 (fun _ _ => F32.of_Z 1) p) /\
  (exists p, msv_test.create_constant_score_profile 3 (F32.of_Z 1) test_alphabet =
               Returns p /\
             profile_table 3 (fun _ _ => F32.of_Z 1) p).
Proof.
  apply (X7_constant_builders_table 3 test_alphabet (F32.of_Z 1));
    [vm_compute; reflexivity | lia | unfold p7P_NTRANS, INT_MAX; lia].
Defined.

(** X8.  For the alphabet of the program and 0 <= M with 7 M <= INT_MAX (M <=
    306783378), create_alternating_pattern_profile(M, hi, lo, abc) returns a
    profile with model_length = M in which position k of 1..M has match score hi
    for the residue (k - 1) mod 20 and lo for the other 19 canonical residues,
    and create_pattern_profile(M, abc) returns the same table with hi = 2 and lo
    = -1; every other allocated score (position 0, residue codes 20..28, insert
    scores, transitions) is still negative infinity. *)
Theorem X8_pattern_builders_table (M : Z) (a : AminoAcidAlphabet.t) (hi lo : float) :
  AminoAcidAlphabet.new = Some a ->
  0 <= M -> M * p7P_NTRANS <= INT_MAX ->
  (exists p, MockDataGenerator.create_pattern_profile M a = Returns p /\
             profile_table M (pattern_score (F32.of_Z 2) (F32.opp (F32.of_Z 1))) p) /\
  (exists p, msv_test.create_alternating_pattern_profile M hi lo a = Returns p /\
             profile_table M (pattern_score hi lo) p).
Proof.
  intros Ha HM HMmax. apply built_alphabet in Ha. subst a.
  destruct alphabet_dims as (HK & _ & _).
  split.
  - destruct (built_profile_table M "pattern_model"
                (pattern_score (F32.of_Z 2) (F32.opp (F32.of_Z 1))) M (fun _ => 20)
                (pattern_score (F32.of_Z 2) (F32.opp (F32.of_Z 1))))
      as (p0 & p & Hnew & Hrun & Htab); [assumption | lia | lia | |].
    { intros k x Hk Hx. rewrite decide_True by lia. reflexivity. }
    exists p. split; [| exact Htab]. apply returned_Returns in Hnew.
    unfold MockDataGenerator.create_pattern_profile. rewrite Hnew, HK.
    cbn [mbind outcome_mbind outcome_bind].
    rewrite pattern_loops, Hrun. reflexivity.
  - destruct (built_profile_table M "alternating_pattern_model"
                (pattern_score hi lo) M (fun _ => 20) (pattern_score hi lo))
      as (p0 & p & Hnew & Hrun & Htab); [assumption | lia | lia | |].
    { intros k x Hk Hx. rewrite decide_True by lia. reflexivity. }
    exists p. split; [| exact Htab]. apply returned_Returns in Hnew.
    unfold msv_test.create_alternating_pattern_profile. rewrite Hnew, HK.
    cbn [mbind outcome_mbind outcome_bind].
    rewrite pattern_loops, Hrun. reflexivity.
Qed.

Lemma X8_witness :
  (exists p, MockDataGenerator.create_pattern_profile 3 test_alphabet = Returns p /\
             profile_table 3 (pattern_score (F32.of_Z 2) (F32.opp (F32.of_Z 1))) p) /\
  (exists p, msv_test.create_alternating_pattern_profile 3 (F32.of_Z 3)
               (F32.opp (F32.of_Z 1)) test_alphabet = Returns p /\
             profile_table 3 (pattern_score (F32.of_Z 3) (F32.opp (F32.of_Z 1))) p).
Proof.
  apply (X8_pattern_builders_table 3 test_alphabet (F32.of_Z 3) (F32.opp (F32.of_Z 1)));
    [vm_compute; reflexivity | lia | unfold p7P_NTRANS, INT_MAX; lia].
Defined.




(** ** The builder of the sequence *)

Lemma residue_code_of_int (z : Z) : residue_code (residue_of_int z) = z mod 256.
Proof.
  unfold residue_of_int, residue_code.
  pose proof (Z.mod_pos_bound z 256 ltac:(lia)) as Hb.
  destruct (Byte.of_N (Z.to_N (z mod 256))) as [b |] eqn:Hof.
  - apply Byte.to_of_N in Hof. cbn [default from_option id]. rewrite Hof. lia.
  - apply Byte.of_N_None_iff in Hof. lia.
Qed.

Lemma simple_sequence_body (K : Z) (i : Z) (ds : list DigitalResidue) :
  (r ← defined (c_rem (i - 1) K); defined (vset ds i (residue_of_int r))) =
  defined (r ← c_rem (i - 1) K; vset ds i (residue_of_int r)).
Proof. destruct (c_rem (i - 1) K); reflexivity. Qed.

Lemma simple_sequence_Returns (L : Z) (abc : AminoAcidAlphabet.t) :
  0 <= L -> L + 2 <= INT_MAX -> 0 < AminoAcidAlphabet.K abc ->
  exists ds, MockDataGenerator.create_simple_sequence L abc = Returns ds /\
    Z.of_nat (length ds) = L + 2 /\
    vget ds 0 = Some digitalResidueSentinel /\
    vget ds (L + 1) = Some digitalResidueSentinel /\
    forall i, 1 <= i <= L ->
      exists r, vget ds i = Some r /\
                residue_code r = ((i - 1) mod AminoAcidAlphabet.K abc) mod 256.
Proof.
  unfold MockDataGenerator.create_simple_sequence. intros HL HLmax HK.
  rewrite (c_int_Some (L + 2)) by (unfold INT_MIN, INT_MAX in *; lia).
  rewrite (c_int_Some (L + 1)) by (unfold INT_MIN, INT_MAX in *; lia).
  cbn [mbind outcome_mbind outcome_bind defined].
  rewrite (vresize_Some (L + 2)) by lia.
  cbn [mbind outcome_mbind outcome_bind allocated]. rewrite resize_nil.
  destruct (vset _ 0 _) as [ds1 |] eqn:Hds1; cbn [mbind outcome_mbind outcome_bind defined].
  2:{ exfalso.
      destruct (vset_is_Some (replicate (Z.to_nat (L + 2)) Byte.x00) 0
                  digitalResidueSentinel) as [x Hx].
      - apply vget_is_Some. rewrite length_replicate. lia.
      - pose proof (eq_trans (eq_sym Hx) Hds1) as Hc. discriminate. }
  pose proof (vset_Some _ _ _ _ Hds1) as [_ Heq1].
  assert (Hlen1 : Z.of_nat (length ds1) = L + 2)
    by (rewrite Heq1, length_insert, length_replicate; lia).
  destruct (vset ds1 (L + 1) _) as [ds2 |] eqn:Hds2;
    cbn [mbind outcome_mbind outcome_bind defined].
  2:{ exfalso.
      destruct (vset_is_Some ds1 (L + 1) digitalResidueSentinel) as [x Hx].
      - apply vget_is_Some. lia.
      - pose proof (eq_trans (eq_sym Hx) Hds2) as Hc. discriminate. }
  pose proof (vset_Some _ _ _ _ Hds2) as [_ Heq2].
  assert (Hlen2 : Z.of_nat (length ds2) = L + 2)
    by (rewrite Heq2, length_insert; exact Hlen1).
  assert (Hs0 : vget ds2 0 = Some digitalResidueSentinel).
  { rewrite (vget_vset _ _ _ 0 _ Hds2). destruct (decide (0 = L + 1)); [reflexivity |].
    rewrite (vget_vset _ _ _ 0 _ Hds1). rewrite decide_True by reflexivity. reflexivity. }
  assert (Hs1 : vget ds2 (L + 1) = Some digitalResidueSentinel).
  { rewrite (vget_vset _ _ _ _ _ Hds2). rewrite decide_True by reflexivity. reflexivity. }
  rewrite (out_for_ext _
             (fun i ds => defined (r ← c_rem (i - 1) (AminoAcidAlphabet.K abc);
                                   vset ds i (residue_of_int r))))
    by (intros i ds _; apply simple_sequence_body).
  rewrite out_for_defined.
  destruct (opt_for_total
              (fun i ds => Z.of_nat (length ds) = L + 2 /\
                 vget ds 0 = Some digitalResidueSentinel /\
                 vget ds (L + 1) = Some digitalResidueSentinel /\
                 forall i', 1 <= i' < i ->
                   vget ds i' =
                     Some (residue_of_int ((i' - 1) mod AminoAcidAlphabet.K abc)))
              (fun i ds => r ← c_rem (i - 1) (AminoAcidAlphabet.K abc);
                           vset ds i (residue_of_int r))
              1 (L + 1) ds2) as (ds & Hrun & Hlen & H0 & H1 & Hres); [lia | | |].
  + intros i t Hi (Hlen & H0 & H1 & Hres).
    unfold c_rem. destruct (Z.eqb_spec (AminoAcidAlphabet.K abc) 0) as [Hz | _]; [lia |].
    cbn [mbind option_bind]. rewrite Z.rem_mod_nonneg by lia.
    destruct (vset_is_Some t i (residue_of_int ((i - 1) mod AminoAcidAlphabet.K abc)))
      as [t' Ht']; [apply vget_is_Some; lia |].
    exists t'. split; [exact Ht' |].
    pose proof (vset_Some _ _ _ _ Ht') as [_ Heq].
    split; [rewrite Heq, length_insert; exact Hlen |].
    split; [rewrite (vget_vset _ _ _ _ _ Ht'), decide_False by lia; exact H0 |].
    split; [rewrite (vget_vset _ _ _ _ _ Ht'), decide_False by lia; exact H1 |].
    intros i' Hi'. rewrite (vget_vset _ _ _ _ _ Ht').
    destruct (decide (i' = i)) as [-> | Hne]; [reflexivity | apply Hres; lia].
  + split; [exact Hlen2 |]. split; [exact Hs0 |]. split; [exact Hs1 |]. intros i' Hi'. lia.
  + exists ds. rewrite Hrun. split; [reflexivity |]. split; [exact Hlen |].
    split; [exact H0 |]. split; [exact H1 |].
    intros i Hi. eexists. split; [apply Hres; lia |]. apply residue_code_of_int.
Qed.

(** X10.  create_simple_sequence(L, abc) has undefined behaviour when L + 2 is
    not an int; it throws for L <= -3, where the vector is constructed with a
    negative size; its behaviour is undefined for L = -2, where it writes the
    sentinel at index 0 of an empty vector; and it returns the single sentinel
    for L = -1. For L >= 1 and abc.K = 0 the behaviour is undefined (a remainder
    by zero). For 0 <= L <= INT_MAX - 2 and abc.K > 0 it returns L + 2 residues
    with the sentinel at the indices 0 and L + 1 and, at every index i of 1..L,
    the residue ((i - 1) mod K) mod 256. *)
Theorem X10_simple_sequence_layout (L : Z) (abc : AminoAcidAlphabet.t) :
  (L + 2 < INT_MIN \/ INT_MAX < L + 2 ->
     MockDataGenerator.create_simple_sequence L abc = Undefined) /\
  (INT_MIN <= L + 2 -> L <= -3 ->
     MockDataGenerator.create_simple_sequence L abc = Throws) /\
  (L = -2 -> MockDataGenerator.create_simple_sequence L abc = Undefined) /\
  (L = -1 ->
     MockDataGenerator.create_simple_sequence L abc = Returns [digitalResidueSentinel]) /\
  (1 <= L -> L + 2 <= INT_MAX -> AminoAcidAlphabet.K abc = 0 ->
     MockDataGenerator.create_simple_sequence L abc = Undefined) /\
  (0 <= L -> L + 2 <= INT_MAX -> 0 < AminoAcidAlphabet.K abc ->
     exists ds, MockDataGenerator.create_simple_sequence L abc = Returns ds /\
       Z.of_nat (length ds) = L + 2 /\
       vget ds 0 = Some digitalResidueSentinel /\
       vget ds (L + 1) = Some digitalResidueSentinel /\
       forall i, 1 <= i <= L ->
         exists r, vget ds i = Some r /\
                   residue_code r = ((i - 1) mod AminoAcidAlphabet.K abc) mod 256).
Proof.
  split; [| split; [| split; [| split; [| split]]]].
  - intros Hover. unfold MockDataGenerator.create_simple_sequence.
    rewrite (c_int_None (L + 2)) by assumption. reflexivity.
  - intros Hmin HL. unfold MockDataGenerator.create_simple_sequence.
    rewrite (c_int_Some (L + 2)) by (unfold INT_MAX in *; lia).
    cbn [mbind outcome_mbind outcome_bind defined].
    assert (Hthrow : vresize (L + 2) Byte.x00 (@nil byte) = None).
    { unfold vresize. destruct (Z.ltb_spec (L + 2) 0); [reflexivity | lia]. }
    rewrite Hthrow. reflexivity.
  - intros ->. reflexivity.
  - intros ->. reflexivity.
  - intros HL HLmax HK. unfold MockDataGenerator.create_simple_sequence.
    rewrite (c_int_Some (L + 2)) by (unfold INT_MIN, INT_MAX in *; lia).
    rewrite (c_int_Some (L + 1)) by (unfold INT_MIN, INT_MAX in *; lia).
    cbn [mbind outcome_mbind outcome_bind defined].
    rewrite (vresize_Some (L + 2)) by lia.
    cbn [mbind outcome_mbind outcome_bind allocated]. rewrite resize_nil.
    destruct (vset _ 0 _) as [ds1 |]; cbn [mbind outcome_mbind outcome_bind defined];
      [| reflexivity].
    destruct (vset ds1 (L + 1) _) as [ds2 |]; cbn [mbind outcome_mbind outcome_bind defined];
      [| reflexivity].
    rewrite out_for_step by lia. rewrite HK. reflexivity.
  - apply simple_sequence_Returns.
Qed.

Lemma X10_witness :
  exists ds, MockDataGenerator.create_simple_sequence 5 test_alphabet = Returns ds /\
    Z.of_nat (length ds) = 5 + 2 /\
    vget ds 0 = Some digitalResidueSentinel /\
    vget ds (5 + 1) = Some digitalResidueSentinel /\
    forall i, 1 <= i <= 5 ->
      exists r, vget ds i = Some r /\
                residue_code r = ((i - 1) mod AminoAcidAlphabet.K test_alphabet) mod 256.
Proof.
  apply (proj2 (proj2 (proj2 (proj2 (proj2 (X10_simple_sequence_layout 5 test_alphabet))))));
    [lia | unfold INT_MAX; lia | vm_compute; reflexivity].
Defined.

(** * More on [compute_msv] *)

(** ** Where a call is defined *)

Lemma same_shape_refl (w : world) : same_shape w w.
Proof. split; [reflexivity | tauto]. Qed.

Lemma same_shape_trans (w1 w2 w3 : world) :
  same_shape w1 w2 -> same_shape w2 w3 -> same_shape w1 w3.
Proof.
  intros [Hs1 Hc1] [Hs2 Hc2]. split; [congruence |].
  intros i j. rewrite Hc2. apply Hc1.
Qed.

Lemma same_shape_match (w1 w2 : world) (i k : Z) :
  same_shape w1 w2 ->
  (is_Some (DPMatrix.match_ (dp_matrix w2) i k) <-> is_Some (DPMatrix.match_ (dp_matrix w1) i k)).
Proof. intros [_ Hc]. apply Hc. Qed.

Lemma write_match_shape (i k : Z) (v : float) (w : world) (u : unit) (w' : world) :
  write_match i k v w = Some (u, w') ->
  same_shape w w' /\ is_Some (DPMatrix.match_ (dp_matrix w) i k).
Proof.
  intros Hwr. apply write_match_Some in Hwr as (m' & Hset & ->).
  unfold DPMatrix.set_match in Hset.
  pose proof (set_cell_cell _ _ _ _ _ Hset) as Hcell.
  pose proof (set_cell_Some_cell _ _ _ _ _ Hset) as Hsome.
  split; [| exact Hsome]. split; [reflexivity |].
  intros i' j'. cbn [dp_matrix]. rewrite Hcell.
  destruct (decide (i' = i /\ j' = k * p7G_NSCELLS + p7G_M)) as [[-> ->] | Hne];
    [| tauto].
  split; [intros _; exact Hsome | eauto].
Qed.

Lemma write_loop_shape (i lo hi : Z) (v : float) (w : world) (u : unit) (w' : world) :
  lo <= hi + 1 ->
  for_loop lo hi (fun k _ => write_match i k v) tt w = Some (u, w') ->
  same_shape w w' /\
  forall k, lo <= k <= hi -> is_Some (DPMatrix.match_ (dp_matrix w) i k).
Proof.
  intros Hle Hrun.
  pose proof (for_loop_inv
                (fun j (_ : unit) x => same_shape w x /\
                   forall k, lo <= k < j -> is_Some (DPMatrix.match_ (dp_matrix w) i k))
                (fun k _ => write_match i k v) lo hi tt w u w' Hle) as Hloop.
  destruct Hloop as [Hsh Hc]; [ | | exact Hrun |].
  - intros j t x t' x' Hj [Hsh Hc] Hb. apply write_match_shape in Hb as [Hsh' Hs].
    split; [eapply same_shape_trans; eassumption |].
    intros k Hk. destruct (decide (k = j)) as [-> | Hne]; [| apply Hc; lia].
    apply (same_shape_match w x); assumption.
  - split; [apply same_shape_refl | intros k Hk; lia].
  - split; [exact Hsh |]. intros k Hk. apply Hc. lia.
Qed.

Lemma msv_cell_shape (profile : HMMProfile.t) (i : Z) (r : DigitalResidue) (k : Z)
    (ms ms' : float) (w w' : world) :
  msv_cell profile i r k ms w = Some (ms', w') ->
  same_shape w w' /\
  is_Some (HMMProfile.match_score profile k (residue_code r)) /\
  is_Some (DPMatrix.match_ (dp_matrix w) i k) /\
  is_Some (DPMatrix.match_ (dp_matrix w) (i - 1) (k - 1)).
Proof.
  intros Hb. unfold msv_cell in Hb.
  apply bind_Some in Hb as (sc & x1 & Hsc & Hb).
  apply lift_Some in Hsc as [Hsc ->].
  apply bind_Some in Hb as (prev & x2 & Hprev & Hb).
  apply read_match_Some in Hprev as [Hprev ->].
  apply bind_Some in Hb as (u & x3 & Hwr & Hb).
  apply ret_Some in Hb. inversion Hb; subst ms' w'. clear Hb.
  apply write_match_shape in Hwr as [Hsh Hs].
  split; [exact Hsh |]. rewrite Hsc, Hprev. eauto.
Qed.

Lemma msv_row_shape (profile : HMMProfile.t) (i : Z) (ms ms' : float) (w w' : world) :
  0 <= HMMProfile.model_length profile ->
  msv_row profile i ms w = Some (ms', w') ->
  same_shape w w' /\
  exists r, vget (digital_sequence w) i = Some r /\
    (forall k, 1 <= k <= HMMProfile.model_length profile ->
       is_Some (DPMatrix.match_ (dp_matrix w) i k)) /\
    (residue_code r < 20 ->
     forall k, 1 <= k <= HMMProfile.model_length profile ->
       is_Some (HMMProfile.match_score profile k (residue_code r)) /\
       is_Some (DPMatrix.match_ (dp_matrix w) (i - 1) (k - 1))).
Proof.
  intros HM Hrun. unfold msv_row in Hrun.
  apply bind_Some in Hrun as (r & w1 & Hrd & Hrun).
  apply read_sequence_Some in Hrd as [Hrd ->].
  destruct (Z.leb_spec 20 (residue_code r)) as [Hbig | Hsmall].
  - apply bind_Some in Hrun as (u & w2 & Hloop & Hret).
    apply ret_Some in Hret. inversion Hret; subst ms' w'.
    apply write_loop_shape in Hloop as [Hsh Hc]; [| lia].
    split; [exact Hsh |]. exists r. split; [exact Hrd |]. split; [exact Hc | lia].
  - pose proof (for_loop_inv
                  (fun j (_ : float) x => same_shape w x /\
                     forall k, 1 <= k < j ->
                       is_Some (DPMatrix.match_ (dp_matrix w) i k) /\
                       is_Some (HMMProfile.match_score profile k (residue_code r)) /\
                       is_Some (DPMatrix.match_ (dp_matrix w) (i - 1) (k - 1)))
                  (msv_cell profile i r) 1 (HMMProfile.model_length profile)
                  ms w ms' w' ltac:(lia)) as Hloop.
    destruct Hloop as [Hsh Hc]; [ | | exact Hrun |].
    + intros j t x t' x' Hj [Hsh Hc] Hb.
      apply msv_cell_shape in Hb as (Hsh' & Hsc & Hcell & Hprev).
      split; [eapply same_shape_trans; eassumption |].
      intros k Hk. destruct (decide (k = j)) as [-> | Hne]; [| apply Hc; lia].
      split; [apply (same_shape_match w x); assumption |].
      split; [exact Hsc | apply (same_shape_match w x); assumption].
    + split; [apply same_shape_refl | intros k Hk; lia].
    + split; [exact Hsh |]. exists r. split; [exact Hrd |]. split.
      * intros k Hk. apply Hc. lia.
      * intros _ k Hk. destruct (Hc k ltac:(lia)) as (_ & H1 & H2). auto.
Qed.

Lemma match_column_0 (m : DPMatrix.t) (i k : Z) :
  0 <= k -> is_Some (DPMatrix.match_ m i k) -> is_Some (DPMatrix.match_ m i 0).
Proof.
  unfold DPMatrix.match_, DPMatrix.cell. intros Hk [v Hv].
  destruct (vget (DPMatrix.dp m) i) as [row |]; cbn [mbind option_bind] in *;
    [| discriminate].
  assert (Hs : is_Some (vget row (k * p7G_NSCELLS + p7G_M))) by eauto.
  apply vget_is_Some in Hs. apply vget_is_Some. unfold p7G_NSCELLS, p7G_M in *. lia.
Qed.

(** What a call that returns has found in its buffers. *)
Lemma compute_msv_needs (L : Z) (profile : HMMProfile.t) (e : float) (w : world)
    (r : float) (w' : world) :
  0 < L -> 0 < HMMProfile.model_length profile ->
  compute_msv L profile e w = Some (r, w') ->
  call_needs L profile w /\ same_shape w w'.
Proof.
  intros HL HM Hrun. unfold compute_msv in Hrun.
  destruct (Z.leb_spec L 0); [lia |].
  destruct (Z.leb_spec (HMMProfile.model_length profile) 0); [lia |].
  cbn [orb] in Hrun.
  apply bind_Some in Hrun as (u & w1 & Hinit & Hrun).
  apply bind_Some in Hrun as (ms & w2 & Hrows & Hret).
  apply ret_Some in Hret. inversion Hret; subst r w'. clear Hret.
  apply write_loop_shape in Hinit as [Hsh1 Hrow0]; [| lia].
  pose proof (for_loop_inv
                (fun j (_ : float) x => same_shape w x /\
                   forall i, 1 <= i < j ->
                     exists r, vget (digital_sequence w) i = Some r /\
                       (forall k, 1 <= k <= HMMProfile.model_length profile ->
                          is_Some (DPMatrix.match_ (dp_matrix w) i k)) /\
                       (residue_code r < 20 ->
                        forall k, 1 <= k <= HMMProfile.model_length profile ->
                          is_Some (HMMProfile.match_score profile k (residue_code r))))
                (msv_row profile) 1 L F32.zero w1 ms w2 ltac:(lia)) as Hloop.
  destruct Hloop as [Hsh Hc]; [ | | exact Hrows |].
  - intros j t x t' x' Hj [Hsh Hc] Hb.
    apply msv_row_shape in Hb as (Hsh' & r & Hr & Hcells & Hsc); [| lia].
    split; [eapply same_shape_trans; eassumption |].
    intros i Hi. destruct (decide (i = j)) as [-> | Hne]; [| apply Hc; lia].
    exists r. pose proof Hsh as [Hseq _]. rewrite <- Hseq. split; [exact Hr |]. split.
    + intros k Hk. apply (same_shape_match w x); [exact Hsh |].
      apply Hcells, Hk.
    + intros Hcan k Hk. apply (Hsc Hcan k Hk).
  - split; [exact Hsh1 | intros i Hi; lia].
  - split; [| exact Hsh]. constructor.
    + intros i Hi. destruct (Hc i ltac:(lia)) as (r & Hr & _). rewrite Hr. eauto.
    + intros i k r Hi Hk Hr Hcan. destruct (Hc i ltac:(lia)) as (r' & Hr' & _ & Hsc).
      rewrite Hr in Hr'. apply (inj Some) in Hr'. subst r'. apply Hsc; assumption.
    + intros i k Hi Hk. destruct (decide (i = 0)) as [-> | Hi0]; [apply Hrow0; lia |].
      destruct (Hc i ltac:(lia)) as (r & _ & Hcells & _).
      destruct (decide (k = 0)) as [-> | Hk0]; [| apply Hcells; lia].
      apply (match_column_0 _ i 1); [lia | apply Hcells; lia].
Qed.

Lemma call_needs_shape (L : Z) (profile : HMMProfile.t) (w w' : world) :
  call_needs L profile w -> same_shape w w' -> call_needs L profile w'.
Proof.
  intros [Hs Hp Hm] [Hseq Hc]. constructor.
  - intros i Hi. rewrite Hseq. apply Hs, Hi.
  - intros i k r Hi Hk Hr. rewrite Hseq in Hr. apply (Hp i k r Hi Hk Hr).
  - intros i k Hi Hk. apply Hc. apply Hm; assumption.
Qed.

Lemma write_match_needs (L : Z) (profile : HMMProfile.t) (i k : Z) (v : float) (w : world) :
  call_needs L profile w ->
  0 <= i <= L -> 0 <= k <= HMMProfile.model_length profile ->
  exists w', write_match i k v w = Some (tt, w') /\ call_needs L profile w'.
Proof.
  intros Hn Hi Hk.
  destruct (write_match_is_Some i k v w) as [w' Hw'].
  - apply (needs_matrix _ _ _ Hn); assumption.
  - exists w'. split; [exact Hw' |].
    apply (call_needs_shape L profile w); [exact Hn |].
    apply write_match_shape in Hw' as [Hsh _]. exact Hsh.
Qed.

Lemma msv_row_needs (L : Z) (profile : HMMProfile.t) (i : Z) (ms : float) (w : world) :
  call_needs L profile w ->
  1 <= i <= L -> 0 <= HMMProfile.model_length profile ->
  exists ms' w', msv_row profile i ms w = Some (ms', w') /\ call_needs L profile w'.
Proof.
  intros Hn Hi HM. unfold msv_row.
  destruct (needs_sequence _ _ _ Hn i Hi) as [r Hr].
  unfold bind at 1. unfold read_sequence. rewrite Hr.
  destruct (Z.leb_spec 20 (residue_code r)) as [Hbig | Hsmall].
  - destruct (for_loop_total (fun _ (_ : unit) x => call_needs L profile x)
                (fun k _ => write_match i k F32.zero) 1 (HMMProfile.model_length profile) tt w)
      as (u & w' & Hrun & Hn'); [lia | | exact Hn |].
    + intros j [] x Hj Hx.
      destruct (write_match_needs L profile i j F32.zero x Hx) as (x' & Hwr & Hx');
        [lia | lia |].
      exists tt, x'. auto.
    + exists ms, w'. split; [| exact Hn'].
      unfold bind. rewrite Hrun. reflexivity.
  - destruct (for_loop_total
             (fun _ (_ : float) x => call_needs L profile x /\
                                      digital_sequence x = digital_sequence w)
             (msv_cell profile i r) 1 (HMMProfile.model_length profile) ms w)
      as (ms' & w' & Hrun & Hn' & _); [lia | | split; [exact Hn | reflexivity] | eauto].
    intros j t x Hj [Hx Hseq]. unfold msv_cell.
    destruct (needs_profile _ _ _ Hx i j r) as [sc Hsc]; [lia | lia | | lia |].
    { rewrite Hseq. exact Hr. }
    destruct (needs_matrix _ _ _ Hx (i - 1) (j - 1)) as [prev Hprev]; [lia | lia |].
    destruct (write_match_needs L profile i j
                (F32.max F32.zero (F32.max sc (F32.add prev sc))) x Hx)
      as (x' & Hwr & Hx'); [lia | lia |].
    eexists _, x'. split.
    + unfold bind, lift, read_match, ret. rewrite Hsc, Hprev, Hwr. reflexivity.
    + split; [exact Hx' |]. apply write_match_shape in Hwr as [[Hs _] _]. congruence.
Qed.

Lemma compute_msv_returns (L : Z) (profile : HMMProfile.t) (e : float) (w : world) :
  call_needs L profile w ->
  exists r w', compute_msv L profile e w = Some (r, w').
Proof.
  intros Hn. unfold compute_msv.
  destruct (Z.leb_spec L 0) as [HL | HL]; simpl; [eexists _, _; reflexivity |].
  destruct (Z.leb_spec (HMMProfile.model_length profile) 0) as [HM | HM]; simpl;
    [eexists _, _; reflexivity |].
  destruct (for_loop_total (fun _ (_ : unit) x => call_needs L profile x)
              (fun k _ => write_match 0 k F32.zero) 0 (HMMProfile.model_length profile) tt w)
    as (u & w1 & Hrun1 & Hn1); [lia | | exact Hn |].
  { intros j [] x Hj Hx.
    destruct (write_match_needs L profile 0 j F32.zero x Hx) as (x' & Hwr & Hx');
      [lia | lia |].
    exists tt, x'. auto. }
  destruct (for_loop_total (fun _ (_ : float) x => call_needs L profile x)
              (msv_row profile) 1 L F32.zero w1)
    as (ms & w2 & Hrun2 & Hn2); [lia | | exact Hn1 |].
  { intros j t x Hj Hx. apply (msv_row_needs L); auto; lia. }
  exists ms, w2. unfold bind. rewrite Hrun1, Hrun2. reflexivity.
Qed.

(** X11.  With positive lengths L and M, compute_msv stays within its buffers
    exactly when the sequence has the indices 1..L, the profile has a match
    score at every position 1..M for each canonical residue (code below 20) that
    occurs at 1..L, and the matrix has the match cells (i, k) for 0 <= i <= L
    and 0 <= k <= M; the expected hit count plays no part. *)
Theorem X11_call_defined_iff (L : Z) (profile : HMMProfile.t) (e : float) (w : world) :
  0 < L -> 0 < HMMProfile.model_length profile ->
  (is_Some (compute_msv L profile e w) <->
   (forall i, 1 <= i <= L -> is_Some (vget (digital_sequence w) i)) /\
   (forall i k r, 1 <= i <= L -> 1 <= k <= HMMProfile.model_length profile ->
      vget (digital_sequence w) i = Some r -> residue_code r < 20 ->
      is_Some (HMMProfile.match_score profile k (residue_code r))) /\
   (forall i k, 0 <= i <= L -> 0 <= k <= HMMProfile.model_length profile ->
      is_Some (DPMatrix.match_ (dp_matrix w) i k))).
Proof.
  intros HL HM. split.
  - intros [[r w'] Hrun]. apply compute_msv_needs in Hrun as [[Hs Hp Hm] _]; auto.
  - intros (Hs & Hp & Hm).
    destruct (compute_msv_returns L profile e w) as (r & w' & Hrun); [| rewrite Hrun; eauto].
    constructor; assumption.
Qed.

Lemma X11_witness :
  is_Some (compute_msv 3 profile_of_ones F32.zero world_ACD) <->
  (forall i, 1 <= i <= 3 -> is_Some (vget (digital_sequence world_ACD) i)) /\
  (forall i k r, 1 <= i <= 3 -> 1 <= k <= HMMProfile.model_length profile_of_ones ->
     vget (digital_sequence world_ACD) i = Some r -> residue_code r < 20 ->
     is_Some (HMMProfile.match_score profile_of_ones k (residue_code r))) /\
  (forall i k, 0 <= i <= 3 -> 0 <= k <= HMMProfile.model_length profile_of_ones ->
     is_Some (DPMatrix.match_ (dp_matrix world_ACD) i k)).
Proof.
  apply (X11_call_defined_iff 3 profile_of_ones F32.zero world_ACD);
    [lia | vm_compute; reflexivity].
Defined.

(** X12.  With positive lengths L and M, compute_msv on a matrix built by
    DPMatrix(Mx, Lx) (Mx, Lx >= 0) runs out of a buffer when the matrix has
    fewer rows than the call uses (Lx < L), or fewer columns (Mx < M), or when
    the sequence buffer has at most L entries. *)
Theorem X12_call_overruns (L : Z) (profile : HMMProfile.t) (e : float)
    (Mx Lx : Z) (mx : DPMatrix.t) (seq : list DigitalResidue) :
  0 <= Mx -> 0 <= Lx -> DPMatrix.new Mx Lx = Some mx ->
  0 < L -> 0 < HMMProfile.model_length profile ->
  Lx < L \/ Mx < HMMProfile.model_length profile \/ Z.of_nat (length seq) <= L ->
  compute_msv L profile e (mkWorld seq mx) = None.
Proof.
  intros HMx HLx Hnew HL HM Hsmall.
  destruct (compute_msv L profile e (mkWorld seq mx)) as [[r w'] |] eqn:Hrun; [| reflexivity].
  exfalso. apply compute_msv_needs in Hrun as [[Hs Hp Hm] _]; [| assumption | assumption].
  cbn [digital_sequence dp_matrix] in *.
  destruct Hsmall as [H | [H | H]].
  - specialize (Hm L 0 ltac:(lia) ltac:(lia)). unfold DPMatrix.match_ in Hm.
    rewrite (DPMatrix_new_cell Mx Lx _ _ _ HMx HLx Hnew) in Hm.
    rewrite decide_False in Hm by lia. destruct Hm as [v Hv]. discriminate.
  - specialize (Hm 0 (HMMProfile.model_length profile) ltac:(lia) ltac:(lia)).
    unfold DPMatrix.match_ in Hm.
    rewrite (DPMatrix_new_cell Mx Lx _ _ _ HMx HLx Hnew) in Hm.
    rewrite decide_False in Hm by (unfold p7G_NSCELLS, p7G_M; lia).
    destruct Hm as [v Hv]. discriminate.
  - specialize (Hs L ltac:(lia)). apply vget_is_Some in Hs. lia.
Qed.

Lemma X12_witness :
  compute_msv 3 profile_of_ones F32.zero
    (mkWorld (create_digital_sequence [RES_A; RES_C; RES_D]) (fresh_matrix 3 2)) = None.
Proof.
  apply (X12_call_overruns 3 profile_of_ones F32.zero 3 2).
  - lia.
  - lia.
  - vm_compute. reflexivity.
  - lia.
  - vm_compute. reflexivity.
  - left. lia.
Defined.

(** ** The matrix a call leaves, and its greatest cell *)

Lemma res_range (w : world) (i : Z) : 0 <= res w i <= 255.
Proof. unfold res. apply residue_code_range. Qed.

Lemma mu_valid (L : Z) (profile : HMMProfile.t) (w : world) (k r : Z) :
  binary32_inputs L profile w ->
  1 <= k <= HMMProfile.model_length profile -> 0 <= r < 20 ->
  F32.valid (mu profile k r) = true.
Proof.
  intros [Hsc _] Hk Hr. unfold mu.
  destruct (HMMProfile.match_score profile k r) as [u |] eqn:Hu; [| reflexivity].
  apply (Hsc k r u Hk Hr Hu).
Qed.

Lemma DP_valid (L : Z) (profile : HMMProfile.t) (w : world) (i : nat) (k : Z) :
  binary32_inputs L profile w ->
  Z.of_nat i <= L -> 0 <= k <= HMMProfile.model_length profile ->
  F32.valid (DP profile w i k) = true /\
  (1 <= k -> good (DP profile w i k) = true).
Proof.
  intros Hin. revert k. induction i as [| i IH]; intros k Hi Hk.
  - cbn [DP]. split; reflexivity.
  - cbn [DP]. destruct (Z.leb_spec k 0) as [Hk0 | Hk1].
    + split; [| lia]. unfold col0.
      destruct (DPMatrix.match_ (dp_matrix w) (Z.of_nat (Datatypes.S i)) 0) as [v |] eqn:Hv;
        [| reflexivity].
      destruct Hin as [_ Hcol]. apply (Hcol (Z.of_nat (Datatypes.S i)) v); [lia | exact Hv].
    + destruct (Z.leb_spec 20 (res w (Z.of_nat (Datatypes.S i)))) as [Hbig | Hsmall].
      * split; reflexivity.
      * pose proof (res_range w (Z.of_nat (Datatypes.S i))) as Hr.
        assert (Hg : good (cell_value (mu profile k (res w (Z.of_nat (Datatypes.S i))))
                                      (DP profile w i (k - 1))) = true).
        { apply cell_value_good.
          - apply (mu_valid L profile w); [exact Hin | lia | lia].
          - apply IH; lia. }
        split; [apply (good_props _ Hg) | intros _; exact Hg].
Qed.

Lemma upd_max_bounds (m v : float) :
  good m = true -> good v = true ->
  good (upd_max m v) = true /\
  sval m <= sval (upd_max m v) /\ sval v <= sval (upd_max m v) /\
  (upd_max m v = m \/ upd_max m v = v).
Proof.
  intros Hm Hv.
  destruct (good_props m Hm) as (? & ? & _), (good_props v Hv) as (? & ? & _).
  unfold upd_max. rewrite ltb_sval by assumption.
  destruct (Z.ltb_spec (sval m) (sval v)); repeat split; auto; lia.
Qed.

Section Maximum.
Variable profile : HMMProfile.t.
Variable w : world.
Variable L : Z.

Let Mlen : Z := HMMProfile.model_length profile.

Hypothesis inputs : binary32_inputs L profile w.

Lemma row_max_bounds (i n : nat) (m : float) :
  Z.of_nat i <= L -> Z.of_nat n <= Mlen -> good m = true ->
  good (row_max profile w i n m) = true /\
  sval m <= sval (row_max profile w i n m) /\
  (forall k, 1 <= k <= Z.of_nat n ->
     sval (DP profile w i k) <= sval (row_max profile w i n m)) /\
  (row_max profile w i n m = m \/
   exists k, 1 <= k <= Z.of_nat n /\ row_max profile w i n m = DP profile w i k).
Proof.
  intros Hi Hn Hm. induction n as [| n IH].
  - cbn [row_max]. split; [exact Hm |]. split; [lia |]. split; [intros k Hk; lia | auto].
  - cbn [row_max]. destruct IH as (Hg & Hge & Hall & Hatt); [lia |].
    destruct (DP_valid L profile w i (Z.of_nat (Datatypes.S n)) inputs Hi) as [_ Hgd];
      [fold Mlen; lia |]. specialize (Hgd ltac:(lia)).
    destruct (upd_max_bounds _ _ Hg Hgd) as (Hgu & Hle1 & Hle2 & Hcase).
    split; [exact Hgu |]. split; [lia |]. split.
    + intros k Hk. destruct (decide (k = Z.of_nat (Datatypes.S n))) as [-> | Hne];
        [exact Hle2 |]. specialize (Hall k ltac:(lia)). lia.
    + destruct Hcase as [Heq | Heq]; rewrite Heq.
      * destruct Hatt as [Hatt | (k & Hk & Hatt)]; [left; exact Hatt |].
        right. exists k. split; [lia | exact Hatt].
      * right. exists (Z.of_nat (Datatypes.S n)). split; [lia | reflexivity].
Qed.

Lemma score_upto_bounds (n : nat) :
  Z.of_nat n <= L -> 0 <= Mlen ->
  good (score_upto profile w n) = true /\
  (forall (i : nat) k, (1 <= i <= n)%nat -> 1 <= k <= Mlen ->
     sval (DP profile w i k) <= sval (score_upto profile w n)) /\
  (score_upto profile w n = F32.zero \/
   exists (i : nat) k, (1 <= i <= n)%nat /\ 1 <= k <= Mlen /\
     score_upto profile w n = DP profile w i k).
Proof.
  intros Hn HM. induction n as [| n IH].
  - cbn [score_upto]. split; [reflexivity |]. split; [intros i k Hi; lia | auto].
  - destruct IH as (Hg & Hall & Hatt); [lia |].
    cbn [score_upto].
    destruct (Z.leb_spec 20 (res w (Z.of_nat (Datatypes.S n)))) as [Hbig | Hsmall].
    + split; [exact Hg |]. split.
      * intros i k Hi Hk. destruct (decide (i = Datatypes.S n)) as [-> | Hne];
          [| apply Hall; [lia | exact Hk]].
        cbn [DP]. destruct (Z.leb_spec k 0); [lia |].
        destruct (Z.leb_spec 20 (res w (Z.of_nat (Datatypes.S n)))); [| lia].
        cbn [sval F32.zero]. apply (good_props _ Hg).
      * destruct Hatt as [Hatt | (i & k & Hi & Hk & Hatt)]; [left; exact Hatt |].
        right. exists i, k. split; [lia | split; assumption].
    + destruct (row_max_bounds (Datatypes.S n) (Z.to_nat Mlen) _ Hn ltac:(lia) Hg)
        as (Hgr & Hge & Hrow & Hcase).
      fold Mlen. split; [exact Hgr |]. split.
      * intros i k Hi Hk. destruct (decide (i = Datatypes.S n)) as [-> | Hne].
        -- apply Hrow. lia.
        -- specialize (Hall i k ltac:(lia) Hk). lia.
      * destruct Hcase as [Heq | (k & Hk & Heq)]; rewrite Heq.
        -- destruct Hatt as [Hatt | (i & k & Hi & Hk & Hatt)]; [left; exact Hatt |].
           right. exists i, k. split; [lia | split; assumption].
        -- right. exists (Datatypes.S n), k. split; [lia |]. split; [lia | reflexivity].
Qed.

Lemma score_upto_grows (n n' : nat) :
  (n <= n')%nat -> Z.of_nat n' <= L -> 0 <= Mlen ->
  sval (score_upto profile w n) <= sval (score_upto profile w n').
Proof.
  intros Hnn Hn' HM. induction Hnn as [| n' Hnn IH]; [lia |].
  specialize (IH ltac:(lia)). cbn [score_upto].
  destruct (20 <=? res w (Z.of_nat (Datatypes.S n'))); [exact IH |].
  destruct (score_upto_bounds n' ltac:(lia) HM) as (Hg & _).
  destruct (row_max_bounds (Datatypes.S n') (Z.to_nat Mlen) _ Hn' ltac:(lia) Hg)
    as (_ & Hge & _). fold Mlen. lia.
Qed.
End Maximum.

(** The final matrix holds the recurrence values, and every cell the call does
    not write is what it was. *)
Lemma final_cells (L : Z) (profile : HMMProfile.t) (e : float) (w : world)
    (r : float) (w' : world) :
  0 < L -> 0 < HMMProfile.model_length profile ->
  compute_msv L profile e w = Some (r, w') ->
  r = score_upto profile w (Z.to_nat L) /\
  (forall i k, 0 <= i <= L -> 0 <= k <= HMMProfile.model_length profile ->
     DPMatrix.match_ (dp_matrix w') i k = Some (DP profile w (Z.to_nat i) k)).
Proof.
  intros HL HM Hrun.
  pose proof (compute_msv_needs L profile e w r w' HL HM Hrun) as [[_ _ Hm] _].
  apply compute_msv_spec in Hrun as [(_ & _ & Hw & Hu) Hr]; [| lia | lia].
  split; [exact Hr |]. intros i k Hi Hk.
  destruct (decide (i = 0 \/ 1 <= k)) as [Hin | Hout].
  - apply Hw. unfold written. lia.
  - assert (k = 0) by lia. subst k.
    unfold DPMatrix.match_. rewrite Hu.
    + rewrite DP_step by lia. simpl. unfold col0.
      destruct (Hm i 0 Hi Hk) as [v Hv]. unfold DPMatrix.match_ in *. rewrite Hv. reflexivity.
    + intros k' HW. unfold written in HW. unfold p7G_NSCELLS, p7G_M. lia.
Qed.

Lemma cell_value_le (m m' a a' : float) :
  F32.valid m = true -> F32.valid m' = true ->
  is_nan m' = false -> (is_nan m = true \/ sval m <= sval m') ->
  cell_le a a' ->
  good (cell_value m a) = true /\ good (cell_value m' a') = true /\
  sval (cell_value m a) <= sval (cell_value m' a').
Proof.
  intros Hvm Hvm' Hnm' Hmm Haa.
  destruct (cell_le_props a a' Haa) as (Hva & Hva' & Hna & Hna' & Hle).
  pose proof (cell_value_good m a Hvm Hva) as Hgd.
  pose proof (cell_value_good m' a' Hvm' Hva') as Hgd'.
  split; [exact Hgd |]. split; [exact Hgd' |].
  destruct (good_props _ Hgd') as (_ & _ & Hd' & _).
  destruct (is_nan m) eqn:Hnm.
  - destruct m; try discriminate. rewrite cell_value_nan. cbn [sval F32.zero]. lia.
  - assert (Hsm : sval m <= sval m') by (destruct Hmm; [discriminate | assumption]).
    unfold cell_value at 1. unfold F32.max at 1.
    destruct (F32.ltb F32.zero (F32.max m (F32.add a m))) eqn:Hpos;
      [| cbn [sval F32.zero]; lia].
    unfold F32.max in Hpos |- *.
    destruct (F32.ltb m (F32.add a m)) eqn:Hme.
    + destruct (add_mono a m a' m' Hva Hvm Hva' Hvm' Hna Hnm Hna' Hnm' Hle Hsm Hpos)
        as (Hge & Hge' & Hsum).
      rewrite good_ltb_zero in Hpos by assumption. apply Z.ltb_lt in Hpos.
      pose proof (cell_value_ge_sum m' a' Hvm' Hnm' Hge' ltac:(lia)). lia.
    + rewrite (ltb_sval F32.zero m) in Hpos by (reflexivity || assumption).
      apply Z.ltb_lt in Hpos. cbn [sval F32.zero] in Hpos.
      pose proof (cell_value_ge_score m' a' Hvm' Hnm' ltac:(lia) Hva'). lia.
Qed.

Lemma fresh_inputs (L : Z) (profile : HMMProfile.t) (Mx Lx : Z) (mx : DPMatrix.t)
    (seq : list DigitalResidue) :
  0 <= Mx -> 0 <= Lx -> DPMatrix.new Mx Lx = Some mx ->
  (forall k r u, 1 <= k <= HMMProfile.model_length profile -> 0 <= r < 20 ->
     HMMProfile.match_score profile k r = Some u -> F32.valid u = true) ->
  binary32_inputs L profile (mkWorld seq mx).
Proof.
  intros HM HL Hnew Hsc. split; [exact Hsc |].
  intros i v Hi Hv. cbn [dp_matrix] in Hv. unfold DPMatrix.match_ in Hv.
  rewrite (DPMatrix_new_cell Mx Lx _ _ _ HM HL Hnew) in Hv.
  destruct (decide _); [| discriminate]. apply (inj Some) in Hv. subst v. reflexivity.
Qed.

Lemma checked_inputs (L : Z) (profile : HMMProfile.t) (Mx Lx : Z) (mx : DPMatrix.t)
    (seq : list DigitalResidue) :
  0 <= Mx -> 0 <= Lx -> DPMatrix.new Mx Lx = Some mx ->
  valid_scoresb profile (HMMProfile.model_length profile) = true ->
  binary32_inputs L profile (mkWorld seq mx).
Proof.
  intros HM HL Hnew Hv. apply (fresh_inputs L profile Mx Lx); try assumption.
  intros k r u Hk Hr Hu.
  destruct (valid_scoresb_spec _ _ Hv k r Hk Hr) as (u' & Hu' & Hvu).
  rewrite Hu in Hu'. apply (inj Some) in Hu'. subst u'. exact Hvu.
Qed.

Lemma world_ACD_inputs (L : Z) : binary32_inputs L profile_of_ones world_ACD.
Proof.
  apply (checked_inputs L profile_of_ones 3 3); try lia; vm_compute; reflexivity.
Qed.

(** X13.  After a call of compute_msv with positive lengths that returns, the
    matrix holds the recurrence of the code: row 0 is 0.0 in the columns 0..M;
    column 0 of the rows 1..L is what it was before the call; and each cell (i,
    k) with 1 <= i <= L and 1 <= k <= M is 0.0 when residue i is not canonical
    (code 20 or more), and otherwise max(0, max(s, cell(i-1, k-1) + s)) in
    binary32, s being match_score(k, residue i) and cell(i-1, k-1) the cell of
    the final matrix. *)
Theorem X13_matrix_satisfies_recurrence (L : Z) (profile : HMMProfile.t) (e : float)
    (w : world) (r : float) (w' : world) :
  0 < L -> 0 < HMMProfile.model_length profile ->
  compute_msv L profile e w = Some (r, w') ->
  (forall k, 0 <= k <= HMMProfile.model_length profile ->
     DPMatrix.match_ (dp_matrix w') 0 k = Some F32.zero) /\
  (forall i, 1 <= i <= L ->
     DPMatrix.match_ (dp_matrix w') i 0 = DPMatrix.match_ (dp_matrix w) i 0) /\
  (forall i k, 1 <= i <= L -> 1 <= k <= HMMProfile.model_length profile ->
     exists residue, vget (digital_sequence w) i = Some residue /\
       if 20 <=? residue_code residue then
         DPMatrix.match_ (dp_matrix w') i k = Some F32.zero
       else
         exists match_score prev,
           HMMProfile.match_score profile k (residue_code residue) = Some match_score /\
           DPMatrix.match_ (dp_matrix w') (i - 1) (k - 1) = Some prev /\
           DPMatrix.match_ (dp_matrix w') i k =
             Some (F32.max F32.zero
                     (F32.max match_score (F32.add prev match_score)))).
Proof.
  intros HL HM Hrun.
  pose proof (compute_msv_needs L profile e w r w' HL HM Hrun) as [[Hs Hp Hm] _].
  pose proof (final_cells L profile e w r w' HL HM Hrun) as [_ Hcells].
  split; [| split].
  - intros k Hk. rewrite Hcells by lia. reflexivity.
  - intros i Hi. rewrite Hcells by lia. rewrite DP_step by lia. simpl. unfold col0.
    destruct (Hm i 0 ltac:(lia) ltac:(lia)) as [v Hv]. rewrite Hv. reflexivity.
  - intros i k Hi Hk. destruct (Hs i Hi) as [residue Hres]. exists residue.
    split; [exact Hres |].
    assert (Hr : res w i = residue_code residue) by (unfold res; rewrite Hres; reflexivity).
    rewrite (Hcells i k) by lia. rewrite DP_step by lia.
    destruct (Z.leb_spec k 0); [lia |]. rewrite Hr.
    destruct (Z.leb_spec 20 (residue_code residue)) as [Hbig | Hsmall]; [reflexivity |].
    destruct (Hp i k residue Hi Hk Hres Hsmall) as [u Hu].
    exists u, (DP profile w (Z.to_nat (i - 1)) (k - 1)).
    split; [exact Hu |]. split; [apply Hcells; lia |].
    unfold cell_value, mu. rewrite Hu. reflexivity.
Qed.

Lemma X13_witness :
  exists r w',
    compute_msv 3 profile_of_ones F32.zero world_ACD = Some (r, w') /\
    (forall k, 0 <= k <= HMMProfile.model_length profile_of_ones ->
       DPMatrix.match_ (dp_matrix w') 0 k = Some F32.zero) /\
    (forall i, 1 <= i <= 3 ->
       DPMatrix.match_ (dp_matrix w') i 0 = DPMatrix.match_ (dp_matrix world_ACD) i 0) /\
    (forall i k, 1 <= i <= 3 -> 1 <= k <= HMMProfile.model_length profile_of_ones ->
       exists residue, vget (digital_sequence world_ACD) i = Some residue /\
         if 20 <=? residue_code residue then
           DPMatrix.match_ (dp_matrix w') i k = Some F32.zero
         else
           exists match_score prev,
             HMMProfile.match_score profile_of_ones k (residue_code residue) =
               Some match_score /\
             DPMatrix.match_ (dp_matrix w') (i - 1) (k - 1) = Some prev /\
             DPMatrix.match_ (dp_matrix w') i k =
               Some (F32.max F32.zero
                       (F32.max match_score (F32.add prev match_score)))).
Proof.
  destruct (compute_msv 3 profile_of_ones F32.zero world_ACD) as [[r w'] |] eqn:Hrun;
    [| vm_compute in Hrun; discriminate].
  exists r, w'. split; [reflexivity |].
  apply (X13_matrix_satisfies_recurrence 3 profile_of_ones F32.zero world_ACD r w');
    [lia | vm_compute; reflexivity | exact Hrun].
Defined.

(** X14.  When the match scores that a call reads and column 0 of the rows 1..L
    are binary32 values (NaN included), the score compute_msv returns with
    positive lengths is the value of some match cell (i, k) with 1 <= i <= L and
    1 <= k <= M of the final matrix, and every match cell of the rows 0..L and
    the columns 1..M is less than or equal to it. *)
Theorem X14_score_is_greatest_cell (L : Z) (profile : HMMProfile.t) (e : float)
    (w : world) (r : float) (w' : world) :
  0 < L -> 0 < HMMProfile.model_length profile ->
  binary32_inputs L profile w ->
  compute_msv L profile e w = Some (r, w') ->
  (forall i k, 0 <= i <= L -> 1 <= k <= HMMProfile.model_length profile ->
     exists v, DPMatrix.match_ (dp_matrix w') i k = Some v /\ F32.leb v r = true) /\
  (exists i k, 1 <= i <= L /\ 1 <= k <= HMMProfile.model_length profile /\
     DPMatrix.match_ (dp_matrix w') i k = Some r).
Proof.
  intros HL HM Hin Hrun.
  pose proof (final_cells L profile e w r w' HL HM Hrun) as [-> Hcells].
  destruct (score_upto_bounds profile w L Hin (Z.to_nat L) ltac:(lia) ltac:(lia))
    as (Hg & Hall & Hatt).
  destruct (good_props _ Hg) as (Hv & Hn & Hs).
  assert (Hle : forall i k, 0 <= i <= L -> 1 <= k <= HMMProfile.model_length profile ->
            good (DP profile w (Z.to_nat i) k) = true /\
            sval (DP profile w (Z.to_nat i) k) <=
              sval (score_upto profile w (Z.to_nat L))).
  { intros i k Hi Hk.
    destruct (DP_valid L profile w (Z.to_nat i) k Hin ltac:(lia) ltac:(lia)) as [_ Hgd].
    split; [apply Hgd; lia |].
    destruct (decide (i = 0)) as [-> | Hi0];
      [change (Z.to_nat 0) with 0%nat; cbn [DP]; change (sval F32.zero) with 0; lia |].
    apply Hall; lia. }
  split.
  - intros i k Hi Hk. eexists. split; [apply Hcells; lia |].
    destruct (Hle i k Hi Hk) as [Hgd Hsv]. destruct (good_props _ Hgd) as (? & ? & _).
    rewrite leb_sval by assumption. apply Z.leb_le. exact Hsv.
  - destruct Hatt as [Hz | (i & k & Hi & Hk & Heq)].
    + exists 1, 1. split; [lia |]. split; [lia |]. rewrite Hcells by lia. f_equal.
      destruct (Hle 1 1 ltac:(lia) ltac:(lia)) as [Hgd Hsv].
      rewrite Hz in *. cbn [sval F32.zero] in Hsv.
      apply good_zero; [exact Hgd |]. pose proof (good_props _ Hgd). lia.
    + exists (Z.of_nat i), k. split; [lia |]. split; [exact Hk |].
      rewrite Hcells by lia. rewrite Nat2Z.id. f_equal. symmetry. exact Heq.
Qed.

Lemma X14_witness :
  exists r w',
    compute_msv 3 profile_of_ones F32.zero world_ACD = Some (r, w') /\
    (forall i k, 0 <= i <= 3 -> 1 <= k <= HMMProfile.model_length profile_of_ones ->
       exists v, DPMatrix.match_ (dp_matrix w') i k = Some v /\ F32.leb v r = true) /\
    (exists i k, 1 <= i <= 3 /\ 1 <= k <= HMMProfile.model_length profile_of_ones /\
       DPMatrix.match_ (dp_matrix w') i k = Some r).
Proof.
  destruct (compute_msv 3 profile_of_ones F32.zero world_ACD) as [[r w'] |] eqn:Hrun;
    [| vm_compute in Hrun; discriminate].
  exists r, w'. split; [reflexivity |].
  apply (X14_score_is_greatest_cell 3 profile_of_ones F32.zero world_ACD r w');
    [lia | vm_compute; reflexivity | apply world_ACD_inputs | exact Hrun].
Defined.

(** X15.  Under the same condition on the inputs, the score compute_msv returns
    is at least every match score the call reads that is not NaN: match_score(k,
    residue i) <= score for every position k of 1..M and every index i of 1..L
    that holds a canonical residue. *)
Theorem X15_score_at_least_each_match (L : Z) (profile : HMMProfile.t) (e : float)
    (w : world) (r : float) (w' : world) (i k : Z) (residue : DigitalResidue) (u : float) :
  binary32_inputs L profile w ->
  compute_msv L profile e w = Some (r, w') ->
  1 <= i <= L -> 1 <= k <= HMMProfile.model_length profile ->
  vget (digital_sequence w) i = Some residue ->
  residue_code residue < 20 ->
  HMMProfile.match_score profile k (residue_code residue) = Some u ->
  is_nan u = false ->
  F32.leb u r = true.
Proof.
  intros Hin Hrun Hi Hk Hres Hcan Hu Hnan.
  pose proof (residue_code_range residue) as Hrange.
  assert (Hvu : F32.valid u = true).
  { destruct Hin as [Hsc _]. apply (Hsc k (residue_code residue) u); [lia | lia | exact Hu]. }
  apply compute_msv_spec in Hrun as [_ ->]; [| lia | lia].
  destruct (score_upto_bounds profile w L Hin (Z.to_nat L) ltac:(lia) ltac:(lia))
    as (Hg & Hall & _).
  destruct (good_props _ Hg) as (Hv & Hn & Hs).
  rewrite leb_sval by assumption. apply Z.leb_le.
  destruct (Z.le_gt_cases (sval u) 0) as [Hneg | Hpos]; [lia |].
  specialize (Hall (Z.to_nat i) k ltac:(lia) Hk).
  rewrite DP_step in Hall by lia.
  destruct (Z.leb_spec k 0); [lia |].
  assert (Hr : res w i = residue_code residue) by (unfold res; rewrite Hres; reflexivity).
  rewrite Hr in Hall. destruct (Z.leb_spec 20 (residue_code residue)); [lia |].
  unfold mu in Hall. rewrite Hu in Hall. change (default F32.nan (Some u)) with u in Hall.
  destruct (DP_valid L profile w (Z.to_nat (i - 1)) (k - 1) Hin ltac:(lia) ltac:(lia))
    as [Hvp _].
  pose proof (cell_value_ge_score u _ Hvu Hnan ltac:(lia) Hvp). lia.
Qed.

Lemma X15_witness :
  exists r w',
    compute_msv 3 profile_of_ones F32.zero world_ACD = Some (r, w') /\
    F32.leb (F32.of_Z 1) r = true.
Proof.
  destruct (compute_msv 3 profile_of_ones F32.zero world_ACD) as [[r w'] |] eqn:Hrun;
    [| vm_compute in Hrun; discriminate].
  exists r, w'. split; [reflexivity |].
  apply (X15_score_at_least_each_match 3 profile_of_ones F32.zero world_ACD r w' 2 2 RES_C
           (F32.of_Z 1)).
  - apply world_ACD_inputs.
  - exact Hrun.
  - lia.
  - vm_compute. split; discriminate.
  - reflexivity.
  - vm_compute. reflexivity.
  - vm_compute. reflexivity.
  - reflexivity.
Defined.

(** ** Bounds on the score *)

Section Bounded.
Variable profile : HMMProfile.t.
Variables Mx Lx : Z.
Variable mx : DPMatrix.t.
Variable seq : list DigitalResidue.
Variable c : float.

Let w : world := mkWorld seq mx.
Let Mlen : Z := HMMProfile.model_length profile.

Hypothesis Mx_nonneg : 0 <= Mx.
Hypothesis Lx_nonneg : 0 <= Lx.
Hypothesis fresh : DPMatrix.new Mx Lx = Some mx.
Hypothesis c_valid : F32.valid c = true.
Hypothesis c_nonneg : nonneg c.
Hypothesis bounded_scores :
  forall k x u, 1 <= k <= Mlen -> 0 <= x < 20 ->
    HMMProfile.match_score profile k x = Some u ->
    F32.valid u = true /\ F32.leb u c = true.

Lemma DP_le_sum (i : nat) (k : Z) :
  Z.of_nat i <= Lx -> 1 <= k <= Mlen ->
  good (DP profile w i k) = true /\
  sval (DP profile w i k) <= sval (iter_sum c (Nat.min i (Z.to_nat k))).
Proof.
  destruct (nonneg_props c c_valid c_nonneg) as (Hnc & Hsc).
  revert k. induction i as [| i IH]; intros k Hi Hk.
  - cbn [DP]. split; [reflexivity |]. cbn [Nat.min iter_sum sval F32.zero]. lia.
  - cbn [DP]. destruct (Z.leb_spec k 0); [lia |].
    destruct (Z.leb_spec 20 (res w (Z.of_nat (Datatypes.S i)))) as [Hbig | Hsmall].
    { split; [reflexivity |]. cbn [sval F32.zero].
      apply (good_props _ (iter_sum_good c c_valid c_nonneg _)). }
    pose proof (res_range w (Z.of_nat (Datatypes.S i))) as Hr.
    set (x := res w (Z.of_nat (Datatypes.S i))) in *.
    assert (Hmu : F32.valid (mu profile k x) = true /\
                  (is_nan (mu profile k x) = true \/ sval (mu profile k x) <= sval c)).
    { unfold mu. destruct (HMMProfile.match_score profile k x) as [u |] eqn:Hu;
        [| split; [reflexivity | left; reflexivity]].
      destruct (bounded_scores k x u ltac:(lia) ltac:(lia) Hu) as [Hvu Hle].
      change (default F32.nan (Some u)) with u. split; [exact Hvu |]. right.
      assert (Hnu : is_nan u = false) by (destruct u; try reflexivity; discriminate).
      rewrite leb_sval in Hle by assumption. apply Z.leb_le. exact Hle. }
    destruct Hmu as [Hvmu Hlemu].
    assert (Hprev : exists a', cell_le (DP profile w i (k - 1)) a' /\
              cell_value c a' = iter_sum c (Nat.min (Datatypes.S i) (Z.to_nat k))).
    { destruct (Z.eq_dec k 1) as [-> | Hk1].
      - change (1 - 1) with 0.
        replace (Nat.min (Datatypes.S i) (Z.to_nat 1)) with 1%nat by lia.
        destruct i as [| j].
        + exists F32.zero. cbn [DP].
          split; [right; split; [reflexivity |]; split; [reflexivity | lia] |].
          rewrite cell_value_sum by (assumption || reflexivity). reflexivity.
        + exists (F32.opp eslINFINITY). cbn [DP]. change (0 <=? 0) with true. cbv iota.
          unfold w. rewrite (fresh_col0 Mx Lx) by (assumption || lia).
          split; [left; auto |]. apply cell_value_neg_inf; assumption.
      - destruct (IH (k - 1)) as [Hg Hle]; [lia | lia |].
        exists (iter_sum c (Nat.min i (Z.to_nat (k - 1)))).
        split; [right; split; [exact Hg |]; split;
                 [apply iter_sum_good; assumption | exact Hle] |].
        rewrite cell_value_sum by (try assumption; apply iter_sum_good; assumption).
        replace (Nat.min (Datatypes.S i) (Z.to_nat k))
          with (Datatypes.S (Nat.min i (Z.to_nat (k - 1)))) by lia.
        reflexivity. }
    destruct Hprev as (a' & Hcle & Hsum).
    destruct (cell_value_le _ c _ a' Hvmu c_valid Hnc Hlemu Hcle) as (Hg & _ & Hle).
    rewrite Hsum in Hle. split; [exact Hg | exact Hle].
Qed.
End Bounded.

(** X16.  On a matrix fresh from the constructor, if every match score of the
    positions 1..M for the canonical residues is a binary32 value that is at
    most c, with c >= 0 a binary32 value, then the score compute_msv returns is
    at most c added to itself min(M, L) times from 0.0, each sum rounded to
    binary32. *)
Theorem X16_score_at_most_running_sum (L : Z) (profile : HMMProfile.t) (e : float)
    (Mx Lx : Z) (mx : DPMatrix.t) (seq : list DigitalResidue) (c : float)
    (r : float) (w' : world) :
  0 <= Mx -> 0 <= Lx -> DPMatrix.new Mx Lx = Some mx ->
  F32.valid c = true -> F32.leb F32.zero c = true ->
  (forall k x u, 1 <= k <= HMMProfile.model_length profile -> 0 <= x < 20 ->
     HMMProfile.match_score profile k x = Some u ->
     F32.valid u = true /\ F32.leb u c = true) ->
  compute_msv L profile e (mkWorld seq mx) = Some (r, w') ->
  F32.leb r (iter_sum c (Z.to_nat (Z.min (HMMProfile.model_length profile) L))) = true.
Proof.
  intros HMx HLx Hnew Hvc Hc Hsc Hrun.
  set (n := Z.to_nat (Z.min (HMMProfile.model_length profile) L)).
  pose proof (iter_sum_good c Hvc Hc n) as Hgs.
  destruct (good_props _ Hgs) as (Hvs & Hns & Hss).
  destruct (decide (0 < L /\ 0 < HMMProfile.model_length profile)) as [[HL HM] | Hdeg].
  - assert (Hin : binary32_inputs L profile (mkWorld seq mx)).
    { apply (fresh_inputs L profile Mx Lx); try assumption.
      intros k x u Hk Hx Hu. apply (Hsc k x u Hk Hx Hu). }
    assert (HLfit : L <= Lx).
    { pose proof (compute_msv_needs L profile e _ r w' HL HM Hrun) as [[_ _ Hm] _].
      specialize (Hm L 0 ltac:(lia) ltac:(lia)). cbn [dp_matrix] in Hm.
      unfold DPMatrix.match_ in Hm.
      rewrite (DPMatrix_new_cell Mx Lx _ _ _ HMx HLx Hnew) in Hm.
      destruct (decide _) as [Hd | Hd]; [lia |]. destruct Hm as [v Hv]. discriminate. }
    apply compute_msv_spec in Hrun as [_ ->]; [| lia | lia].
    destruct (score_upto_bounds profile _ L Hin (Z.to_nat L) ltac:(lia) ltac:(lia))
      as (Hg & _ & Hatt).
    destruct (good_props _ Hg) as (Hv & Hn & _).
    rewrite leb_sval by assumption. apply Z.leb_le.
    destruct Hatt as [-> | (i & k & Hi & Hk & ->)]; [cbn [sval F32.zero]; lia |].
    destruct (DP_le_sum profile Mx Lx mx seq c HMx HLx Hnew Hvc Hc Hsc i k) as [_ Hle];
      [lia | lia |].
    pose proof (iter_sum_mono c Hvc Hc (Nat.min i (Z.to_nat k)) n ltac:(unfold n; lia)).
    lia.
  - rewrite compute_msv_degenerate in Hrun by lia. inversion Hrun; subst.
    rewrite leb_sval by (reflexivity || assumption). apply Z.leb_le.
    cbn [sval F32.zero]. lia.
Qed.

Lemma X16_witness :
  exists r w',
    compute_msv 3 profile_of_ones F32.zero world_ACD = Some (r, w') /\
    F32.leb r (iter_sum (F32.of_Z 1)
                 (Z.to_nat (Z.min (HMMProfile.model_length profile_of_ones) 3))) = true.
Proof.
  destruct (compute_msv 3 profile_of_ones F32.zero world_ACD) as [[r w'] |] eqn:Hrun;
    [| vm_compute in Hrun; discriminate].
  exists r, w'. split; [reflexivity |].
  apply (X16_score_at_most_running_sum 3 profile_of_ones F32.zero 3 3 (fresh_matrix 3 3)
           (create_digital_sequence [RES_A; RES_C; RES_D]) (F32.of_Z 1) r w').
  - lia.
  - lia.
  - vm_compute. reflexivity.
  - vm_compute. reflexivity.
  - vm_compute. reflexivity.
  - intros k x u Hk Hx Hu.
    assert (Hc : constant_scoresb profile_of_ones 3 (F32.of_Z 1) = true)
      by (vm_compute; reflexivity).
    rewrite (constant_scoresb_spec _ _ _ Hc k x Hk Hx) in Hu.
    apply (inj Some) in Hu. subst u. split; vm_compute; reflexivity.
  - exact Hrun.
Defined.

(** X17.  If compute_msv returns on the first L2 residues, then on the same
    buffers it returns for every shorter length L1 <= L2 (non-positive ones
    included), with a score that is less than or equal to the one for L2,
    provided the match scores read and column 0 of the rows 1..L2 are binary32
    values. *)
Theorem X17_score_grows_with_length (L1 L2 : Z) (profile : HMMProfile.t) (e : float)
    (w : world) (r2 : float) (w2 : world) :
  L1 <= L2 ->
  binary32_inputs L2 profile w ->
  compute_msv L2 profile e w = Some (r2, w2) ->
  exists r1 w1, compute_msv L1 profile e w = Some (r1, w1) /\ F32.leb r1 r2 = true.
Proof.
  intros HLL Hin Hrun.
  destruct (decide (0 < L1 /\ 0 < HMMProfile.model_length profile)) as [[HL HM] | Hdeg].
  - pose proof (compute_msv_needs L2 profile e w r2 w2 ltac:(lia) HM Hrun) as [[Hs Hp Hm] _].
    destruct (compute_msv_returns L1 profile e w) as (r1 & w1 & Hrun1).
    { constructor.
      - intros i Hi. apply Hs. lia.
      - intros i k r Hi Hk. apply Hp; lia.
      - intros i k Hi Hk. apply Hm; lia. }
    exists r1, w1. split; [exact Hrun1 |].
    apply compute_msv_spec in Hrun as [_ ->]; [| lia | lia].
    apply compute_msv_spec in Hrun1 as [_ ->]; [| lia | lia].
    destruct (score_upto_bounds profile w L2 Hin (Z.to_nat L1) ltac:(lia) ltac:(lia))
      as (Hg1 & _).
    destruct (score_upto_bounds profile w L2 Hin (Z.to_nat L2) ltac:(lia) ltac:(lia))
      as (Hg2 & _).
    destruct (good_props _ Hg1) as (? & ? & _), (good_props _ Hg2) as (? & ? & _).
    rewrite leb_sval by assumption. apply Z.leb_le.
    apply (score_upto_grows profile w L2 Hin); lia.
  - exists F32.zero, w. split; [apply compute_msv_degenerate; lia |].
    apply (compute_msv_nonneg _ _ _ _ _ _ Hrun).
Qed.

Lemma X17_witness :
  exists r2 w2 r1 w1,
    compute_msv 3 profile_of_ones F32.zero world_ACD = Some (r2, w2) /\
    compute_msv 2 profile_of_ones F32.zero world_ACD = Some (r1, w1) /\
    F32.leb r1 r2 = true.
Proof.
  destruct (compute_msv 3 profile_of_ones F32.zero world_ACD) as [[r2 w2] |] eqn:Hrun;
    [| vm_compute in Hrun; discriminate].
  destruct (X17_score_grows_with_length 2 3 profile_of_ones F32.zero world_ACD r2 w2)
    as (r1 & w1 & Hrun1 & Hle); [lia | apply world_ACD_inputs | exact Hrun |].
  exists r2, w2, r1, w1. split; [reflexivity |]. split; [exact Hrun1 | exact Hle].
Defined.

(** ** A matrix that has been used *)

Lemma DP_ext (profile : HMMProfile.t) (wa wb : world) (i : nat) (k : Z) :
  (forall j, 1 <= j <= Z.of_nat i -> col0 wa j = col0 wb j) ->
  (forall j, 1 <= j <= Z.of_nat i -> res wa j = res wb j) ->
  DP profile wa i k = DP profile wb i k.
Proof.
  revert k. induction i as [| i IH]; intros k Hcol Hres; [reflexivity |].
  cbn [DP]. rewrite Hcol, Hres by lia.
  rewrite IH; [reflexivity | intros j Hj; apply Hcol; lia | intros j Hj; apply Hres; lia].
Qed.

Lemma row_max_ext (profile : HMMProfile.t) (wa wb : world) (i n : nat) (m : float) :
  (forall j, 1 <= j <= Z.of_nat i -> col0 wa j = col0 wb j) ->
  (forall j, 1 <= j <= Z.of_nat i -> res wa j = res wb j) ->
  row_max profile wa i n m = row_max profile wb i n m.
Proof.
  intros Hcol Hres. induction n as [| n IH]; [reflexivity |].
  cbn [row_max]. rewrite IH, (DP_ext profile wa wb) by assumption. reflexivity.
Qed.

Lemma score_upto_ext (profile : HMMProfile.t) (wa wb : world) (n : nat) :
  (forall j, 1 <= j <= Z.of_nat n -> col0 wa j = col0 wb j) ->
  (forall j, 1 <= j <= Z.of_nat n -> res wa j = res wb j) ->
  score_upto profile wa n = score_upto profile wb n.
Proof.
  induction n as [| n IH]; intros Hcol Hres; [reflexivity |].
  cbn [score_upto]. rewrite Hres by lia.
  rewrite IH; [| intros j Hj; apply Hcol; lia | intros j Hj; apply Hres; lia].
  rewrite (row_max_ext profile wa wb) by assumption. reflexivity.
Qed.

Lemma compute_msv_col0 (L : Z) (profile : HMMProfile.t) (e : float) (w : world)
    (r : float) (w' : world) (i : Z) :
  compute_msv L profile e w = Some (r, w') -> 1 <= i ->
  DPMatrix.match_ (dp_matrix w') i 0 = DPMatrix.match_ (dp_matrix w) i 0.
Proof.
  intros Hrun Hi.
  destruct (decide (0 < L /\ 0 < HMMProfile.model_length profile)) as [[HL HM] | Hdeg].
  - apply compute_msv_spec in Hrun as [(_ & _ & _ & Hu) _]; [| lia | lia].
    unfold DPMatrix.match_. apply Hu.
    intros k HW. unfold written in HW. unfold p7G_NSCELLS, p7G_M. lia.
  - rewrite compute_msv_degenerate in Hrun by lia. inversion Hrun. reflexivity.
Qed.

Lemma compute_msv_same_shape (L : Z) (profile : HMMProfile.t) (e : float) (w : world)
    (r : float) (w' : world) :
  compute_msv L profile e w = Some (r, w') -> same_shape w w'.
Proof.
  intros Hrun.
  destruct (decide (0 < L /\ 0 < HMMProfile.model_length profile)) as [[HL HM] | Hdeg].
  - apply (compute_msv_needs L profile e w r w' HL HM Hrun).
  - rewrite compute_msv_degenerate in Hrun by lia. inversion Hrun. apply same_shape_refl.
Qed.

(** X18.  A matrix that compute_msv has filled can be used again without being
    cleared: a second call, with any length, profile, expected hit count and
    sequence, returns on the used matrix exactly when it returns on the matrix
    as it was before the first call, with the same score. *)
Theorem X18_used_matrix_scores_the_same (L1 : Z) (profile1 : HMMProfile.t) (e1 : float)
    (w0 : world) (r1 : float) (w1 : world)
    (L2 : Z) (profile2 : HMMProfile.t) (e2 : float) (seq2 : list DigitalResidue) :
  compute_msv L1 profile1 e1 w0 = Some (r1, w1) ->
  fst <$> compute_msv L2 profile2 e2 (mkWorld seq2 (dp_matrix w1)) =
  fst <$> compute_msv L2 profile2 e2 (mkWorld seq2 (dp_matrix w0)).
Proof.
  intros Hrun1.
  pose proof (compute_msv_same_shape _ _ _ _ _ _ Hrun1) as [_ Hshape].
  assert (Hcol : forall i, 1 <= i ->
            col0 (mkWorld seq2 (dp_matrix w1)) i = col0 (mkWorld seq2 (dp_matrix w0)) i).
  { intros i Hi. unfold col0. cbn [dp_matrix].
    rewrite (compute_msv_col0 _ _ _ _ _ _ i Hrun1 Hi). reflexivity. }
  destruct (decide (0 < L2 /\ 0 < HMMProfile.model_length profile2)) as [[HL HM] | Hdeg];
    [| rewrite !compute_msv_degenerate by lia; reflexivity].
  assert (Hneeds : call_needs L2 profile2 (mkWorld seq2 (dp_matrix w1)) <->
                   call_needs L2 profile2 (mkWorld seq2 (dp_matrix w0))).
  { split; intros [Hs Hp Hm]; constructor; cbn [digital_sequence dp_matrix] in *; auto;
      intros i k Hi Hk; apply Hshape || apply <- Hshape; apply Hm; assumption. }
  destruct (compute_msv L2 profile2 e2 (mkWorld seq2 (dp_matrix w0))) as [[ra wa] |] eqn:Ha.
  - pose proof (compute_msv_needs _ _ _ _ _ _ HL HM Ha) as [Hn _].
    apply Hneeds in Hn.
    destruct (compute_msv_returns L2 profile2 e2 _ Hn) as (rb & wb & Hb).
    rewrite Hb. cbn [fmap option_fmap option_map fst]. f_equal.
    apply compute_msv_spec in Ha as [_ ->]; [| lia | lia].
    apply compute_msv_spec in Hb as [_ ->]; [| lia | lia].
    apply score_upto_ext; [intros j Hj; apply Hcol; lia | reflexivity].
  - destruct (compute_msv L2 profile2 e2 (mkWorld seq2 (dp_matrix w1)))
      as [[rb wb] |] eqn:Hb; [| reflexivity].
    exfalso. pose proof (compute_msv_needs _ _ _ _ _ _ HL HM Hb) as [Hn _].
    apply Hneeds in Hn.
    destruct (compute_msv_returns L2 profile2 e2 _ Hn) as (ra & wa & Ha').
    rewrite Ha' in Ha. discriminate.
Qed.

Lemma X18_witness :
  exists r1 w1,
    compute_msv 3 profile_of_ones F32.zero world_ACD = Some (r1, w1) /\
    fst <$> compute_msv 2 (constant_profile 2 (F32.of_Z 2)) F32.zero
              (mkWorld (create_digital_sequence [RES_D; RES_E]) (dp_matrix w1)) =
    fst <$> compute_msv 2 (constant_profile 2 (F32.of_Z 2)) F32.zero
              (mkWorld (create_digital_sequence [RES_D; RES_E]) (dp_matrix world_ACD)).
Proof.
  destruct (compute_msv 3 profile_of_ones F32.zero world_ACD) as [[r1 w1] |] eqn:Hrun;
    [| vm_compute in Hrun; discriminate].
  exists r1, w1. split; [reflexivity |].
  apply (X18_used_matrix_scores_the_same 3 profile_of_ones F32.zero world_ACD r1 w1). exact Hrun.
Defined.

(** ** Where a segment starts *)

Lemma cell_value_start (u : float) :
  cell_value u F32.zero = F32.max F32.zero u /\
  cell_value u (F32.opp eslINFINITY) = F32.max F32.zero u.
Proof.
  assert (Hsame : forall x, F32.max x x = x)
    by (intros x; unfold F32.max; destruct (F32.ltb x x); reflexivity).
  split.
  - destruct u as [[|] | [|] | | s m e]; try reflexivity.
    unfold cell_value.
    change (F32.add F32.zero (S754_finite s m e)) with (S754_finite s m e).
    rewrite Hsame. reflexivity.
  - destruct u as [[|] | [|] | | [|] m e]; reflexivity.
Qed.

(** X19.  In row 1, and in column 1 of a row i whose cell (i-1, 0) was negative
    infinity before the call (as the constructor leaves it), a cell for a
    canonical residue holds max(0, s), s being the match score read for it,
    whatever s is: no earlier cell contributes. *)
Theorem X19_segment_starts (L : Z) (profile : HMMProfile.t) (e : float)
    (w : world) (r : float) (w' : world) (i k : Z) (residue : DigitalResidue) (u : float) :
  compute_msv L profile e w = Some (r, w') ->
  1 <= i <= L -> 1 <= k <= HMMProfile.model_length profile ->
  vget (digital_sequence w) i = Some residue ->
  residue_code residue < 20 ->
  HMMProfile.match_score profile k (residue_code residue) = Some u ->
  i = 1 \/ (k = 1 /\ DPMatrix.match_ (dp_matrix w) (i - 1) 0 = Some (F32.opp eslINFINITY)) ->
  DPMatrix.match_ (dp_matrix w') i k = Some (F32.max F32.zero u).
Proof.
  intros Hrun Hi Hk Hres Hcan Hu Hstart.
  pose proof (final_cells L profile e w r w' ltac:(lia) ltac:(lia) Hrun) as [_ Hcells].
  rewrite Hcells by lia. f_equal. rewrite DP_step by lia.
  destruct (Z.leb_spec k 0); [lia |].
  assert (Hr : res w i = residue_code residue) by (unfold res; rewrite Hres; reflexivity).
  rewrite Hr. destruct (Z.leb_spec 20 (residue_code residue)); [lia |].
  unfold mu. rewrite Hu. change (default F32.nan (Some u)) with u.
  destruct Hstart as [-> | [-> Hcol]].
  - change (Z.to_nat (1 - 1)) with 0%nat. cbn [DP]. apply cell_value_start.
  - change (1 - 1) with 0.
    destruct (decide (i = 1)) as [-> | Hi1].
    + change (Z.to_nat (1 - 1)) with 0%nat. cbn [DP]. apply cell_value_start.
    + rewrite DP_step by lia. simpl. unfold col0. rewrite Hcol.
      apply cell_value_start.
Qed.

Lemma X19_witness :
  exists r w',
    compute_msv 3 profile_of_ones F32.zero world_ACD = Some (r, w') /\
    DPMatrix.match_ (dp_matrix w') 2 1 = Some (F32.max F32.zero (F32.of_Z 1)).
Proof.
  destruct (compute_msv 3 profile_of_ones F32.zero world_ACD) as [[r w'] |] eqn:Hrun;
    [| vm_compute in Hrun; discriminate].
  exists r, w'. split; [reflexivity |].
  apply (X19_segment_starts 3 profile_of_ones F32.zero world_ACD r w' 2 1 RES_C (F32.of_Z 1)).
  - exact Hrun.
  - lia.
  - vm_compute. split; discriminate.
  - reflexivity.
  - vm_compute. reflexivity.
  - vm_compute. reflexivity.
  - right. split; [reflexivity | vm_compute; reflexivity].
Defined.

(** ** A sequence with no canonical residue *)

Lemma DP_noncanonical (profile : HMMProfile.t) (w : world) (i : nat) (k : Z) :
  20 <= res w (Z.of_nat i) -> 1 <= k -> DP profile w i k = F32.zero.
Proof.
  intros Hres Hk. destruct i as [| i]; [reflexivity |].
  cbn [DP]. destruct (Z.leb_spec k 0); [lia |].
  destruct (Z.leb_spec 20 (res w (Z.of_nat (Datatypes.S i)))); [reflexivity | lia].
Qed.

Lemma score_noncanonical (profile : HMMProfile.t) (w : world) (n : nat) :
  (forall i, 1 <= i <= Z.of_nat n -> 20 <= res w i) ->
  score_upto profile w n = F32.zero.
Proof.
  induction n as [| n IH]; intros Hres; [reflexivity |].
  cbn [score_upto]. specialize (Hres (Z.of_nat (Datatypes.S n)) ltac:(lia)) as Hn.
  destruct (Z.leb_spec 20 (res w (Z.of_nat (Datatypes.S n)))); [| lia].
  apply IH. intros i Hi. apply Hres. lia.
Qed.

(** X20.  If every residue at the indices 1..L is not canonical (code 20 or
    more) and the matrix has the match cells (i, k) for 0 <= i <= L and 0 <= k
    <= M, compute_msv returns 0.0 without reading the profile, and leaves 0.0 in
    every match cell of the rows 1..L and columns 1..M. *)
Theorem X20_noncanonical_sequence_scores_zero (L : Z) (profile : HMMProfile.t) (e : float)
    (w : world) :
  (forall i, 1 <= i <= L ->
     exists residue, vget (digital_sequence w) i = Some residue /\
                     20 <= residue_code residue) ->
  (forall i k, 0 <= i <= L -> 0 <= k <= HMMProfile.model_length profile ->
     is_Some (DPMatrix.match_ (dp_matrix w) i k)) ->
  exists w', compute_msv L profile e w = Some (F32.zero, w') /\
    forall i k, 1 <= i <= L -> 1 <= k <= HMMProfile.model_length profile ->
      DPMatrix.match_ (dp_matrix w') i k = Some F32.zero.
Proof.
  intros Hseq Hmx.
  assert (Hres : forall i, 1 <= i <= L -> 20 <= res w i).
  { intros i Hi. destruct (Hseq i Hi) as (r & Hr & Hbig). unfold res. rewrite Hr. exact Hbig. }
  destruct (compute_msv_returns L profile e w) as (r & w' & Hrun).
  { constructor.
    - intros i Hi. destruct (Hseq i Hi) as (r & Hr & _). rewrite Hr. eauto.
    - intros i k r Hi Hk Hr Hcan. destruct (Hseq i Hi) as (r' & Hr' & Hbig).
      rewrite Hr in Hr'. apply (inj Some) in Hr'. subst r'. lia.
    - exact Hmx. }
  exists w'. destruct (decide (0 < L /\ 0 < HMMProfile.model_length profile))
    as [[HL HM] | Hdeg].
  - pose proof (final_cells L profile e w r w' HL HM Hrun) as [-> Hcells].
    rewrite Hrun. split.
    + f_equal. f_equal. apply score_noncanonical. intros i Hi. apply Hres. lia.
    + intros i k Hi Hk. rewrite Hcells by lia. f_equal.
      apply DP_noncanonical; [| lia]. rewrite Z2Nat.id by lia. apply Hres, Hi.
  - rewrite compute_msv_degenerate in Hrun by lia. inversion Hrun; subst.
    split; [apply compute_msv_degenerate; lia |]. intros i k Hi Hk. lia.
Qed.

Lemma X20_witness :
  exists w',
    compute_msv 2 bare_profile F32.zero
      (mkWorld (create_digital_sequence [RES_X; digitalResidueIllegal]) (fresh_matrix 2 2)) =
      Some (F32.zero, w') /\
    forall i k, 1 <= i <= 2 -> 1 <= k <= HMMProfile.model_length bare_profile ->
      DPMatrix.match_ (dp_matrix w') i k = Some F32.zero.
Proof.
  apply (X20_noncanonical_sequence_scores_zero 2 bare_profile F32.zero).
  - intros i Hi. assert (Hcases : i = 1 \/ i = 2) by lia.
    destruct Hcases as [-> | ->]; eexists; (split; [reflexivity | vm_compute; discriminate]).
  - intros i k Hi Hk. cbn [dp_matrix]. unfold DPMatrix.match_.
    assert (Hnew : DPMatrix.new 2 2 = Some (fresh_matrix 2 2)) by (vm_compute; reflexivity).
    rewrite (DPMatrix_new_cell 2 2 _ _ _ ltac:(lia) ltac:(lia) Hnew).
    change (HMMProfile.model_length bare_profile) with 2 in Hk.
    rewrite decide_True by (unfold p7G_NSCELLS, p7G_M; lia). eauto.
Defined.

(** * The builders with [compute_msv] *)

Lemma simple_sequence_canonical (L : Z) :
  0 <= L -> L + 2 <= INT_MAX ->
  exists seq, MockDataGenerator.create_simple_sequence L test_alphabet = Returns seq /\
    Z.of_nat (length seq) = L + 2 /\
    forall mx i, 1 <= i <= L -> res (mkWorld seq mx) i = (i - 1) mod 20.
Proof.
  intros HL HLmax. destruct alphabet_dims as (HK & _ & _).
  destruct (simple_sequence_Returns L test_alphabet HL HLmax ltac:(lia))
    as (seq & Hrun & Hlen & _ & _ & Hres).
  exists seq. split; [exact Hrun |]. split; [exact Hlen |].
  intros mx i Hi. destruct (Hres i Hi) as (r & Hr & Hcode).
  unfold res. cbn [digital_sequence]. rewrite Hr. cbn [default from_option id].
  rewrite Hcode, HK. apply Z.mod_small.
  pose proof (Z.mod_pos_bound (i - 1) 20 ltac:(lia)). lia.
Qed.

Lemma table_call_ok (M L : Z) (score : Z -> Z -> float) (profile : HMMProfile.t)
    (mx : DPMatrix.t) (seq : list DigitalResidue) :
  0 <= M -> 0 <= L ->
  profile_table M score profile ->
  DPMatrix.new M L = Some mx ->
  Z.of_nat (length seq) = L + 2 ->
  HMMProfile.model_length profile = M /\
  (forall k x, 1 <= k <= M -> 0 <= x < 20 ->
     HMMProfile.match_score profile k x = Some (score k x)) /\
  call_ok L profile (mkWorld seq mx).
Proof.
  intros HM HL (Hlen & Hms & _) Hnew Hseq.
  assert (Hsc : forall k x, 1 <= k <= M -> 0 <= x < 20 ->
            HMMProfile.match_score profile k x = Some (score k x)).
  { intros k x Hk Hx. rewrite Hms. rewrite decide_True by lia.
    rewrite decide_True by lia. reflexivity. }
  split; [exact Hlen |]. split; [exact Hsc |].
  apply (call_ok_fresh L profile M L); try lia; try assumption.
  intros k r Hk Hr. rewrite Hsc by lia. eauto.
Qed.

(** X21.  For M >= 0 and L >= 0 whose sizes 7 M and 5 (L + 1) are at most
    INT_MAX, and any binary32 value c >= 0, the mock data fit together:
    create_simple_sequence(L, abc), create_constant_profile(M, abc, c) and
    create_dp_matrix(M, L) all return, and compute_msv on them returns c added
    to itself min(M, L) times from 0.0, each sum rounded to binary32. For
    create_constant_test (L = 20, M = 10, c = 1) the score is 10. *)
Theorem X21_constant_profile_run (M L : Z) (c e : float) :
  0 <= M -> 0 <= L ->
  M * p7P_NTRANS <= INT_MAX -> (L + 1) * p7G_NXCELLS <= INT_MAX ->
  F32.valid c = true -> F32.leb F32.zero c = true ->
  exists a seq profile mx w',
    AminoAcidAlphabet.new = Some a /\
    MockDataGenerator.create_simple_sequence L a = Returns seq /\
    MockDataGenerator.create_constant_profile M a c = Returns profile /\
    MockDataGenerator.create_dp_matrix M L = Returns mx /\
    compute_msv L profile e (mkWorld seq mx) =
      Some (iter_sum c (Z.to_nat (Z.min M L)), w').
Proof.
  intros HM HL HMmax HLmax Hvc Hc.
  assert (HM3 : (M + 1) * p7G_NSCELLS <= INT_MAX)
    by (unfold p7G_NSCELLS, p7P_NTRANS, INT_MAX in *; lia).
  assert (HL2 : L + 2 <= INT_MAX) by (unfold p7G_NXCELLS, INT_MAX in *; lia).
  destruct alphabet_dims as (HK & _ & _).
  destruct (simple_sequence_canonical L HL HL2) as (seq & Hseq & Hlen & Hres).
  destruct (built_profile_table M "constant_model" (fun _ _ => c) M (fun _ => 20)
              (fun _ _ => c)) as (p0 & p & Hnew & Hrun & Htab); [assumption | lia | lia | |].
  { intros k x Hk Hx. rewrite decide_True by lia. reflexivity. }
  assert (Hp : MockDataGenerator.create_constant_profile M test_alphabet c = Returns p).
  { apply returned_Returns in Hnew.
    unfold MockDataGenerator.create_constant_profile. rewrite Hnew, HK.
    cbn [mbind outcome_mbind outcome_bind].
    rewrite (fill_loops 1 (M + 1) (fun _ => 20)
               (fun k x p => HMMProfile.set_match_score p k x c)).
    rewrite Hrun. reflexivity. }
  pose proof (DPMatrix_new_Some M L HM HL HM3 HLmax) as Hmx.
  set (mx := DPMatrix.mk _ _ _ _ _ _ _) in Hmx.
  destruct (table_call_ok M L _ p mx seq HM HL Htab Hmx Hlen) as (Hlenp & Hsc & Hok).
  destruct (compute_msv_total L p e _ Hok) as (r & w' & Hcall).
  exists test_alphabet, seq, p, mx, w'.
  split; [exact alphabet_new_Some |]. split; [exact Hseq |]. split; [exact Hp |].
  split; [apply returned_Returns; exact Hmx |]. rewrite Hcall. f_equal. f_equal.
  destruct (decide (0 < L /\ 0 < M)) as [[HL0 HM0] | Hdeg].
  - apply compute_msv_spec in Hcall as [_ ->]; [| lia | lia].
    rewrite (score_constant p M L mx seq c L); try lia; try assumption.
    + rewrite Hlenp. f_equal. lia.
    + rewrite Hlenp. exact Hsc.
    + intros i Hi. rewrite Hres by lia.
      pose proof (Z.mod_pos_bound (i - 1) 20 ltac:(lia)). lia.
  - rewrite compute_msv_degenerate in Hcall by lia. inversion Hcall.
    replace (Z.to_nat (Z.min M L)) with 0%nat by lia. reflexivity.
Qed.

Lemma X21_witness :
  exists seq profile mx w',
    MockDataGenerator.create_constant_test test_alphabet =
      Returns (seq, 20, profile, mx) /\
    compute_msv 20 profile (F32.of_Z 2) (mkWorld seq mx) =
      Some (iter_sum (F32.of_Z 1) 10, w') /\
    iter_sum (F32.of_Z 1) 10 = F32.of_Z 10.
Proof.
  destruct (X21_constant_profile_run 10 20 (F32.of_Z 1) (F32.of_Z 2))
    as (a & seq & profile & mx & w' & Ha & Hseq & Hp & Hmx & Hrun);
    [lia | lia | unfold p7P_NTRANS, INT_MAX; lia | unfold p7G_NXCELLS, INT_MAX; lia
    | vm_compute; reflexivity | vm_compute; reflexivity |].
  rewrite alphabet_new_Some in Ha. apply (inj Some) in Ha. subst a.
  exists seq, profile, mx, w'. split; [| split; [exact Hrun | vm_compute; reflexivity]].
  unfold MockDataGenerator.create_constant_test. cbv zeta. rewrite Hseq, Hp, Hmx. reflexivity.
Defined.

Lemma max_zero_nonpos (lo : float) :
  F32.leb lo F32.zero = true -> F32.max F32.zero lo = F32.zero.
Proof.
  destruct lo as [[|] | [|] | | [|] m e]; try discriminate; reflexivity.
Qed.

Lemma diag_shift (a b : Z) :
  (a mod 20 =? b mod 20) = ((a - 1) mod 20 =? (b - 1) mod 20).
Proof.
  destruct (Z.eqb_spec (a mod 20) (b mod 20)) as [H | H],
           (Z.eqb_spec ((a - 1) mod 20) ((b - 1) mod 20)) as [H' | H']; try reflexivity;
    exfalso; rewrite Z.cong_iff_0 in *.
  - apply H'. replace (a - 1 - (b - 1)) with (a - b) by lia. exact H.
  - apply H. replace (a - 1 - (b - 1)) with (a - b) in H' by lia. exact H'.
Qed.

Section PatternRun.
Variable profile : HMMProfile.t.
Variables Mx Lx : Z.
Variable mx : DPMatrix.t.
Variable seq : list DigitalResidue.
Variables hi lo : float.
Variable L : Z.

Let w : world := mkWorld seq mx.
Let Mlen : Z := HMMProfile.model_length profile.

Hypothesis Mx_nonneg : 0 <= Mx.
Hypothesis Lx_nonneg : 0 <= Lx.
Hypothesis L_fits : L <= Lx.
Hypothesis fresh : DPMatrix.new Mx Lx = Some mx.
Hypothesis pattern :
  forall k x, 1 <= k <= Mlen -> 0 <= x < 20 ->
    HMMProfile.match_score profile k x = Some (pattern_score hi lo k x).
Hypothesis cyclic : forall i, 1 <= i <= L -> res w i = (i - 1) mod 20.
Hypothesis hi_valid : F32.valid hi = true.
Hypothesis hi_nonneg : nonneg hi.
Hypothesis lo_nonpos : F32.leb lo F32.zero = true.

Lemma DP_pattern (i : nat) (k : Z) :
  Z.of_nat i <= L -> 1 <= k <= Mlen ->
  DP profile w i k =
    if (Z.of_nat i - 1) mod 20 =? (k - 1) mod 20
    then iter_sum hi (Nat.min i (Z.to_nat k)) else F32.zero.
Proof.
  revert k. induction i as [| i IH]; intros k Hi Hk.
  - cbn [DP Nat.min iter_sum]. destruct (_ =? _); reflexivity.
  - cbn [DP]. destruct (Z.leb_spec k 0); [lia |].
    rewrite cyclic by lia.
    pose proof (Z.mod_pos_bound (Z.of_nat (Datatypes.S i) - 1) 20 ltac:(lia)) as Hr.
    destruct (Z.leb_spec 20 ((Z.of_nat (Datatypes.S i) - 1) mod 20)); [lia |].
    unfold mu. rewrite pattern by (fold Mlen; lia).
    change (default F32.nan (Some ?u)) with u. unfold pattern_score.
    rewrite (diag_shift (Z.of_nat (Datatypes.S i) - 1) (k - 1)).
    replace (Z.of_nat (Datatypes.S i) - 1 - 1) with (Z.of_nat i - 1) by lia.
    assert (Hprev : DP profile w i (k - 1) =
              if k =? 1
              then (if (i =? 0)%nat then F32.zero else F32.opp eslINFINITY)
              else if (Z.of_nat i - 1) mod 20 =? (k - 1 - 1) mod 20
                   then iter_sum hi (Nat.min i (Z.to_nat (k - 1))) else F32.zero).
    { destruct (Z.eqb_spec k 1) as [-> | Hk1].
      - change (1 - 1) with 0. destruct i as [| j]; [reflexivity |].
        cbn [DP]. change (0 <=? 0) with true. cbv iota.
        unfold w. rewrite (fresh_col0 Mx Lx) by (assumption || lia). reflexivity.
      - apply IH; lia. }
    rewrite Hprev.
    destruct ((Z.of_nat i - 1) mod 20 =? (k - 1 - 1) mod 20) eqn:Hdiag.
    + (* the residue is the preferred one *)
      destruct (Z.eqb_spec k 1) as [-> | Hk1].
      * replace (Nat.min (Datatypes.S i) (Z.to_nat 1)) with 1%nat by lia.
        destruct (Nat.eqb_spec i 0).
        -- rewrite cell_value_sum by (assumption || reflexivity). reflexivity.
        -- apply cell_value_neg_inf; assumption.
      * rewrite cell_value_sum by (try assumption; apply iter_sum_good; assumption).
        replace (Nat.min (Datatypes.S i) (Z.to_nat k))
          with (Datatypes.S (Nat.min i (Z.to_nat (k - 1)))) by lia.
        reflexivity.
    + (* any other residue *)
      destruct (k =? 1); [destruct (i =? 0)%nat |];
        destruct (cell_value_start lo) as [Hzero Hinf];
        rewrite ?Hzero, ?Hinf; apply max_zero_nonpos; assumption.
Qed.

Lemma pattern_score_valid (k x : Z) :
  F32.valid lo = true -> F32.valid (pattern_score hi lo k x) = true.
Proof. intros Hlo. unfold pattern_score. destruct (_ =? _); assumption. Qed.

Lemma score_pattern :
  F32.valid lo = true -> 0 <= L -> 0 <= Mlen ->
  score_upto profile w (Z.to_nat L) = iter_sum hi (Z.to_nat (Z.min Mlen L)).
Proof.
  intros Hlo HL HM.
  set (n := Z.to_nat (Z.min Mlen L)).
  assert (Hin : binary32_inputs L profile w).
  { apply (fresh_inputs L profile Mx Lx); try assumption.
    intros k r u Hk Hr Hu. rewrite pattern in Hu by (fold Mlen; lia).
    apply (inj Some) in Hu. subst u. apply pattern_score_valid. exact Hlo. }
  destruct (score_upto_bounds profile w L Hin (Z.to_nat L) ltac:(lia) HM)
    as (Hg & Hall & Hatt).
  apply good_inj; [exact Hg | apply iter_sum_good; assumption |].
  apply Z.le_antisymm.
  - destruct Hatt as [-> | (i & k & Hi & Hk & ->)].
    + cbn [sval F32.zero]. apply (good_props _ (iter_sum_good hi hi_valid hi_nonneg n)).
    + rewrite DP_pattern by (fold Mlen; lia).
      destruct (_ =? _).
      * apply iter_sum_mono; try assumption. unfold n. fold Mlen in Hk. lia.
      * cbn [sval F32.zero].
        apply (good_props _ (iter_sum_good hi hi_valid hi_nonneg n)).
  - destruct (decide (n = 0%nat)) as [-> | Hn].
    + cbn [iter_sum sval F32.zero]. apply (good_props _ Hg).
    + specialize (Hall n (Z.of_nat n) ltac:(unfold n in *; lia)
                    ltac:(unfold n in *; fold Mlen; lia)).
      rewrite DP_pattern in Hall by (unfold n in *; fold Mlen; lia).
      rewrite Z.eqb_refl in Hall. rewrite Nat2Z.id, Nat.min_id in Hall. exact Hall.
Qed.
End PatternRun.

Lemma pattern_table_run (M L : Z) (hi lo e : float) (profile : HMMProfile.t)
    (mx : DPMatrix.t) (seq : list DigitalResidue) :
  0 <= M -> 0 <= L ->
  F32.valid hi = true -> F32.leb F32.zero hi = true ->
  F32.valid lo = true -> F32.leb lo F32.zero = true ->
  profile_table M (pattern_score hi lo) profile ->
  DPMatrix.new M L = Some mx ->
  Z.of_nat (length seq) = L + 2 ->
  (forall i, 1 <= i <= L -> res (mkWorld seq mx) i = (i - 1) mod 20) ->
  exists w', compute_msv L profile e (mkWorld seq mx) =
               Some (iter_sum hi (Z.to_nat (Z.min M L)), w').
Proof.
  intros HM HL Hvhi Hhi Hvlo Hlo Htab Hmx Hlen Hres.
  destruct (table_call_ok M L _ profile mx seq HM HL Htab Hmx Hlen) as (Hlenp & Hsc & Hok).
  destruct (compute_msv_total L profile e _ Hok) as (r & w' & Hcall).
  exists w'. rewrite Hcall. f_equal. f_equal.
  destruct (decide (0 < L /\ 0 < M)) as [[HL0 HM0] | Hdeg].
  - apply compute_msv_spec in Hcall as [_ ->]; [| lia | lia].
    rewrite (score_pattern profile M L mx seq hi lo L); try lia; try assumption.
    + rewrite Hlenp. reflexivity.
    + rewrite Hlenp. exact Hsc.
  - rewrite compute_msv_degenerate in Hcall by lia. inversion Hcall.
    replace (Z.to_nat (Z.min M L)) with 0%nat by lia. reflexivity.
Qed.

(** X22.  For M >= 0 and L >= 0 whose sizes 7 M and 5 (L + 1) are at most
    INT_MAX, create_simple_sequence(L, abc) and create_dp_matrix(M, L) return,
    and on their sequence and matrix compute_msv returns hi added to itself
    min(M, L) times for the profile that create_alternating_pattern_profile(M,
    hi, lo, abc) returns, when hi >= 0 and lo <= 0 are binary32 values, and 2
    added to itself min(M, L) times for the profile that
    create_pattern_profile(M, abc) returns. For create_pattern_test (L = 15, M =
    10) the score is 20. *)
Theorem X22_pattern_profile_run (M L : Z) (hi lo e : float) :
  0 <= M -> 0 <= L ->
  M * p7P_NTRANS <= INT_MAX -> (L + 1) * p7G_NXCELLS <= INT_MAX ->
  F32.valid hi = true -> F32.leb F32.zero hi = true ->
  F32.valid lo = true -> F32.leb lo F32.zero = true ->
  exists a seq mx,
    AminoAcidAlphabet.new = Some a /\
    MockDataGenerator.create_simple_sequence L a = Returns seq /\
    MockDataGenerator.create_dp_matrix M L = Returns mx /\
    (exists profile w',
       msv_test.create_alternating_pattern_profile M hi lo a = Returns profile /\
       compute_msv L profile e (mkWorld seq mx) =
         Some (iter_sum hi (Z.to_nat (Z.min M L)), w')) /\
    (exists profile w',
       MockDataGenerator.create_pattern_profile M a = Returns profile /\
       compute_msv L profile e (mkWorld seq mx) =
         Some (iter_sum (F32.of_Z 2) (Z.to_nat (Z.min M L)), w')).
Proof.
  intros HM HL HMmax HLmax Hvhi Hhi Hvlo Hlo.
  assert (HM3 : (M + 1) * p7G_NSCELLS <= INT_MAX)
    by (unfold p7G_NSCELLS, p7P_NTRANS, INT_MAX in *; lia).
  assert (HL2 : L + 2 <= INT_MAX) by (unfold p7G_NXCELLS, INT_MAX in *; lia).
  destruct alphabet_dims as (HK & _ & _).
  destruct (simple_sequence_canonical L HL HL2) as (seq & Hseq & Hlen & Hres).
  pose proof (DPMatrix_new_Some M L HM HL HM3 HLmax) as Hmx.
  set (mx := DPMatrix.mk _ _ _ _ _ _ _) in Hmx.
  exists test_alphabet, seq, mx.
  split; [exact alphabet_new_Some |]. split; [exact Hseq |].
  split; [apply returned_Returns; exact Hmx |].
  split.
  - destruct (built_profile_table M "alternating_pattern_model"
                (pattern_score hi lo) M (fun _ => 20) (pattern_score hi lo))
      as (p0 & p & Hnew & Hrun & Htab); [assumption | lia | lia | |].
    { intros k x Hk Hx. rewrite decide_True by lia. reflexivity. }
    destruct (pattern_table_run M L hi lo e p mx seq) as (w' & Hcall); try assumption.
    { intros i Hi. apply Hres, Hi. }
    exists p, w'. split; [| exact Hcall]. apply returned_Returns in Hnew.
    unfold msv_test.create_alternating_pattern_profile. rewrite Hnew, HK.
    cbn [mbind outcome_mbind outcome_bind].
    rewrite pattern_loops, Hrun. reflexivity.
  - destruct (built_profile_table M "pattern_model"
                (pattern_score (F32.of_Z 2) (F32.opp (F32.of_Z 1))) M (fun _ => 20)
                (pattern_score (F32.of_Z 2) (F32.opp (F32.of_Z 1))))
      as (p0 & p & Hnew & Hrun & Htab); [assumption | lia | lia | |].
    { intros k x Hk Hx. rewrite decide_True by lia. reflexivity. }
    destruct (pattern_table_run M L (F32.of_Z 2) (F32.opp (F32.of_Z 1)) e p mx seq)
      as (w' & Hcall); try assumption; try reflexivity.
    { intros i Hi. apply Hres, Hi. }
    exists p, w'. split; [| exact Hcall]. apply returned_Returns in Hnew.
    unfold MockDataGenerator.create_pattern_profile. rewrite Hnew, HK.
    cbn [mbind outcome_mbind outcome_bind].
    rewrite pattern_loops, Hrun. reflexivity.
Qed.

Lemma X22_witness :
  exists seq profile mx w',
    MockDataGenerator.create_pattern_test test_alphabet = Returns (seq, 15, profile, mx) /\
    compute_msv 15 profile (F32.of_Z 2) (mkWorld seq mx) =
      Some (iter_sum (F32.of_Z 2) 10, w') /\
    iter_sum (F32.of_Z 2) 10 = F32.of_Z 20.
Proof.
  destruct (X22_pattern_profile_run 10 15 (F32.of_Z 3) (F32.opp (F32.of_Z 1)) (F32.of_Z 2))
    as (a & seq & mx & Ha & Hseq & Hmx & _ & (profile & w' & Hp & Hrun));
    [lia | lia | unfold p7P_NTRANS, INT_MAX; lia | unfold p7G_NXCELLS, INT_MAX; lia
    | vm_compute; reflexivity | vm_compute; reflexivity
    | vm_compute; reflexivity | vm_compute; reflexivity |].
  rewrite alphabet_new_Some in Ha. apply (inj Some) in Ha. subst a.
  exists seq, profile, mx, w'. split; [| split; [exact Hrun | vm_compute; reflexivity]].
  unfold MockDataGenerator.create_pattern_test. cbv zeta. rewrite Hseq, Hp, Hmx. reflexivity.
Defined.

(** * [print_sequence] *)

Lemma string_append_assoc (s1 s2 s3 : string) :
  ((s1 ++ s2) ++ s3 = s1 ++ (s2 ++ s3))%string.
Proof. induction s1 as [| c s1 IH]; [reflexivity |]. cbn. rewrite IH. reflexivity. Qed.

Lemma print_loop (digital_sequence : list DigitalResidue) (abc : AminoAcidAlphabet.t)
    (n : nat) (lo : Z) (out out' : string) :
  opt_for_aux n lo (fun i out =>
    r ← vget digital_sequence i;
    let residue := residue_code r in
    if residue <? AminoAcidAlphabet.K abc then
      c ← (if residue =? Z.of_nat (String.length (AminoAcidAlphabet.sym abc))
           then Some Ascii.zero
           else AminoAcidAlphabet.sym_at abc residue);
      Some (out ++ String c EmptyString)%string
    else
      Some (out ++ "?")%string) out = Some out' ->
  exists symbols : list ascii,
    out' = (out ++ string_of_list_ascii symbols)%string /\
    length symbols = n /\
    forall j : nat, (j < n)%nat ->
      exists r c, vget digital_sequence (lo + Z.of_nat j) = Some r /\
                  symbols !! j = Some c /\ shown_symbol abc r = Some c.
Proof.
  set (body := fun (i : Z) (out : string) => _).
  revert lo out. induction n as [| n IH]; intros lo out Hrun.
  - cbn [opt_for_aux] in Hrun. apply (inj Some) in Hrun. subst out'.
    exists []. split; [| split; [reflexivity | intros j Hj; lia]].
    cbn [string_of_list_ascii]. induction out as [| c out IHo]; [reflexivity |].
    cbn. rewrite <- IHo. reflexivity.
  - cbn [opt_for_aux] in Hrun.
    destruct (body lo out) as [out1 |] eqn:Hb; cbn [mbind option_bind] in Hrun;
      [| discriminate].
    apply IH in Hrun as (symbols & -> & Hlen & Hall).
    assert (Hfirst : exists r c, vget digital_sequence lo = Some r /\
              shown_symbol abc r = Some c /\ out1 = (out ++ String c EmptyString)%string).
    { unfold body in Hb.
      destruct (vget digital_sequence lo) as [r |]; cbn [mbind option_bind] in Hb;
        [| discriminate].
      exists r. unfold shown_symbol. cbv zeta in Hb.
      destruct (residue_code r <? AminoAcidAlphabet.K abc).
      - destruct (if residue_code r =? _ then _ else _) as [c |];
          cbn [mbind option_bind] in Hb; [| discriminate].
        apply (inj Some) in Hb. exists c. auto.
      - apply (inj Some) in Hb. exists "?"%char. auto. }
    destruct Hfirst as (r & c & Hr & Hc & ->).
    exists (c :: symbols). split; [| split].
    + rewrite string_append_assoc. reflexivity.
    + cbn [length]. rewrite Hlen. reflexivity.
    + intros [| j] Hj.
      * exists r, c. replace (lo + Z.of_nat 0) with lo by lia. auto.
      * destruct (Hall j ltac:(lia)) as (r' & c' & Hr' & Hc' & Hs').
        exists r', c'. replace (lo + Z.of_nat (Datatypes.S j)) with (lo + 1 + Z.of_nat j) by lia.
        auto.
Qed.

Lemma shown_decodes_test : shown_decodes test_alphabet = true.
Proof. vm_compute. reflexivity. Qed.

Lemma residue_of_code (r : DigitalResidue) : residue_of_int (residue_code r) = r.
Proof.
  unfold residue_of_int, residue_code.
  pose proof (Byte.to_N_bounded r) as Hb.
  rewrite Z.mod_small by lia. rewrite N2Z.id. rewrite Byte.of_to_N. reflexivity.
Qed.

(** X23.  With the alphabet of the program, when print_sequence returns it has
    written the header with the decimal length, then exactly one character for
    each index 1..L, then a line feed. The character for a canonical residue is
    its symbol and the one for any other residue is a question mark, and inmap
    sends the character back to the residue code when the residue is canonical
    and to the illegal marker otherwise. *)
Theorem X23_printed_sequence_decodes (digital_sequence : list DigitalResidue) (L : Z)
    (a : AminoAcidAlphabet.t) (out : string) :
  AminoAcidAlphabet.new = Some a ->
  MockDataGenerator.print_sequence digital_sequence L a = Some out ->
  exists symbols : list ascii,
    out = ("Digital Sequence (length " ++ MockDataGenerator.cout_int L ++ "): " ++
           string_of_list_ascii symbols ++ String "010"%char EmptyString)%string /\
    length symbols = Z.to_nat L /\
    forall i, 1 <= i <= L ->
      exists r c, vget digital_sequence i = Some r /\
        symbols !! Z.to_nat (i - 1) = Some c /\
        (residue_code r < 20 -> AminoAcidAlphabet.sym_at a (residue_code r) = Some c) /\
        (20 <= residue_code r -> c = "?"%char) /\
        vget (AminoAcidAlphabet.inmap a) (int_of_char c) =
          Some (if residue_code r <? 20 then residue_code r
                else residue_code digitalResidueIllegal).
Proof.
  intros Ha Hrun. rewrite alphabet_new_Some in Ha. apply (inj Some) in Ha. subst a.
  unfold MockDataGenerator.print_sequence in Hrun. cbv zeta in Hrun.
  destruct (opt_for 1 (L + 1) _ _) as [out1 |] eqn:Hloop; cbn [mbind option_bind] in Hrun;
    [| discriminate].
  apply (inj Some) in Hrun. subst out.
  unfold opt_for in Hloop. apply print_loop in Hloop as (symbols & -> & Hlen & Hall).
  exists symbols. split; [| split].
  - rewrite !string_append_assoc. reflexivity.
  - rewrite Hlen. f_equal. lia.
  - intros i Hi. destruct (Hall (Z.to_nat (i - 1)) ltac:(lia)) as (r & c & Hr & Hc & Hs).
    replace (1 + Z.of_nat (Z.to_nat (i - 1))) with i in Hr by lia.
    exists r, c. split; [exact Hr |]. split; [exact Hc |].
    pose proof (residue_code_range r) as Hrange.
    pose proof (all_in_spec _ _ _ shown_decodes_test (residue_code r) ltac:(lia)) as Hd.
    cbv beta in Hd. rewrite residue_of_code, Hs in Hd.
    apply bool_decide_eq_true_1 in Hd.
    split; [| split; [| exact Hd]].
    + intros Hcan. unfold shown_symbol in Hs.
      change (AminoAcidAlphabet.K test_alphabet) with 20 in Hs.
      change (Z.of_nat (String.length (AminoAcidAlphabet.sym test_alphabet))) with 29 in Hs.
      destruct (Z.ltb_spec (residue_code r) 20); [| lia].
      destruct (Z.eqb_spec (residue_code r) 29); [lia | exact Hs].
    + intros Hbig. unfold shown_symbol in Hs.
      change (AminoAcidAlphabet.K test_alphabet) with 20 in Hs.
      destruct (Z.ltb_spec (residue_code r) 20); [lia |].
      apply (inj Some) in Hs. auto.
Qed.

Lemma X23_witness :
  let ds := create_digital_sequence [RES_A; RES_X; RES_C] in
  exists out symbols,
    MockDataGenerator.print_sequence ds 3 test_alphabet = Some out /\
    out = ("Digital Sequence (length " ++ MockDataGenerator.cout_int 3 ++ "): " ++
           string_of_list_ascii symbols ++ String "010"%char EmptyString)%string /\
    length symbols = Z.to_nat 3 /\
    forall i, 1 <= i <= 3 ->
      exists r c, vget ds i = Some r /\
        symbols !! Z.to_nat (i - 1) = Some c /\
        (residue_code r < 20 -> AminoAcidAlphabet.sym_at test_alphabet (residue_code r) = Some c) /\
        (20 <= residue_code r -> c = "?"%char) /\
        vget (AminoAcidAlphabet.inmap test_alphabet) (int_of_char c) =
          Some (if residue_code r <? 20 then residue_code r
                else residue_code digitalResidueIllegal).
Proof.
  cbv zeta.
  destruct (MockDataGenerator.print_sequence (create_digital_sequence [RES_A; RES_X; RES_C])
              3 test_alphabet) as [out |] eqn:Hrun; [| vm_compute in Hrun; discriminate].
  destruct (X23_printed_sequence_decodes _ 3 test_alphabet out ltac:(vm_compute; reflexivity) Hrun)
    as (symbols & Hout & Hlen & Hall).
  exists out, symbols. split; [reflexivity |]. split; [exact Hout |].
  split; [exact Hlen | exact Hall].
Defined.
